(* ===== verification/_CoqProject ===== *)
-Q . S2P
Prelude.v
RustStr.v
Subagent.v
TaskGraph.v
LoopDetect.v
EchoTracker.v
Chat.v
TranscriptRepair.v
History.v
F64.v
ContextGuard.v
Approval.v
Provider.v
ErrorClassify.v
Usage.v
Compaction.v
Agent.v
ModelFallback.v
ToolPolicy.v
ReplyQueue.v
ReplyPipeline.v
Cron.v
Routing.v
Locks.v
DevicePairing.v
Session.v
Json.v
Parse.v
ConfigStore.v
Sorting.v
GatewayEvents.v
Heartbeat.v
NodePairing.v
DeviceScopes.v
Attachments.v
AgentDirs.v
SessionStore.v
Gate.v
ChatRuns.v
Outbound.v
AgentRuns.v
DmPairing.v
StreamChunker.v
SessionBindings.v
SessionAccess.v
SubagentRuns.v
AnnounceQueue.v
SubagentReport.v
SessionsSend.v
SubagentCleanup.v
SubagentSpawn.v
SubagentTool.v
Pipeline.v
