(* ===== verification/Prelude.v ===== *)
(** * oclaw: the agent runtime and its gateway policies

    oclaw is a personal assistant written in Rust ([src/crates]).  A message from
    a chat channel is debounced and queued per session, routed to a session and an
    agent configuration, and answered by an agent that calls a language model in
    a loop and executes the tools it asks for; the answer goes back through a
    reply pipeline.  Around this loop sit tool policies and approvals, history
    shaping and compaction, loop and echo detection, subagents and task graphs,
    scheduled jobs, model fallback, device pairing and login sessions.  This
    development models the logic of these parts and proves what they promise.

    ** Files, in order

    - [Prelude]: machine integers ([u32], [u64], [i64], [i32] as [Z] with their
      saturating and wrapping operations), [result], lemmas on lists, the stable
      descending sort, the hint database [rust] and the tactics [break] and
      [boolean].
    - [RustStr]: [str] as its UTF-8 bytes; slicing panics ([None]) off a character
      boundary.
    - [Subagent] (agent-core/subagent.rs): the record and its transitions, the
      registry as a [gmap], [task_start] and [task_finish] as the two writes of
      the task [spawn] starts, [RegEvent] as the calls of other tasks between
      them, [poll_once] as one round of [spawn_and_wait].
    - [TaskGraph] (agent-core/task_graph.rs): [validate] with its Kahn loop
      [kahn] for an arbitrary hash-map order [ho]; [turn] as one pass of the
      runner's loop, fed by a join event; [reachable] its reachable states.
    - [LoopDetect], [EchoTracker], [TranscriptRepair], [History]
      (loop_detect.rs, echo_detect.rs, transcript_repair.rs, history.rs and
      pruning.rs of agent-core).
    - [Chat] (llm-core/chat.rs, tokenizer.rs; agent-core/str_util.rs), [F64]
      (binary64 by [SpecFloat]), [ContextGuard] (context_guard.rs), [Usage]
      (usage.rs), [ErrorClassify] (error_classify.rs).
    - [Approval] (tools-core/approval.rs): the gate and its request list.
    - [Provider]: what the core asks of the outside.  The outside is a function
      of the trace of interactions so far; an operation extends the trace.
    - [Compaction] (compaction.rs) and [Agent] (agent.rs, auto_recall.rs): the
      agent as a record, its operations in a monad over the agent, the trace and
      panics ([None]).
    - [ModelFallback] (model_fallback.rs, auth_cooldown.rs of agent-core).
    - [ToolPolicy] (tools-core/policy.rs, groups.rs, profiles.rs, truncation.rs).
    - [ReplyQueue] (auto-reply/queue.rs, context.rs) and [ReplyPipeline]
      (debounce.rs, block_pipeline.rs, reply_dispatcher.rs, normalize.rs,
      tokens.rs, envelope.rs of auto-reply).
    - [Cron] (cron-core): job list operations, next-run times, back-off, one
      scheduler pass.
    - [Routing] (gateway-core/session_key.rs, binding.rs, channel_access.rs,
      http/rate_limit.rs).
    - [Locks]: tasks as lists of lock acquisitions and releases, their
      interleaving and the lock-order theorem.
    - [DevicePairing] (security-core/device_pairing.rs), [Session]
      (security-core/session.rs, with the lock use of both managers) and
      [DmPairing] (security-core/pairing.rs).
    - [Json] (serde_json values, their accessors and the gateway's RPC results),
      [Sorting] (stable [sort_by]) and [Gate] (the idempotency gates: threads
      holding a key's permit, as an invariant of interleavings).
    - [ConfigStore] (config/config_override.rs, migration.rs; the [config.*] RPCs
      of gateway-core/http.rs).
    - [GatewayEvents], [Heartbeat] (http.rs, heartbeat_runner.rs;
      workspace-core/heartbeat.rs, memory_flush.rs, evolution.rs).
    - [NodePairing], [DeviceScopes] (the pairing crate; node and device RPCs of
      http.rs).
    - [Attachments], [AgentDirs] (http.rs: attachments and chat commands; agent
      directories and files).
    - [SessionStore] (gateway-core/message.rs and the session RPCs): the tables
      as maps and row lists, an operation as its statements, each of which may
      fail ([exec]).
    - [ChatRuns], [Outbound], [AgentRuns] (http.rs: [chat.send] and [chat.abort],
      [send], [agent] and [agent.wait]): a request is a program counter, a step
      is what happens between two awaits on shared state, and a configuration
      holds the threads.
    - [StreamChunker] (agent-core/stream_chunker.rs).
    - [SessionBindings], [SessionAccess], [SubagentRuns]
      (gateway-core/http/agent_bridge.rs: where results are delivered, which
      sessions a tool may see, the registry of subagent runs).
    - [Parse] (numbers in text, paths into JSON values), [AnnounceQueue],
      [SubagentReport], [SubagentCleanup], [SubagentSpawn] (agent_bridge.rs: how a
      subagent run is spawned, ends, is announced and cleaned up; drains, tasks and
      timers are threads whose steps are critical sections).
    - [SessionsSend], [SubagentTool] (agent_bridge.rs: messages to other sessions,
      the conversation of two agents, usage counters of a session; the subagents
      tool, whose kill and steer are steps of [SubagentCleanup] run to their end).
    - [Pipeline] (gateway-core/pipeline.rs; [AgentBinding] of config/settings.rs):
      [process_message] as workers over the queue and the run lock of a session.

    ** What the theorems show

    - Orchestration: graph validation is total and accepts exactly the
      well-formed acyclic graphs ([validate_correct]); the runner starts only
      eligible nodes, each once, and ends under every scheduler with nothing owed
      ([runner_safety], [runner_terminates]); a terminated subagent stays
      terminated and [spawn_and_wait] reports the run's outcome
      ([terminate_is_final], [spawn_and_wait_outcome]).
    - The gateway's requests, for every interleaving: a run listed as running has
      a live task and no request starts a second ([chat_run_safety]); one message
      and one answer per key ([keyed_send_once]); one run per key, whose record
      is final ([agent_run_once]); a waiter is answered ([agent_wait_answers]).
    - Messages of a session: answered exactly once, by one call at a time, and in
      order in the modes that keep it; a failing turn wedges the session
      ([messages_answered_once], [messages_answered_in_order],
      [failed_turn_wedges]); the agent is that of the lowest tier
      ([binding_lowest_tier]).
    - Subagent runs: spawning respects depth and children limits
      ([spawn_accepted], [spawn_depth_bounded]); one thread cleans a run up and
      it is announced once ([cleanup_exclusive]); an announcement is sent at most
      once and a drain delivers what is queued ([announce_sent_once],
      [announce_drain_delivers]); killing reaches exactly the active runs below
      ([kill_cascades]).
    - Agent to agent: only sessions within the access rule are written to
      ([sends_confined]); the two sides take turns, five at most, and one side
      announces the result ([a2a_conversation]); the counters of a session are
      the sums of its turns ([usage_adds_up]).
    - The store refines a map of conversations ([session_store_refines]).
    - Access: session tools stay within the visibility rule and the tree is the
      closure of spawning ([session_tools_confined], [tree_keys_spec]);
      descendants of a session ([collect_descendants_spec]); agent files stay in
      their directory ([agent_files_confined]); attachments are screened
      ([attachments_screened]); device scopes and node connections
      ([device_scopes_bounded], [node_connected_safe]).
    - The agent: a run never panics, makes a bounded number of model calls and
      executes only approved tools; calls and results stay paired
      ([run_with_tools_safe], [run_with_tools_pairing]).  Approval requests are
      well formed ([gate_step_wf]).
    - Guards and shape: loop verdicts at the documented thresholds
      ([stuck_call_levels]); repair is the reference pairing ([repair_pairing]);
      truncation and compaction change what they say and nothing else.
    - Text: streamed text is cut into good chunks that lose nothing
      ([drain_spec]).
    - Policies: both pipelines against their reference ([pipeline_check_spec]).
    - Delivery: the queue is first in first out, the block pipeline equals its
      reference, a bound conversation routes back ([queue_fifo],
      [block_pipeline_once], [bound_conversation_routes]).
    - Configuration: the laws of merging, the outcome of a patch, migration
      ([deep_merge_laws], [config_patch_outcome], [migrate_settles]).
    - Scheduling: due times after a run, heartbeat spacing, the event queue
      ([due_after_run], [heartbeat_spacing], [event_queue_refines]).
    - Fallback: candidate order and cooldowns ([fallback_order]).
    - Security: the token index, session tables, and which operations can
      deadlock ([device_tokens], [session_tables], [manager_locks]).

    Each file has further theorems of its component beside these.  The files also
    hold examples of behaviour that differs from a comment or from what the code
    means to do, next to the part they are about.

    ** Modelling choices

    Hash maps are [gmap]s; where iteration order can matter it is a parameter or
    the statement holds for every order.  A lock held for the whole of an
    operation makes it a function on the state; where an operation takes locks
    several times, its critical sections are separate steps and other tasks may
    run in between ([Subagent], [DevicePairing], [ChatRuns], [Outbound],
    [AgentRuns]).  An SQL statement changes the tables or fails without effect;
    which statements fail is an argument.  Clocks, random values and UUIDs are
    arguments or classes; freshness is a hypothesis where it is needed.  The BPE
    tokenizer, SHA-256, [DefaultHasher], the cron expression parser, JSON text,
    base64, regular expressions, image format detection and Unicode lower-casing
    are code outside the repository: parameters, with the laws used.  The release
    profile leaves overflow checks off, so plain arithmetic wraps.  An approval
    gate shared with other tasks is a value of the agent: only its policy decides
    a call, and no operation changes the policy.

    ** Fuel

    [kahn] gets one unit per node, enough because each node enters the queue once
    (part of [validate_correct]); [drive] gets one turn per node and a final one
    ([runner_terminates]); [tree_go] one round per session and one for the
    requester ([tree_keys_spec]); [descend] one round per run and one for the
    root ([collect_descendants_spec]); [depth_from] one step per session and two
    more ([depth_walk_total]); [run_drain] what [announce_drain_delivers] states; [drain] one round per byte and one more,
    enough for text without fences ([drain_spec]), while with fences it can run
    for ever ([long_fence_line_spins]); the overflow truncation of [ContextGuard]
    halves at most five times, as the code does; the tool loop has
    [max_iterations] iterations and each retry loop its configured attempts, as
    the code does; [chain_loop] gets one unit per entry and one more.

    ** Not modelled

    Channel adapters, the HTTP and websocket server, model providers, the
    built-in tools, the browser, speech and media clients, plugins, skills, the
    command line and the terminal interface are I/O and glue.  Of the gateway,
    the task graph RPC and the skills RPCs; of the agent, command polling, thread ownership and thinking levels; of
    the channels, the router, the group gate and draft streaming; the agent
    client protocol's sessions and the ranking of memory search are the next
    candidates. *)
From stdpp Require Export base tactics numbers list strings gmap fin_maps sets.
From Stdlib Require Export ZArith Lia.
From Stdlib Require Export Sorted.

(** * Machine integers

    Rust's unsigned and signed integers are [Z]; the operations below give the
    width explicitly.  [usize] is 64 bits wide on every target the workspace
    builds for.  Lengths and counters that only index in-memory collections are
    [nat]: they cannot reach [2^64]. *)

Declare Scope rust_scope.
Delimit Scope rust_scope with rust.

Definition u32_max : Z := 4294967295%Z.
Definition u64_max : Z := 18446744073709551615%Z.
Definition i64_max : Z := 9223372036854775807%Z.
Definition i64_min : Z := (-9223372036854775808)%Z.

Definition is_u32 (z : Z) : Prop := (0 <= z <= u32_max)%Z.
Definition is_u64 (z : Z) : Prop := (0 <= z <= u64_max)%Z.
Definition is_i64 (z : Z) : Prop := (i64_min <= z <= i64_max)%Z.

(** [saturating_sub], [saturating_add] and [saturating_mul] of [u64]. *)
Definition sat_sub (a b : Z) : Z := Z.max 0 (a - b).
Definition sat_add (a b : Z) : Z := Z.min u64_max (a + b).
Definition sat_mul (a b : Z) : Z := Z.min u64_max (a * b).

(** Plain [+], [-], [*] on [u64]: the release profile of the workspace leaves
    overflow checks off, so they wrap modulo [2^64]. *)
Definition wrap_u64 (z : Z) : Z := (z mod 18446744073709551616)%Z.
Definition wrap_u32 (z : Z) : Z := (z mod 4294967296)%Z.
Definition wrap_i32 (z : Z) : Z := ((z + 2147483648) mod 4294967296 - 2147483648)%Z.
Definition wadd (a b : Z) : Z := wrap_u64 (a + b).
Definition wsub (a b : Z) : Z := wrap_u64 (a - b).
Definition wmul (a b : Z) : Z := wrap_u64 (a * b).

(** [saturating_add] of [i64]. *)
Definition sat_add_i64 (a b : Z) : Z := Z.max i64_min (Z.min i64_max (a + b)).

Lemma wrap_u64_id z : is_u64 z -> wrap_u64 z = z.
Proof. unfold is_u64, wrap_u64, u64_max. intros. apply Z.mod_small. lia. Qed.

Lemma wrap_u64_range z : is_u64 (wrap_u64 z).
Proof.
  unfold is_u64, wrap_u64, u64_max.
  pose proof (Z.mod_pos_bound z 18446744073709551616). lia.
Qed.

Lemma wadd_exact a b : (0 <= a + b <= u64_max)%Z -> wadd a b = (a + b)%Z.
Proof. intros. by apply wrap_u64_id. Qed.

Lemma wsub_exact a b : (0 <= a - b <= u64_max)%Z -> wsub a b = (a - b)%Z.
Proof. intros. by apply wrap_u64_id. Qed.

Lemma wmul_exact a b : (0 <= a * b <= u64_max)%Z -> wmul a b = (a * b)%Z.
Proof. intros. by apply wrap_u64_id. Qed.

Lemma sat_sub_range a b : is_u64 a -> is_u64 b -> is_u64 (sat_sub a b).
Proof. unfold is_u64, sat_sub. lia. Qed.

Lemma sat_add_range a b : is_u64 a -> is_u64 b -> is_u64 (sat_add a b).
Proof. unfold is_u64, sat_add. lia. Qed.

Lemma sat_mul_range a b : is_u64 a -> is_u64 b -> is_u64 (sat_mul a b).
Proof. unfold is_u64, sat_mul. nia. Qed.

(** * [Result] *)

Inductive result (T E : Type) : Type :=
| Ok (x : T)
| Err (e : E).
Arguments Ok {T E} x.
Arguments Err {T E} e.

#[export] Instance result_eq_dec `{EqDecision T, EqDecision E} : EqDecision (result T E).
Proof. solve_decision. Defined.

Definition rbind {T U E} (m : result T E) (k : T -> result U E) : result U E :=
  match m with Ok x => k x | Err e => Err e end.

(** Rust's [let x = m?; k]. *)
Notation "'let?' x ':=' m 'in' k" := (rbind m (fun x => k))
  (at level 10, x pattern, m at level 100, k at level 200) : rust_scope.

Lemma rbind_Ok {T U E} (m : result T E) (k : T -> result U E) y :
  rbind m k = Ok y <-> exists x, m = Ok x /\ k x = Ok y.
Proof.
  destruct m; simpl; split.
  - eauto.
  - intros (? & [= ->] & ?). done.
  - done.
  - intros (? & ? & _). done.
Qed.

(** [for x in l { check(x)?; }]: the first error stops the loop. *)
Fixpoint try_each {A E} (f : A -> result unit E) (l : list A) : result unit E :=
  match l with
  | [] => Ok tt
  | x :: l' => rbind (f x) (fun _ => try_each f l')
  end.

Lemma try_each_Ok {A E} (f : A -> result unit E) l :
  try_each f l = Ok tt <-> Forall (fun x => f x = Ok tt) l.
Proof.
  induction l as [|x l IH]; simpl; [done|].
  rewrite Forall_cons, <- IH. destruct (f x) as [[]|]; simpl; [|split; [done | by intros [??]]].
  split; [by intros H | by intros [_ H]].
Qed.

Lemma try_each_app {A E} (f : A -> result unit E) l1 l2 :
  try_each f (l1 ++ l2) = rbind (try_each f l1) (fun _ => try_each f l2).
Proof. induction l1 as [|x l1 IH]; simpl; [done|]. destruct (f x); simpl; [apply IH | done]. Qed.

(** * Lists *)

(** [iter().find(p)], [iter().position(p)] and [iter().any(p)]. *)
Fixpoint find_first {A} (p : A -> bool) (l : list A) : option A :=
  match l with
  | [] => None
  | x :: l' => if p x then Some x else find_first p l'
  end.

Fixpoint position {A} (p : A -> bool) (l : list A) : option nat :=
  match l with
  | [] => None
  | x :: l' => if p x then Some 0 else S <$> position p l'
  end.

(** [iter_mut().find(p)] followed by an update of the element found. *)
Fixpoint update_first {A} (p : A -> bool) (f : A -> A) (l : list A) : list A :=
  match l with
  | [] => []
  | x :: l' => if p x then f x :: l' else x :: update_first p f l'
  end.

(** The last [n] elements. *)
Definition lastn {A} (n : nat) (l : list A) : list A := drop (length l - n) l.

(** [Vec::retain] with a boolean predicate. *)
Definition retain {A} (p : A -> bool) (l : list A) : list A := List.filter p l.

Lemma find_first_Some {A} (p : A -> bool) l x :
  find_first p l = Some x -> x ∈ l /\ p x = true.
Proof.
  induction l as [|y l IH]; simpl; [done|].
  destruct (p y) eqn:E; intros H; simplify_eq.
  - split; [left | done].
  - destruct (IH H). split; [by right | done].
Qed.

Lemma find_first_None {A} (p : A -> bool) l :
  find_first p l = None <-> Forall (fun x => p x = false) l.
Proof.
  induction l as [|y l IH]; simpl; [done|].
  rewrite Forall_cons, <- IH. destruct (p y); split; [done | by intros [??] | done | by intros [??]].
Qed.

Lemma find_first_is_Some {A} (p : A -> bool) l x :
  x ∈ l -> p x = true -> is_Some (find_first p l).
Proof.
  intros Hin Hp. destruct (find_first p l) eqn:E; [eauto|].
  apply find_first_None in E. rewrite Forall_forall in E. specialize (E x Hin). congruence.
Qed.

Lemma position_Some {A} (p : A -> bool) l i :
  position p l = Some i -> exists x, l !! i = Some x /\ p x = true.
Proof.
  revert i. induction l as [|y l IH]; simpl; intros i H; [done|].
  destruct (p y) eqn:E; simplify_eq; [by exists y|].
  apply fmap_Some in H as (j & Hj & ->). by apply IH.
Qed.

Lemma position_None {A} (p : A -> bool) l :
  position p l = None <-> find_first p l = None.
Proof.
  induction l as [|y l IH]; simpl; [done|].
  destruct (p y); [done|]. by rewrite fmap_None.
Qed.

Lemma update_first_length {A} (p : A -> bool) f l :
  length (update_first p f l) = length l.
Proof. induction l as [|x l IH]; simpl; [done|]. destruct (p x); simpl; congruence. Qed.

Lemma update_first_map {A B} (g : A -> B) (p : A -> bool) f l :
  (forall x, p x = true -> g (f x) = g x) -> g <$> update_first p f l = g <$> l.
Proof.
  intros Hg. induction l as [|x l IH]; simpl; [done|].
  destruct (p x) eqn:E; simpl; f_equal; [by apply Hg | apply IH].
Qed.

Lemma elem_of_retain {A} (p : A -> bool) l x :
  x ∈ retain p l <-> x ∈ l /\ p x = true.
Proof. unfold retain. rewrite !list_elem_of_In. apply filter_In. Qed.

Lemma retain_length {A} (p : A -> bool) l : length (retain p l) <= length l.
Proof. unfold retain. induction l as [|x l IH]; simpl; [lia|]. destruct (p x); simpl; lia. Qed.

Lemma retain_all {A} (p : A -> bool) l : Forall (fun x => p x = true) l -> retain p l = l.
Proof. induction 1 as [|x l H _ IH]; simpl; [done|]. rewrite H. f_equal. apply IH. Qed.

Lemma retain_NoDup {A} (p : A -> bool) l : NoDup l -> NoDup (retain p l).
Proof.
  induction 1 as [|x l Hx _ IH]; simpl; [constructor|].
  destruct (p x); [|done]. constructor; [|done].
  intros Hin. by apply elem_of_retain in Hin as [??].
Qed.

Lemma lastn_length {A} n (l : list A) : length (lastn n l) = Nat.min n (length l).
Proof. unfold lastn. rewrite length_drop. lia. Qed.

Lemma lastn_all {A} n (l : list A) : length l <= n -> lastn n l = l.
Proof. intros. unfold lastn. by replace (length l - n) with 0 by lia. Qed.

Lemma lastn_suffix {A} n (l : list A) : lastn n l `suffix_of` l.
Proof. exists (take (length l - n) l). unfold lastn. by rewrite take_drop. Qed.

Lemma tail_drop {A} k (l : list A) : tail (drop k l) = drop (S k) l.
Proof. revert l. induction k as [|k IH]; intros [|x l]; simpl; done. Qed.

(** Appending to a bounded window. *)
Lemma lastn_snoc {A} n (l : list A) x :
  0 < n ->
  lastn n (l ++ [x])
  = (if n <? length (lastn n l ++ [x]) then tail (lastn n l) else lastn n l) ++ [x].
Proof.
  intros Hn. unfold lastn. rewrite !length_app, length_drop. simpl.
  destruct (decide (n <= length l)) as [Hle|Hgt].
  - rewrite drop_app_le by lia.
    replace (n <? length l - (length l - n) + 1) with true by (symmetry; apply Nat.ltb_lt; lia).
    f_equal. rewrite tail_drop. f_equal. lia.
  - replace (length l - n) with 0 by lia. replace (length l + 1 - n) with 0 by lia. simpl.
    replace (n <? length l - 0 + 1) with false by (symmetry; apply Nat.ltb_ge; lia). done.
Qed.

Lemma lastn_rev {A} n (l : list A) : lastn n l = rev (take n (rev l)).
Proof.
  unfold lastn. rewrite <- (rev_involutive l) at 2.
  set (r := rev l). replace (length l) with (length r) by apply length_rev. clearbody r.
  rewrite <- (take_drop n r) at 2. rewrite rev_app_distr.
  rewrite drop_app_length'; [done|]. rewrite length_rev, length_drop. done.
Qed.

(** * Stable sorting

    [sort_by(|a, b| key(b).cmp(&key(a)))]: a stable sort, highest key first. *)

Section StableSort.
Context {A : Type} (key : A -> Z).

Fixpoint insert_desc (r : A) (l : list A) : list A :=
  match l with
  | [] => [r]
  | x :: l' => if (key x <? key r)%Z then r :: x :: l' else x :: insert_desc r l'
  end.

Definition sort_desc (l : list A) : list A := foldl (fun sorted r => insert_desc r sorted) [] l.

Definition descending (a b : A) : Prop := (key b <= key a)%Z.

(** The best element: the highest key, the earliest of equal ones. *)
Definition better (o : option A) (r : A) : option A :=
  match o with
  | Some x => if (key x <? key r)%Z then Some r else Some x
  | None => Some r
  end.

Definition best (p : A -> bool) (l : list A) : option A :=
  foldl (fun o r => if p r then better o r else o) None l.

Lemma insert_desc_perm r l : insert_desc r l ≡ₚ r :: l.
Proof.
  induction l as [|x l IH]; simpl; [done|].
  destruct (_ <? _)%Z; [done|]. rewrite IH. apply Permutation_swap.
Qed.

Lemma insert_desc_elem r l x : x ∈ insert_desc r l -> x = r \/ x ∈ l.
Proof. rewrite (insert_desc_perm r l), elem_of_cons. done. Qed.

Lemma insert_desc_sorted r l :
  StronglySorted descending l -> StronglySorted descending (insert_desc r l).
Proof.
  unfold descending. induction 1 as [|x l Hs IH HF]; simpl; [by repeat constructor|].
  destruct (key x <? key r)%Z eqn:E; [apply Z.ltb_lt in E | apply Z.ltb_ge in E].
  - constructor; [by constructor|]. constructor; [lia|].
    eapply Forall_impl; [exact HF|]. simpl. lia.
  - constructor; [done|]. apply Forall_forall. intros y [->|Hy]%insert_desc_elem; [done|].
    rewrite Forall_forall in HF. by apply HF.
Qed.

Lemma find_first_insert_desc p r l :
  StronglySorted descending l ->
  find_first p (insert_desc r l) = if p r then better (find_first p l) r else find_first p l.
Proof.
  unfold descending. intros Hs. induction Hs as [|x l Hs IH HF]; simpl; [by destruct (p r)|].
  destruct (key x <? key r)%Z eqn:E; simpl.
  - destruct (p r) eqn:Er, (p x) eqn:Ex; try done; simpl; [by rewrite E|].
    destruct (find_first p l) as [y|] eqn:Ey; simpl; [|done].
    apply find_first_Some in Ey as [Hin _]. rewrite Forall_forall in HF. specialize (HF y Hin).
    apply Z.ltb_lt in E. by rewrite (proj2 (Z.ltb_lt _ _)) by lia.
  - destruct (p x) eqn:Ex; simpl; [rewrite E; by destruct (p r) | exact IH].
Qed.

Lemma sort_desc_sorted l : StronglySorted descending (sort_desc l).
Proof.
  induction l as [|r l IH] using rev_ind; [constructor|].
  unfold sort_desc. rewrite foldl_app. simpl. by apply insert_desc_sorted.
Qed.

Lemma sort_desc_perm l : sort_desc l ≡ₚ l.
Proof.
  induction l as [|r l IH] using rev_ind; [done|].
  unfold sort_desc. rewrite foldl_app. simpl. fold (sort_desc l).
  rewrite insert_desc_perm, IH. apply Permutation_cons_append.
Qed.

Lemma find_first_sort_desc p l : find_first p (sort_desc l) = best p l.
Proof.
  induction l as [|r l IH] using rev_ind; [done|].
  unfold sort_desc, best. rewrite !foldl_app. simpl. fold (sort_desc l). fold (best p l).
  rewrite (find_first_insert_desc p r _ (sort_desc_sorted l)), IH. done.
Qed.

Lemma best_spec p l :
  match best p l with
  | Some r => r ∈ l /\ p r = true /\ forall r', r' ∈ l -> p r' = true -> (key r' <= key r)%Z
  | None => Forall (fun r => p r = false) l
  end.
Proof.
  rewrite <- find_first_sort_desc. destruct (find_first p (sort_desc l)) as [r|] eqn:E.
  - pose proof (find_first_Some _ _ _ E) as [Hin Hp]. split_and!; [|done|].
    + by rewrite <- (sort_desc_perm l).
    + intros r' Hr' Hp'. rewrite <- (sort_desc_perm l) in Hr'.
      pose proof (sort_desc_sorted l) as Hs. clear Hin. revert E Hr'.
      induction Hs as [|x s Hs IH HF]; simpl; [done|].
      rewrite elem_of_cons. destruct (p x) eqn:Ex.
      * intros [= ->] [->|Hin]; [done|]. rewrite Forall_forall in HF. by apply HF.
      * intros E [->|Hin]; [congruence | by apply IH].
  - apply find_first_None in E. rewrite Forall_forall in E. apply Forall_forall.
    intros x Hx. apply E. by rewrite (sort_desc_perm l).
Qed.
End StableSort.

(** * Automation *)

Create HintDb rust discriminated.
Create Rewrite HintDb rust.
#[export] Hint Resolve wrap_u64_range sat_sub_range sat_add_range sat_mul_range : rust.
#[export] Hint Rewrite @update_first_length @length_app @length_drop @length_take : rust.

(** Splits every [if] and [match] of the goal or a hypothesis on its scrutinee. *)
Ltac break_one :=
  match goal with
  | |- context [if ?b then _ else _] => destruct b eqn:?
  | |- context [match ?x with _ => _ end] => destruct x eqn:?
  | H : context [if ?b then _ else _] |- _ => destruct b eqn:?
  | H : context [match ?x with _ => _ end] |- _ => destruct x eqn:?
  end.
Ltac break := repeat (break_one; simplify_eq/=).

(** Turns boolean facts into propositions. *)
Ltac boolean :=
  repeat match goal with
  | H : (_ && _)%bool = true |- _ => apply andb_true_iff in H as [? ?]
  | H : (_ || _)%bool = false |- _ => apply orb_false_iff in H as [? ?]
  | H : negb _ = true |- _ => apply negb_true_iff in H
  | H : negb _ = false |- _ => apply negb_false_iff in H
  | H : bool_decide _ = true |- _ => apply bool_decide_eq_true in H
  | H : bool_decide _ = false |- _ => apply bool_decide_eq_false in H
  | H : (_ =? _)%nat = true |- _ => apply Nat.eqb_eq in H
  | H : (_ =? _)%nat = false |- _ => apply Nat.eqb_neq in H
  | H : (_ <=? _)%nat = true |- _ => apply Nat.leb_le in H
  | H : (_ <=? _)%nat = false |- _ => apply Nat.leb_gt in H
  | H : (_ <? _)%nat = true |- _ => apply Nat.ltb_lt in H
  | H : (_ <? _)%nat = false |- _ => apply Nat.ltb_ge in H
  | H : (_ =? _)%Z = true |- _ => apply Z.eqb_eq in H
  | H : (_ =? _)%Z = false |- _ => apply Z.eqb_neq in H
  | H : (_ <=? _)%Z = true |- _ => apply Z.leb_le in H
  | H : (_ <=? _)%Z = false |- _ => apply Z.leb_gt in H
  | H : (_ <? _)%Z = true |- _ => apply Z.ltb_lt in H
  | H : (_ <? _)%Z = false |- _ => apply Z.ltb_ge in H
  | H : String.eqb _ _ = true |- _ => apply String.eqb_eq in H
  | H : String.eqb _ _ = false |- _ => apply String.eqb_neq in H
  end.
