(* ===== verification/RustStr.v ===== *)
(** Rust strings.

    A [str] is the sequence of its UTF-8 bytes, so Rocq's [string] (a list of
    8-bit [ascii]) is the same data: [len()] is the number of bytes and every
    index is a byte offset.  The functions below are the [str] and [char]
    methods the modelled crates call.  Methods that panic when an index is not
    on a character boundary return [option].  [to_lowercase] needs the Unicode
    tables: it is an interface ([UnicodeCase]) whose law fixes it on ASCII. *)

From S2P Require Import Prelude.
From stdpp Require Export pretty.
From Stdlib Require Export Ascii.
From Stdlib Require Import Strings.String.
#[local] Open Scope string_scope.
#[local] Open Scope nat_scope.
#[local] Open Scope list_scope.

Abbreviation len := String.length.
#[global] Arguments String.append !_ _ : simpl nomatch.

(** * Slices *)

Fixpoint str_take (n : nat) (s : string) : string :=
  match n, s with
  | S n', String c s' => String c (str_take n' s')
  | _, _ => ""
  end.

Fixpoint str_drop (n : nat) (s : string) : string :=
  match n, s with
  | S n', String _ s' => str_drop n' s'
  | _, _ => s
  end.

(** [b as i8 < -0x40]: a UTF-8 continuation byte. *)
Definition is_utf8_cont (c : ascii) : bool :=
  let n := nat_of_ascii c in (128 <=? n) && (n <? 192).

Fixpoint byte_at (s : string) (i : nat) : option ascii :=
  match s, i with
  | "", _ => None
  | String c _, 0 => Some c
  | String _ s', S i' => byte_at s' i'
  end.

Definition is_char_boundary (s : string) (i : nat) : bool :=
  if (i =? 0) then true
  else match byte_at s i with
       | Some c => negb (is_utf8_cont c)
       | None => i =? len s
       end.

(** [&s[..i]] and [&s[i..]]: [None] is the panic. *)
Definition slice_to (s : string) (i : nat) : option string :=
  if is_char_boundary s i then Some (str_take i s) else None.
Definition slice_from (s : string) (i : nat) : option string :=
  if is_char_boundary s i then Some (str_drop i s) else None.

(** * Searching *)

Definition starts_with (s pat : string) : bool := String.prefix pat s.

Fixpoint contains (s pat : string) : bool :=
  String.prefix pat s || match s with "" => false | String _ s' => contains s' pat end.

Fixpoint ends_with (s pat : string) : bool :=
  String.eqb s pat || match s with "" => false | String _ s' => ends_with s' pat end.

Fixpoint rfind (s pat : string) : option nat :=
  match s with
  | "" => if String.prefix pat "" then Some 0 else None
  | String _ s' =>
      match rfind s' pat with
      | Some i => Some (S i)
      | None => if String.prefix pat s then Some 0 else None
      end
  end.

Definition strip_prefix (s pat : string) : option string :=
  if String.prefix pat s then Some (str_drop (len pat) s) else None.

Definition strip_suffix (s pat : string) : option string :=
  if ends_with s pat then Some (str_take (len s - len pat) s) else None.

(** [s.find(pat)]. *)
Fixpoint find (s pat : string) : option nat :=
  if String.prefix pat s then Some 0
  else match s with "" => None | String _ s' => S <$> find s' pat end.

(** [s.split_once(c)]. *)
Fixpoint split_once (c : ascii) (s : string) : option (string * string) :=
  match s with
  | "" => None
  | String d s' =>
      if Ascii.eqb d c then Some ("", s')
      else '(a, b) ← split_once c s'; Some (String d a, b)
  end.

(** [s.replace(pat, rep)] for a non-empty [pat]. *)
Fixpoint replace_go (pat rep : string) (skip : nat) (s : string) : string :=
  match s with
  | "" => ""
  | String c s' =>
      match skip with
      | S k => replace_go pat rep k s'
      | 0 => if String.prefix pat s then rep +:+ replace_go pat rep (len pat - 1) s'
             else String c (replace_go pat rep 0 s')
      end
  end.
Definition str_replace (s pat rep : string) : string := replace_go pat rep 0 s.

(** * Splitting and joining *)

(** [s.split(c)]; never empty. *)
Fixpoint split_char (c : ascii) (s : string) : list string :=
  match s with
  | "" => [""]
  | String d s' =>
      if Ascii.eqb d c then "" :: split_char c s'
      else match split_char c s' with
           | [] => [String d ""]
           | w :: ws => String d w :: ws
           end
  end.

(** [s.splitn(n, c)] for [n > 0]. *)
Fixpoint splitn_char (n : nat) (c : ascii) (s : string) : list string :=
  match n with
  | 0 => []
  | S n' =>
      match n' with
      | 0 => [s]
      | S _ =>
          (fix go (s : string) : list string :=
             match s with
             | "" => [""]
             | String d s' =>
                 if Ascii.eqb d c then "" :: splitn_char n' c s'
                 else match go s' with
                      | [] => [String d ""]
                      | w :: ws => String d w :: ws
                      end
             end) s
      end
  end.

Fixpoint join (sep : string) (l : list string) : string :=
  match l with
  | [] => ""
  | [w] => w
  | w :: ws => w +:+ sep +:+ join sep ws
  end.

Fixpoint str_concat (l : list string) : string :=
  match l with [] => "" | w :: ws => w +:+ str_concat ws end.

Fixpoint str_repeat (s : string) (n : nat) : string :=
  match n with 0 => "" | S n' => s +:+ str_repeat s n' end.

(** * Characters *)

(** [s.chars()], each character as its own bytes. *)
Fixpoint chars (s : string) : list string :=
  match s with
  | "" => []
  | String c s' =>
      match chars s' with
      | (String d w) :: ws =>
          if is_utf8_cont d then String c (String d w) :: ws
          else String c "" :: String d w :: ws
      | ws => String c "" :: ws
      end
  end.

(** A one-, two- or three-byte character from its bytes. *)
Definition byte (n : nat) : ascii := ascii_of_nat n.
Definition chr1 (a : nat) : string := String (byte a) "".
Definition chr2 (a b : nat) : string := String (byte a) (chr1 b).
Definition chr3 (a b c : nat) : string := String (byte a) (chr2 b c).

(** The characters of Unicode property [White_Space]. *)
Definition whitespace : list string :=
  [chr1 9; chr1 10; chr1 11; chr1 12; chr1 13; chr1 32;
   chr2 194 133; chr2 194 160; chr3 225 154 128;
   chr3 226 128 128; chr3 226 128 129; chr3 226 128 130; chr3 226 128 131;
   chr3 226 128 132; chr3 226 128 133; chr3 226 128 134; chr3 226 128 135;
   chr3 226 128 136; chr3 226 128 137; chr3 226 128 138;
   chr3 226 128 168; chr3 226 128 169; chr3 226 128 175;
   chr3 226 129 159; chr3 227 128 128].

Definition is_whitespace (c : string) : bool := existsb (String.eqb c) whitespace.

Fixpoint drop_while {A} (p : A -> bool) (l : list A) : list A :=
  match l with
  | [] => []
  | x :: l' => if p x then drop_while p l' else l
  end.

Definition trim_start (s : string) : string := str_concat (drop_while is_whitespace (chars s)).
Definition trim_end (s : string) : string :=
  str_concat (rev (drop_while is_whitespace (rev (chars s)))).
Definition trim (s : string) : string := trim_end (trim_start s).

(** [s.trim_start_matches(c)] for an ASCII [c]. *)
Fixpoint trim_start_char (c : ascii) (s : string) : string :=
  match s with
  | String d s' => if Ascii.eqb d c then trim_start_char c s' else s
  | "" => ""
  end.

(** [s.trim_end_matches(c)] and [s.trim_matches(c)] for an ASCII [c]. *)
Fixpoint trim_end_char (c : ascii) (s : string) : string :=
  match s with
  | "" => ""
  | String d s' =>
      match trim_end_char c s' with
      | "" => if Ascii.eqb d c then "" else String d ""
      | r => String d r
      end
  end.
Definition trim_char (c : ascii) (s : string) : string := trim_end_char c (trim_start_char c s).

(** [s.split_whitespace()]: the maximal runs of non-whitespace characters. *)
Fixpoint words_go (cur : string) (l : list string) : list string :=
  match l with
  | [] => if String.eqb cur "" then [] else [cur]
  | c :: l' =>
      if is_whitespace c
      then (if String.eqb cur "" then words_go "" l' else cur :: words_go "" l')
      else words_go (cur +:+ c) l'
  end.
Definition split_whitespace (s : string) : list string := words_go "" (chars s).

(** The line-feed and carriage-return characters. *)
Definition LF : ascii := byte 10.
Definition CR : ascii := byte 13.
Definition nl : string := String LF "".

(** [s.lines()]: split at line feeds, dropping the empty last piece and the
    carriage return that precedes a line feed. *)
Fixpoint strip_cr (s : string) : string :=
  match s with
  | "" => ""
  | String c "" => if Ascii.eqb c CR then "" else s
  | String c s' => String c (strip_cr s')
  end.
Definition lines (s : string) : list string :=
  let ws := split_char LF s in
  match List.rev ws with
  | last :: _ => (strip_cr <$> List.removelast ws) ++ (if String.eqb last "" then [] else [last])
  | [] => []
  end.

(** * Case *)

Definition lower_byte (c : ascii) : ascii :=
  let n := nat_of_ascii c in
  if (65 <=? n) && (n <=? 90) then ascii_of_nat (n + 32) else c.
Fixpoint to_ascii_lowercase (s : string) : string :=
  match s with "" => "" | String c s' => String (lower_byte c) (to_ascii_lowercase s') end.
Definition eq_ignore_ascii_case (a b : string) : bool :=
  String.eqb (to_ascii_lowercase a) (to_ascii_lowercase b).

Fixpoint is_ascii_str (s : string) : bool :=
  match s with "" => true | String c s' => (nat_of_ascii c <? 128) && is_ascii_str s' end.

(** [str::to_lowercase]: the Unicode mapping, known on ASCII. *)
Class UnicodeCase := {
  to_lowercase : string -> string;
  to_lowercase_ascii : forall s, is_ascii_str s = true -> to_lowercase s = to_ascii_lowercase s;
}.

(** The instance that leaves non-ASCII bytes alone. *)
Definition ascii_case : UnicodeCase :=
  {| to_lowercase := to_ascii_lowercase; to_lowercase_ascii := fun s _ => eq_refl |}.

(** * Lemmas *)

Lemma str_app_nil_r (s : string) : s +:+ "" = s.
Proof. induction s as [|c s IH]; simpl; [done|]. by rewrite IH. Qed.

Lemma str_app_assoc (a b c : string) : (a +:+ b) +:+ c = a +:+ (b +:+ c).
Proof. induction a as [|d a IH]; simpl; [done|]. by rewrite IH. Qed.

Lemma len_app (a b : string) : len (a +:+ b) = len a + len b.
Proof. induction a as [|c a IH]; simpl; [done|]. by rewrite IH. Qed.

Lemma len_zero s : len s = 0 -> s = "".
Proof. by destruct s. Qed.

Lemma str_app_cancel_l (a b c : string) : a +:+ b = a +:+ c -> b = c.
Proof. induction a as [|d a IH]; simpl; [done|]. intros [= H]. by apply IH. Qed.

Lemma str_take_drop n s : str_take n s +:+ str_drop n s = s.
Proof.
  revert s. induction n as [|n IH]; intros [|c s]; simpl; try done. by rewrite IH.
Qed.

Lemma len_str_take n s : len (str_take n s) = Nat.min n (len s).
Proof. revert s. induction n as [|n IH]; intros [|c s]; simpl; try done. by rewrite IH. Qed.

Lemma len_str_drop n s : len (str_drop n s) = len s - n.
Proof. revert s. induction n as [|n IH]; intros [|c s]; simpl; try done. Qed.

Lemma str_take_all n s : len s <= n -> str_take n s = s.
Proof.
  revert s. induction n as [|n IH]; intros [|c s]; simpl; intros H; try done; [lia|].
  rewrite IH; [done | lia].
Qed.

Lemma str_take_app (a b : string) : str_take (len a) (a +:+ b) = a.
Proof. induction a as [|c a IH]; simpl; [by destruct b|]. by rewrite IH. Qed.

Lemma str_drop_app (a b : string) : str_drop (len a) (a +:+ b) = b.
Proof. induction a as [|c a IH]; simpl; [by destruct b|]. apply IH. Qed.

Lemma prefix_spec p s : String.prefix p s = true <-> exists r, s = p +:+ r.
Proof.
  revert s. induction p as [|c p IH]; intros s; simpl.
  - split; [by exists s | by destruct s].
  - destruct s as [|d s]; [split; [done | by intros [??]]|].
    simpl. destruct (Ascii.ascii_dec c d) as [->|Hne].
    + rewrite IH.
      split; intros [r Hr]; exists r; [by rewrite Hr | by injection Hr].
    + split; [done | intros [r [= ??]]; congruence].
Qed.

Lemma contains_spec s p : contains s p = true <-> exists a b, s = a +:+ p +:+ b.
Proof.
  induction s as [|c s IH]; cbn [contains]; rewrite orb_true_iff, prefix_spec.
  - split.
    + intros [[r Hr]|]; [by exists "", r | done].
    + intros (a & b & H). destruct a; [|done]. left. by exists b.
  - rewrite IH. split.
    + intros [[r Hr]|(a & b & ->)]; [by exists "", r | by exists (String c a), b].
    + intros ([|d a] & b & H); [left; by exists b|].
      injection H as -> ->. right. by exists a, b.
Qed.

Lemma strip_prefix_spec s p r : strip_prefix s p = Some r <-> s = p +:+ r.
Proof.
  unfold strip_prefix. split.
  - destruct (String.prefix p s) eqn:E; [|done]. intros [= <-].
    apply prefix_spec in E as [r ->]. by rewrite str_drop_app.
  - intros ->. rewrite (proj2 (prefix_spec p (p +:+ r))) by eauto. by rewrite str_drop_app.
Qed.

Lemma rfind_lt s p i : rfind s p = Some i -> i + len p <= len s.
Proof.
  revert i. induction s as [|c s IH]; cbn [rfind]; intros i.
  - destruct (String.prefix p "") eqn:E; [|done]. intros [= <-].
    apply prefix_spec in E as [r Hr]. destruct p; [simpl; lia | done].
  - destruct (rfind s p) as [j|] eqn:E.
    + intros [= <-]. specialize (IH j eq_refl). simpl. lia.
    + destruct (String.prefix p (String c s)) eqn:E'; [|done]. intros [= <-].
      apply prefix_spec in E' as [r Hr].
      assert (len (String c s) = len (p +:+ r)) as Hl by (by rewrite Hr).
      rewrite len_app in Hl. simpl in *. lia.
Qed.

Lemma ends_with_spec s p : ends_with s p = true <-> exists r, s = r +:+ p.
Proof.
  induction s as [|c s IH]; cbn [ends_with]; rewrite orb_true_iff, String.eqb_eq.
  - split; [intros [->|]; [by exists "" | done]|]. intros ([|d r] & H); [by left | done].
  - rewrite IH. split.
    + intros [->|[r ->]]; [by exists "" | by exists (String c r)].
    + intros ([|d r] & H); [by left|]. injection H as -> ->. right. by exists r.
Qed.

Lemma strip_suffix_spec s p r : strip_suffix s p = Some r <-> s = r +:+ p.
Proof.
  unfold strip_suffix. split.
  - destruct (ends_with s p) eqn:E; [|done]. intros [= <-].
    apply ends_with_spec in E as [r ->]. rewrite len_app.
    replace (len r + len p - len p) with (len r) by lia. by rewrite str_take_app.
  - intros ->. rewrite (proj2 (ends_with_spec (r +:+ p) p)) by eauto. rewrite len_app.
    replace (len r + len p - len p) with (len r) by lia. by rewrite str_take_app.
Qed.

Lemma split_once_spec c s a b :
  split_once c s = Some (a, b) -> s = a +:+ String c b /\ split_once c a = None.
Proof.
  revert a b. induction s as [|d s IH]; simpl; intros a b; [done|].
  destruct (Ascii.eqb_spec d c) as [->|Hne]; [by intros [= <- <-]|].
  destruct (split_once c s) as [[a' b']|]; simpl; [|done]. intros [= <- <-].
  destruct (IH a' b' eq_refl) as [-> Ha]. simpl. split; [done|].
  destruct (Ascii.eqb_spec d c); [done|]. by rewrite Ha.
Qed.

Lemma chars_concat s : str_concat (chars s) = s.
Proof.
  induction s as [|c s IH]; simpl; [done|].
  destruct (chars s) as [|[|d w] ws] eqn:E; simpl in *.
  - by rewrite <- IH.
  - by rewrite <- IH.
  - destruct (is_utf8_cont d); simpl; by rewrite <- IH.
Qed.

Lemma str_concat_app l1 l2 : str_concat (l1 ++ l2) = str_concat l1 +:+ str_concat l2.
Proof. induction l1 as [|w l1 IH]; simpl; [done|]. by rewrite IH, str_app_assoc. Qed.

Lemma drop_while_suffix {A} (p : A -> bool) l : exists l1, l = l1 ++ drop_while p l.
Proof.
  induction l as [|x l [l1 IH]]; simpl; [by exists []|].
  destruct (p x); [exists (x :: l1); simpl; by f_equal | by exists []].
Qed.

Lemma trim_start_decompose s : exists a, s = a +:+ trim_start s.
Proof.
  destruct (drop_while_suffix is_whitespace (chars s)) as [l1 H].
  exists (str_concat l1). unfold trim_start.
  by rewrite <- str_concat_app, <- H, chars_concat.
Qed.

Lemma trim_end_decompose s : exists b, s = trim_end s +:+ b.
Proof.
  destruct (drop_while_suffix is_whitespace (rev (chars s))) as [l1 H].
  exists (str_concat (rev l1)). unfold trim_end.
  rewrite <- str_concat_app, <- rev_app_distr, <- H, rev_involutive.
  by rewrite chars_concat.
Qed.

(** [trim] only removes a prefix and a suffix. *)
Lemma trim_decompose s : exists a b, s = a +:+ trim s +:+ b.
Proof.
  destruct (trim_start_decompose s) as [a Ha].
  destruct (trim_end_decompose (trim_start s)) as [b Hb].
  exists a, b. unfold trim. by rewrite <- Hb.
Qed.

Lemma len_trim s : len (trim s) <= len s.
Proof. destruct (trim_decompose s) as (a & b & H). rewrite H at 2. rewrite !len_app. lia. Qed.

Lemma len_trim_start_char c s : len (trim_start_char c s) <= len s.
Proof. induction s as [|d s IH]; simpl; [lia|]. destruct (Ascii.eqb d c); simpl; lia. Qed.

Lemma split_char_ne c s : split_char c s <> [].
Proof. destruct s as [|d s]; simpl; [done|]. destruct (Ascii.eqb d c); [done|]. by destruct (split_char c s). Qed.

(** Pieces joined by their separator give the string back. *)
Lemma split_char_join c s : join (String c "") (split_char c s) = s.
Proof.
  induction s as [|d s IH]; [done|]. simpl.
  pose proof (split_char_ne c s) as Hne.
  destruct (Ascii.eqb_spec d c) as [->|Hd].
  - destruct (split_char c s) eqn:E; [done|]. rewrite <- IH. done.
  - destruct (split_char c s) as [|w [|w2 ws]] eqn:E; [done|..]; rewrite <- IH; done.
Qed.

(** The decomposition of a byte string at an index. *)
Lemma byte_at_drop s i : byte_at s i = match str_drop i s with "" => None | String c _ => Some c end.
Proof. revert i. induction s as [|c s IH]; intros [|i]; simpl; try done. Qed.

Lemma byte_at_None s i : byte_at s i = None <-> len s <= i.
Proof.
  revert i. induction s as [|c s IH]; intros [|i]; simpl; [split; [lia|done]..| |].
  - split; [done|lia].
  - rewrite IH. lia.
Qed.

Lemma is_char_boundary_0 s : is_char_boundary s 0 = true.
Proof. done. Qed.

Lemma is_char_boundary_len s : is_char_boundary s (len s) = true.
Proof.
  unfold is_char_boundary. destruct (len s =? 0) eqn:E; [done|].
  rewrite (proj2 (byte_at_None s (len s))) by lia. apply Nat.eqb_refl.
Qed.

Lemma slice_to_Some s i a : slice_to s i = Some a -> s = a +:+ str_drop i s /\ len a = Nat.min i (len s).
Proof.
  unfold slice_to. destruct (is_char_boundary s i); [|done]. intros [= <-].
  by rewrite str_take_drop, len_str_take.
Qed.

(** ** Characters and trimming

    A list of characters read off a string: each is a byte and the continuation
    bytes after it; only the first may start with a continuation byte. *)

Fixpoint all_cont (s : string) : bool :=
  match s with "" => true | String c s' => is_utf8_cont c && all_cont s' end.

Definition chunk (c : string) : Prop :=
  match c with "" => False | String _ w => all_cont w = true end.
Definition lead (c : string) : Prop :=
  match c with "" => False | String d _ => is_utf8_cont d = false end.
Definition chunks (l : list string) : Prop := Forall chunk l /\ Forall lead (tail l).

Lemma chars_chunks s : chunks (chars s).
Proof.
  induction s as [|c s [IH1 IH2]]; simpl; [by split|].
  destruct (chars s) as [|[|d w] ws]; simpl in *.
  - split; [by repeat constructor | done].
  - apply Forall_cons in IH1 as [[] _].
  - apply Forall_cons in IH1 as [Hw IH1]. destruct (is_utf8_cont d) eqn:Ed.
    + split; [|done]. constructor; [|done]. simpl in *. by rewrite Ed.
    + split; [|by constructor]. constructor; [done|]. by constructor.
Qed.

Lemma chars_cont_app w s :
  all_cont w = true -> s = "" \/ (exists d r, s = String d r /\ is_utf8_cont d = false) ->
  forall c, chars (String c (w +:+ s)) = String c w :: chars s.
Proof.
  intros Hw Hs. induction w as [|d w IH]; intros c.
  - simpl. destruct Hs as [->|(d & r & -> & Hd)]; [done|].
    destruct (chars (String d r)) as [|[|d' w'] ws] eqn:E; try done.
    assert (d' = d) as ->.
    { pose proof (chars_concat (String d r)) as Hc. rewrite E in Hc. simpl in Hc. by injection Hc. }
    by rewrite Hd.
  - simpl in Hw. apply andb_true_iff in Hw as [Hd Hw]. specialize (IH Hw d).
    change (chars (String c (String d w +:+ s))) with
      (match chars (String d (w +:+ s)) with
       | String d' w' :: ws =>
           if is_utf8_cont d' then String c (String d' w') :: ws
           else String c "" :: String d' w' :: ws
       | ws => String c "" :: ws
       end). rewrite IH. by rewrite Hd.
Qed.

Lemma chars_of_chunks l : chunks l -> chars (str_concat l) = l.
Proof.
  induction l as [|c l IH]; intros [H1 H2]; [done|].
  apply Forall_cons in H1 as [Hc H1]. simpl in H2. destruct c as [|a w]; [done|]. simpl in Hc.
  assert (chunks l) as Hl by (split; [done | by destruct H2]).
  change (str_concat (String a w :: l)) with (String a (w +:+ str_concat l)).
  rewrite chars_cont_app; [by rewrite (IH Hl) | done |].
  destruct l as [|[|d r] l]; [by left | by apply Forall_cons in H2 as [[] _] |].
  right. exists d, (r +:+ str_concat l). split; [done|]. by apply Forall_cons in H2 as [? _].
Qed.

Lemma chunks_suffix l1 l2 : chunks (l1 ++ l2) -> chunks l2.
Proof.
  intros [H1 H2]. split; [by apply Forall_app in H1 as [_ ?]|].
  destruct l1 as [|x l1]; [done|]. simpl in H2. apply Forall_app in H2 as [_ H2]. by destruct H2; simpl.
Qed.

Lemma chunks_prefix l1 l2 : chunks (l1 ++ l2) -> chunks l1.
Proof.
  intros [H1 H2]. split; [by apply Forall_app in H1 as [? _]|].
  destruct l1 as [|x l1]; [constructor|]. simpl in *. by apply Forall_app in H2 as [? _].
Qed.

Lemma drop_while_idem {A} (p : A -> bool) l : drop_while p (drop_while p l) = drop_while p l.
Proof. induction l as [|x l IH]; simpl; [done|]. destruct (p x) eqn:E; [done|]. simpl. by rewrite E. Qed.

Lemma drop_while_head {A} (p : A -> bool) l x : head (drop_while p l) = Some x -> p x = false.
Proof. induction l as [|y l IH]; simpl; [done|]. destruct (p y) eqn:E; [done|]. simpl. by intros [= <-]. Qed.

(** The characters [trim] keeps. *)
Definition trim_list (l : list string) : list string :=
  rev (drop_while is_whitespace (rev (drop_while is_whitespace l))).

Lemma chars_trim s : chars (trim s) = trim_list (chars s).
Proof.
  unfold trim, trim_end, trim_start, trim_list.
  destruct (drop_while_suffix is_whitespace (chars s)) as [l1 H1].
  pose proof (chars_chunks s) as Hc. rewrite H1 in Hc. apply chunks_suffix in Hc.
  rewrite (chars_of_chunks _ Hc). set (l := drop_while is_whitespace (chars s)) in *.
  destruct (drop_while_suffix is_whitespace (rev l)) as [l2 H2].
  apply chars_of_chunks. apply (f_equal (@rev string)) in H2. rewrite rev_app_distr, rev_involutive in H2.
  rewrite H2 in Hc. by apply chunks_prefix in Hc.
Qed.

Lemma trim_list_idem l : trim_list (trim_list l) = trim_list l.
Proof.
  unfold trim_list. set (a := drop_while is_whitespace l).
  destruct (drop_while_suffix is_whitespace (rev a)) as [l2 H2].
  set (b := drop_while is_whitespace (rev a)) in *.
  assert (drop_while is_whitespace (rev b) = rev b) as ->.
  { apply (f_equal (@rev string)) in H2. rewrite rev_app_distr, rev_involutive in H2.
    destruct (rev b) as [|x r] eqn:E; [done|]. simpl in H2. simpl.
    by rewrite (drop_while_head is_whitespace l x) by (fold a; by rewrite H2). }
  rewrite rev_involutive. unfold b. by rewrite drop_while_idem.
Qed.

Lemma trim_idem s : trim (trim s) = trim s.
Proof.
  assert (chars (trim (trim s)) = chars (trim s)) as H by (rewrite !chars_trim; apply trim_list_idem).
  by rewrite <- (chars_concat (trim (trim s))), H, chars_concat.
Qed.

(** ** A property of every byte *)

Fixpoint str_all (p : ascii -> bool) (s : string) : bool :=
  match s with EmptyString => true | String c s' => p c && str_all p s' end.

Lemma str_all_app p a b : str_all p (a +:+ b) = str_all p a && str_all p b.
Proof. induction a as [|c a IH]; simpl; [done|]. by rewrite IH, andb_assoc. Qed.

Lemma str_all_impl (p q : ascii -> bool) s :
  (forall c, p c = true -> q c = true) -> str_all p s = true -> str_all q s = true.
Proof.
  intros Hpq. induction s as [|c s IH]; simpl; [done|]. intros [H1 H2]%andb_true_iff.
  by rewrite Hpq, IH.
Qed.

Lemma str_all_contains p s c :
  str_all p s = true -> contains s (String c "") = true -> p c = true.
Proof.
  intros Hs (a & b & ->)%contains_spec. rewrite str_all_app in Hs.
  apply andb_true_iff in Hs as [_ Hs]. simpl in Hs. by apply andb_true_iff in Hs as [? _].
Qed.

(** Without continuation bytes every byte is a character. *)
Definition singles (s : string) : list string := (fun c => String c "") <$> list_ascii_of_string s.

Lemma chars_single s :
  str_all (fun c => negb (is_utf8_cont c)) s = true -> chars s = singles s.
Proof.
  intros Hs. assert (str_concat (singles s) = s) as Hc.
  { clear Hs. unfold singles. induction s as [|c s IH]; [done|].
    exact (f_equal (String c) IH). }
  rewrite <- Hc at 1. apply chars_of_chunks. clear Hc. unfold singles. split.
  - clear Hs. induction s; simpl; by constructor.
  - assert (forall s, str_all (fun c => negb (is_utf8_cont c)) s = true ->
      Forall lead ((fun c => String c "") <$> list_ascii_of_string s)) as H.
    { clear. induction s as [|c s IH]; simpl; [constructor|].
      intros [Hc%negb_true_iff Hs]%andb_true_iff. constructor; [done|by apply IH]. }
    destruct s as [|c s]; simpl in *; [constructor|]. apply H.
    by apply andb_true_iff in Hs as [_ ?].
Qed.

Lemma len_take_singles n s : len (str_concat (take n (singles s))) = Nat.min n (len s).
Proof.
  unfold singles. revert n. induction s as [|c s IH]; intros [|n]; try done.
  exact (f_equal S (IH n)).
Qed.

Lemma str_all_take p n l :
  str_all p (str_concat l) = true -> str_all p (str_concat (take n l)) = true.
Proof.
  rewrite <- (take_drop n l) at 1. rewrite str_concat_app, str_all_app.
  by intros [? _]%andb_true_iff.
Qed.

Lemma str_all_trim_char p c s : str_all p s = true -> str_all p (trim_char c s) = true.
Proof.
  unfold trim_char. intros Hs.
  assert (str_all p (trim_start_char c s) = true) as H1.
  { induction s as [|d s IH]; simpl in *; [done|]. destruct (Ascii.eqb d c); [|done].
    apply IH. by apply andb_true_iff in Hs as [_ ?]. }
  generalize dependent (trim_start_char c s). clear Hs s. intros s H1.
  induction s as [|d s IH]; simpl in *; [done|]. apply andb_true_iff in H1 as [Hd Hs].
  specialize (IH Hs). destruct (trim_end_char c s) as [|e r] eqn:E.
  - destruct (Ascii.eqb d c); simpl; [done|]. by rewrite Hd.
  - simpl in *. by rewrite Hd.
Qed.

#[export] Hint Rewrite len_app len_str_take len_str_drop str_app_nil_r str_app_assoc : rust.
#[export] Hint Resolve len_trim len_trim_start_char split_char_ne is_char_boundary_len : rust.
