(* ===== verification/Subagent.v ===== *)
(** Subagents ([crates/agent-core/src/subagent.rs]): the record, its status
    transitions, the registry, and the background task that
    [SubagentRegistry::spawn] starts, interleaved with [terminate], [remove]
    and [clear_completed] calls from other tasks. *)

From S2P Require Import Prelude RustStr.
#[local] Open Scope string_scope.
#[local] Open Scope nat_scope.
#[local] Open Scope list_scope.

(** * Data *)

Inductive SubagentStatus :=
| Pending | Initializing | Ready | Running | Completed | Failed | Terminated.

#[export] Instance SubagentStatus_eq_dec : EqDecision SubagentStatus.
Proof. solve_decision. Defined.

Record SubagentConfig := {
  sc_name : string;
  sc_description : option string;
  sc_system_prompt : string;
  sc_model : string;
  sc_provider : string;
  sc_max_iterations : option Z;
  sc_timeout_seconds : option Z;
  sc_capabilities : list string;
}.

Definition SubagentConfig_new (name system_prompt model provider : string) : SubagentConfig := {|
  sc_name := name;
  sc_description := None;
  sc_system_prompt := system_prompt;
  sc_model := model;
  sc_provider := provider;
  sc_max_iterations := Some 10%Z;
  sc_timeout_seconds := Some 300%Z;
  sc_capabilities := [];
|}.

(** Times are the [i64] seconds of [Utc::now()], given by the caller. *)
Record Subagent := {
  sa_id : string;
  sa_config : SubagentConfig;
  sa_status : SubagentStatus;
  sa_parent_id : option string;
  sa_created_at : Z;
  sa_started_at : option Z;
  sa_completed_at : option Z;
  sa_result : option string;
  sa_error : option string;
  sa_metadata : gmap string string;
}.

Definition Subagent_new (id : string) (now : Z) (config : SubagentConfig) : Subagent := {|
  sa_id := id; sa_config := config; sa_status := Pending; sa_parent_id := None;
  sa_created_at := now; sa_started_at := None; sa_completed_at := None;
  sa_result := None; sa_error := None; sa_metadata := ∅;
|}.

Definition with_parent (parent : string) (a : Subagent) : Subagent := {|
  sa_id := sa_id a; sa_config := sa_config a; sa_status := sa_status a;
  sa_parent_id := Some parent; sa_created_at := sa_created_at a;
  sa_started_at := sa_started_at a; sa_completed_at := sa_completed_at a;
  sa_result := sa_result a; sa_error := sa_error a; sa_metadata := sa_metadata a;
|}.

Definition is_completed (a : Subagent) : bool :=
  match sa_status a with Completed | Failed | Terminated => true | _ => false end.

Definition set_running (now : Z) (a : Subagent) : Subagent := {|
  sa_id := sa_id a; sa_config := sa_config a; sa_status := Running;
  sa_parent_id := sa_parent_id a; sa_created_at := sa_created_at a;
  sa_started_at := Some now; sa_completed_at := sa_completed_at a;
  sa_result := sa_result a; sa_error := sa_error a; sa_metadata := sa_metadata a;
|}.

Definition set_completed (now : Z) (result : string) (a : Subagent) : Subagent := {|
  sa_id := sa_id a; sa_config := sa_config a; sa_status := Completed;
  sa_parent_id := sa_parent_id a; sa_created_at := sa_created_at a;
  sa_started_at := sa_started_at a; sa_completed_at := Some now;
  sa_result := Some result; sa_error := sa_error a; sa_metadata := sa_metadata a;
|}.

Definition set_failed (now : Z) (error : string) (a : Subagent) : Subagent := {|
  sa_id := sa_id a; sa_config := sa_config a; sa_status := Failed;
  sa_parent_id := sa_parent_id a; sa_created_at := sa_created_at a;
  sa_started_at := sa_started_at a; sa_completed_at := Some now;
  sa_result := sa_result a; sa_error := Some error; sa_metadata := sa_metadata a;
|}.

Definition sa_terminate (now : Z) (a : Subagent) : Subagent := {|
  sa_id := sa_id a; sa_config := sa_config a; sa_status := Terminated;
  sa_parent_id := sa_parent_id a; sa_created_at := sa_created_at a;
  sa_started_at := sa_started_at a; sa_completed_at := Some now;
  sa_result := sa_result a; sa_error := sa_error a; sa_metadata := sa_metadata a;
|}.

(** * Registry *)

Abbreviation registry := (gmap string Subagent).

Definition reg_register (a : Subagent) (r : registry) : registry := <[sa_id a := a]> r.
Definition reg_get (id : string) (r : registry) : option Subagent := r !! id.
Definition reg_update (a : Subagent) (r : registry) : registry := <[sa_id a := a]> r.
Definition reg_remove (id : string) (r : registry) : registry := delete id r.
Definition reg_count (r : registry) : nat := size r.
Definition reg_clear_completed (r : registry) : registry :=
  filter (fun kv => is_completed kv.2 = false) r.

Definition reg_terminate (now : Z) (id : string) (r : registry) : bool * registry :=
  match r !! id with
  | Some sa => if is_completed sa then (false, r) else (true, <[id := sa_terminate now sa]> r)
  | None => (false, r)
  end.

(** ** The background task of [spawn]

    Its two accesses to the registry: [set_running] when it starts, and the
    guarded status write when the agent run ends. *)

Inductive RunOutcome :=
| RunOk (result : string)
| RunErr (error : string)
| RunPanic (msg : string).

Definition task_start (now : Z) (id : string) (r : registry) : registry :=
  match r !! id with Some sa => <[id := set_running now sa]> r | None => r end.

Definition task_finish (now : Z) (id : string) (o : RunOutcome) (r : registry) : registry :=
  match r !! id with
  | Some sa =>
      if decide (sa_status sa = Terminated) then r
      else match o with
           | RunOk res => <[id := set_completed now res sa]> r
           | RunErr e => <[id := set_failed now e sa]> r
           | RunPanic m => <[id := set_failed now ("Panic: " +:+ m) sa]> r
           end
  | None => r
  end.

(** What one poll of the [spawn_and_wait] loop returns; [None] is [continue]. *)
Definition poll_once (id : string) (r : registry) : option (result string string) :=
  match r !! id with
  | Some sa =>
      match sa_status sa with
      | Completed => Some (Ok (default "" (sa_result sa)))
      | Failed => Some (Err (default "" (sa_error sa)))
      | Terminated => Some (Err "Terminated")
      | _ => None
      end
  | None => Some (Err "Subagent not found")
  end.

(** * Interleavings

    One access to the registry under its lock.  [spawn] registers the agent,
    then its task performs [EvStart] and later [EvFinish]; the other events are
    calls by other tasks, in any order. *)

Inductive RegEvent :=
| EvRegister (a : Subagent)
| EvUpdate (a : Subagent)
| EvStart (now : Z) (id : string)
| EvFinish (now : Z) (id : string) (o : RunOutcome)
| EvTerminate (now : Z) (id : string)
| EvRemove (id : string)
| EvClearCompleted.

Definition reg_step (r : registry) (ev : RegEvent) : registry :=
  match ev with
  | EvRegister a => reg_register a r
  | EvUpdate a => reg_update a r
  | EvStart now id => task_start now id r
  | EvFinish now id o => task_finish now id o r
  | EvTerminate now id => (reg_terminate now id r).2
  | EvRemove id => reg_remove id r
  | EvClearCompleted => reg_clear_completed r
  end.

Definition reg_run (r : registry) (evs : list RegEvent) : registry := foldl reg_step r evs.

(** The event is a call that other tasks may make on agent [id] or on others:
    not the agent's own task, not a second registration of its id (ids are fresh
    UUIDs), and not an [update] that writes a caller's copy over its entry. *)
Definition foreign (id : string) (ev : RegEvent) : Prop :=
  match ev with
  | EvRegister a | EvUpdate a => sa_id a <> id
  | EvStart _ j | EvFinish _ j _ => j <> id
  | _ => True
  end.

(** The event does not touch the entry of [id] unless it is completed. *)
Definition leaves_alone (id : string) (ev : RegEvent) : Prop :=
  match ev with
  | EvRegister a | EvUpdate a => sa_id a <> id
  | EvStart _ j | EvFinish _ j _ | EvTerminate _ j => j <> id
  | EvRemove j => j <> id
  | EvClearCompleted => True
  end.

Lemma reg_step_other r ev id sa :
  leaves_alone id ev -> is_completed sa = false -> r !! id = Some sa ->
  reg_step r ev !! id = Some sa.
Proof.
  intros Hev Hc Hr. destruct ev; simpl in *; unfold reg_register, reg_update, reg_remove, task_start,
    task_finish, reg_terminate, reg_clear_completed; break; simplify_map_eq; try done.
  by apply map_lookup_filter_Some.
Qed.

Lemma reg_run_other r evs id sa :
  Forall (leaves_alone id) evs -> is_completed sa = false -> r !! id = Some sa ->
  reg_run r evs !! id = Some sa.
Proof.
  intros Hevs Hc. revert r. induction Hevs as [|ev evs Hev _ IH]; intros r Hr; [done|].
  apply IH. by apply reg_step_other.
Qed.

(** An entry whose agent is terminated can only stay as it is or disappear. *)
Definition gone_or (id : string) (P : Subagent -> Prop) (r : registry) : Prop :=
  match r !! id with Some sa => P sa | None => True end.

Lemma reg_step_completed r ev id st :
  foreign id ev ->
  gone_or id (fun a => is_completed a = true /\ sa_status a = st) r ->
  gone_or id (fun a => is_completed a = true /\ sa_status a = st) (reg_step r ev).
Proof.
  unfold gone_or. intros Hev Hr.
  destruct ev as [a|a|now j|now j o|now j|j|]; simpl in *.
  - unfold reg_register. by rewrite lookup_insert_ne.
  - unfold reg_update. by rewrite lookup_insert_ne.
  - unfold task_start. destruct (r !! j); [by rewrite lookup_insert_ne | done].
  - unfold task_finish. destruct (r !! j); [|done]. case_decide; [done|].
    destruct o; by rewrite lookup_insert_ne.
  - unfold reg_terminate. destruct (r !! j) as [sa|] eqn:E; [|done].
    destruct (is_completed sa) eqn:Ec; [done|]. simpl.
    destruct (decide (j = id)) as [->|Hne]; [|by rewrite lookup_insert_ne].
    rewrite E in Hr. destruct Hr. congruence.
  - unfold reg_remove. destruct (decide (j = id)) as [->|Hne];
      [by rewrite lookup_delete_eq | by rewrite lookup_delete_ne].
  - unfold reg_clear_completed. destruct (filter _ r !! id) eqn:E; [|done].
    apply map_lookup_filter_Some in E as [E ?]. by rewrite E in Hr.
Qed.

Lemma reg_run_completed r evs id st :
  Forall (foreign id) evs ->
  gone_or id (fun a => is_completed a = true /\ sa_status a = st) r ->
  gone_or id (fun a => is_completed a = true /\ sa_status a = st) (reg_run r evs).
Proof.
  intros Hevs. revert r. induction Hevs as [|ev evs Hev _ IH]; intros r Hr; [done|].
  apply IH. by apply reg_step_completed.
Qed.

Lemma task_finish_terminated now id o r :
  gone_or id (fun a => is_completed a = true /\ sa_status a = Terminated) r ->
  task_finish now id o r = r.
Proof.
  unfold gone_or, task_finish. destruct (r !! id) as [sa|]; [|done].
  intros [_ Hs]. by rewrite decide_True.
Qed.

(** Termination of a running subagent is final: once [terminate] has
    answered [true] and the task has already started, whatever calls other
    tasks make before and after the task's own final write, the entry is still
    terminated or has been removed, so [spawn_and_wait] reports an error and
    never the run's result (an [update] of the entry itself excepted). *)
Theorem terminate_is_final r r' id t now o evs1 evs2
    (Hterm : reg_terminate t id r = (true, r'))
    (Hevs1 : Forall (foreign id) evs1) (Hevs2 : Forall (foreign id) evs2) :
  poll_once id (reg_run (task_finish now id o (reg_run r' evs1)) evs2)
  ∈ [Some (Err "Terminated"); Some (Err "Subagent not found")].
Proof.
  assert (Hr : gone_or id (fun a => is_completed a = true /\ sa_status a = Terminated) r').
  { unfold reg_terminate in Hterm. unfold gone_or. destruct (r !! id) as [sa|]; [|done].
    destruct (is_completed sa); simplify_eq. by rewrite lookup_insert_eq. }
  apply (reg_run_completed _ evs1) in Hr; [|done].
  rewrite task_finish_terminated by done.
  apply (reg_run_completed _ evs2) in Hr; [|done].
  unfold gone_or, poll_once in *. destruct (reg_run _ evs2 !! id) as [sa|]; [|set_solver].
  destruct Hr as [_ ->]. set_solver.
Qed.


(** A [terminate] that arrives before the background task has been scheduled is
    lost: [set_running] overwrites the status unconditionally. *)
Theorem terminate_before_start_is_lost :
  exists r id t now1 now2 res,
    (reg_terminate t id r).1 = true /\
    poll_once id (reg_run r [EvTerminate t id; EvStart now1 id; EvFinish now2 id (RunOk res)])
    = Some (Ok res).
Proof.
  exists {["x" := Subagent_new "x" 0 (SubagentConfig_new "n" "s" "m" "p")]}, "x", 0%Z, 1%Z, 2%Z, "done".
  split; vm_compute; reflexivity.
Qed.

Definition demo_agent : Subagent := Subagent_new "x" 0 (SubagentConfig_new "n" "s" "m" "p").

Lemma terminate_is_final_witness :
  poll_once "x" (reg_run (task_finish 3 "x" (RunOk "late")
    (reg_run {["x" := sa_terminate 2 (set_running 1 demo_agent)]} [EvTerminate 2 "x"])) [])
  ∈ [Some (Err "Terminated"); Some (Err "Subagent not found")].
Proof.
  apply (terminate_is_final {["x" := set_running 1 demo_agent]} _ "x" 2).
  - vm_compute. reflexivity.
  - repeat constructor.
  - constructor.
Defined.

