(* ===== verification/TaskGraph.v ===== *)
(** The task graph ([crates/agent-core/src/task_graph.rs]): graph validation
    (the duplicate, reference and cycle checks of [TaskGraph::validate]) and the
    scheduling loop of [TaskGraphRunner::run]. *)

From S2P Require Import Prelude RustStr Subagent.
#[local] Open Scope string_scope.
#[local] Open Scope nat_scope.
#[local] Open Scope list_scope.
#[local] Open Scope rust_scope.

(** * Data *)

Record TaskNode := {
  tn_id : string;
  tn_config : SubagentConfig;
  depends_on : list string;
  on_success : list string;
  on_failure : list string;
  input_from : option string;
  input_template : option string;
  base_input : option string;
}.

(** [TaskGraph.nodes]. *)
Abbreviation graph := (list TaskNode).

Definition with_node (g : graph) (n : TaskNode) : graph := g ++ [n].

(** * Validation *)

(** First loop of [validate]: trimmed ids are non-empty and distinct. *)
Fixpoint check_ids (seen : gset string) (g : graph) : result unit string :=
  match g with
  | [] => Ok tt
  | n :: g' =>
      let id := trim (tn_id n) in
      if String.eqb id "" then Err "task graph node id cannot be empty"
      else if decide (id ∈ seen)
           then Err ("task graph has duplicate node id '" +:+ id +:+ "'")
           else check_ids ({[id]} ∪ seen) g'
  end.

Definition id_set (g : graph) : gset string := list_to_set (tn_id <$> g).

Definition check_ref (ids : gset string) (node msg target : string) : result unit string :=
  if decide (target ∈ ids) then Ok tt
  else Err ("node '" +:+ node +:+ "' " +:+ msg +:+ " unknown node '" +:+ target +:+ "'").

(** Second loop of [validate]: every reference names a node. *)
Definition check_node_refs (ids : gset string) (n : TaskNode) : result unit string :=
  let? _ := try_each (check_ref ids (tn_id n) "depends on") (depends_on n) in
  let? _ := try_each (check_ref ids (tn_id n) "on_success targets") (on_success n) in
  let? _ := try_each (check_ref ids (tn_id n) "on_failure targets") (on_failure n) in
  match input_from n with
  | Some from => check_ref ids (tn_id n) "input_from references" from
  | None => Ok tt
  end.

(** [iter().map(|n| (n.id, n.depends_on.len())).collect()]: a later entry
    replaces an earlier one. *)
Definition indegree_map (g : graph) : gmap string nat :=
  foldl (fun m n => <[tn_id n := length (depends_on n)]> m) ∅ g.

Definition push_edge (m : gmap string (list string)) (dep id : string) :=
  <[dep := default [] (m !! dep) ++ [id]]> m.

Definition edge_map (g : graph) : gmap string (list string) :=
  foldl (fun m n => foldl (fun m dep => push_edge m dep (tn_id n)) m (depends_on n)) ∅ g.

(** The [for child in children] loop; [None] is the [expect] panic. *)
Fixpoint relax (children : list string) (indeg : gmap string nat) (q : list string)
  : option (gmap string nat * list string) :=
  match children with
  | [] => Some (indeg, q)
  | c :: cs =>
      match indeg !! c with
      | None => None
      | Some d =>
          let next := d - 1 in
          relax cs (<[c := next]> indeg) (if next =? 0 then q ++ [c] else q)
      end
  end.

(** The [while let Some(id) = q.pop_front()] loop, returning [visited]. *)
Fixpoint kahn (fuel : nat) (edges : gmap string (list string)) (indeg : gmap string nat)
    (q : list string) (visited : nat) : option nat :=
  match q with
  | [] => Some visited
  | id :: q' =>
      match fuel with
      | 0 => None
      | S fuel' =>
          match relax (default [] (edges !! id)) indeg q' with
          | None => None
          | Some (indeg', q'') => kahn fuel' edges indeg' q'' (S visited)
          end
      end
  end.

Section Validate.
(** The iteration order of a [HashMap], which the standard library leaves
    unspecified: some permutation of the keys. *)
Context (hash_order : list string -> list string).

Definition initial_queue (indeg : gmap string nat) : list string :=
  filter (fun id => indeg !! id = Some 0) (hash_order (map_to_list indeg).*1).

Definition validate (g : graph) : option (result unit string) :=
  match (let? _ := check_ids ∅ g in try_each (check_node_refs (id_set g)) g) with
  | Err e => Some (Err e)
  | Ok _ =>
      let indeg := indegree_map g in
      visited ← kahn (length g) (edge_map g) indeg (initial_queue indeg) 0;
      Some (if visited =? length g then Ok tt
            else Err "task graph dependency cycle detected")
  end.
End Validate.

(** * Readiness and inputs *)

Definition ready_nodes (g : graph) (completed : gmap string string) (failed : gset string)
  : list TaskNode :=
  filter (fun n => completed !! tn_id n = None /\ tn_id n ∉ failed /\
                   Forall (fun dep => is_Some (completed !! dep)) (depends_on n)) g.

Definition resolve_input (n : TaskNode) (completed : gmap string string) (initial : string)
  : string :=
  match input_from n with
  | Some from_id =>
      let output := default "" (completed !! from_id) in
      match input_template n with
      | Some template => str_replace template "{output}" output
      | None => output
      end
  | None =>
      match base_input n with
      | Some base => base
      | None => initial
      end
  end.

(** * The runner *)

Inductive TaskGraphResult :=
| AllSucceeded (outputs : gmap string string)
| PartialSuccess (outputs : gmap string string) (failed : gmap string string).

(** The loop's variables; [in_flight] is also the content of the [JoinSet]. *)
Record RunState := {
  completed : gmap string string;
  failed : gmap string string;
  activated : gset string;
  in_flight : gset string;
}.

Definition seed (g : graph) : gset string :=
  list_to_set (tn_id <$> filter (fun n => depends_on n = []) g).

Definition run_init (g : graph) : RunState :=
  {| completed := ∅; failed := ∅; activated := seed g; in_flight := ∅ |}.

(** [to_spawn]: the ready nodes that are activated and not in flight, each with
    its resolved input. *)
Definition to_spawn (g : graph) (initial : string) (st : RunState)
  : list (string * SubagentConfig * string) :=
  (fun n => (tn_id n, tn_config n, resolve_input n (completed st) initial)) <$>
  filter (fun n => tn_id n ∈ activated st /\ tn_id n ∉ in_flight st)
         (ready_nodes g (completed st) (dom (failed st))).

Definition spawn_ready (g : graph) (initial : string) (st : RunState) : RunState := {|
  completed := completed st;
  failed := failed st;
  activated := activated st;
  in_flight := in_flight st ∪ list_to_set (fst ∘ fst <$> to_spawn g initial st);
|}.

Definition node_by_id (g : graph) (id : string) : option TaskNode :=
  find_first (fun n => String.eqb (tn_id n) id) g.

Definition activate (g : graph) (targets : TaskNode -> list string) (id : string)
    (act : gset string) : gset string :=
  match node_by_id g id with
  | Some n => list_to_set (targets n) ∪ act
  | None => act
  end.

(** What [join_next] can deliver for a task in flight: its result, or the
    [JoinError] of a task that panicked. *)
Inductive JoinEvent :=
| TaskOk (id output : string)
| TaskErr (id error : string)
| TaskPanic (id msg : string).

Definition ev_id (ev : JoinEvent) : string :=
  match ev with TaskOk id _ | TaskErr id _ | TaskPanic id _ => id end.

(** The [match] on [join_next]: the next loop state, or the early [return]. *)
Definition on_join (g : graph) (ev : JoinEvent) (st : RunState) : result RunState string :=
  match ev with
  | TaskOk id output => Ok {|
      completed := <[id := output]> (completed st);
      failed := failed st;
      activated := activate g on_success id (activated st);
      in_flight := in_flight st ∖ {[id]} |}
  | TaskErr id error => Ok {|
      completed := completed st;
      failed := <[id := error]> (failed st);
      activated := activate g on_failure id (activated st);
      in_flight := in_flight st ∖ {[id]} |}
  | TaskPanic _ msg => Err ("[task_graph] join error: " +:+ msg)
  end.

Definition run_result (st : RunState) : TaskGraphResult :=
  if decide (failed st = ∅) then AllSucceeded (completed st)
  else PartialSuccess (completed st) (failed st).

(** One turn of the loop: spawn everything ready, stop if nothing is in flight,
    otherwise take the join [ev] delivers.  Only a task in flight can be
    joined, so any other event is no behaviour of the loop. *)
Inductive TurnResult :=
| Continue (st : RunState)
| Break (r : TaskGraphResult)
| Return (e : string).

Definition turn (g : graph) (initial : string) (st : RunState) (ev : option JoinEvent)
  : option TurnResult :=
  let st1 := spawn_ready g initial st in
  if decide (in_flight st1 = ∅) then Some (Break (run_result st1))
  else match ev with
       | None => None
       | Some ev =>
           if decide (ev_id ev ∈ in_flight st1)
           then Some (match on_join g ev st1 with Ok st' => Continue st' | Err e => Return e end)
           else None
       end.

(** The loop against a list of joins; [None] when the list ends before the
    loop does or contains an impossible join. *)
Fixpoint run_loop (g : graph) (initial : string) (st : RunState) (evs : list JoinEvent)
  : option (result TaskGraphResult string) :=
  t ← turn g initial st (head evs);
  match t, evs with
  | Break r, _ => Some (Ok r)
  | Return e, _ => Some (Err e)
  | Continue st', _ :: evs' => run_loop g initial st' evs'
  | Continue _, [] => None
  end.

Definition run (hash_order : list string -> list string) (g : graph) (initial : string)
    (evs : list JoinEvent) : option (result TaskGraphResult string) :=
  v ← validate hash_order g;
  match v with
  | Ok _ => run_loop g initial (run_init g) evs
  | Err e => Some (Err e)
  end.

(** The states at the head of the loop. *)
Inductive reachable (g : graph) (initial : string) : nat -> RunState -> Prop :=
| reach_init : reachable g initial 0 (run_init g)
| reach_turn k st ev st' :
    reachable g initial k st -> turn g initial st (Some ev) = Some (Continue st') ->
    reachable g initial (S k) st'.

(** * Facts about the validation pass *)

Section ValidateFacts.

Fixpoint occ (x : string) (l : list string) : nat :=
  match l with
  | [] => 0
  | y :: l' => (if decide (x = y) then 1 else 0) + occ x l'
  end.

Lemma occ_pos x l : 0 < occ x l <-> x ∈ l.
Proof.
  induction l as [|y l IH]; simpl.
  - split; [lia | intros H; inversion H].
  - rewrite elem_of_cons. case_decide; [split; [by left | lia]|].
    rewrite <- IH. naive_solver.
Qed.

Lemma occ_app x l1 l2 : occ x (l1 ++ l2) = occ x l1 + occ x l2.
Proof. induction l1 as [|y l1 IH]; simpl; [done|]. rewrite IH. lia. Qed.

Lemma occ_replicate x y k : occ x (replicate k y) = if decide (x = y) then k else 0.
Proof. induction k as [|k IH]; simpl; [by case_decide|]. rewrite IH. case_decide; lia. Qed.

(** The dependencies of [l] outside [done]. *)
Definition pending (done l : list string) : list string := filter (fun d => d ∉ done) l.

Lemma pending_snoc done x l :
  x ∉ done -> length (pending done l) = occ x l + length (pending (done ++ [x]) l).
Proof.
  intros Hx. unfold pending. induction l as [|y l IH]; simpl; [done|].
  rewrite !filter_cons. repeat case_decide; subst; simpl; set_solver by lia.
Qed.

Lemma pending_nil done l : length (pending done l) = 0 <-> Forall (fun d => d ∈ done) l.
Proof.
  unfold pending. induction l as [|y l IH]; simpl; [done|].
  rewrite filter_cons, Forall_cons, <- IH. case_decide; simpl; [split; [lia | naive_solver]|].
  destruct (decide (y ∈ done)); naive_solver.
Qed.

(** ** The indegree and edge maps *)

Lemma indegree_map_snoc g n :
  indegree_map (g ++ [n]) = <[tn_id n := length (depends_on n)]> (indegree_map g).
Proof. unfold indegree_map. by rewrite foldl_app. Qed.

Lemma indegree_map_lookup g n :
  NoDup (tn_id <$> g) -> n ∈ g -> indegree_map g !! tn_id n = Some (length (depends_on n)).
Proof.
  induction g as [|m g IH] using rev_ind; intros Hnd Hin; [by apply not_elem_of_nil in Hin|].
  rewrite indegree_map_snoc. rewrite fmap_app in Hnd.
  apply NoDup_app in Hnd as (Hnd & Hdisj & _).
  apply elem_of_app in Hin as [Hin|Hin].
  - rewrite lookup_insert_ne; [by apply IH|].
    intros E. apply (Hdisj (tn_id n)); [by apply list_elem_of_fmap_2|]. rewrite <- E. by left.
  - apply list_elem_of_singleton in Hin as ->. apply lookup_insert_eq.
Qed.

Lemma indegree_map_dom g k : is_Some (indegree_map g !! k) <-> k ∈ tn_id <$> g.
Proof.
  induction g as [|m g IH] using rev_ind.
  - change (indegree_map []) with (∅ : gmap string nat). rewrite lookup_empty.
    split; [by intros [??] | intros H; by apply not_elem_of_nil in H].
  - rewrite indegree_map_snoc, fmap_app, elem_of_app, <- IH. simpl.
    rewrite list_elem_of_singleton. destruct (decide (tn_id m = k)) as [->|Hne].
    + rewrite lookup_insert_eq. naive_solver.
    + rewrite lookup_insert_ne by done. naive_solver.
Qed.

Definition children (m : gmap string (list string)) (d : string) : list string :=
  default [] (m !! d).

Lemma children_push m dep id d :
  children (push_edge m dep id) d = children m d ++ (if decide (d = dep) then [id] else []).
Proof.
  unfold children, push_edge. case_decide as E.
  - subst. by rewrite lookup_insert_eq.
  - by rewrite lookup_insert_ne, app_nil_r by done.
Qed.

Lemma children_push_all deps id m d :
  children (foldl (fun m dep => push_edge m dep id) m deps) d
  = children m d ++ replicate (occ d deps) id.
Proof.
  revert m. induction deps as [|dep deps IH]; intros m; simpl; [by rewrite app_nil_r|].
  rewrite IH, children_push, <- app_assoc. case_decide; done.
Qed.

Lemma children_edge_map_gen g m d :
  children (foldl (fun m n => foldl (fun m dep => push_edge m dep (tn_id n)) m (depends_on n)) m g) d
  = children m d ++ (g ≫= fun n => replicate (occ d (depends_on n)) (tn_id n)).
Proof.
  revert m. induction g as [|n g IH]; intros m; simpl; [by rewrite app_nil_r|].
  by rewrite IH, children_push_all, <- app_assoc.
Qed.

Lemma children_edge_map g d :
  children (edge_map g) d = g ≫= fun n => replicate (occ d (depends_on n)) (tn_id n).
Proof. unfold edge_map. by rewrite children_edge_map_gen. Qed.

Lemma occ_children_ne g d k :
  k ∉ tn_id <$> g -> occ k (children (edge_map g) d) = 0.
Proof.
  rewrite children_edge_map. induction g as [|n g IH]; [done|].
  rewrite fmap_cons, bind_cons. intros Hk. rewrite occ_app, occ_replicate, IH by set_solver.
  rewrite decide_False; [done | set_solver].
Qed.

Lemma occ_children g d n :
  NoDup (tn_id <$> g) -> n ∈ g -> occ (tn_id n) (children (edge_map g) d) = occ d (depends_on n).
Proof.
  rewrite children_edge_map.
  induction g as [|m g IH]; intros Hnd Hin; [by apply not_elem_of_nil in Hin|].
  rewrite fmap_cons in Hnd. rewrite bind_cons.
  apply NoDup_cons in Hnd as [Hm Hnd]. rewrite occ_app, occ_replicate.
  apply elem_of_cons in Hin as [->|Hin].
  - rewrite decide_True by done.
    pose proof (occ_children_ne g d _ Hm) as H0. rewrite children_edge_map in H0. lia.
  - rewrite decide_False, IH; [done..|].
    intros E. apply Hm. rewrite <- E. by apply list_elem_of_fmap_2.
Qed.

(** ** The inner loop *)

Lemma relax_spec cs indeg q :
  (forall k, k ∈ cs -> exists v, indeg !! k = Some v /\ occ k cs <= v) ->
  exists indeg' new,
    relax cs indeg q = Some (indeg', q ++ new) /\ NoDup new /\
    (forall k, k ∈ new <-> k ∈ cs /\ indeg !! k = Some (occ k cs)) /\
    (forall k, indeg' !! k = (fun v => v - occ k cs) <$> indeg !! k).
Proof.
  revert indeg q. induction cs as [|c cs IH]; intros indeg q Hpre; cbn [relax].
  { exists indeg, []. rewrite app_nil_r. split_and!; [done | constructor | | ].
    - intros k. split; [intros H; by apply not_elem_of_nil in H |].
      intros [H _]. by apply not_elem_of_nil in H.
    - intros k. cbn. destruct (indeg !! k); simpl; [by rewrite Nat.sub_0_r | done]. }
  destruct (Hpre c) as (v & Hv & Hle); [by left|]. rewrite Hv.
  cbn [occ] in Hle. rewrite decide_True in Hle by done.
  destruct (IH (<[c := v - 1]> indeg) (if v - 1 =? 0 then q ++ [c] else q))
    as (indeg' & new & Hr & Hnd & Hnew & Hmap).
  { intros k Hk. destruct (Hpre k) as (w & Hw & Hlew); [by right|]. cbn [occ] in Hlew.
    destruct (decide (c = k)) as [<-|Hne].
    - rewrite lookup_insert_eq. exists (v - 1). split; [done | lia].
    - rewrite lookup_insert_ne by done. exists w.
      rewrite decide_False in Hlew by done. done. }
  assert (Hm' : forall k, indeg' !! k = (fun w => w - occ k (c :: cs)) <$> indeg !! k).
  { intros k. rewrite Hmap. cbn [occ]. destruct (decide (k = c)) as [->|Hne].
    - rewrite lookup_insert_eq, Hv. simpl. f_equal. lia.
    - by rewrite lookup_insert_ne by done. }
  assert (Hnew' : forall k, k <> c ->
      (k ∈ new <-> k ∈ c :: cs /\ indeg !! k = Some (occ k (c :: cs)))).
  { intros k Hne. rewrite Hnew, lookup_insert_ne by done. cbn [occ].
    rewrite decide_False by done. set_solver. }
  assert (Hc : c ∈ new <-> c ∈ cs /\ v - 1 = occ c cs).
  { rewrite Hnew, lookup_insert_eq. naive_solver. }
  destruct (v - 1 =? 0) eqn:Ev; boolean.
  - exists indeg', (c :: new). rewrite Hr, <- app_assoc. split_and!; [done| | |done].
    + constructor; [|done]. rewrite Hc. intros [Hin ?]. apply occ_pos in Hin. lia.
    + intros k. rewrite elem_of_cons. destruct (decide (k = c)) as [->|Hne].
      * rewrite Hv. cbn [occ]. rewrite decide_True by done.
        split; [intros _; split; [by left | f_equal; lia] | by left].
      * rewrite <- Hnew' by done. naive_solver.
  - exists indeg', new. rewrite Hr. split_and!; [done..| |done].
    intros k. destruct (decide (k = c)) as [->|Hne]; [|by apply Hnew'].
    rewrite Hc, Hv. cbn [occ]. rewrite decide_True by done. split.
    + intros [Hin ?]. split; [by left | f_equal; lia].
    + intros [_ [= E]]. split; [apply occ_pos; lia | lia].
Qed.

End ValidateFacts.

(** * Correctness of the cycle check *)

(** [l] lists nodes so that every dependency comes before its dependents. *)
Definition topological (g : graph) (l : list string) : Prop :=
  forall l1 x l2 n, l = l1 ++ x :: l2 -> n ∈ g -> tn_id n = x ->
    Forall (fun d => d ∈ l1) (depends_on n).

Section Kahn.
Context (g : graph) (Hids : NoDup (tn_id <$> g)).

(** The state of the loop after visiting [done], with [q] queued. *)
Record kahn_inv (done q : list string) (indeg : gmap string nat) : Prop := {
  ki_nodup : NoDup (done ++ q);
  ki_ids : forall x, x ∈ done ++ q -> x ∈ tn_id <$> g;
  ki_indeg : forall n, n ∈ g -> indeg !! tn_id n = Some (length (pending done (depends_on n)));
  ki_zero : forall n, n ∈ g ->
    (tn_id n ∈ done ++ q <-> Forall (fun d => d ∈ done) (depends_on n));
  ki_topo : topological g (done ++ q);
}.

Lemma node_unique n m : n ∈ g -> m ∈ g -> tn_id n = tn_id m -> n = m.
Proof.
  intros Hn Hm E. apply list_elem_of_lookup in Hn as [i Hi], Hm as [j Hj].
  assert (i = j) as ->; [|congruence].
  eapply NoDup_lookup; [apply Hids | |]; rewrite list_lookup_fmap.
  - rewrite Hi. done.
  - rewrite Hj. simpl. by rewrite E.
Qed.

Lemma kahn_relax_pre done id q indeg :
  kahn_inv done (id :: q) indeg ->
  forall k, k ∈ children (edge_map g) id ->
    exists v, indeg !! k = Some v /\ occ k (children (edge_map g) id) <= v.
Proof.
  intros Hinv k Hk. apply occ_pos in Hk.
  destruct (decide (k ∈ tn_id <$> g)) as [Hin|Hn]; [|rewrite occ_children_ne in Hk by done; lia].
  apply list_elem_of_fmap in Hin as (n & -> & Hn).
  exists (length (pending done (depends_on n))). split; [by apply (ki_indeg _ _ _ Hinv)|].
  rewrite occ_children by done.
  rewrite (pending_snoc done id); [lia|].
  pose proof (ki_nodup _ _ _ Hinv) as Hnd. apply NoDup_app in Hnd as (_ & Hd & _).
  intros Hi. apply (Hd id Hi). by left.
Qed.

(** A topological list extended by nodes whose dependencies it lists. *)
Lemma topological_extend l new :
  topological g l ->
  (forall x, x ∈ new -> exists n, n ∈ g /\ tn_id n = x /\ Forall (fun d => d ∈ l) (depends_on n)) ->
  topological g (l ++ new).
Proof.
  intros Htopo Hnew l1 x l2 n Hl Hn Hx. symmetry in Hl.
  assert (Hmem : x ∈ new -> Forall (fun d => d ∈ l) (depends_on n)).
  { intros Hin. destruct (Hnew x Hin) as (m & Hm & E & HF).
    by rewrite (node_unique n m) by congruence. }
  apply app_eq_app in Hl as (k & [[-> Hl]|[Hl Hl2]]).
  - eapply Forall_impl; [apply Hmem; rewrite Hl; set_solver|]. intros d Hd. set_solver.
  - destruct k as [|y k].
    + simpl in Hl2. rewrite app_nil_r in Hl. subst l1. apply Hmem. rewrite <- Hl2. left.
    + injection Hl2 as -> ->. by eapply Htopo.
Qed.

(** Visiting the front of the queue preserves the invariant. *)
Lemma kahn_step done id q indeg :
  kahn_inv done (id :: q) indeg ->
  exists indeg' new,
    relax (children (edge_map g) id) indeg q = Some (indeg', q ++ new) /\
    kahn_inv (done ++ [id]) (q ++ new) indeg'.
Proof.
  intros Hinv.
  destruct (relax_spec (children (edge_map g) id) indeg q) as (indeg' & new & Hr & Hnd & Hnew & Hmap);
    [by apply kahn_relax_pre with (q := q) (done := done)|].
  exists indeg', new. split; [done|]. destruct Hinv as [Hnodup Hsub Hdeg Hzero Htopo].
  assert (Hid : id ∉ done).
  { apply NoDup_app in Hnodup as (_ & Hd & _). intros Hi. apply (Hd id Hi). by left. }
  assert (Hpend : forall n, length (pending done (depends_on n))
                  = occ id (depends_on n) + length (pending (done ++ [id]) (depends_on n))).
  { intros n. by apply pending_snoc. }
  assert (Hnewg : forall k, k ∈ new -> exists n, n ∈ g /\ tn_id n = k /\
            0 < occ id (depends_on n) /\ length (pending (done ++ [id]) (depends_on n)) = 0).
  { intros k Hk. apply Hnew in Hk as [Hk Hv]. apply occ_pos in Hk.
    destruct (decide (k ∈ tn_id <$> g)) as [Hin|Hn]; [|rewrite occ_children_ne in Hk by done; lia].
    apply list_elem_of_fmap in Hin as (n & -> & Hn).
    rewrite Hdeg, occ_children in Hv by done. rewrite occ_children in Hk by done.
    exists n. specialize (Hpend n). injection Hv as Hv. split_and!; [done..|lia]. }
  assert (Hnewin : forall n, n ∈ g -> 0 < occ id (depends_on n) ->
            length (pending (done ++ [id]) (depends_on n)) = 0 -> tn_id n ∈ new).
  { intros n Hn Ho Hp. apply Hnew. rewrite Hdeg by done. specialize (Hpend n).
    assert (occ (tn_id n) (children (edge_map g) id) = occ id (depends_on n))
      as E by (by apply occ_children).
    split; [apply occ_pos; lia | f_equal; lia]. }
  assert (Hold : forall n, n ∈ g -> tn_id n ∈ done ++ id :: q ->
            occ id (depends_on n) = 0).
  { intros n Hn Hin. apply Hzero, pending_nil in Hin; [|done]. specialize (Hpend n). lia. }
  split.
  - rewrite app_assoc. replace ((done ++ [id]) ++ q) with (done ++ id :: q)
      by (by rewrite <- app_assoc).
    apply NoDup_app. split_and!; [done| |done].
    intros x Hx Hn. destruct (Hnewg x Hn) as (n & Hg & <- & Ho & _).
    rewrite Hold in Ho by done. lia.
  - intros x. rewrite app_assoc, elem_of_app. intros [Hx|Hx].
    + apply Hsub. by rewrite <- app_assoc in Hx.
    + destruct (Hnewg x Hx) as (n & Hg & <- & _). by apply list_elem_of_fmap_2.
  - intros n Hn. rewrite Hmap, Hdeg by done. simpl. f_equal.
    rewrite occ_children by done. specialize (Hpend n). lia.
  - intros n Hn. rewrite <- pending_nil, app_assoc, elem_of_app.
    replace ((done ++ [id]) ++ q) with (done ++ id :: q) by (by rewrite <- app_assoc).
    specialize (Hpend n). split.
    + intros [Hin|Hin].
      * apply Hzero, pending_nil in Hin; [lia | done].
      * destruct (Hnewg _ Hin) as (m & Hm & E & _ & ?).
        by rewrite (node_unique n m).
    + intros Hp. destruct (decide (0 < occ id (depends_on n))).
      * right. by apply Hnewin.
      * left. apply Hzero; [done|]. apply pending_nil. lia.
  - rewrite app_assoc. replace ((done ++ [id]) ++ q) with (done ++ id :: q)
      by (by rewrite <- app_assoc).
    apply topological_extend; [done|]. intros x Hx.
    destruct (Hnewg x Hx) as (n & Hn & <- & _ & Hp). exists n. split_and!; [done..|].
    apply pending_nil in Hp. eapply Forall_impl; [exact Hp|]. intros d Hd. set_solver.
Qed.

(** From any state of the invariant the loop ends, having visited a list that
    no node can extend. *)
Lemma kahn_run fuel done q indeg :
  kahn_inv done q indeg -> length g <= fuel + length done ->
  exists final indeg', kahn fuel (edge_map g) indeg q (length done) = Some (length final) /\
    kahn_inv final [] indeg'.
Proof.
  revert done q indeg. induction fuel as [|fuel IH]; intros done q indeg Hinv Hfuel.
  - destruct q as [|id q]; [by exists done, indeg|]. exfalso.
    assert (Hle : length (done ++ id :: q) <= length (tn_id <$> g)).
    { apply submseteq_length, NoDup_submseteq; [apply Hinv | apply Hinv]. }
    rewrite length_fmap, length_app in Hle. simpl in *. lia.
  - destruct q as [|id q]; [by exists done, indeg|]. cbn [kahn].
    destruct (kahn_step _ _ _ _ Hinv) as (indeg' & new & Hr & Hinv').
    unfold children in Hr. rewrite Hr.
    replace (S (length done)) with (length (done ++ [id])) by (rewrite length_app; simpl; lia).
    apply IH; [done | rewrite length_app; simpl; lia].
Qed.

Lemma kahn_init (hash_order : list string -> list string) :
  (forall l, hash_order l ≡ₚ l) ->
  kahn_inv [] (initial_queue hash_order (indegree_map g)) (indegree_map g).
Proof.
  intros Hperm. unfold initial_queue.
  assert (Hin : forall x, x ∈ hash_order (map_to_list (indegree_map g)).*1 <->
                          x ∈ tn_id <$> g).
  { intros x. rewrite Hperm, <- indegree_map_dom. rewrite list_elem_of_fmap. split.
    - intros ([k v] & -> & Hkv%elem_of_map_to_list). eauto.
    - intros [v Hv]. exists (x, v). split; [done|]. by apply elem_of_map_to_list. }
  assert (Hpend : forall l, length (pending [] l) = length l).
  { induction l as [|y l IH]; [done|]. unfold pending in *. rewrite filter_cons_True; [|set_solver].
    cbn [length]. f_equal. exact IH. }
  split; simpl.
  - apply NoDup_filter. rewrite Hperm. apply NoDup_fst_map_to_list.
  - intros x Hx. apply list_elem_of_filter in Hx as [_ Hx]. by apply Hin.
  - intros n Hn. by rewrite Hpend, indegree_map_lookup.
  - intros n Hn. rewrite list_elem_of_filter, Hin, indegree_map_lookup by done.
    rewrite <- pending_nil, Hpend. split; [intros [[= ?] _]; done|].
    intros ->. split; [done | by apply list_elem_of_fmap_2].
  - intros l1 x l2 n Hl Hn Hx.
    assert (Hx' : x ∈ filter (λ id, indegree_map g !! id = Some 0)
              (hash_order (map_to_list (indegree_map g)).*1)) by (rewrite Hl; set_solver).
    apply list_elem_of_filter in Hx' as [Hz _]. subst x.
    rewrite indegree_map_lookup in Hz by done. injection Hz as Hz.
    apply length_zero_iff_nil in Hz. by rewrite Hz.
Qed.

Context (Hdeps : forall n d, n ∈ g -> d ∈ depends_on n -> d ∈ tn_id <$> g).

(** The visited list is everything exactly when a topological order exists. *)
Lemma kahn_final_iff final indeg :
  kahn_inv final [] indeg ->
  length final = length g <-> exists ord, ord ≡ₚ tn_id <$> g /\ topological g ord.
Proof.
  intros Hinv. pose proof (ki_nodup _ _ _ Hinv) as Hnd. pose proof (ki_ids _ _ _ Hinv) as Hsub.
  rewrite app_nil_r in *. split.
  - intros Hlen. exists final. split; [|by pose proof (ki_topo _ _ _ Hinv) as Ht; rewrite app_nil_r in Ht].
    apply submseteq_length_Permutation; [by apply NoDup_submseteq|]. rewrite length_fmap. lia.
  - intros (ord & Hord & Htopo).
    assert (Hall : forall l1 l2, ord = l1 ++ l2 -> Forall (fun x => x ∈ final) l1).
    { intros l1. induction l1 as [|x l1 IH] using rev_ind; intros l2 Hl; [constructor|].
      rewrite <- app_assoc in Hl. apply Forall_app. split; [by eapply IH|].
      apply Forall_singleton.
      assert (Hx : x ∈ tn_id <$> g) by (rewrite <- Hord, Hl; set_solver).
      apply list_elem_of_fmap in Hx as (n & -> & Hn).
      pose proof (ki_zero _ _ _ Hinv n Hn) as Hz. rewrite app_nil_r in Hz. apply Hz.
      eapply Forall_impl; [by eapply Htopo|]. simpl. intros d Hd.
      specialize (IH _ Hl). rewrite Forall_forall in IH. by apply IH. }
    apply Nat.le_antisymm.
    + rewrite <- (length_fmap tn_id g). by apply submseteq_length, NoDup_submseteq.
    + rewrite <- (length_fmap tn_id g), <- Hord.
      apply submseteq_length, NoDup_submseteq; [by rewrite Hord|].
      intros x Hx. specialize (Hall ord [] (eq_sym (app_nil_r _))).
      rewrite Forall_forall in Hall. by apply Hall.
Qed.
End Kahn.

(** * Correctness of [validate] *)

Definition refs_known (ids : gset string) (n : TaskNode) : Prop :=
  Forall (fun d => d ∈ ids) (depends_on n) /\
  Forall (fun d => d ∈ ids) (on_success n) /\
  Forall (fun d => d ∈ ids) (on_failure n) /\
  (forall from, input_from n = Some from -> from ∈ ids).

(** What [validate] promises: distinct non-blank names, no dangling reference,
    no dependency cycle. *)
Definition valid_graph (g : graph) : Prop :=
  Forall (fun n => trim (tn_id n) <> "") g /\
  NoDup ((fun n => trim (tn_id n)) <$> g) /\
  Forall (refs_known (id_set g)) g /\
  exists ord, ord ≡ₚ tn_id <$> g /\ topological g ord.

Lemma check_ref_Ok ids node msg target :
  check_ref ids node msg target = Ok tt <-> target ∈ ids.
Proof. unfold check_ref. by case_decide. Qed.

Lemma check_node_refs_Ok ids n : check_node_refs ids n = Ok tt <-> refs_known ids n.
Proof.
  unfold check_node_refs, refs_known.
  assert (Hall : forall node msg l, try_each (check_ref ids node msg) l = Ok tt
                   <-> Forall (fun d => d ∈ ids) l).
  { intros. rewrite try_each_Ok. apply Forall_iff. intros. apply check_ref_Ok. }
  rewrite <- (Hall (tn_id n) "depends on" (depends_on n)),
          <- (Hall (tn_id n) "on_success targets" (on_success n)),
          <- (Hall (tn_id n) "on_failure targets" (on_failure n)).
  repeat (destruct (try_each _ _) as [[]|]; simpl; [|naive_solver]).
  destruct (input_from n) as [from|]; [rewrite check_ref_Ok|]; naive_solver.
Qed.

Lemma check_ids_Ok seen g :
  check_ids seen g = Ok tt <->
  Forall (fun n => trim (tn_id n) <> "") g /\
  NoDup ((fun n => trim (tn_id n)) <$> g) /\
  Forall (fun n => trim (tn_id n) ∉ seen) g.
Proof.
  revert seen. induction g as [|n g IH]; intros seen; simpl.
  { split; [intros _; split_and!; constructor | done]. }
  rewrite !Forall_cons, NoDup_cons.
  destruct (String.eqb_spec (trim (tn_id n)) "") as [E|E]; [naive_solver|].
  case_decide as Hseen; [naive_solver|]. rewrite IH.
  assert (Hex : Forall (λ n0, trim (tn_id n0) ∉ {[trim (tn_id n)]} ∪ seen) g <->
                trim (tn_id n) ∉ (λ n0, trim (tn_id n0)) <$> g /\
                Forall (λ n0, trim (tn_id n0) ∉ seen) g).
  { rewrite !Forall_forall. rewrite list_elem_of_fmap. set_solver. }
  rewrite Hex. naive_solver.
Qed.

Lemma trimmed_ids_NoDup g : NoDup ((fun n => trim (tn_id n)) <$> g) -> NoDup (tn_id <$> g).
Proof.
  intros H. apply (NoDup_fmap_1 trim). by rewrite <- list_fmap_compose.
Qed.

(** The static checks that come before the cycle check. *)
Definition static_checks (g : graph) : result unit string :=
  rbind (check_ids ∅ g) (fun _ => try_each (check_node_refs (id_set g)) g).

Lemma static_checks_Ok g :
  static_checks g = Ok tt <->
  Forall (fun n => trim (tn_id n) <> "") g /\
  NoDup ((fun n => trim (tn_id n)) <$> g) /\ Forall (refs_known (id_set g)) g.
Proof.
  unfold static_checks. rewrite rbind_Ok.
  assert (Hall : try_each (check_node_refs (id_set g)) g = Ok tt <->
                 Forall (refs_known (id_set g)) g).
  { rewrite try_each_Ok. apply Forall_iff. intros. apply check_node_refs_Ok. }
  setoid_rewrite Hall. split.
  - intros ([] & Hc & Hr). apply check_ids_Ok in Hc. naive_solver.
  - intros (H1 & H2 & H3). exists tt. split; [|done]. apply check_ids_Ok.
    split_and!; [done..|]. apply Forall_forall. set_solver.
Qed.

(** When the static checks pass, the cycle check decides whether a topological
    order exists. *)
Lemma validate_static_ok ho g :
  (forall l, ho l ≡ₚ l) -> static_checks g = Ok tt ->
  exists v, validate ho g = Some v /\
    (v = Ok tt <-> exists ord, ord ≡ₚ tn_id <$> g /\ topological g ord) /\
    (v = Ok tt \/ v = Err "task graph dependency cycle detected").
Proof.
  intros Hho Hs. pose proof Hs as Hs'.
  apply static_checks_Ok in Hs' as (_ & Hnd & Hrefs).
  apply trimmed_ids_NoDup in Hnd.
  assert (Hdeps : forall n d, n ∈ g -> d ∈ depends_on n -> d ∈ tn_id <$> g).
  { intros n d Hn Hd. rewrite Forall_forall in Hrefs. destruct (Hrefs n Hn) as (Hd' & _).
    rewrite Forall_forall in Hd'. specialize (Hd' d Hd). unfold id_set in Hd'. set_solver. }
  assert (Hle : length g <= length g + length (@nil string)) by lia.
  destruct (kahn_run g Hnd (length g) [] _ _ (kahn_init g Hnd ho Hho) Hle)
    as (final & indeg & Hk & Hinv).
  unfold validate. unfold static_checks in Hs. rewrite Hs. simpl in Hk. rewrite Hk. simpl.
  eexists. split; [done|]. rewrite <- (kahn_final_iff g Hnd Hdeps final indeg Hinv).
  destruct (length final =? length g) eqn:E; boolean.
  - split; [done | by left].
  - split; [done | by right].
Qed.

(** C1. [validate] is total and accepts exactly the well-formed acyclic graphs:
    for every hash-map iteration order it returns (the [expect] never panics and
    the queue loop ends), it answers [Ok] iff names are non-blank and distinct
    after trimming, all references resolve and a topological order of the
    dependencies exists, and a graph with the first three properties but no
    such order gets the cycle error. *)
Theorem validate_correct ho g (Hho : forall l, ho l ≡ₚ l) :
  is_Some (validate ho g) /\
  (validate ho g = Some (Ok tt) <-> valid_graph g) /\
  (static_checks g = Ok tt -> ~ valid_graph g ->
   validate ho g = Some (Err "task graph dependency cycle detected")).
Proof.
  destruct (static_checks g) as [[]|e] eqn:Hs.
  - destruct (validate_static_ok ho g Hho Hs) as (v & Hv & Hiff & Hor).
    apply static_checks_Ok in Hs as (H1 & H2 & H3). rewrite Hv. unfold valid_graph.
    split_and!; [done | naive_solver | naive_solver].
  - assert (Hv : validate ho g = Some (Err e)).
    { unfold validate. unfold static_checks in Hs. by rewrite Hs. }
    rewrite Hv. split_and!; [done| |done]. split; [done|].
    intros (H1 & H2 & H3 & _).
    assert (static_checks g = Ok tt) by (by apply static_checks_Ok). congruence.
Qed.

(** * The runner: invariant, termination *)

Section Runner.
Context (g : graph) (initial : string) (Hids : NoDup (tn_id <$> g)).

(** Ids that have been started: in flight or with an outcome. *)
Definition started (st : RunState) : gset string :=
  in_flight st ∪ dom (completed st) ∪ dom (failed st).

(** What makes a node eligible: it is a root, or a finished node names it on
    the branch it took. *)
Definition eligible (st : RunState) (x : string) : Prop :=
  exists n, n ∈ g /\
    ((tn_id n = x /\ depends_on n = []) \/
     (is_Some (completed st !! tn_id n) /\ x ∈ on_success n) \/
     (is_Some (failed st !! tn_id n) /\ x ∈ on_failure n)).

Record run_inv (k : nat) (st : RunState) : Prop := {
  ri_ids : started st ⊆ id_set g;
  ri_fc : in_flight st ## dom (completed st);
  ri_ff : in_flight st ## dom (failed st);
  ri_cf : dom (completed st) ## dom (failed st);
  ri_act : forall x, x ∈ activated st <-> eligible st x;
  ri_started_act : started st ⊆ activated st;
  ri_deps : forall n, n ∈ g -> tn_id n ∈ started st ->
    Forall (fun d => is_Some (completed st !! d)) (depends_on n);
  ri_count : size (dom (completed st)) + size (dom (failed st)) = k;
}.

Lemma elem_of_to_spawn st x :
  x ∈ fst ∘ fst <$> to_spawn g initial st <->
  exists n, n ∈ g /\ tn_id n = x /\ completed st !! x = None /\ x ∉ dom (failed st) /\
    Forall (fun dep => is_Some (completed st !! dep)) (depends_on n) /\
    x ∈ activated st /\ x ∉ in_flight st.
Proof.
  unfold to_spawn, ready_nodes. rewrite <- list_fmap_compose, list_elem_of_fmap. split.
  - intros (n & -> & Hn). rewrite !list_elem_of_filter in Hn.
    exists n. simpl. naive_solver.
  - intros (n & Hn & <- & Hrest). exists n. split; [done|].
    rewrite !list_elem_of_filter. naive_solver.
Qed.

Lemma elem_of_seed x : x ∈ seed g <-> exists n, n ∈ g /\ tn_id n = x /\ depends_on n = [].
Proof.
  unfold seed. rewrite elem_of_list_to_set, list_elem_of_fmap. split.
  - intros (n & -> & Hn). apply list_elem_of_filter in Hn. naive_solver.
  - intros (n & Hn & <- & Hd). exists n. split; [done|]. by apply list_elem_of_filter.
Qed.

Lemma elem_of_activate targets id act x :
  id ∈ id_set g ->
  x ∈ activate g targets id act <->
  x ∈ act \/ exists n, n ∈ g /\ tn_id n = id /\ x ∈ targets n.
Proof using Hids.
  intros Hid. unfold activate, node_by_id.
  destruct (find_first _ g) as [n|] eqn:E.
  - apply find_first_Some in E as [Hn E]. boolean. rewrite elem_of_union, elem_of_list_to_set.
    split; [intros [Hx|Hx]; [right; by exists n | by left]|].
    intros [Hx|(m & Hm & Hmid & Hx)]; [by right|]. left.
    by rewrite (node_unique g Hids n m) by congruence.
  - exfalso. apply find_first_None in E. unfold id_set in Hid.
    rewrite elem_of_list_to_set, list_elem_of_fmap in Hid. destruct Hid as (n & -> & Hn).
    rewrite Forall_forall in E. specialize (E n Hn). boolean. done.
Qed.

Lemma run_inv_init : run_inv 0 (run_init g).
Proof.
  split; unfold started, run_init; simpl; rewrite ?dom_empty_L; try set_solver.
  - intros x. rewrite elem_of_seed. unfold eligible. simpl. setoid_rewrite lookup_empty.
    split; [naive_solver|]. intros (n & Hn & [?|[[[? [=]] _]|[[? [=]] _]]]). by exists n.
Qed.

(** The spawn phase preserves the invariant. *)
Lemma run_inv_spawn k st : run_inv k st -> run_inv k (spawn_ready g initial st).
Proof.
  intros [Hsub Hfc Hff Hcf Hact Hsact Hdeps Hcount].
  assert (Hsp : forall x, x ∈ started (spawn_ready g initial st) <->
            x ∈ started st \/ x ∈ fst ∘ fst <$> to_spawn g initial st).
  { intros x. unfold started, spawn_ready. simpl. rewrite !elem_of_union, elem_of_list_to_set. tauto. }
  split; simpl; try done.
  - intros x Hx. apply Hsp in Hx as [Hx|Hx]; [by apply Hsub|].
    apply elem_of_to_spawn in Hx as (n & Hn & <- & _). unfold id_set.
    apply elem_of_list_to_set. by apply list_elem_of_fmap_2.
  - intros x Hx Hc. apply elem_of_union in Hx as [Hx|Hx]; [by apply (Hfc x)|].
    apply elem_of_list_to_set, elem_of_to_spawn in Hx as (n & _ & _ & Hnone & _).
    apply elem_of_dom in Hc as [? Hc]. congruence.
  - intros x Hx Hc. apply elem_of_union in Hx as [Hx|Hx]; [by apply (Hff x)|].
    apply elem_of_list_to_set, elem_of_to_spawn in Hx as (n & _ & _ & _ & Hnf & _). done.
  - intros x Hx. apply Hsp in Hx as [Hx|Hx]; [by apply Hsact|].
    apply elem_of_to_spawn in Hx as (n & _ & _ & _ & _ & _ & Ha & _). done.
  - intros n Hn Hx. apply Hsp in Hx as [Hx|Hx]; [by apply Hdeps|].
    apply elem_of_to_spawn in Hx as (m & Hm & E & _ & _ & Hd & _).
    by rewrite (node_unique g Hids n m).
Qed.

(** Recording an outcome preserves it, and counts one more finished node. *)
Lemma run_inv_join k st ev st' :
  run_inv k st -> ev_id ev ∈ in_flight st -> on_join g ev st = Ok st' -> run_inv (S k) st'.
Proof using Hids.
  intros [Hsub Hfc Hff Hcf Hact Hsact Hdeps Hcount] Hin Hj.
  assert (Hidg : ev_id ev ∈ id_set g).
  { apply Hsub. unfold started. by apply elem_of_union_l, elem_of_union_l. }
  assert (Hnc : ev_id ev ∉ dom (completed st)) by (intros H; by apply (Hfc _ Hin)).
  assert (Hnf : ev_id ev ∉ dom (failed st)) by (intros H; by apply (Hff _ Hin)).
  assert (Hst : started st' = started st /\ in_flight st' = in_flight st ∖ {[ev_id ev]} /\
    size (dom (completed st')) + size (dom (failed st')) =
      S (size (dom (completed st)) + size (dom (failed st))) /\
    (forall x, x ∈ dom (completed st') \/ x ∈ dom (failed st') <->
       x = ev_id ev \/ x ∈ dom (completed st) \/ x ∈ dom (failed st)) /\
    dom (completed st') ## dom (failed st') /\
    (forall d, is_Some (completed st !! d) -> is_Some (completed st' !! d))).
  { clear Hact Hdeps Hsact Hcount Hsub Hidg.
    destruct ev as [id out|id err|]; simplify_eq/=; unfold started; simpl.
    - rewrite dom_insert_L, size_union, size_singleton by set_solver.
      split_and!; [|done|lia|set_solver|set_solver|].
      + apply set_eq. intros x. destruct (decide (x = id)); set_solver.
      + intros d Hd. apply lookup_insert_is_Some'. by right.
    - rewrite dom_insert_L, size_union, size_singleton by set_solver.
      split_and!; [|done|lia|set_solver|set_solver|done].
      apply set_eq. intros x. destruct (decide (x = id)); set_solver. }
  destruct Hst as (Hst & Hfl & Hsz & Hdom & Hdisj & Hcomp).
  assert (Hact' : forall x, x ∈ activated st' <-> eligible st' x).
  { clear Hst Hsz Hdom Hdisj Hcomp Hsub Hcount Hdeps.
    intros x. destruct ev as [id out|id err|]; simplify_eq/=;
      rewrite elem_of_activate, Hact by done; unfold eligible; simpl;
      setoid_rewrite lookup_insert_is_Some'; naive_solver. }
  assert (Hmono : activated st ⊆ activated st').
  { intros x Hx. destruct ev as [id out|id err|]; simplify_eq/=;
      (apply elem_of_activate; [done | by left]). }
  split; rewrite ?Hst, ?Hfl; [done| | |done|done| | |lia].
  - intros x Hx Hc. apply elem_of_difference in Hx as [Hx Hne].
    destruct (proj1 (Hdom x) (or_introl Hc)) as [->|[?|?]]; set_solver.
  - intros x Hx Hc. apply elem_of_difference in Hx as [Hx Hne].
    destruct (proj1 (Hdom x) (or_intror Hc)) as [->|[?|?]]; set_solver.
  - etransitivity; [exact Hsact | exact Hmono].
  - intros n Hn Hx. eapply Forall_impl; [by apply Hdeps | exact Hcomp].
Qed.

Lemma turn_Continue st ev st' :
  turn g initial st (Some ev) = Some (Continue st') ->
  ev_id ev ∈ in_flight (spawn_ready g initial st) /\
  on_join g ev (spawn_ready g initial st) = Ok st'.
Proof.
  unfold turn. case_decide; [done|]. case_decide as Hin; [|done].
  destruct (on_join _ _ _) eqn:E; [|done]. intros [= <-]. done.
Qed.

Lemma run_inv_reachable k st : reachable g initial k st -> run_inv k st.
Proof using Hids.
  induction 1 as [|k st ev st' _ IH Ht]; [apply run_inv_init|].
  apply turn_Continue in Ht as [Hin Hj].
  eapply run_inv_join; [by apply run_inv_spawn | done | done].
Qed.

Lemma run_inv_bound k st : run_inv k st -> k + size (in_flight st) <= length g.
Proof.
  intros [Hsub Hfc Hff Hcf _ _ _ <-].
  assert (Hsize : size (started st)
            = size (in_flight st) + size (dom (completed st)) + size (dom (failed st))).
  { unfold started. rewrite !size_union by set_solver. done. }
  assert (size (started st) <= length g); [|lia].
  etransitivity; [by apply subseteq_size|]. unfold id_set.
  pose proof (size_list_to_set (C:=gset string) (tn_id <$> g) Hids) as E.
  rewrite length_fmap in E. lia.
Qed.
End Runner.

(** ** The loop under every scheduler

    [pick] chooses which task in flight finishes next, and how. *)

Fixpoint drive (g : graph) (initial : string) (pick : RunState -> JoinEvent) (fuel : nat)
    (st : RunState) : option (result TaskGraphResult string) :=
  match fuel with
  | 0 => None
  | S fuel' =>
      match turn g initial st (Some (pick (spawn_ready g initial st))) with
      | Some (Break r) => Some (Ok r)
      | Some (Return e) => Some (Err e)
      | Some (Continue st') => drive g initial pick fuel' st'
      | None => None
      end
  end.

(** A node the run still owes an outcome: eligible, its dependencies succeeded,
    and neither completed nor failed. *)
Definition owed (g : graph) (st : RunState) (n : TaskNode) : Prop :=
  n ∈ g /\ tn_id n ∈ activated st /\
  Forall (fun d => is_Some (completed st !! d)) (depends_on n) /\
  completed st !! tn_id n = None /\ failed st !! tn_id n = None.

Lemma nothing_owed g initial st :
  in_flight (spawn_ready g initial st) = ∅ -> forall n, ~ owed g st n.
Proof.
  intros Hempty n (Hn & Hact & Hdeps & Hc & Hf).
  assert (Hin : tn_id n ∈ in_flight (spawn_ready g initial st)); [|rewrite Hempty in Hin; set_solver].
  unfold spawn_ready; simpl. apply elem_of_union.
  destruct (decide (tn_id n ∈ in_flight st)); [by left|right].
  apply elem_of_list_to_set, elem_of_to_spawn. exists n.
  split_and!; try done. by apply not_elem_of_dom.
Qed.

Lemma drive_ends g initial pick k st fuel :
  NoDup (tn_id <$> g) ->
  (forall s, in_flight s <> ∅ -> ev_id (pick s) ∈ in_flight s) ->
  reachable g initial k st -> length g < fuel + k ->
  exists r, drive g initial pick fuel st = Some r /\
    (forall res, r = Ok res -> exists j s, reachable g initial j s /\
       in_flight s = ∅ /\ res = run_result s /\ forall n, ~ owed g s n).
Proof.
  intros Hnd Hpick. revert k st. induction fuel as [|fuel IH]; intros k st Hreach Hfuel.
  { pose proof (run_inv_bound g Hnd k st (run_inv_reachable g initial Hnd k st Hreach)). lia. }
  cbn [drive]. unfold turn.
  case_decide as Hempty.
  - eexists. split; [done|]. intros res [= <-]. exists k, st.
    split_and!; [done| |done|by apply nothing_owed with (initial := initial)].
    unfold spawn_ready in Hempty. simpl in Hempty. set_solver.
  - rewrite decide_True by (by apply Hpick).
    destruct (on_join _ _ _) as [st'|e] eqn:Hj; [|eexists; split; [done|]; by intros ? [=]].
    apply (IH (S k)); [|lia]. eapply reach_turn; [done|].
    unfold turn. rewrite decide_False by done. rewrite decide_True by (by apply Hpick).
    by rewrite Hj.
Qed.

(** C2. Scheduling safety.  In every state the loop can reach, in-flight,
    completed and failed nodes are disjoint, only eligible nodes have started
    (roots, [on_success] targets of completed nodes, [on_failure] targets of
    failed ones), a started node has all its dependencies completed, and the
    number of turns taken is the number of finished nodes, so no node runs
    twice. *)
Theorem runner_safety g initial k st
    (Hids : NoDup (tn_id <$> g)) (Hreach : reachable g initial k st) :
  in_flight st ## dom (completed st) /\ in_flight st ## dom (failed st) /\
  dom (completed st) ## dom (failed st) /\
  (forall x, x ∈ started st -> eligible g st x) /\
  (forall n, n ∈ g -> tn_id n ∈ started st ->
     Forall (fun d => is_Some (completed st !! d)) (depends_on n)) /\
  size (dom (completed st)) + size (dom (failed st)) = k /\ k <= length g.
Proof.
  pose proof (run_inv_reachable g initial Hids k st Hreach) as Hinv.
  pose proof (run_inv_bound g Hids k st Hinv) as Hb. destruct Hinv.
  split_and!; try done; [|lia].
  intros x Hx. by apply ri_act0, ri_started_act0.
Qed.

(** C3. Termination and completeness under every scheduler: whichever task in
    flight finishes next and however it ends, the loop returns after at most
    one turn per node plus the final one; unless a task panicked, it returns
    the outcome maps of a reachable state in which nothing is in flight and no
    eligible node with satisfied dependencies is left without an outcome. *)
Theorem runner_terminates g initial (pick : RunState -> JoinEvent)
    (Hids : NoDup (tn_id <$> g))
    (Hpick : forall s, in_flight s <> ∅ -> ev_id (pick s) ∈ in_flight s) :
  exists r, drive g initial pick (S (length g)) (run_init g) = Some r /\
    (forall res, r = Ok res -> exists k s, reachable g initial k s /\
       in_flight s = ∅ /\ res = run_result s /\ forall n, ~ owed g s n).
Proof. eapply drive_ends; [done | done | apply reach_init | lia]. Qed.

(** ** Concrete runs *)

Definition mk_node (id : string) (deps succ fail : list string) (from : option string) : TaskNode := {|
  tn_id := id; tn_config := SubagentConfig_new id "" "m" "p"; depends_on := deps;
  on_success := succ; on_failure := fail; input_from := from;
  input_template := Some "<{output}>"; base_input := None |}.

(** [a] feeds [b] on success and [c] on failure. *)
Definition branching : graph :=
  [mk_node "a" [] ["b"] ["c"] None; mk_node "b" ["a"] [] [] (Some "a"); mk_node "c" [] [] [] None].

Definition first_in_flight (s : RunState) : JoinEvent :=
  match elements (in_flight s) with x :: _ => TaskOk x "out" | [] => TaskPanic "" "" end.

Lemma first_in_flight_ok s : in_flight s <> ∅ -> ev_id (first_in_flight s) ∈ in_flight s.
Proof.
  intros H. unfold first_in_flight. destruct (elements (in_flight s)) as [|x l] eqn:E.
  - apply elements_empty_inv in E. by apply leibniz_equiv in E.
  - simpl. apply elem_of_elements. rewrite E. left.
Qed.

Lemma validate_correct_witness :
  is_Some (validate (@rev string) branching) /\
  (validate (@rev string) branching = Some (Ok tt) <-> valid_graph branching) /\
  (static_checks branching = Ok tt -> ~ valid_graph branching ->
   validate (@rev string) branching = Some (Err "task graph dependency cycle detected")).
Proof. apply (validate_correct (@rev string) branching). intros l. symmetry. apply Permutation_rev. Defined.

Example validate_branching : validate (@rev string) branching = Some (Ok tt).
Proof. vm_compute. reflexivity. Qed.

Example validate_cycle :
  validate (@rev string) [mk_node "a" ["b"] [] [] None; mk_node "b" ["a"] [] [] None]
  = Some (Err "task graph dependency cycle detected").
Proof. vm_compute. reflexivity. Qed.

Example run_branching :
  run (@rev string) branching "go" [TaskOk "a" "x"; TaskOk "c" "y"; TaskErr "b" "boom"]
  = Some (Ok (PartialSuccess {["a" := "x"; "c" := "y"]} {["b" := "boom"]})).
Proof. vm_compute. reflexivity. Qed.

Definition after_a : RunState :=
  match turn branching "go" (run_init branching) (Some (TaskOk "a" "x")) with
  | Some (Continue st) => st
  | _ => run_init branching
  end.

Lemma branching_ids : NoDup (tn_id <$> branching).
Proof. apply (bool_decide_unpack _). vm_compute. exact I. Qed.

Lemma after_a_reachable : reachable branching "go" 1 after_a.
Proof. apply (reach_turn _ _ _ _ (TaskOk "a" "x") _ (reach_init _ _)). vm_compute. reflexivity. Qed.

Lemma runner_safety_witness : size (dom (completed after_a)) + size (dom (failed after_a)) = 1.
Proof. apply (runner_safety branching "go" 1 after_a branching_ids after_a_reachable). Defined.

Lemma runner_terminates_witness :
  exists r, drive branching "go" first_in_flight 4 (run_init branching) = Some r /\
    (forall res, r = Ok res -> exists k s, reachable branching "go" k s /\
       in_flight s = ∅ /\ res = run_result s /\ forall n, ~ owed branching s n).
Proof.
  apply (runner_terminates branching "go" first_in_flight branching_ids first_in_flight_ok).
Defined.
