(* ===== verification/LoopDetect.v ===== *)
(** Tool-loop detection ([crates/agent-core/src/loop_detect.rs]): the sliding
    window of tool calls and the four detectors of [LoopDetector::detect]. *)

From S2P Require Import Prelude RustStr.
#[local] Open Scope string_scope.
#[local] Open Scope nat_scope.
#[local] Open Scope list_scope.

Definition HISTORY_SIZE : nat := 30.
Definition WARNING_THRESHOLD : nat := 10.
Definition CRITICAL_THRESHOLD : nat := 20.
Definition CIRCUIT_BREAKER_THRESHOLD : nat := 30.

(** A double quote. *)
Definition dq : string := chr1 34.

Definition is_known_poll_tool (name args : string) : bool :=
  if String.eqb name "command_status" then true
  else if String.eqb name "process"
       then contains args (dq +:+ "poll" +:+ dq) || contains args (dq +:+ "log" +:+ dq)
       else false.

Inductive LoopLevel := LevelNone | Warning | Critical.

#[export] Instance LoopLevel_eq_dec : EqDecision LoopLevel.
Proof. solve_decision. Defined.

Record LoopDetectionResult := { level : LoopLevel; message : option string }.

Definition ldr_ok := {| level := LevelNone; message := None |}.
Definition ldr_warn (m : string) := {| level := Warning; message := Some m |}.
Definition ldr_critical (m : string) := {| level := Critical; message := Some m |}.

Record ToolCallRecord := {
  tool_name : string;
  args_hash : Z;
  result_hash : option Z;
}.

Record LoopDetector := {
  history : list ToolCallRecord;
  history_size : nat;
}.

Definition LoopDetector_default : LoopDetector :=
  {| history := []; history_size := HISTORY_SIZE |}.

(** The loop of [no_progress_streak] over the records, newest first. *)
Fixpoint streak_loop (tool : string) (h : Z) (expected : option Z) (streak : nat)
    (recs : list ToolCallRecord) : nat :=
  match recs with
  | [] => streak
  | r :: recs' =>
      if negb (String.eqb (tool_name r) tool) || negb (args_hash r =? h)%Z then streak
      else match result_hash r with
           | None => streak
           | Some rh =>
               match expected with
               | None => streak_loop tool h (Some rh) 1 recs'
               | Some exp => if (rh =? exp)%Z then streak_loop tool h expected (S streak) recs'
                             else streak
               end
           end
  end.

Definition no_progress_streak (d : LoopDetector) (tool : string) (h : Z) : nat :=
  streak_loop tool h None 0 (rev (history d)).

Record PingPongResult := { pp_count : nat; pp_no_progress : bool }.
Definition pp_empty := {| pp_count := 0; pp_no_progress := false |}.

(** "Count alternating tail", newest record first. *)
Fixpoint alt_loop (last other : Z) (alt : nat) (recs : list ToolCallRecord) : nat :=
  match recs with
  | [] => alt
  | r :: recs' =>
      let expected := if Nat.even alt then last else other in
      if (args_hash r =? expected)%Z then alt_loop last other (S alt) recs' else alt
  end.

(** The loop over [&self.history[tail_start..]]: the final [hash_a], [hash_b]
    and [no_progress]. *)
Fixpoint progress_loop (last : Z) (a b : option Z) (recs : list ToolCallRecord)
  : option Z * option Z * bool :=
  match recs with
  | [] => (a, b, true)
  | r :: recs' =>
      match result_hash r with
      | None => (a, b, false)
      | Some rh =>
          if (args_hash r =? last)%Z
          then match a with
               | None => progress_loop last (Some rh) b recs'
               | Some h => if (h =? rh)%Z then progress_loop last a b recs' else (a, b, false)
               end
          else match b with
               | None => progress_loop last a (Some rh) recs'
               | Some h => if (h =? rh)%Z then progress_loop last a b recs' else (a, b, false)
               end
      end
  end.

Definition ping_pong_streak (d : LoopDetector) (current : Z) : PingPongResult :=
  match rev (history d) with
  | [] => pp_empty
  | l :: older =>
      match find_first (fun r => negb (args_hash r =? args_hash l)%Z) older with
      | None => pp_empty
      | Some o =>
          let other := args_hash o in
          let alt_count := alt_loop (args_hash l) other 0 (rev (history d)) in
          if alt_count <? 2 then pp_empty
          else if negb (current =? other)%Z then pp_empty
          else
            let '(a, b, np) :=
              progress_loop (args_hash l) None None (lastn alt_count (history d)) in
            {| pp_count := alt_count + 1;
               pp_no_progress :=
                 match a, b with Some _, Some _ => np | _, _ => false end |}
      end
  end.

Section Detector.
(** [hash_str]: the standard library's [DefaultHasher], whose algorithm its
    documentation leaves unspecified. *)
Context (hash_str : string -> Z).

Definition call_hash (tool args : string) : Z := hash_str (tool +:+ ":" +:+ args).

Definition record (d : LoopDetector) (tool args : string) : LoopDetector :=
  let h := history d ++
    [{| tool_name := tool; args_hash := call_hash tool args; result_hash := None |}] in
  {| history := if history_size d <? length h then tail h else h;
     history_size := history_size d |}.

Definition set_last_result (rh : Z) (l : list ToolCallRecord) : list ToolCallRecord :=
  match rev l with
  | [] => []
  | r :: older =>
      rev ({| tool_name := tool_name r; args_hash := args_hash r;
              result_hash := Some rh |} :: older)
  end.

Definition record_outcome (d : LoopDetector) (result : string) : LoopDetector :=
  {| history := set_last_result (hash_str result) (history d);
     history_size := history_size d |}.

Definition repeat_count (d : LoopDetector) (tool : string) (h : Z) : nat :=
  length (List.filter (fun r => String.eqb (tool_name r) tool && (args_hash r =? h)%Z) (history d)).

Definition detect (d : LoopDetector) (tool args : string) : LoopDetectionResult :=
  let h := call_hash tool args in
  let is_poll := is_known_poll_tool tool args in
  let no_progress := no_progress_streak d tool h in
  let n := pretty no_progress in
  if CIRCUIT_BREAKER_THRESHOLD <=? no_progress then
    ldr_critical ("CRITICAL: " +:+ tool +:+ " has repeated identical no-progress outcomes " +:+ n
      +:+ " times. Session execution blocked by global circuit breaker.")
  else if is_poll && (CRITICAL_THRESHOLD <=? no_progress) then
    ldr_critical ("CRITICAL: Called " +:+ tool +:+ " with identical arguments and no progress " +:+ n
      +:+ " times. This appears to be a stuck polling loop.")
  else if is_poll && (WARNING_THRESHOLD <=? no_progress) then
    ldr_warn ("WARNING: You have called " +:+ tool +:+ " " +:+ n
      +:+ " times with identical arguments and no progress. "
      +:+ "Stop polling and either increase wait time or report the task as failed.")
  else
    let pp := ping_pong_streak d h in
    let c := pretty (pp_count pp) in
    if (CRITICAL_THRESHOLD <=? pp_count pp) && pp_no_progress pp then
      ldr_critical ("CRITICAL: You are alternating between repeated tool-call patterns (" +:+ c
        +:+ " consecutive calls) with no progress. Stuck ping-pong loop detected.")
    else if WARNING_THRESHOLD <=? pp_count pp then
      ldr_warn ("WARNING: You are alternating between repeated tool-call patterns (" +:+ c
        +:+ " consecutive calls). This looks like a ping-pong loop; "
        +:+ "stop retrying and report the task as failed.")
    else if negb is_poll then
      let repeats := repeat_count d tool h in
      if WARNING_THRESHOLD <=? repeats then
        ldr_warn ("WARNING: You have called " +:+ tool +:+ " " +:+ pretty repeats
          +:+ " times with identical arguments. "
          +:+ "If this is not making progress, stop retrying and report the task as failed.")
      else ldr_ok
    else ldr_ok.

(** One tool call of the agent loop: [detect], then [record], and
    [record_outcome] when the tool ran (a denied or pending call has none). *)
Definition observe (d : LoopDetector) (call : string * string * option string) : LoopDetector :=
  let '(tool, args, out) := call in
  let d1 := record d tool args in
  match out with Some res => record_outcome d1 res | None => d1 end.
End Detector.

(** * The window is the tail of the call log *)

Section Window.
Context (hash_str : string -> Z).

Definition log_entry (call : string * string * option string) : ToolCallRecord :=
  let '(tool, args, out) := call in
  {| tool_name := tool; args_hash := call_hash hash_str tool args;
     result_hash := hash_str <$> out |}.

Definition observe_all (calls : list (string * string * option string)) : LoopDetector :=
  foldl (observe hash_str) LoopDetector_default calls.

Lemma set_last_result_snoc rh l r :
  set_last_result rh (l ++ [r])
  = l ++ [{| tool_name := tool_name r; args_hash := args_hash r; result_hash := Some rh |}].
Proof. unfold set_last_result. rewrite rev_app_distr. simpl. by rewrite rev_involutive. Qed.

Lemma observe_history d call :
  0 < history_size d ->
  forall l, history d = lastn (history_size d) l ->
  history (observe hash_str d call) = lastn (history_size d) (l ++ [log_entry call]) /\
  history_size (observe hash_str d call) = history_size d.
Proof.
  intros Hpos l Hl. destruct call as [[tool args] out].
  set (r0 := {| tool_name := tool; args_hash := call_hash hash_str tool args; result_hash := None |}).
  assert (Hrec : history (record hash_str d tool args)
    = (if history_size d <? length (lastn (history_size d) l ++ [r0])
       then tail (lastn (history_size d) l) else lastn (history_size d) l) ++ [r0]).
  { unfold record, r0. simpl. rewrite Hl. break; [|done].
    destruct (lastn (history_size d) l) eqn:E; [|done]. simpl in *. boolean. lia. }
  rewrite lastn_snoc by done. unfold observe, record_outcome. destruct out as [res|]; cbn [history history_size].
  - split; [|done]. rewrite Hrec, set_last_result_snoc. by rewrite !length_app.
  - by rewrite Hrec.
Qed.

(** The detector's window is exactly the last [HISTORY_SIZE] logged calls. *)
Lemma observe_all_history calls :
  history (observe_all calls) = lastn HISTORY_SIZE (log_entry <$> calls) /\
  history_size (observe_all calls) = HISTORY_SIZE.
Proof.
  unfold observe_all. induction calls as [|c calls IH] using rev_ind; [done|].
  rewrite foldl_app, fmap_app. destruct IH as [IH1 IH2]. simpl.
  destruct (observe_history (foldl (observe hash_str) LoopDetector_default calls) c) with
    (l := log_entry <$> calls) as [H1 H2]; rewrite ?IH2 in *; [unfold HISTORY_SIZE; lia | done |].
  done.
Qed.
End Window.

(** * The no-progress streak *)

(** The record repeats the call [(tool, h)] with result [r]. *)
Definition same_outcome (tool : string) (h r : Z) (rec : ToolCallRecord) : Prop :=
  tool_name rec = tool /\ args_hash rec = h /\ result_hash rec = Some r.

#[export] Instance same_outcome_dec tool h r rec : Decision (same_outcome tool h r rec).
Proof. unfold same_outcome. apply _. Defined.

(** Length of the longest prefix satisfying [P]. *)
Fixpoint prefix_len {A} (P : A -> Prop) `{!forall x, Decision (P x)} (l : list A) : nat :=
  match l with
  | [] => 0
  | x :: l' => if decide (P x) then S (prefix_len P l') else 0
  end.

Lemma prefix_len_Forall {A} (P : A -> Prop) `{!forall x, Decision (P x)} l :
  Forall P (take (prefix_len P l) l).
Proof. induction l as [|x l IH]; simpl; [constructor|]. case_decide; by constructor. Qed.

Lemma prefix_len_max {A} (P : A -> Prop) `{!forall x, Decision (P x)} l j :
  j <= length l -> Forall P (take j l) -> j <= prefix_len P l.
Proof.
  revert j. induction l as [|x l IH]; simpl; intros [|j] Hj HF; [lia..|].
  simpl in HF. apply Forall_cons in HF as [Hx HF]. rewrite decide_True by done.
  specialize (IH j). assert (j <= prefix_len P l) by (apply IH; [lia | done]). lia.
Qed.

Lemma prefix_len_le {A} (P : A -> Prop) `{!forall x, Decision (P x)} l : prefix_len P l <= length l.
Proof. induction l as [|x l IH]; simpl; [lia|]. case_decide; lia. Qed.

Lemma streak_loop_Some tool h r s recs :
  streak_loop tool h (Some r) s recs = s + prefix_len (same_outcome tool h r) recs.
Proof.
  revert s. induction recs as [|rec recs IH]; intros s; simpl; [lia|].
  destruct (String.eqb_spec (tool_name rec) tool) as [Et|Et]; simpl;
    [|rewrite decide_False by (intros (? & ? & ?); congruence); lia].
  destruct (Z.eqb_spec (args_hash rec) h) as [Eh|Eh]; simpl; [|rewrite decide_False by (intros (? & ? & ?); congruence); lia].
  destruct (result_hash rec) as [rh|] eqn:Er0; [|rewrite decide_False by (intros (? & ? & ?); congruence); lia].
  destruct (Z.eqb_spec rh r) as [->|Er].
  - rewrite IH, decide_True by done. lia.
  - rewrite decide_False by (intros (? & ? & ?); congruence). lia.
Qed.

Lemma streak_loop_None tool h recs :
  streak_loop tool h None 0 recs
  = match recs with
    | [] => 0
    | rec :: _ => match result_hash rec with
                  | Some r => prefix_len (same_outcome tool h r) recs
                  | None => 0
                  end
    end.
Proof.
  destruct recs as [|rec recs]; simpl; [done|].
  destruct (String.eqb_spec (tool_name rec) tool) as [Et|Et]; simpl.
  - destruct (Z.eqb_spec (args_hash rec) h) as [Eh|Eh]; simpl.
    + destruct (result_hash rec) as [rh|] eqn:Er; [|done].
      rewrite streak_loop_Some, decide_True by done. lia.
    + destruct (result_hash rec); [|done]. rewrite decide_False; [done|]. intros (? & ? & ?). congruence.
  - destruct (result_hash rec); [|done]. rewrite decide_False; [done|]. intros (? & ? & ?). congruence.
Qed.

Lemma Forall_lastn_rev {A} (P : A -> Prop) k l : Forall P (lastn k l) <-> Forall P (take k (rev l)).
Proof.
  rewrite lastn_rev. split; intros H; [|by apply Forall_rev].
  rewrite <- (rev_involutive (take k (rev l))). by apply Forall_rev.
Qed.

(** The streak is the length of the longest run of identical outcomes of the
    call at the end of the window. *)
Lemma no_progress_streak_spec d tool h :
  let k := no_progress_streak d tool h in
  k <= length (history d) /\
  (0 < k -> exists r, Forall (same_outcome tool h r) (lastn k (history d))) /\
  (forall j r, j <= length (history d) ->
     Forall (same_outcome tool h r) (lastn j (history d)) -> j <= k).
Proof.
  unfold no_progress_streak. rewrite streak_loop_None.
  setoid_rewrite Forall_lastn_rev. rewrite <- (length_rev (history d)).
  generalize (rev (history d)) as recs. intros [|rec recs]; [simpl; split_and!; lia|].
  destruct (result_hash rec) as [r|] eqn:Er.
  - split_and!; [apply prefix_len_le | intros _; exists r; apply prefix_len_Forall |].
    intros [|j] r' Hj HF; [lia|].
    assert (r' = r) as -> by (simpl in HF; apply Forall_cons in HF as [(? & ? & ?) _]; congruence).
    by apply prefix_len_max.
  - split_and!; [lia.. |]. intros [|j] r' Hj HF; [lia|].
    simpl in HF. apply Forall_cons in HF as [(? & ? & ?) _]. congruence.
Qed.

Lemma prefix_len_all {A} (P : A -> Prop) `{!forall x, Decision (P x)} l :
  Forall P l -> prefix_len P l = length l.
Proof. induction 1; simpl; [done|]. rewrite decide_True by done. by f_equal. Qed.

(** * Ping-pong evidence *)

Lemma alt_loop_spec last other k recs :
  exists m, alt_loop last other k recs = k + m /\ m <= length recs /\
    forall i rec, i < m -> recs !! i = Some rec ->
      args_hash rec = if Nat.even (k + i) then last else other.
Proof.
  revert k. induction recs as [|r recs IH]; intros k; cbn [alt_loop].
  { exists 0. split_and!; [lia | simpl; lia | lia]. }
  destruct (Z.eqb_spec (args_hash r) (if Nat.even k then last else other)) as [E|E].
  - destruct (IH (S k)) as (m & Hm & Hle & Hspec). exists (S m).
    split_and!; [lia | simpl; lia |]. intros [|i] rec Hi Hrec; simpl in Hrec.
    + injection Hrec as ->. by rewrite Nat.add_0_r.
    + replace (k + S i) with (S k + i) by lia. apply Hspec; [lia | done].
  - exists 0. split_and!; [lia | simpl; lia | lia].
Qed.

Lemma progress_loop_spec last a b recs ra rb :
  progress_loop last a b recs = (Some ra, Some rb, true) ->
  (forall x, a = Some x -> ra = x) /\ (forall x, b = Some x -> rb = x) /\
  Forall (fun r => result_hash r = Some (if (args_hash r =? last)%Z then ra else rb)) recs.
Proof.
  revert a b. induction recs as [|r recs IH]; intros a b H; cbn [progress_loop] in H.
  - simplify_eq. split_and!; [naive_solver | naive_solver | constructor].
  - destruct (result_hash r) as [rh|] eqn:Er; [|done].
    destruct (args_hash r =? last)%Z eqn:El.
    + destruct a as [h|].
      * destruct (Z.eqb_spec h rh) as [->|]; [|done].
        destruct (IH _ _ H) as (Ha & Hb & HF). split_and!; [done..|].
        constructor; [|done]. rewrite El, Er. by rewrite (Ha rh).
      * destruct (IH _ _ H) as (Ha & Hb & HF). split_and!; [done..|].
        constructor; [|done]. rewrite El, Er. by rewrite (Ha rh).
    + destruct b as [h|].
      * destruct (Z.eqb_spec h rh) as [->|]; [|done].
        destruct (IH _ _ H) as (Ha & Hb & HF). split_and!; [done..|].
        constructor; [|done]. rewrite El, Er. by rewrite (Hb rh).
      * destruct (IH _ _ H) as (Ha & Hb & HF). split_and!; [done..|].
        constructor; [|done]. rewrite El, Er. by rewrite (Hb rh).
Qed.

(** The newest [n] records alternate between two calls, each with one constant
    result: [a] with [ra] at even distance from the end, [b] with [rb] at odd. *)
Definition alternating (a b ra rb : Z) (n : nat) (l : list ToolCallRecord) : Prop :=
  a <> b /\ n <= length l /\
  forall i rec, i < n -> rev l !! i = Some rec ->
    args_hash rec = (if Nat.even i then a else b) /\
    result_hash rec = Some (if Nat.even i then ra else rb).

Lemma ping_pong_sound d current :
  let pp := ping_pong_streak d current in
  2 <= pp_count pp -> pp_no_progress pp = true ->
  exists a ra rb, alternating a current ra rb (pp_count pp - 1) (history d).
Proof.
  intros pp. subst pp. unfold ping_pong_streak.
  destruct (rev (history d)) as [|l older] eqn:Erev; [simpl; lia|].
  destruct (find_first _ older) as [o|] eqn:Eo; [|simpl; lia].
  apply find_first_Some in Eo as [_ Hne]. boolean.
  destruct (alt_loop_spec (args_hash l) (args_hash o) 0 (l :: older)) as (m & Hm & Hle & Hspec).
  rewrite Hm. simpl (0 + m). destruct (m <? 2) eqn:E2; [simpl; lia|]. boolean.
  destruct (Z.eqb_spec current (args_hash o)) as [->|]; [|simpl; lia]. simpl.
  destruct (progress_loop _ None None _) as [[[ra|] [rb|]] np] eqn:Ep; simpl; try done.
  intros _ ->. exists (args_hash l), ra, rb.
  apply progress_loop_spec in Ep as (_ & _ & HF). apply Forall_lastn_rev in HF.
  rewrite Erev in HF. rewrite Nat.add_sub. split_and!; [congruence | |].
  - rewrite <- (length_rev (history d)), Erev. done.
  - intros i rec Hi Hrec. rewrite Erev in Hrec.
    specialize (Hspec i rec Hi Hrec). simpl in Hspec. split; [done|].
    rewrite Forall_lookup in HF. specialize (HF i rec).
    rewrite lookup_take_lt in HF by lia. rewrite (HF Hrec), Hspec.
    destruct (Nat.even i); [by rewrite Z.eqb_refl|].
    destruct (Z.eqb_spec (args_hash o) (args_hash l)); [congruence | done].
Qed.

Section Theorems.
Context (hash_str : string -> Z).
Abbreviation detect := (detect hash_str).
Abbreviation call_hash := (call_hash hash_str).

Lemma lastn_replicate {A} k n (x : A) : lastn k (replicate n x) = replicate (Nat.min k n) x.
Proof.
  unfold lastn. rewrite length_replicate, drop_replicate. f_equal. lia.
Qed.

Lemma rev_replicate {A} n (x : A) : rev (replicate n x) = replicate n x.
Proof.
  induction n as [|n IH]; [done|]. simpl. rewrite IH. clear IH.
  induction n as [|n IH]; simpl; [done | by rewrite IH].
Qed.

(** The window after [n] identical calls with identical results. *)
Lemma stuck_history tool args res n :
  history (observe_all hash_str (replicate n (tool, args, Some res)))
  = replicate (Nat.min HISTORY_SIZE n)
      {| tool_name := tool; args_hash := call_hash tool args; result_hash := Some (hash_str res) |}.
Proof.
  rewrite (proj1 (observe_all_history hash_str _)), fmap_replicate, lastn_replicate. done.
Qed.

Lemma stuck_streak tool args res n d :
  history d = replicate n
    {| tool_name := tool; args_hash := call_hash tool args; result_hash := Some (hash_str res) |} ->
  no_progress_streak d tool (call_hash tool args) = n /\
  pp_count (ping_pong_streak d (call_hash tool args)) = 0 /\
  repeat_count d tool (call_hash tool args) = n.
Proof.
  intros Hd. unfold no_progress_streak, ping_pong_streak, repeat_count.
  rewrite Hd, rev_replicate. split_and!.
  - rewrite streak_loop_None. destruct n as [|n]; [done|]. simpl replicate. cbn [result_hash].
    rewrite prefix_len_all; [by rewrite length_cons, length_replicate|].
    constructor; [done|]. by apply Forall_replicate.
  - destruct n as [|n]; [done|]. cbn [replicate].
    match goal with |- context [find_first ?p ?l] => destruct (find_first p l) as [o|] eqn:E end;
      [|done].
    apply find_first_Some in E as [Hin Hne]. apply elem_of_replicate in Hin as [-> _].
    simpl in Hne. by rewrite Z.eqb_refl in Hne.
  - clear Hd. induction n as [|n IH]; [done|]. simpl.
    rewrite String.eqb_refl, Z.eqb_refl. simpl. by rewrite IH.
Qed.

(** A stuck call is caught at the documented thresholds: when an agent has
    made the same call [n] times with the same result, the next check of that
    call is critical from 30 on (from 20 on for polling calls), a warning
    from 10 on, and silent below, whatever the hash function. *)
Theorem stuck_call_levels tool args res n :
  level (detect (observe_all hash_str (replicate n (tool, args, Some res))) tool args)
  = if 30 <=? n then Critical
    else if is_known_poll_tool tool args && (20 <=? n) then Critical
    else if 10 <=? n then Warning
    else LevelNone.
Proof.
  set (d := observe_all hash_str (replicate n (tool, args, Some res))).
  destruct (stuck_streak tool args res _ d (stuck_history tool args res n)) as (Hs & Hp & Hr).
  unfold LoopDetect.detect. rewrite Hs, Hp, Hr.
  unfold HISTORY_SIZE, CIRCUIT_BREAKER_THRESHOLD, CRITICAL_THRESHOLD, WARNING_THRESHOLD.
  change (20 <=? 0) with false. change (10 <=? 0) with false.
  destruct (is_known_poll_tool tool args); cbn [andb negb];
    repeat match goal with |- context [?a <=? ?b] => destruct (Nat.leb_spec a b) end;
    cbn [andb]; done || lia.
Qed.

(** A critical verdict is never raised without evidence in the window:
    either the last 20 records all repeat the call with one and the same
    result, or the last 19 records alternate between this call and another
    one, each with a constant result. *)
Theorem critical_sound d tool args
    (Hcrit : level (detect d tool args) = Critical) :
  (exists r, 20 <= length (history d) /\
     Forall (same_outcome tool (call_hash tool args) r) (lastn 20 (history d))) \/
  (exists a ra rb, alternating a (call_hash tool args) ra rb 19 (history d)).
Proof.
  unfold LoopDetect.detect in Hcrit.
  destruct (no_progress_streak_spec d tool (call_hash tool args)) as (Hle & Hex & _).
  set (k := no_progress_streak d tool (call_hash tool args)) in *.
  assert (Hk : 20 <= k -> exists r, 20 <= length (history d) /\
     Forall (same_outcome tool (call_hash tool args) r) (lastn 20 (history d))).
  { intros Hk. destruct Hex as [r Hr]; [lia|]. exists r. split; [lia|].
    apply Forall_lastn_rev. apply Forall_lastn_rev in Hr.
    replace (take 20 (rev (history d))) with (take 20 (take k (rev (history d))))
      by (rewrite take_take; f_equal; lia).
    by apply Forall_take. }
  unfold CIRCUIT_BREAKER_THRESHOLD, CRITICAL_THRESHOLD, WARNING_THRESHOLD in *.
  destruct (30 <=? k) eqn:E1; [boolean; left; apply Hk; lia|].
  destruct (is_known_poll_tool tool args && (20 <=? k)) eqn:E2; [boolean; left; apply Hk; lia|].
  destruct (is_known_poll_tool tool args && (10 <=? k)); [done|].
  destruct ((20 <=? pp_count (ping_pong_streak d (call_hash tool args))) &&
            pp_no_progress (ping_pong_streak d (call_hash tool args))) eqn:E3.
  - right. boolean. destruct (ping_pong_sound d (call_hash tool args)) as (a & ra & rb & Halt);
      [lia | done |]. exists a, ra, rb. destruct Halt as (Hne & Hlen & Hall).
    split_and!; [done | lia |]. intros i rec Hi. apply Hall. lia.
  - exfalso. break; discriminate.
Qed.
End Theorems.

(** * Alternating calls *)

Fixpoint pairs {A} (m : nat) (x y : A) : list A :=
  match m with 0 => [] | S m' => x :: y :: pairs m' x y end.

Lemma pairs_length {A} m (x y : A) : length (pairs m x y) = 2 * m.
Proof. induction m as [|m IH]; simpl; lia. Qed.

Lemma pairs_add {A} m k (x y : A) : pairs (m + k) x y = pairs m x y ++ pairs k x y.
Proof. induction m as [|m IH]; simpl; [done|]. by rewrite IH. Qed.

Lemma pairs_snoc {A} m (x y : A) : pairs (S m) x y = pairs m x y ++ [x; y].
Proof. replace (S m) with (m + 1) by lia. by rewrite pairs_add. Qed.

Lemma pairs_rev {A} m (x y : A) : rev (pairs m x y) = pairs m y x.
Proof.
  induction m as [|m IH]; [done|]. rewrite pairs_snoc, rev_app_distr, IH. done.
Qed.

Lemma pairs_fmap {A B} (f : A -> B) m x y : f <$> pairs m x y = pairs m (f x) (f y).
Proof. induction m as [|m IH]; simpl; [done|]. by rewrite <- IH. Qed.

Lemma lastn_pairs {A} k m (x y : A) : lastn (2 * k) (pairs m x y) = pairs (Nat.min k m) x y.
Proof.
  destruct (decide (m <= k)) as [Hle|Hgt].
  - rewrite lastn_all by (rewrite pairs_length; lia). f_equal. lia.
  - unfold lastn. rewrite pairs_length. replace m with ((m - k) + k) at 2 by lia.
    rewrite pairs_add, drop_app_length' by (rewrite pairs_length; lia). f_equal. lia.
Qed.

Section PingPong.
Context (hash_str : string -> Z).
Context (ta aa ra tb ab rb : string).
Abbreviation ha := (call_hash hash_str ta aa).
Abbreviation hb := (call_hash hash_str tb ab).
Context (Hne : ha <> hb).

Let ea := log_entry hash_str (ta, aa, Some ra).
Let eb := log_entry hash_str (tb, ab, Some rb).

Lemma alt_loop_pairs j k : alt_loop hb ha (2 * j) (pairs k eb ea) = 2 * j + 2 * k.
Proof.
  revert j. induction k as [|k IH]; intros j; [simpl; lia|]. cbn [pairs alt_loop].
  change (args_hash eb) with hb. change (args_hash ea) with ha.
  assert (He : Nat.even (2 * j) = true) by (by rewrite Nat.even_mul).
  assert (Ho : Nat.even (S (2 * j)) = false) by (by rewrite Nat.even_succ, Nat.odd_mul).
  rewrite He, Z.eqb_refl, Ho, Z.eqb_refl. replace (S (S (2 * j))) with (2 * S j) by lia. rewrite IH. lia.
Qed.

Lemma progress_loop_pairs k :
  progress_loop hb (Some (hash_str rb)) (Some (hash_str ra)) (pairs k ea eb)
  = (Some (hash_str rb), Some (hash_str ra), true).
Proof using Hne.
  induction k as [|k IH]; [done|]. cbn [pairs progress_loop].
  change (args_hash eb) with hb. change (args_hash ea) with ha.
  change (result_hash eb) with (Some (hash_str rb)). change (result_hash ea) with (Some (hash_str ra)).
  destruct (Z.eqb_spec ha hb); [done|]. by rewrite !Z.eqb_refl, IH.
Qed.

Lemma ping_pong_pairs d k :
  history d = pairs (S k) ea eb ->
  ping_pong_streak d ha = {| pp_count := 2 * S k + 1; pp_no_progress := true |} /\
  no_progress_streak d ta ha = 0.
Proof using Hne.
  intros Hd. split.
  - unfold ping_pong_streak. rewrite Hd, pairs_rev. cbn [pairs find_first].
    change (args_hash eb) with hb. change (args_hash ea) with ha.
    destruct (Z.eqb_spec ha hb); [done|]. cbn [negb].
    change (args_hash ea) with ha.
    change (eb :: ea :: pairs k eb ea) with (pairs (S k) eb ea).
    pose proof (alt_loop_pairs 0 (S k)) as Halt. rewrite Nat.mul_0_r, Nat.add_0_l in Halt.
    rewrite Halt.
    replace (2 * S k <? 2) with false by (symmetry; apply Nat.ltb_ge; lia).
    rewrite Z.eqb_refl. cbn [negb].
    change (ea :: eb :: pairs k ea eb) with (pairs (S k) ea eb).
    rewrite lastn_pairs, Nat.min_id. cbn [pairs progress_loop].
    change (args_hash eb) with hb. change (args_hash ea) with ha.
    change (result_hash eb) with (Some (hash_str rb)). change (result_hash ea) with (Some (hash_str ra)).
    destruct (Z.eqb_spec ha hb); [done|]. by rewrite Z.eqb_refl, progress_loop_pairs.
  - unfold no_progress_streak. rewrite Hd, pairs_rev, streak_loop_None. simpl.
    destruct (Z.eqb_spec ha hb); [done|].
    rewrite decide_False; [done|]. intros (_ & Hh & _). simpl in Hh. congruence.
Qed.

(** A stuck ping-pong is caught: after [m >= 10] rounds of two different
    calls, each with a constant result, the next call that continues the
    alternation gets a critical verdict. *)
Theorem ping_pong_stopped m (Hm : 10 <= m) :
  level (detect hash_str (observe_all hash_str (pairs m (ta, aa, Some ra) (tb, ab, Some rb))) ta aa)
  = Critical.
Proof using Hne.
  set (d := observe_all hash_str _).
  assert (Hd : history d = pairs (Nat.min 15 m) ea eb).
  { unfold d. rewrite (proj1 (observe_all_history hash_str _)), pairs_fmap.
    change HISTORY_SIZE with (2 * 15). apply lastn_pairs. }
  destruct (Nat.min 15 m) as [|k] eqn:Ek; [lia|].
  destruct (ping_pong_pairs d k Hd) as [Hp Hs].
  unfold detect. rewrite Hp, Hs.
  change (CIRCUIT_BREAKER_THRESHOLD <=? 0) with false.
  change (CRITICAL_THRESHOLD <=? 0) with false. change (WARNING_THRESHOLD <=? 0) with false.
  rewrite !andb_false_r. cbn [pp_count pp_no_progress].
  replace (CRITICAL_THRESHOLD <=? 2 * S k + 1) with true; [done|].
  symmetry. apply Nat.leb_le. unfold CRITICAL_THRESHOLD. lia.
Qed.
End PingPong.

(** * The order of [record] and [detect]

    The comment on [detect] says to call it after [record]; the agent loop
    calls it before.  After [record] the newest record is the call itself and
    has no result yet, so no critical verdict is possible. *)
Theorem detect_after_record_never_critical hash_str d tool args :
  0 < history_size d ->
  level (detect hash_str (record hash_str d tool args) tool args) <> Critical.
Proof.
  intros Hpos. set (d' := record hash_str d tool args).
  assert (exists l, history d' = l ++ [{| tool_name := tool;
    args_hash := call_hash hash_str tool args; result_hash := None |}]) as [l Hl].
  { unfold d', record. simpl. case_match; [|by eexists].
    destruct (history d) as [|r h] eqn:E; [simpl in *; boolean; lia|]. simpl. by eexists. }
  assert (Hs : no_progress_streak d' tool (call_hash hash_str tool args) = 0).
  { unfold no_progress_streak. rewrite Hl, rev_app_distr, streak_loop_None. done. }
  assert (Hp : pp_count (ping_pong_streak d' (call_hash hash_str tool args)) = 0).
  { unfold ping_pong_streak. rewrite Hl, rev_app_distr. simpl rev. cbn [app].
    destruct (find_first _ (rev l)) as [o|] eqn:E; [|done].
    apply find_first_Some in E as [_ E]. cbn [args_hash] in *. boolean.
    case_match; [done|].
    destruct (Z.eqb_spec (call_hash hash_str tool args) (args_hash o)); [congruence | done]. }
  unfold detect. rewrite Hs, Hp.
  change (CIRCUIT_BREAKER_THRESHOLD <=? 0) with false.
  change (CRITICAL_THRESHOLD <=? 0) with false. change (WARNING_THRESHOLD <=? 0) with false.
  rewrite !andb_false_r. break; done.
Qed.

(** * Concrete runs *)

(** A toy hash: the length of the string. *)
Definition len_hash (s : string) : Z := Z.of_nat (len s).

Lemma critical_sound_witness :
  (exists r, 20 <= length (history (observe_all len_hash (replicate 30 ("t", "{}", Some "same")))) /\
     Forall (same_outcome "t" (call_hash len_hash "t" "{}") r)
       (lastn 20 (history (observe_all len_hash (replicate 30 ("t", "{}", Some "same")))))) \/
  (exists a ra rb, alternating a (call_hash len_hash "t" "{}") ra rb 19
     (history (observe_all len_hash (replicate 30 ("t", "{}", Some "same"))))).
Proof. apply (critical_sound len_hash). vm_compute. reflexivity. Defined.

Lemma ping_pong_stopped_witness :
  level (detect len_hash (observe_all len_hash
    (pairs 12 ("a", "", Some "x") ("bb", "", Some "y"))) "a" "") = Critical.
Proof.
  apply (ping_pong_stopped len_hash "a" "" "x" "bb" "" "y").
  - vm_compute. discriminate.
  - lia.
Defined.

Example progress_is_silent :
  level (detect len_hash (observe_all len_hash
    [("t", "", Some "1"); ("t", "", Some "22"); ("t", "", Some "333")]) "t" "") = LevelNone.
Proof. vm_compute. reflexivity. Qed.
