(* ===== verification/EchoTracker.v ===== *)
(** Echo detection ([crates/agent-core/src/echo_detect.rs]): the LRU structure
    that remembers the agent's own messages under an exact and a normalized key. *)

From S2P Require Import Prelude RustStr.
#[local] Open Scope string_scope.
#[local] Open Scope nat_scope.
#[local] Open Scope list_scope.

(** [EchoTracker]: [recent] is the [VecDeque], front first. *)
Record EchoTracker := {
  et_recent : list string;
  et_set : gset string;
  et_capacity : nat;
}.

Definition echo_new (capacity : nat) : EchoTracker :=
  {| et_recent := []; et_set := ∅; et_capacity := capacity |}.

Definition echo_default : EchoTracker := echo_new 100.

Definition combined_key (session_key body : string) : string := session_key +:+ ":" +:+ body.

(** [set.remove(key)] that hit, followed by [recent.retain(|s| s != key)]. *)
Definition consume (key : string) (t : EchoTracker) : EchoTracker := {|
  et_recent := retain (fun s => negb (String.eqb s key)) (et_recent t);
  et_set := et_set t ∖ {[key]};
  et_capacity := et_capacity t |}.

Definition insert_entry (key : string) (t : EchoTracker) : EchoTracker :=
  if decide (key ∈ et_set t) then t
  else
    let '(recent, set) :=
      match et_recent t with
      | old :: rest =>
          if et_capacity t <=? length (et_recent t)
          then (rest, et_set t ∖ {[old]}) else (et_recent t, et_set t)
      | [] => ([], et_set t)
      end in
    {| et_recent := recent ++ [key]; et_set := {[key]} ∪ set; et_capacity := et_capacity t |}.

Section Echo.
Context `{UnicodeCase}.

Definition normalize (text : string) : string :=
  join " " (to_lowercase <$> split_whitespace text).

Definition norm_key (text : string) : string := "~:" +:+ normalize text.

Definition remember (text : string) (t : EchoTracker) : EchoTracker :=
  if decide (text ∈ et_set t) then t
  else insert_entry (norm_key text) (insert_entry text t).

Definition has (text : string) (t : EchoTracker) : bool * EchoTracker :=
  let nk := norm_key text in
  if decide (text ∈ et_set t) then
    let t1 := consume text t in
    (true, if decide (nk ∈ et_set t1) then consume nk t1 else t1)
  else if decide (nk ∈ et_set t) then (true, consume nk t)
  else (false, t).

Definition forget (text : string) (t : EchoTracker) : EchoTracker := {|
  et_recent := et_recent t;
  et_set := et_set t ∖ {[text]} ∖ {[norm_key text]};
  et_capacity := et_capacity t |}.

(** * Invariant *)

(** The queue and the set hold the same keys, without repetition, within the
    capacity (a tracker of capacity 0 still holds one key). *)
Record echo_inv (t : EchoTracker) : Prop := {
  ei_nodup : NoDup (et_recent t);
  ei_same : forall k, k ∈ et_set t <-> k ∈ et_recent t;
  ei_len : length (et_recent t) <= Nat.max 1 (et_capacity t);
}.

Lemma echo_inv_new c : echo_inv (echo_new c).
Proof. split; simpl; [constructor | set_solver | lia]. Qed.

Lemma echo_inv_consume k t : echo_inv t -> echo_inv (consume k t).
Proof.
  intros [Hnd Hs Hl]. split; simpl.
  - by apply retain_NoDup.
  - intros x. rewrite elem_of_difference, Hs, elem_of_retain, not_elem_of_singleton.
    destruct (String.eqb_spec x k); naive_solver.
  - pose proof (retain_length (fun s => negb (String.eqb s k)) (et_recent t)). lia.
Qed.

Lemma echo_inv_insert k t : echo_inv t -> echo_inv (insert_entry k t).
Proof.
  intros [Hnd Hs Hl]. unfold insert_entry. case_decide as Hk; [done|].
  rewrite Hs in Hk.
  destruct (et_recent t) as [|old rest] eqn:Er.
  - split; simpl; [apply NoDup_singleton | | lia].
    intros x. rewrite elem_of_union, Hs. set_solver.
  - destruct (et_capacity t <=? length (old :: rest)) eqn:Ec; boolean; split; simpl in *.
    + apply NoDup_cons in Hnd as [? ?]. apply NoDup_app. split_and!; [done | set_solver | apply NoDup_singleton].
    + intros x. apply NoDup_cons in Hnd as [? ?]. rewrite elem_of_union, elem_of_difference, Hs.
      destruct (decide (x = old)); set_solver.
    + rewrite length_app. simpl. lia.
    + apply (NoDup_app (old :: rest)). split_and!; [done | set_solver | apply NoDup_singleton].
    + intros x. rewrite elem_of_union, Hs. set_solver.
    + rewrite length_app. simpl. lia.
Qed.

Lemma insert_entry_capacity k t : et_capacity (insert_entry k t) = et_capacity t.
Proof. unfold insert_entry. break; done. Qed.

(** The calls of a tracker that never forgets explicitly. *)
Inductive EchoOp := Remember (text : string) | Has (text : string).

Definition echo_step (t : EchoTracker) (op : EchoOp) : EchoTracker :=
  match op with Remember x => remember x t | Has x => (has x t).2 end.

Lemma echo_inv_step t op : echo_inv t -> echo_inv (echo_step t op).
Proof.
  intros Ht. destruct op as [x|x]; simpl.
  - unfold remember. case_decide; [done|]. by apply echo_inv_insert, echo_inv_insert.
  - unfold has. repeat case_decide; simpl; try done;
      repeat apply echo_inv_consume; done.
Qed.

Lemma echo_inv_run t ops : echo_inv t -> echo_inv (foldl echo_step t ops).
Proof. revert t. induction ops as [|op ops IH]; intros t Ht; [done|]. by apply IH, echo_inv_step. Qed.

Lemma echo_capacity_run t ops : et_capacity (foldl echo_step t ops) = et_capacity t.
Proof.
  revert t. induction ops as [|op ops IH]; intros t; [done|]. simpl. rewrite IH.
  destruct op as [x|x]; simpl.
  - unfold remember. case_decide; [done|]. by rewrite !insert_entry_capacity.
  - unfold has. repeat case_decide; done.
Qed.

(** ** A remembered text is recognised *)

Lemma insert_entry_in k t : k ∈ et_set (insert_entry k t).
Proof. unfold insert_entry. case_decide; [done|]. break; simpl; set_solver. Qed.

(** With room for two keys, inserting the second does not evict the first:
    the evicted key is at the front and the first one is at the back. *)
Lemma insert_entry_keeps k j t :
  echo_inv t -> 2 <= et_capacity t -> k ∉ et_set t ->
  k ∈ et_set (insert_entry j (insert_entry k t)).
Proof.
  intros Ht Hc Hk. pose proof (echo_inv_insert k t Ht) as Ht1.
  assert (Hlast : exists l, et_recent (insert_entry k t) = l ++ [k]).
  { unfold insert_entry. rewrite decide_False by done.
    match goal with |- context [let '(_, _) := ?m in _] => destruct m as [l s] end. by exists l. }
  destruct Hlast as [l Hl]. pose proof (insert_entry_capacity k t) as Hc1.
  pose proof (insert_entry_in k t) as Hin.
  set (t1 := insert_entry k t) in *. clearbody t1.
  unfold insert_entry. case_decide; [done|].
  destruct (et_recent t1) as [|old rest] eqn:Er; simpl; [set_solver|].
  destruct (et_capacity t1 <=? S (length rest)) eqn:E; simpl; [|set_solver].
  boolean. destruct l as [|x l]; [simplify_eq/=; lia|]. simplify_eq/=.
  destruct Ht1 as [Hnd _ _]. rewrite Er in Hnd. apply NoDup_cons in Hnd as [Hnd _]. set_solver.
Qed.

Lemma has_after_remember t x y :
  echo_inv t -> 2 <= et_capacity t -> x ∉ et_set t ->
  y = x \/ normalize y = normalize x -> (has y (remember x t)).1 = true.
Proof.
  intros Ht Hc Hx Hy. unfold remember. rewrite decide_False by done.
  assert (Hin : y = x -> y ∈ et_set (insert_entry (norm_key x) (insert_entry x t)))
    by (intros ->; by apply insert_entry_keeps).
  assert (Hnk : norm_key x ∈ et_set (insert_entry (norm_key x) (insert_entry x t)))
    by apply insert_entry_in.
  unfold has. case_decide as E1; [done|]. rewrite decide_True; [done|].
  destruct Hy as [Hy|Hy]; [naive_solver|]. unfold norm_key in *. by rewrite Hy.
Qed.

(** The two halves of the LRU structure agree: after any sequence of
    [remember] and [has] calls the queue and the set hold the same keys, the
    queue has no duplicates and it never exceeds the capacity. *)
Theorem echo_lru_invariant c ops :
  let t := foldl echo_step (echo_new c) ops in
  NoDup (et_recent t) /\ (forall k, k ∈ et_set t <-> k ∈ et_recent t) /\
  length (et_recent t) <= Nat.max 1 c.
Proof.
  pose proof (echo_inv_run _ ops (echo_inv_new c)) as [Hnd Hs Hl].
  pose proof (echo_capacity_run (echo_new c) ops) as Hc. simpl in Hc. rewrite Hc in Hl. done.
Qed.

(** A message the agent just sent is recognised as an echo, in any case
    and spacing, and the hit is consumed: with capacity at least two, after
    [remember x] a text equal to [x] up to normalization is an echo, and after
    the exact text has hit once it no longer does. *)
Theorem echo_recognised c ops x y
    (Hc : 2 <= c) (Hnew : x ∉ et_set (foldl echo_step (echo_new c) ops))
    (Hy : y = x \/ normalize y = normalize x) :
  let t := remember x (foldl echo_step (echo_new c) ops) in
  (has y t).1 = true /\ (has x (has x t).2).1 = false.
Proof.
  set (t0 := foldl echo_step (echo_new c) ops) in *.
  assert (Ht0 : echo_inv t0) by (apply echo_inv_run, echo_inv_new).
  assert (Hc0 : et_capacity t0 = c) by (apply (echo_capacity_run (echo_new c))).
  split; [apply has_after_remember; [done | lia | done | done]|].
  assert (Hin : x ∈ et_set (remember x t0)).
  { unfold remember. rewrite decide_False by done. apply insert_entry_keeps; [done | lia | done]. }
  set (t := remember x t0) in *. clearbody t.
  unfold has. rewrite (decide_True (P := x ∈ et_set t)) by done. simpl.
  repeat case_decide; simpl in *; set_solver.
Qed.

(** [forget] leaves the queue alone, so a stale queue entry can later evict
    the key of a message remembered again: the echo is then missed although
    the tracker holds only two messages and has room for them. *)
Theorem forget_leaves_stale_entries :
  (has "a" (remember "b" (remember "a" (forget "a" (remember "a" (echo_new 4)))))).1 = false.
Proof.
  assert (Ha : norm_key "a" = "~:a") by (unfold norm_key, normalize; simpl; by rewrite to_lowercase_ascii).
  assert (Hb : norm_key "b" = "~:b") by (unfold norm_key, normalize; simpl; by rewrite to_lowercase_ascii).
  unfold has, remember, forget. rewrite !Ha, Hb. vm_compute. reflexivity.
Qed.
End Echo.

Lemma echo_recognised_witness :
  let H := ascii_case in
  let t := remember "Hello  World" (foldl echo_step (echo_new 2) [Remember "x"; Has "X"]) in
  (has "hello world" t).1 = true /\ (has "Hello  World" (has "Hello  World" t).2).1 = false.
Proof.
  intros H. apply (@echo_recognised ascii_case 2 [Remember "x"; Has "X"] "Hello  World" "hello world").
  - lia.
  - apply (bool_decide_unpack _). vm_compute. exact I.
  - right. vm_compute. reflexivity.
Defined.
