(* ===== verification/Chat.v ===== *)
(** Chat data and token counting ([crates/llm-core/src/chat.rs],
    [crates/llm-core/src/tokenizer.rs]) and the UTF-8 helper of
    [crates/agent-core/src/str_util.rs].  The BPE tokenizer is the [tiktoken]
    crate: a parameter of the counting functions. *)

From S2P Require Import Prelude RustStr.
#[local] Open Scope string_scope.
#[local] Open Scope nat_scope.
#[local] Open Scope list_scope.

Inductive MessageRole := System | User | Assistant | Tool.

#[export] Instance MessageRole_eq_dec : EqDecision MessageRole.
Proof. solve_decision. Defined.

Record ToolCallFunction := { fn_name : string; fn_arguments : string }.
#[export] Instance ToolCallFunction_eq_dec : EqDecision ToolCallFunction.
Proof. solve_decision. Defined.

Record ToolCall := { tc_id : string; tc_type : string; tc_function : ToolCallFunction }.
#[export] Instance ToolCall_eq_dec : EqDecision ToolCall.
Proof. solve_decision. Defined.

Record ChatMessage := {
  role : MessageRole;
  content : string;
  name : option string;
  tool_calls : option (list ToolCall);
  tool_call_id : option string;
}.
#[export] Instance ChatMessage_eq_dec : EqDecision ChatMessage.
Proof. solve_decision. Defined.

Definition plain (r : MessageRole) (c : string) : ChatMessage :=
  {| role := r; content := c; name := None; tool_calls := None; tool_call_id := None |}.

Definition set_content (c : string) (m : ChatMessage) : ChatMessage :=
  {| role := role m; content := c; name := name m; tool_calls := tool_calls m;
     tool_call_id := tool_call_id m |}.

Definition is_tool (m : ChatMessage) : bool := bool_decide (role m = Tool).

(** [messages.iter().filter_map(|m| m.tool_calls.as_ref()).flatten().map(|tc| tc.id)]
    collected into a set. *)
Definition call_ids (msgs : list ChatMessage) : gset string :=
  list_to_set (msgs ≫= fun m => tc_id <$> default [] (tool_calls m)).

Record Usage := { prompt_tokens : Z; completion_tokens : Z; total_tokens : Z }.

(** * [floor_char_boundary] *)

Fixpoint floor_loop (s : string) (i : nat) : nat :=
  match i with
  | 0 => 0
  | S i' => if is_char_boundary s i then i else floor_loop s i'
  end.

Definition floor_char_boundary (s : string) (index : nat) : nat :=
  if len s <=? index then len s else floor_loop s index.

Lemma floor_loop_spec s i :
  floor_loop s i <= i /\ is_char_boundary s (floor_loop s i) = true /\
  forall j, j <= i -> is_char_boundary s j = true -> j <= floor_loop s i.
Proof.
  induction i as [|i (IH1 & IH2 & IH3)]; cbn [floor_loop].
  - split_and!; [lia | done | lia].
  - destruct (is_char_boundary s (S i)) eqn:E; split_and!; try done; [lia|].
    intros j Hj Hb. destruct (decide (j = S i)) as [->|]; [congruence|]. apply IH3; [lia | done].
Qed.

(** The helper returns the largest character boundary at or below the index, so
    slicing there does not panic. *)
Lemma floor_char_boundary_spec s i :
  floor_char_boundary s i <= Nat.min i (len s) /\
  is_char_boundary s (floor_char_boundary s i) = true /\
  (forall j, j <= i -> j <= len s -> is_char_boundary s j = true -> j <= floor_char_boundary s i).
Proof.
  unfold floor_char_boundary. destruct (len s <=? i) eqn:E; boolean.
  - split_and!; [lia | apply is_char_boundary_len | lia].
  - destruct (floor_loop_spec s i) as (H1 & H2 & H3). split_and!; [lia | done | naive_solver].
Qed.

Lemma slice_floor s i : slice_to s (floor_char_boundary s i) = Some (str_take (floor_char_boundary s i) s).
Proof.
  unfold slice_to. destruct (floor_char_boundary_spec s i) as (_ & -> & _). done.
Qed.

Lemma slice_from_floor s i :
  slice_from s (floor_char_boundary s i) = Some (str_drop (floor_char_boundary s i) s).
Proof.
  unfold slice_from. destruct (floor_char_boundary_spec s i) as (_ & -> & _). done.
Qed.

(** A line feed inside a prefix is a boundary of the whole string. *)
Lemma rfind_nl_byte s i : rfind s nl = Some i -> byte_at s i = Some LF.
Proof.
  revert i. induction s as [|c s IH]; cbn [rfind]; intros i.
  - done.
  - destruct (rfind s nl) as [j|]; [intros [= <-]; by apply IH|].
    destruct (String.prefix nl (String c s)) eqn:E; [|done]. intros [= <-].
    apply prefix_spec in E as [r Hr]. unfold nl in Hr. by injection Hr as -> _.
Qed.

Lemma byte_at_take s k i c : byte_at (str_take k s) i = Some c -> byte_at s i = Some c.
Proof.
  revert s i. induction k as [|k IH]; intros [|d s] [|i]; simpl; try done. apply IH.
Qed.

Lemma rfind_nl_boundary s k i :
  rfind (str_take k s) nl = Some i -> is_char_boundary s i = true.
Proof.
  intros H. apply rfind_nl_byte, byte_at_take in H. unfold is_char_boundary.
  rewrite H. by destruct (i =? 0).
Qed.

(** * Token counting *)

Section Tokens.
(** [tiktoken_rs::get_bpe_from_model(model)] and the encoder's output length. *)
Context (bpe_for_model : string -> option (string -> Z)).

Definition estimate_fallback (text : string) : Z := ((Z.of_nat (len text) + 3) / 4)%Z.

(** [TokenCounter::estimate(text, model).total_tokens]. *)
Definition estimate (text model : string) : Z :=
  match bpe_for_model model with Some bpe => bpe text | None => estimate_fallback text end.

Definition estimate_message (model : string) (m : ChatMessage) : Z :=
  (estimate (content m) model + 4 +
   match name m with Some n => estimate n model | None => 0 end)%Z.

Definition estimate_messages (msgs : list ChatMessage) (model : string) : Z :=
  (foldl (fun total m => total + estimate_message model m) 0 msgs + 3)%Z.
End Tokens.

Section MaxTokens.
Context `{UnicodeCase}.

Definition max_tokens (model : string) : option Z :=
  let m := to_lowercase model in
  if contains m "gpt-4o" then Some 128000%Z
  else if contains m "gpt-4-turbo" then Some 128000%Z
  else if contains m "gpt-4-32k" then Some 32768%Z
  else if contains m "gpt-4" then Some 8192%Z
  else if contains m "gpt-3.5-turbo-16k" then Some 16385%Z
  else if contains m "gpt-3.5" then Some 4096%Z
  else if contains m "claude-3" || contains m "claude-4" then Some 200000%Z
  else if contains m "gemini-pro" then Some 32768%Z
  else if contains m "gemini-1.5" then Some 1048576%Z
  else None.

Definition remaining_tokens (model : string) (used : Z) : option Z :=
  (fun max => sat_sub max used) <$> max_tokens model.
End MaxTokens.
