(* ===== verification/TranscriptRepair.v ===== *)
(** Repair of tool-call transcripts
    ([crates/agent-core/src/transcript_repair.rs]): pairing tool results with
    the assistant calls they answer, and cleaning malformed calls. *)

From S2P Require Import Prelude RustStr Chat.
#[local] Open Scope string_scope.
#[local] Open Scope nat_scope.
#[local] Open Scope list_scope.

Definition SYNTHETIC_ERROR : string :=
  "[oclaw] missing tool result in session history; inserted synthetic error result for transcript repair.".

Record RepairReport := {
  added_synthetic : nat;
  dropped_duplicates : nat;
  dropped_orphans : nat;
  moved_results : bool;
}.

Definition make_synthetic_result (id tool : string) : ChatMessage := {|
  role := Tool; content := SYNTHETIC_ERROR; name := Some tool; tool_calls := None;
  tool_call_id := Some id |}.

(** The id under which a message enters the pool of results. *)
Definition result_id (m : ChatMessage) : option string :=
  if is_tool m then tool_call_id m else None.

(** [result_pool.entry(id).or_default().push(msg)] over all messages. *)
Definition result_pool (msgs : list ChatMessage) : gmap string (list ChatMessage) :=
  foldl (fun pool m => match result_id m with
                       | Some id => <[id := default [] (pool !! id) ++ [m]]> pool
                       | None => pool
                       end) ∅ msgs.

(** The variables the main loop mutates. *)
Record RepairState := {
  rs_result : list ChatMessage;
  rs_added : nat;
  rs_dups : nat;
  rs_seen : gset string;
}.

(** [for tr in results]: [continue] on a seen id, [break] after placing one. *)
Fixpoint place_results (id : string) (results : list ChatMessage) (st : RepairState)
  : bool * RepairState :=
  match results with
  | [] => (false, st)
  | tr :: rest =>
      if decide (id ∈ rs_seen st)
      then place_results id rest {| rs_result := rs_result st; rs_added := rs_added st;
                                    rs_dups := S (rs_dups st); rs_seen := rs_seen st |}
      else (true, {| rs_result := rs_result st ++ [tr]; rs_added := rs_added st;
                     rs_dups := rs_dups st; rs_seen := {[id]} ∪ rs_seen st |})
  end.

Definition add_synthetic (tc : ToolCall) (st : RepairState) : RepairState := {|
  rs_result := rs_result st ++ [make_synthetic_result (tc_id tc) (fn_name (tc_function tc))];
  rs_added := S (rs_added st); rs_dups := rs_dups st; rs_seen := {[tc_id tc]} ∪ rs_seen st |}.

Definition repair_call (pool : gmap string (list ChatMessage)) (st : RepairState) (tc : ToolCall)
  : RepairState :=
  match pool !! tc_id tc with
  | Some results =>
      let '(placed, st1) := place_results (tc_id tc) results st in
      if negb placed && bool_decide (tc_id tc ∉ rs_seen st1) then add_synthetic tc st1 else st1
  | None => if decide (tc_id tc ∈ rs_seen st) then st else add_synthetic tc st
  end.

(** The tool calls the loop pairs for a message. *)
Definition calls (m : ChatMessage) : list ToolCall :=
  if decide (role m = Assistant) then default [] (tool_calls m) else [].

Definition repair_message (pool : gmap string (list ChatMessage)) (st : RepairState) (m : ChatMessage)
  : RepairState :=
  if is_tool m then st
  else foldl (repair_call pool)
         {| rs_result := rs_result st ++ [m]; rs_added := rs_added st; rs_dups := rs_dups st;
            rs_seen := rs_seen st |} (calls m).

Definition repair_loop (pool : gmap string (list ChatMessage)) (msgs : list ChatMessage) : RepairState :=
  foldl (repair_message pool) {| rs_result := []; rs_added := 0; rs_dups := 0; rs_seen := ∅ |} msgs.

Definition count_orphans (seen : gset string) (msgs : list ChatMessage) : nat :=
  length (retain (fun m => match result_id m with
                           | Some id => bool_decide (id ∉ seen)
                           | None => false
                           end) msgs).

Definition check_results_moved (original repaired : list ChatMessage) : bool :=
  negb (bool_decide (omap result_id original = omap result_id repaired)).

Definition repair_tool_use_result_pairing (msgs : list ChatMessage)
  : list ChatMessage * RepairReport :=
  let st := repair_loop (result_pool msgs) msgs in
  (rs_result st,
   {| added_synthetic := rs_added st;
      dropped_duplicates := rs_dups st;
      dropped_orphans := count_orphans (rs_seen st) msgs;
      moved_results := check_results_moved msgs (rs_result st) |}).

(** * Sanitizing tool calls *)

Definition valid_call (allowed : option (gset string)) (tc : ToolCall) : bool :=
  if String.eqb (tc_id tc) "" || String.eqb (fn_name (tc_function tc)) "" then false
  else if 64 <? len (fn_name (tc_function tc)) then false
  else match allowed with
       | Some a => bool_decide (fn_name (tc_function tc) ∈ a)
       | None => true
       end.

Definition sanitize_message (allowed : option (gset string)) (m : ChatMessage) : option ChatMessage :=
  match role m, tool_calls m with
  | Assistant, Some tcs =>
      let kept := retain (valid_call allowed) tcs in
      if bool_decide (kept = []) && String.eqb (content m) "" then None
      else Some {| role := role m; content := content m; name := name m;
                   tool_calls := if decide (kept = []) then None else Some kept;
                   tool_call_id := tool_call_id m |}
  | _, _ => Some m
  end.

Definition sanitize_tool_call_inputs (msgs : list ChatMessage) (allowed : option (gset string))
  : list ChatMessage := omap (sanitize_message allowed) msgs.

(** [repair_jsonl_lines]: [parse] is [serde_json::from_str::<ChatMessage>]. *)
Definition repair_jsonl_lines (parse : string -> option ChatMessage) (raw : string)
  : list ChatMessage * nat :=
  foldl (fun '(valid, dropped) line =>
           let trimmed := trim line in
           if String.eqb trimmed "" then (valid, dropped)
           else match parse trimmed with
                | Some m => (valid ++ [m], dropped)
                | None => (valid, S dropped)
                end) ([], 0) (lines raw).

(** * Specification

    The repaired transcript as a function of the answers: every message that is
    not a tool result, each followed by one answer per tool call id not
    answered before. *)

Section Spec.
Context (answer : ToolCall -> ChatMessage).

Fixpoint answers (seen : gset string) (tcs : list ToolCall) : list ChatMessage :=
  match tcs with
  | [] => []
  | tc :: tcs' =>
      if decide (tc_id tc ∈ seen) then answers seen tcs'
      else answer tc :: answers ({[tc_id tc]} ∪ seen) tcs'
  end.

Fixpoint paired_transcript (seen : gset string) (msgs : list ChatMessage) : list ChatMessage :=
  match msgs with
  | [] => []
  | m :: ms =>
      if is_tool m then paired_transcript seen ms
      else m :: answers seen (calls m) ++
           paired_transcript (list_to_set (tc_id <$> calls m) ∪ seen) ms
  end.
End Spec.

(** The first recorded result of a call, or the synthetic error. *)
Definition first_result (msgs : list ChatMessage) (tc : ToolCall) : ChatMessage :=
  match find_first (fun m => bool_decide (result_id m = Some (tc_id tc))) msgs with
  | Some m => m
  | None => make_synthetic_result (tc_id tc) (fn_name (tc_function tc))
  end.

(** ** The pool *)

Lemma result_pool_snoc msgs m :
  result_pool (msgs ++ [m]) = match result_id m with
    | Some id => <[id := default [] (result_pool msgs !! id) ++ [m]]> (result_pool msgs)
    | None => result_pool msgs
    end.
Proof. unfold result_pool. by rewrite foldl_app. Qed.

Lemma find_first_snoc {A} (p : A -> bool) l x :
  find_first p (l ++ [x]) = match find_first p l with
                            | Some y => Some y
                            | None => if p x then Some x else None
                            end.
Proof. induction l as [|y l IH]; simpl; [done|]. by destruct (p y). Qed.

(** A pool entry is a non-empty list that starts with the first result. *)
Lemma result_pool_lookup msgs id :
  match result_pool msgs !! id with
  | Some [] => False
  | Some (r :: _) => find_first (fun m => bool_decide (result_id m = Some id)) msgs = Some r
  | None => find_first (fun m => bool_decide (result_id m = Some id)) msgs = None
  end.
Proof.
  induction msgs as [|m msgs IH] using rev_ind.
  { unfold result_pool. simpl. by rewrite lookup_empty. }
  rewrite result_pool_snoc, find_first_snoc.
  destruct (result_id m) as [j|] eqn:Ej.
  - destruct (decide (j = id)) as [->|Hne].
    + rewrite lookup_insert_eq. destruct (result_pool msgs !! id) as [[|r rs]|]; simpl.
      * done.
      * by rewrite IH.
      * rewrite IH. by rewrite bool_decide_eq_true_2.
    + rewrite lookup_insert_ne by done. rewrite bool_decide_eq_false_2 by congruence.
      destruct (result_pool msgs !! id) as [[|r rs]|]; [done | by rewrite IH | by rewrite IH].
  - rewrite bool_decide_eq_false_2 by congruence.
    destruct (result_pool msgs !! id) as [[|r rs]|]; [done | by rewrite IH | by rewrite IH].
Qed.

(** ** The loops *)

Lemma place_results_seen id results st :
  id ∈ rs_seen st ->
  exists d, place_results id results st =
    (false, {| rs_result := rs_result st; rs_added := rs_added st; rs_dups := d; rs_seen := rs_seen st |}).
Proof.
  revert st. induction results as [|tr rest IH]; intros st Hs; cbn [place_results].
  - exists (rs_dups st). by destruct st.
  - rewrite decide_True by done. apply (IH {| rs_seen := rs_seen st |}). done.
Qed.

Lemma repair_call_spec msgs st tc :
  let st' := repair_call (result_pool msgs) st tc in
  rs_result st' = rs_result st ++ answers (first_result msgs) (rs_seen st) [tc] /\
  rs_seen st' = {[tc_id tc]} ∪ rs_seen st.
Proof.
  unfold repair_call, first_result. cbn [answers].
  pose proof (result_pool_lookup msgs (tc_id tc)) as Hp.
  destruct (result_pool msgs !! tc_id tc) as [[|r rs]|].
  - done.
  - rewrite Hp. destruct (decide (tc_id tc ∈ rs_seen st)) as [Hs|Hs].
    + destruct (place_results_seen (tc_id tc) (r :: rs) st Hs) as [d ->]. simpl.
      rewrite bool_decide_eq_false_2 by tauto. simpl. rewrite app_nil_r. split; [done | set_solver].
    + cbn [place_results]. rewrite decide_False by done. done.
  - rewrite Hp. case_decide; simpl; [rewrite app_nil_r; split; [done | set_solver] | done].
Qed.

Lemma answers_app f seen l1 l2 :
  answers f seen (l1 ++ l2) = answers f seen l1 ++ answers f (list_to_set (tc_id <$> l1) ∪ seen) l2.
Proof.
  revert seen. induction l1 as [|tc l1 IH]; intros seen; simpl.
  { f_equal. set_solver. }
  case_decide as E.
  - rewrite IH. do 2 f_equal. set_solver.
  - simpl. rewrite IH. do 3 f_equal. set_solver.
Qed.

Lemma repair_calls_spec msgs st tcs :
  let st' := foldl (repair_call (result_pool msgs)) st tcs in
  rs_result st' = rs_result st ++ answers (first_result msgs) (rs_seen st) tcs /\
  rs_seen st' = list_to_set (tc_id <$> tcs) ∪ rs_seen st.
Proof.
  revert st. induction tcs as [|tc tcs IH]; intros st; simpl.
  { rewrite app_nil_r. split; [done | set_solver]. }
  destruct (repair_call_spec msgs st tc) as [H1 H2]. destruct (IH (repair_call (result_pool msgs) st tc)) as [H3 H4].
  rewrite H3, H4, H1, H2, <- app_assoc. split; [|set_solver]. f_equal.
  symmetry. etransitivity; [exact (answers_app _ _ [tc] tcs)|]. do 2 f_equal. set_solver.
Qed.

Lemma repair_loop_spec msgs todo st :
  rs_result (foldl (repair_message (result_pool msgs)) st todo)
  = rs_result st ++ paired_transcript (first_result msgs) (rs_seen st) todo.
Proof.
  revert st. induction todo as [|m ms IH]; intros st; simpl; [by rewrite app_nil_r|].
  rewrite IH. unfold repair_message. destruct (is_tool m); [done|].
  destruct (repair_calls_spec msgs {| rs_result := rs_result st ++ [m]; rs_added := rs_added st;
    rs_dups := rs_dups st; rs_seen := rs_seen st |} (calls m)) as [H1 H2].
  simpl in H1, H2. rewrite H1, H2, <- !app_assoc. done.
Qed.

Lemma repair_is_paired msgs :
  (repair_tool_use_result_pairing msgs).1 = paired_transcript (first_result msgs) ∅ msgs.
Proof. simpl. unfold repair_loop. by rewrite repair_loop_spec. Qed.

(** ** Idempotence *)

Lemma first_result_id msgs tc : result_id (first_result msgs tc) = Some (tc_id tc).
Proof.
  unfold first_result. destruct (find_first _ msgs) as [m|] eqn:E; [|done].
  apply find_first_Some in E as [_ E]. by boolean.
Qed.

Lemma result_id_is_tool m id : result_id m = Some id -> is_tool m = true.
Proof. unfold result_id. by destruct (is_tool m). Qed.

(** Ids answered in a transcript built from [answers]. *)
Lemma omap_answers f seen tcs id :
  (forall tc, result_id (f tc) = Some (tc_id tc)) ->
  id ∈ omap result_id (answers f seen tcs) <-> id ∈ tc_id <$> tcs /\ id ∉ seen.
Proof.
  intros Hf. revert seen. induction tcs as [|tc tcs IH]; intros seen; simpl.
  { split; [intros H; inversion H | intros [H _]; inversion H]. }
  rewrite elem_of_cons. case_decide as Hs.
  - rewrite IH. split; [naive_solver|]. intros [[->|?] ?]; [done | naive_solver].
  - simpl. rewrite Hf, elem_of_cons, IH. rewrite elem_of_union, elem_of_singleton.
    destruct (decide (id = tc_id tc)) as [->|]; naive_solver.
Qed.

Lemma omap_paired f seen msgs id :
  (forall tc, result_id (f tc) = Some (tc_id tc)) ->
  id ∈ omap result_id (paired_transcript f seen msgs) -> id ∉ seen.
Proof.
  intros Hf. revert seen. induction msgs as [|m ms IH]; intros seen; simpl.
  { intros H; inversion H. }
  destruct (is_tool m) eqn:Et; [apply IH|]. simpl. unfold result_id at 1. rewrite Et.
  rewrite omap_app, elem_of_app. intros [Hin|Hin].
  - by apply omap_answers in Hin as [_ ?].
  - apply IH in Hin. set_solver.
Qed.

Lemma answers_NoDup f seen tcs :
  (forall tc, result_id (f tc) = Some (tc_id tc)) -> NoDup (omap result_id (answers f seen tcs)).
Proof.
  intros Hf. revert seen. induction tcs as [|tc tcs IH]; intros seen; simpl; [constructor|].
  case_decide; [apply IH|]. simpl. rewrite Hf. constructor; [|apply IH].
  rewrite omap_answers by done. set_solver.
Qed.

Lemma paired_NoDup f seen msgs :
  (forall tc, result_id (f tc) = Some (tc_id tc)) ->
  NoDup (omap result_id (paired_transcript f seen msgs)).
Proof.
  intros Hf. revert seen. induction msgs as [|m ms IH]; intros seen; simpl; [constructor|].
  destruct (is_tool m) eqn:Et; [apply IH|]. simpl. unfold result_id at 1. rewrite Et, omap_app.
  apply NoDup_app. split_and!; [by apply answers_NoDup | | apply IH].
  intros id Hin Hin'. apply omap_answers in Hin as [Hin _]; [|done].
  apply omap_paired in Hin'; [|done]. set_solver.
Qed.

(** In a list whose result ids are distinct, looking an id up finds the one
    message that carries it. *)
Lemma find_unique l m id :
  NoDup (omap result_id l) -> m ∈ l -> result_id m = Some id ->
  find_first (fun x => bool_decide (result_id x = Some id)) l = Some m.
Proof.
  induction l as [|x l IH]; intros Hnd Hin Hid; [by apply not_elem_of_nil in Hin|].
  cbn [find_first]. case_bool_decide as Hx.
  - apply elem_of_cons in Hin as [->|Hin]; [done|]. exfalso.
    simpl in Hnd. rewrite Hx in Hnd. apply NoDup_cons in Hnd as [Hn _].
    apply Hn. apply list_elem_of_omap. by exists m.
  - apply elem_of_cons in Hin as [->|Hin]; [congruence|]. apply IH; try done.
    simpl in Hnd. destruct (result_id x); [by apply NoDup_cons in Hnd as [_ ?] | done].
Qed.

Lemma paired_app_tools f seen l ms :
  Forall (fun m => is_tool m = true) l ->
  paired_transcript f seen (l ++ ms) = paired_transcript f seen ms.
Proof. induction 1 as [|m l Hm _ IH]; simpl; [done|]. by rewrite Hm. Qed.

Lemma answers_tools f seen tcs :
  (forall tc, result_id (f tc) = Some (tc_id tc)) ->
  Forall (fun m => is_tool m = true) (answers f seen tcs).
Proof.
  intros Hf. revert seen. induction tcs as [|tc tcs IH]; intros seen; simpl; [constructor|].
  case_decide; [apply IH|]. constructor; [by eapply result_id_is_tool | apply IH].
Qed.

Lemma answers_agree f g seen tcs :
  (forall tc, result_id (f tc) = Some (tc_id tc)) ->
  (forall m, m ∈ answers f seen tcs -> forall tc, result_id m = Some (tc_id tc) -> g tc = m) ->
  answers g seen tcs = answers f seen tcs.
Proof.
  intros Hf. revert seen. induction tcs as [|tc tcs IH]; intros seen Hg; simpl; [done|].
  simpl in Hg. case_decide; [by apply IH|]. f_equal.
  - apply Hg; [by left | done].
  - apply IH. intros m Hm. apply Hg. by right.
Qed.

Lemma paired_fixed f g seen msgs :
  (forall tc, result_id (f tc) = Some (tc_id tc)) ->
  (forall m, m ∈ paired_transcript f seen msgs ->
     forall tc, result_id m = Some (tc_id tc) -> g tc = m) ->
  paired_transcript g seen (paired_transcript f seen msgs) = paired_transcript f seen msgs.
Proof.
  intros Hf. revert seen. induction msgs as [|m ms IH]; intros seen Hg; simpl; [done|].
  simpl in Hg. destruct (is_tool m) eqn:Et; [by apply IH|]. simpl. rewrite Et. f_equal.
  rewrite (answers_agree f g); [|done|].
  - f_equal. rewrite paired_app_tools by (by apply answers_tools).
    apply IH. intros x Hx. apply Hg. right. apply elem_of_app. by right.
  - intros x Hx. apply Hg. right. apply elem_of_app. by left.
Qed.

Lemma repair_first_result msgs m tc :
  m ∈ paired_transcript (first_result msgs) ∅ msgs -> result_id m = Some (tc_id tc) ->
  first_result (paired_transcript (first_result msgs) ∅ msgs) tc = m.
Proof.
  intros Hin Hid. unfold first_result at 1.
  erewrite find_unique; [done | apply paired_NoDup, first_result_id | done | done].
Qed.

(** C34. Repair produces exactly the paired transcript: all messages other than
    tool results, in their order, each assistant message immediately followed
    by one result per call id not answered earlier, namely the first recorded
    result of that id or a synthetic error when none was recorded; no result id
    occurs twice. *)
Theorem repair_pairing msgs :
  let out := (repair_tool_use_result_pairing msgs).1 in
  out = paired_transcript (first_result msgs) ∅ msgs /\
  NoDup (omap result_id out) /\
  retain (fun m => negb (is_tool m)) out = retain (fun m => negb (is_tool m)) msgs.
Proof.
  cbn zeta. rewrite repair_is_paired. split_and!; [done | apply paired_NoDup, first_result_id |].
  generalize (first_result_id msgs). generalize (first_result msgs) as f. intros f Hf.
  generalize (∅ : gset string) as seen.
  induction msgs as [|m ms IH]; intros seen; simpl; [done|].
  destruct (is_tool m) eqn:Et; simpl; [apply IH|]. rewrite Et. simpl. f_equal.
  rewrite List.filter_app. fold (@retain ChatMessage). rewrite IH.
  pose proof (answers_tools f seen (calls m) Hf) as Ht.
  induction Ht as [|x l Hx _ IHl]; [done|]. simpl. by rewrite Hx.
Qed.

(** Repair is idempotent: a repaired transcript is already paired, so
    repairing it again returns it unchanged and reports no moved result. *)
Theorem repair_idempotent msgs :
  let out := (repair_tool_use_result_pairing msgs).1 in
  (repair_tool_use_result_pairing out).1 = out /\
  moved_results (repair_tool_use_result_pairing out).2 = false.
Proof.
  cbn zeta. assert (Hfix : (repair_tool_use_result_pairing (repair_tool_use_result_pairing msgs).1).1
                    = (repair_tool_use_result_pairing msgs).1).
  { rewrite (repair_is_paired (repair_tool_use_result_pairing msgs).1), repair_is_paired.
    apply paired_fixed; [apply first_result_id|].
    intros m tc Hm Hid. by apply repair_first_result. }
  split; [exact Hfix|].
  change (check_results_moved (repair_tool_use_result_pairing msgs).1
    (repair_tool_use_result_pairing (repair_tool_use_result_pairing msgs).1).1 = false).
  rewrite Hfix. unfold check_results_moved. by rewrite bool_decide_eq_true_2.
Qed.

(** Extra recorded results of one id are dropped without being counted. *)
Definition dup_demo : list ChatMessage :=
  [ {| role := Assistant; content := ""; name := None;
       tool_calls := Some [{| tc_id := "1"; tc_type := "function";
                              tc_function := {| fn_name := "f"; fn_arguments := "{}" |} |}];
       tool_call_id := None |};
    {| role := Tool; content := "a"; name := None; tool_calls := None; tool_call_id := Some "1" |};
    {| role := Tool; content := "b"; name := None; tool_calls := None; tool_call_id := Some "1" |} ].

Theorem dropped_duplicate_not_counted :
  length (repair_tool_use_result_pairing dup_demo).1 = 2 /\
  dropped_duplicates (repair_tool_use_result_pairing dup_demo).2 = 0.
Proof. vm_compute. done. Qed.
