(* ===== verification/History.v ===== *)
(** History shaping before a model call: the turn window
    ([crates/agent-core/src/history.rs]) and the trimming of old tool results
    ([crates/agent-core/src/pruning.rs]). *)

From S2P Require Import Prelude RustStr Chat.
From stdpp Require Import pretty.
#[local] Open Scope string_scope.
#[local] Open Scope nat_scope.
#[local] Open Scope list_scope.

(** * [limit_history_turns] *)

Definition is_role (r : MessageRole) (m : ChatMessage) : bool := bool_decide (role m = r).

(** The number of leading system messages. *)
Fixpoint prefix_end (messages : list ChatMessage) : nat :=
  match messages with
  | msg :: ms => if is_role System msg then S (prefix_end ms) else 0
  | [] => 0
  end.

(** The loop over [rest.iter().enumerate().rev()]: [idxs] are the indices still
    to visit, in the order of the loop. *)
Fixpoint find_cut (rest : list ChatMessage) (max_turns : nat) (idxs : list nat)
    (user_count cut_idx : nat) : nat :=
  match idxs with
  | [] => cut_idx
  | i :: idxs' =>
      match rest !! i with
      | Some msg =>
          if is_role User msg then
            if max_turns <=? S user_count then i
            else find_cut rest max_turns idxs' (S user_count) cut_idx
          else find_cut rest max_turns idxs' user_count cut_idx
      | None => find_cut rest max_turns idxs' user_count cut_idx
      end
  end.

Definition keeps_result (kept : gset string) (m : ChatMessage) : bool :=
  if is_role Tool m then
    match tool_call_id m with Some id => bool_decide (id ∈ kept) | None => true end
  else true.

Definition limit_history_turns (messages : list ChatMessage) (max_turns : nat) : list ChatMessage :=
  if (max_turns =? 0) || (length messages =? 0) then messages
  else
    let pe := prefix_end messages in
    let rest := drop pe messages in
    let cut_idx := find_cut rest max_turns (rev (seq 0 (length rest))) 0 (length rest) in
    let result := take pe messages ++ drop cut_idx rest in
    retain (keeps_result (call_ids result)) result.

(** * [prune_tool_results] *)

Record PruningConfig := {
  soft_trim_max_chars : nat;
  head_chars : nat;
  tail_chars : nat;
  hard_clear_max_chars : nat;
  keep_last_assistants : nat;
}.

Definition PruningConfig_default : PruningConfig := {|
  soft_trim_max_chars := 4000; head_chars := 1500; tail_chars := 1500;
  hard_clear_max_chars := N.to_nat 50000; keep_last_assistants := 3;
|}.

Definition num (n : nat) : string := pretty (N.of_nat n).

(** The last [keep_last_assistants] assistant messages, newest first. *)
Definition protected_assistants (keep : nat) (messages : list ChatMessage) : list ChatMessage :=
  take keep (retain (is_role Assistant) (rev messages)).

Definition protected_tc_ids (keep : nat) (messages : list ChatMessage) : gset string :=
  call_ids (protected_assistants keep messages).

(** The new content of one unprotected tool result; [None] is a slice panic. *)
Definition trimmed_content (cfg : PruningConfig) (c : string) : option string :=
  let l := len c in
  if hard_clear_max_chars cfg <? l then
    Some ("[Tool result cleared — " +:+ num l +:+ " chars]")
  else if soft_trim_max_chars cfg <? l then
    let head_end := floor_char_boundary c (Nat.min (head_chars cfg) l) in
    let tail_start := floor_char_boundary c (l - tail_chars cfg) in
    head ← slice_to c head_end;
    tail ← slice_from c tail_start;
    Some (head +:+ "..." +:+ nl +:+ "[trimmed — " +:+ num l +:+ " chars total]" +:+ nl
          +:+ "..." +:+ tail)
  else Some c.

Definition prune_one (cfg : PruningConfig) (prot : gset string) (m : ChatMessage)
  : option ChatMessage :=
  if negb (is_role Tool m) then Some m
  else if match tool_call_id m with Some id => bool_decide (id ∈ prot) | None => false end
  then Some m
  else c ← trimmed_content cfg (content m); Some (set_content c m).

Definition prune_tool_results (messages : list ChatMessage) (cfg : PruningConfig)
  : option (list ChatMessage) :=
  mapM (prune_one cfg (protected_tc_ids (keep_last_assistants cfg) messages)) messages.

(** * The window *)

Definition user_turns (msgs : list ChatMessage) : nat := length (retain (is_role User) msgs).

Lemma prefix_end_le ms : prefix_end ms <= length ms.
Proof. induction ms as [|m ms IH]; simpl; [lia|]. destruct (is_role System m); lia. Qed.

Lemma user_turns_app a b : user_turns (a ++ b) = user_turns a + user_turns b.
Proof. unfold user_turns, retain. by rewrite List.filter_app, length_app. Qed.

(** The loop on the indices below [n], where [kept] users were seen above. *)
Lemma find_cut_spec rest maxt n seen c :
  0 < maxt -> n <= length rest -> seen < maxt -> seen = user_turns (drop n rest) ->
  let r := find_cut rest maxt (rev (seq 0 n)) seen c in
  (maxt <= user_turns rest /\
     exists m ms, drop r rest = m :: ms /\ role m = User /\ user_turns (m :: ms) = maxt)
  \/ (user_turns rest < maxt /\ r = c).
Proof.
  intros Hm. revert seen. induction n as [|n IH]; intros seen Hn Hs Hseen; cbn zeta.
  { right. simpl. rewrite drop_0 in Hseen. split; [lia | done]. }
  rewrite seq_S, rev_app_distr. simpl.
  destruct (lookup_lt_is_Some_2 rest n) as [m Hl]; [lia|]. rewrite Hl.
  assert (Hd : drop n rest = m :: drop (S n) rest) by (by apply drop_S).
  assert (Hu : user_turns (drop n rest) = (if is_role User m then 1 else 0) + seen).
  { rewrite Hd, Hseen. unfold user_turns. simpl. by destruct (is_role User m). }
  destruct (is_role User m) eqn:Er.
  - destruct (maxt <=? S seen) eqn:E; boolean.
    + left. assert (Hk : user_turns (m :: drop (S n) rest) = maxt) by (rewrite <- Hd; lia).
      split; [| exists m, (drop (S n) rest); split_and!; auto].
      * rewrite <- (take_drop n rest), user_turns_app, Hd, Hk. lia.
      * unfold is_role in Er. by boolean.
    + apply IH; lia.
  - apply IH; lia.
Qed.

Lemma prefix_end_system ms : Forall (fun m => role m = System) (take (prefix_end ms) ms).
Proof.
  induction ms as [|m ms IH]; simpl; [constructor|].
  destruct (is_role System m) eqn:E; simpl; [|constructor].
  constructor; [|done]. unfold is_role in E. by boolean.
Qed.

(** [limit_history_turns] with [max_turns > 0]: the leading system
    messages are kept; when the conversation after them has at least
    [max_turns] user messages, what follows is its suffix that starts at the
    [max_turns]-th user message from the end, less the tool results whose call
    is not in the kept part.  When it has fewer user messages nothing of it is
    kept: a conversation shorter than the window is dropped whole. *)
Theorem limit_history_window messages max_turns :
  0 < max_turns ->
  exists sys before kept,
    Forall (fun m => role m = System) sys /\
    messages = sys ++ before ++ kept /\
    limit_history_turns messages max_turns
      = retain (keeps_result (call_ids (sys ++ kept))) (sys ++ kept) /\
    (max_turns <= user_turns (before ++ kept) ->
       user_turns kept = max_turns /\ exists m ms, kept = m :: ms /\ role m = User) /\
    (user_turns (before ++ kept) < max_turns -> kept = []).
Proof.
  intros Hm. destruct messages as [|m0 ms0].
  { exists [], [], []. unfold limit_history_turns. simpl.
    destruct (max_turns =? 0); split_and!; try done; cbn; lia. }
  set (msgs := m0 :: ms0). set (pe := prefix_end msgs). set (rest := drop pe msgs).
  set (cut := find_cut rest max_turns (rev (seq 0 (length rest))) 0 (length rest)).
  exists (take pe msgs), (take cut rest), (drop cut rest).
  split_and!; [apply prefix_end_system | by rewrite take_drop; unfold rest; rewrite take_drop | | |].
  - unfold limit_history_turns. replace (max_turns =? 0) with false by (symmetry; apply Nat.eqb_neq; lia).
    done.
  - intros Hge. rewrite take_drop in Hge.
    destruct (find_cut_spec rest max_turns (length rest) 0 (length rest))
      as [(_ & m & ms & Hd & Hr & Hu)|[? _]]; [lia | lia | lia | by rewrite drop_all | | lia].
    fold cut in Hd. rewrite Hd. eauto.
  - intros Hlt. rewrite take_drop in Hlt.
    destruct (find_cut_spec rest max_turns (length rest) 0 (length rest))
      as [(? & _)|[_ Hc]]; [lia | lia | lia | by rewrite drop_all | lia | ].
    fold cut in Hc. rewrite Hc. apply drop_all.
Qed.

Definition call_msg (id : string) : ChatMessage :=
  {| role := Assistant; content := ""; name := None; tool_call_id := None;
     tool_calls := Some [{| tc_id := id; tc_type := "function";
                            tc_function := {| fn_name := "f"; fn_arguments := "{}" |} |}] |}.
Definition result_msg (id c : string) : ChatMessage :=
  {| role := Tool; content := c; name := None; tool_calls := None; tool_call_id := Some id |}.

Lemma limit_history_window_witness :
  let msgs := [plain System "s"; plain User "a"; call_msg "1"; plain User "b"; result_msg "1" "r"] in
  0 < 1 /\ limit_history_turns msgs 1 = [plain System "s"; plain User "b"] /\
  exists sys before kept,
    Forall (fun m => role m = System) sys /\ msgs = sys ++ before ++ kept /\
    limit_history_turns msgs 1 = retain (keeps_result (call_ids (sys ++ kept))) (sys ++ kept) /\
    (1 <= user_turns (before ++ kept) ->
       user_turns kept = 1 /\ exists m ms, kept = m :: ms /\ role m = User) /\
    (user_turns (before ++ kept) < 1 -> kept = []).
Proof. split; [lia|]. split; [vm_compute; reflexivity|]. apply (limit_history_window _ 1). lia. Defined.

(** One user message under a window of ten turns: only the system prompt is left. *)
Theorem short_history_dropped :
  limit_history_turns [plain System "s"; plain User "hello"] 10 = [plain System "s"].
Proof. vm_compute. reflexivity. Qed.

(** * Pruning *)

(** What a trimmed content is: a head of at most [head_chars] bytes and a tail
    that holds at least the last [tail_chars] bytes, around the marker. *)
Definition is_trim (cfg : PruningConfig) (c c' : string) : Prop :=
  exists head mid1 mid2 tail,
    c = head +:+ mid1 /\ c = mid2 +:+ tail /\ len head <= head_chars cfg /\
    Nat.min (tail_chars cfg) (len c) <= len tail /\
    c' = head +:+ "..." +:+ nl +:+ "[trimmed — " +:+ num (len c) +:+ " chars total]" +:+ nl
         +:+ "..." +:+ tail.

Definition prune_spec (cfg : PruningConfig) (prot : gset string) (m m' : ChatMessage) : Prop :=
  m' = set_content (content m') m /\
  if is_role Tool m && negb (match tool_call_id m with
                             | Some id => bool_decide (id ∈ prot) | None => false end)
  then
    (hard_clear_max_chars cfg < len (content m) ->
       content m' = "[Tool result cleared — " +:+ num (len (content m)) +:+ " chars]") /\
    (len (content m) <= hard_clear_max_chars cfg -> soft_trim_max_chars cfg < len (content m) ->
       is_trim cfg (content m) (content m')) /\
    (len (content m) <= hard_clear_max_chars cfg -> len (content m) <= soft_trim_max_chars cfg ->
       content m' = content m)
  else m' = m.

Lemma floor_trim cfg c :
  is_trim cfg c
    (str_take (floor_char_boundary c (Nat.min (head_chars cfg) (len c))) c +:+ "..." +:+ nl
     +:+ "[trimmed — " +:+ num (len c) +:+ " chars total]" +:+ nl
     +:+ "..." +:+ str_drop (floor_char_boundary c (len c - tail_chars cfg)) c).
Proof.
  destruct (floor_char_boundary_spec c (Nat.min (head_chars cfg) (len c))) as (H1 & _ & _).
  destruct (floor_char_boundary_spec c (len c - tail_chars cfg)) as (H2 & _ & _).
  eexists _, _, _, _. split_and!;
    [by rewrite str_take_drop | by rewrite str_take_drop | | | done].
  - rewrite len_str_take. lia.
  - rewrite len_str_drop. lia.
Qed.

Lemma prune_one_spec cfg prot m :
  exists m', prune_one cfg prot m = Some m' /\ prune_spec cfg prot m m'.
Proof.
  assert (Hid : m = set_content (content m) m) by (by destruct m).
  unfold prune_one, prune_spec. destruct (is_role Tool m) eqn:Et; simpl; [|eauto].
  destruct (match tool_call_id m with Some _ => _ | None => _ end) eqn:Ep; simpl; [eauto|].
  unfold trimmed_content.
  destruct (hard_clear_max_chars cfg <? len (content m)) eqn:Eh; boolean; simpl.
  { eexists. split_and!; [done.. | lia | lia]. }
  destruct (soft_trim_max_chars cfg <? len (content m)) eqn:Es; boolean; simpl.
  - rewrite slice_floor, slice_from_floor. simpl. eexists.
    split_and!; [done | done | lia | intros _ _; apply floor_trim | lia].
  - eexists. split_and!; [done | done | lia | lia | done].
Qed.

Lemma prune_all_spec cfg prot messages :
  exists out, mapM (prune_one cfg prot) messages = Some out /\
    Forall2 (prune_spec cfg prot) messages out.
Proof.
  induction messages as [|m ms (out & Ho & HF)]; simpl; [by exists []|].
  destruct (prune_one_spec cfg prot m) as (m' & -> & Hm'). simpl. rewrite Ho. simpl.
  eexists. split; [done|]. by constructor.
Qed.

(** Pruning never panics and changes nothing but the contents of tool
    results that do not answer a call of the last [keep_last_assistants]
    assistant messages: such a content longer than the hard limit is replaced
    by a marker, one longer than the soft limit by its head and tail around a
    marker, and any other is unchanged. *)
Theorem prune_tool_results_spec messages cfg :
  exists out, prune_tool_results messages cfg = Some out /\
    Forall2 (prune_spec cfg (protected_tc_ids (keep_last_assistants cfg) messages)) messages out.
Proof. apply prune_all_spec. Qed.

(** An old result is trimmed, the result of the last assistant message is not. *)
Example prune_demo :
  prune_tool_results
    [call_msg "1"; result_msg "1" "0123456789"; call_msg "2"; result_msg "2" "0123456789"]
    {| soft_trim_max_chars := 6; head_chars := 2; tail_chars := 3; hard_clear_max_chars := 20;
       keep_last_assistants := 1 |}
  = Some [call_msg "1";
          result_msg "1" ("01..." +:+ nl +:+ "[trimmed — 10 chars total]" +:+ nl +:+ "...789");
          call_msg "2"; result_msg "2" "0123456789"].
Proof. vm_compute. reflexivity. Qed.
