(* ===== verification/F64.v ===== *)
(** IEEE 754 binary64 numbers, as the Standard Library's [SpecFloat] computes
    them, with the conversions Rust's [as] performs. *)

From S2P Require Import Prelude.
From Stdlib Require Import SpecFloat.
#[local] Open Scope Z_scope.

Abbreviation f64 := spec_float.

(** [u as f64]: rounded to nearest, ties to even. *)
Definition f64_of_Z (z : Z) : f64 := binary_normalize 53 1024 z 0 false.

Definition f64_mul : f64 -> f64 -> f64 := SFmul 53 1024.
Definition f64_add : f64 -> f64 -> f64 := SFadd 53 1024.
Definition f64_sub : f64 -> f64 -> f64 := SFsub 53 1024.
Definition f64_div : f64 -> f64 -> f64 := SFdiv 53 1024.
Definition f64_ltb : f64 -> f64 -> bool := SFltb.
Definition f64_leb : f64 -> f64 -> bool := SFleb.

(** The decimal literal [n / d]. *)
Definition f64_lit (n d : Z) : f64 := f64_div (f64_of_Z n) (f64_of_Z d).

(** [x as u64]: truncated towards zero, saturating, [NaN] is [0]. *)
Definition f64_to_u64 (x : f64) : Z :=
  match x with
  | S754_finite false m e =>
      Z.min u64_max (if 0 <=? e then Z.shiftl (Z.pos m) e else Z.shiftr (Z.pos m) (- e))
  | S754_infinity false => u64_max
  | _ => 0
  end.

Lemma f64_to_u64_range x : is_u64 (f64_to_u64 x).
Proof.
  unfold is_u64, f64_to_u64, u64_max.
  destruct x as [| [] | | [] m e]; try lia.
  destruct (0 <=? e); [rewrite ?Z.shiftl_nonneg | rewrite ?Z.shiftr_nonneg];
    (split; [apply Z.min_glb; [lia | apply Z.shiftl_nonneg || apply Z.shiftr_nonneg; lia] | lia]).
Qed.

Example three_quarters_of_window : f64_to_u64 (f64_mul (f64_of_Z 128000) (f64_lit 3 4)) = 96000.
Proof. vm_compute. reflexivity. Qed.
