(* ===== verification/ContextGuard.v ===== *)
(** The context window guard ([crates/agent-core/src/context_guard.rs]): token
    budgets, the budget check, and the two passes that truncate tool results. *)

From S2P Require Import Prelude RustStr Chat F64.
#[local] Open Scope string_scope.
#[local] Open Scope nat_scope.
#[local] Open Scope list_scope.

Definition HARD_MIN_TOKENS : Z := 16000.
Definition WARNING_THRESHOLD : Z := 32000.
Definition INPUT_BUDGET_RATIO : f64 := f64_lit 3 4.
Definition TOOL_RESULT_BUDGET_RATIO : f64 := f64_lit 1 2.
Definition MIN_TOOL_CHARS : nat := 200.

Record ContextGuardConfig := {
  context_window : Z;
  input_budget_ratio : f64;
  tool_result_budget_ratio : f64;
}.

Definition from_context_window (w : Z) : ContextGuardConfig := {|
  context_window := w;
  input_budget_ratio := INPUT_BUDGET_RATIO;
  tool_result_budget_ratio := TOOL_RESULT_BUDGET_RATIO;
|}.

Inductive GuardAction :=
| GuardOk
| Warning (used budget : Z)
| TruncateNeeded (used budget : Z).

Definition input_budget (c : ContextGuardConfig) : Z :=
  Z.max (f64_to_u64 (f64_mul (f64_of_Z (context_window c)) (input_budget_ratio c)))
        HARD_MIN_TOKENS.

Definition tool_result_limit (c : ContextGuardConfig) : Z :=
  f64_to_u64 (f64_mul (f64_of_Z (input_budget c)) (tool_result_budget_ratio c)).

Section Guard.
Context (bpe_for_model : string -> option (string -> Z)).
Context (config : ContextGuardConfig) (model : string).

Definition estimate_tokens (messages : list ChatMessage) : Z :=
  estimate_messages bpe_for_model messages model.

Definition check_budget (messages : list ChatMessage) : GuardAction :=
  let used := estimate_tokens messages in
  let budget := input_budget config in
  if (budget <? used)%Z then TruncateNeeded used budget
  else if ((WARNING_THRESHOLD <? used) && (wmul budget 3 / 4 <? used))%Z then Warning used budget
  else GuardOk.

(** First pass, one message; [None] is a slice panic. *)
Definition truncate_one (m : ChatMessage) : option ChatMessage :=
  if negb (is_tool m) then Some m
  else
    let limit := tool_result_limit config in
    let tok := estimate bpe_for_model (content m) model in
    if (limit <? tok)%Z then
      let max_chars := wmul limit 4 in
      if (max_chars <? Z.of_nat (len (content m)))%Z then
        let safe_max := floor_char_boundary (content m) (Z.to_nat max_chars) in
        safe ← slice_to (content m) safe_max;
        let cut := default safe_max (rfind safe nl) in
        kept ← slice_to (content m) cut;
        Some (set_content
                (kept +:+ nl +:+ nl +:+ "[Truncated by context guard — original ~" +:+ pretty tok
                 +:+ " tokens, limit " +:+ pretty limit +:+ "]") m)
      else Some m
    else Some m.

Definition first_pass (messages : list ChatMessage) : option (list ChatMessage) :=
  mapM truncate_one messages.

(** [enumerate().filter(Tool).max_by_key(len)]: the last of the longest. *)
Fixpoint max_tool (i : nat) (messages : list ChatMessage) (best : option (nat * nat))
  : option (nat * nat) :=
  match messages with
  | [] => best
  | m :: ms =>
      if is_tool m then
        max_tool (S i) ms
          (match best with
           | Some (_, k) => if k <=? len (content m) then Some (i, len (content m)) else best
           | None => Some (i, len (content m))
           end)
      else max_tool (S i) ms best
  end.

Definition halve (c : string) : option string :=
  let half := floor_char_boundary c (len c / 2) in
  h ← slice_to c half;
  let cut := default half (rfind h nl) in
  kept ← slice_to c cut;
  Some (kept +:+ nl +:+ nl +:+ "[Truncated by context guard — halved for budget]").

(** Second pass with [left] iterations left; also returns how many are left
    at the end. *)
Fixpoint second_pass (left : nat) (messages : list ChatMessage)
  : option (list ChatMessage * nat) :=
  match left with
  | 0 => Some (messages, 0)
  | S left' =>
      if (estimate_tokens messages <=? input_budget config)%Z then Some (messages, left)
      else match max_tool 0 messages None with
           | None => Some (messages, left)
           | Some (idx, _) =>
               m ← messages !! idx;
               if len (content m) <=? MIN_TOOL_CHARS then Some (messages, left)
               else c ← halve (content m); second_pass left' (<[idx := set_content c m]> messages)
           end
  end.

Definition truncate_tool_results (messages : list ChatMessage) : option (list ChatMessage * nat) :=
  ms ← first_pass messages; second_pass 5 ms.
End Guard.

(** * Correctness *)

(** Only the content of tool results may change. *)
Definition only_content (m m' : ChatMessage) : Prop :=
  m' = set_content (content m') m /\ (is_tool m = false -> m' = m).

#[export] Instance only_content_refl : Reflexive only_content.
Proof. intros []. by split. Qed.

#[export] Instance only_content_trans : Transitive only_content.
Proof.
  intros [] [] [] [H1 H2] [H3 H4]. unfold set_content in *. simplify_eq/=.
  split; [done|]. unfold is_tool in *. simpl in *. intros Hr.
  by rewrite (H4 Hr), (H2 Hr).
Qed.

Lemma only_content_set c m : is_tool m = true -> only_content m (set_content c m).
Proof. intros H. split; [done | congruence]. Qed.

Lemma cut_ok (s : string) k :
  let safe := floor_char_boundary s k in
  exists h p, slice_to s safe = Some h /\
    slice_to s (default safe (rfind h nl)) = Some p /\ len p <= k.
Proof.
  cbn zeta. rewrite slice_floor.
  destruct (floor_char_boundary_spec s k) as (Hle & Hb & _).
  set (i := floor_char_boundary s k) in *.
  exists (str_take i s). destruct (rfind (str_take i s) nl) as [j|] eqn:E; simpl.
  - pose proof (rfind_lt _ _ _ E) as Hj. rewrite len_str_take in Hj.
    exists (str_take j s). unfold slice_to. rewrite (rfind_nl_boundary _ _ _ E).
    rewrite len_str_take. split_and!; [done | done | lia].
  - exists (str_take i s). unfold slice_to. rewrite Hb, len_str_take. split_and!; [done | done | lia].
Qed.

Lemma halve_shrinks c :
  MIN_TOOL_CHARS < len c -> exists c', halve c = Some c' /\ len c' < len c.
Proof.
  unfold MIN_TOOL_CHARS. intros Hc. unfold halve.
  destruct (cut_ok c (len c / 2)) as (h & p & -> & Hp & Hl). cbn [mbind option_bind]. rewrite Hp. cbn [mbind option_bind].
  eexists. split; [done|]. rewrite !len_app.
  change (len "[Truncated by context guard — halved for budget]") with 50.
  change (len nl) with 1.
  pose proof (Nat.div_le_upper_bound (len c) 2 (len c / 2)).
  assert (len c / 2 * 2 <= len c) by (rewrite Nat.mul_comm; apply Nat.Div0.mul_div_le). lia.
Qed.

Section Guard_correct.
Context (bpe : string -> option (string -> Z)) (config : ContextGuardConfig) (model : string).

Lemma truncate_one_ok m : exists m', truncate_one bpe config model m = Some m' /\ only_content m m'.
Proof.
  unfold truncate_one. destruct (is_tool m) eqn:Et; simpl; [|by exists m].
  destruct (_ <? _)%Z; [|by exists m]. destruct (_ <? _)%Z; [|by exists m].
  destruct (cut_ok (content m) (Z.to_nat (wmul (tool_result_limit config) 4)))
    as (h & p & -> & Hp & _). cbn [mbind option_bind]. rewrite Hp. cbn [mbind option_bind]. eexists. split; [done|].
  by apply only_content_set.
Qed.

Lemma first_pass_ok ms :
  exists ms', first_pass bpe config model ms = Some ms' /\ Forall2 only_content ms ms'.
Proof.
  unfold first_pass. induction ms as [|m ms (ms' & Hs & HF)]; simpl; [by exists []|].
  destruct (truncate_one_ok m) as (m' & -> & Hm). simpl. rewrite Hs. simpl. eauto.
Qed.

(** [max_tool] returns the longest tool result. *)
Lemma max_tool_spec pre ms best :
  match best with
  | Some (i, k) => exists m, pre !! i = Some m /\ is_tool m = true /\ len (content m) = k /\
                     Forall (fun x => is_tool x = true -> len (content x) <= k) pre
  | None => Forall (fun x => is_tool x = false) pre
  end ->
  match max_tool (length pre) ms best with
  | Some (i, k) => exists m, (pre ++ ms) !! i = Some m /\ is_tool m = true /\
                     len (content m) = k /\
                     Forall (fun x => is_tool x = true -> len (content x) <= k) (pre ++ ms)
  | None => Forall (fun x => is_tool x = false) (pre ++ ms)
  end.
Proof.
  revert pre best. induction ms as [|m ms IH]; intros pre best Hb; simpl.
  { rewrite app_nil_r. done. }
  rewrite cons_middle, (assoc_L app).
  replace (S (length pre)) with (length (pre ++ [m])) by (rewrite length_app; simpl; lia).
  destruct (is_tool m) eqn:Et; apply IH.
  - destruct best as [[i k]|].
    + destruct Hb as (x & Hx & Htx & Hk & HF). destruct (k <=? len (content m)) eqn:Ek; boolean.
      * exists m. rewrite lookup_app_r, Nat.sub_diag by lia. split_and!; try done.
        apply Forall_app. split; [|repeat constructor].
        eapply Forall_impl; [exact HF|]. simpl. intros y Hy Hty. specialize (Hy Hty). lia.
      * exists x. rewrite (lookup_app_l_Some _ _ _ _ Hx). split_and!; try done.
        apply Forall_app. split; [done|]. repeat constructor. lia.
    + exists m. rewrite lookup_app_r, Nat.sub_diag by lia. split_and!; try done.
      apply Forall_app. split; [|repeat constructor].
      eapply Forall_impl; [exact Hb|]. simpl. congruence.
  - destruct best as [[i k]|].
    + destruct Hb as (x & Hx & Htx & Hk & HF). exists x.
      rewrite (lookup_app_l_Some _ _ _ _ Hx). split_and!; try done.
      apply Forall_app. split; [done|]. repeat constructor. congruence.
    + apply Forall_app. split; [done|]. by repeat constructor.
Qed.

Lemma Forall2_set ms idx m c :
  ms !! idx = Some m -> is_tool m = true ->
  Forall2 only_content ms (<[idx := set_content c m]> ms).
Proof.
  intros Hl Ht. apply Forall2_same_length_lookup_2; [by rewrite length_insert|].
  intros i x y Hx Hy. destruct (decide (i = idx)) as [->|Hne].
  - rewrite list_lookup_insert_eq in Hy by (by eapply lookup_lt_Some). simplify_eq.
    by apply only_content_set.
  - rewrite list_lookup_insert_ne in Hy by done. by simplify_eq.
Qed.

Definition tools_small (ms : list ChatMessage) : Prop :=
  Forall (fun x => is_tool x = true -> len (content x) <= MIN_TOOL_CHARS) ms.

Lemma second_pass_ok left ms :
  exists out l, second_pass bpe config model left ms = Some (out, l) /\
    Forall2 only_content ms out /\
    ((estimate_tokens bpe model out <= input_budget config)%Z \/ tools_small out \/ l = 0).
Proof.
  revert ms. induction left as [|left IH]; intros ms; cbn [second_pass].
  { exists ms, 0. split_and!; [done | reflexivity | by right; right]. }
  destruct (_ <=? _)%Z eqn:E; boolean.
  { exists ms, (S left). split_and!; [done | reflexivity | by left]. }
  pose proof (max_tool_spec [] ms None (Forall_nil_2 _)) as Hmax. simpl in Hmax.
  destruct (max_tool 0 ms None) as [[idx k]|].
  - destruct Hmax as (m & Hl & Ht & Hk & HF). rewrite Hl. cbn [mbind option_bind].
    destruct (len (content m) <=? MIN_TOOL_CHARS) eqn:Em; boolean.
    + exists ms, (S left). split_and!; [done | reflexivity |]. right. left.
      eapply Forall_impl; [exact HF|]. simpl. intros x Hx Htx. specialize (Hx Htx). lia.
    + destruct (halve_shrinks (content m) Em) as (c & -> & _). cbn [mbind option_bind].
      destruct (IH (<[idx := set_content c m]> ms)) as (out & l & Hs & HF2 & Hend).
      exists out, l. split_and!; [done | | done].
      etransitivity; [by apply Forall2_set | done].
  - exists ms, (S left). split_and!; [done | reflexivity |]. right. left.
    eapply Forall_impl; [exact Hmax|]. simpl. congruence.
Qed.
End Guard_correct.

Lemma truncate_all_ok bpe config model messages :
  exists out left, truncate_tool_results bpe config model messages = Some (out, left) /\
    Forall2 only_content messages out /\
    ((estimate_tokens bpe model out <= input_budget config)%Z \/ tools_small out \/ left = 0).
Proof.
  unfold truncate_tool_results.
  destruct (first_pass_ok bpe config model messages) as (ms & -> & HF). cbn [mbind option_bind].
  destruct (second_pass_ok bpe config model 5 ms) as (out & l & -> & HF2 & Hend).
  exists out, l. split_and!; [done | by etransitivity | done].
Qed.

(** [truncate_tool_results] never panics and changes nothing but contents
    of tool results; when it stops, the messages are within the input budget,
    or no tool result is longer than 200 bytes, or its five halvings are used. *)
Theorem truncate_tool_results_spec bpe config model messages :
  exists out left, truncate_tool_results bpe config model messages = Some (out, left) /\
    Forall2 only_content messages out /\
    ((estimate_tokens bpe model out <= input_budget config)%Z \/ tools_small out \/ left = 0).
Proof. apply truncate_all_ok. Qed.

(** The input budget is never below the hard minimum, and both budgets are
    [u64] values whatever the ratios of the configuration. *)
Lemma input_budget_min c : (HARD_MIN_TOKENS <= input_budget c <= u64_max)%Z.
Proof.
  unfold input_budget, HARD_MIN_TOKENS. pose proof (f64_to_u64_range
    (f64_mul (f64_of_Z (context_window c)) (input_budget_ratio c))) as [_ ?]. unfold u64_max in *. lia.
Qed.

Example default_budgets :
  (input_budget (from_context_window 128000), tool_result_limit (from_context_window 128000))
  = (96000, 48000)%Z.
Proof. vm_compute. reflexivity. Qed.
