(* ===== verification/Approval.v ===== *)
(** The tool approval gate ([crates/tools-core/src/approval.rs]): the decision
    for a tool name and the list of approval requests.  Times are the [u64]
    milliseconds of the system clock and identifiers the fresh UUIDs, both
    given by the caller. *)

From S2P Require Import Prelude RustStr.
#[local] Open Scope string_scope.
#[local] Open Scope nat_scope.
#[local] Open Scope list_scope.

Record ApprovalPolicy := {
  require_approval : gset string;
  auto_approve : gset string;
  deny : gset string;
}.

Definition ApprovalPolicy_default : ApprovalPolicy := {|
  require_approval := {[ "bash"; "write_file" ]}; auto_approve := ∅; deny := ∅;
|}.

Inductive ApprovalDecision := Approved | Denied | Pending.
#[export] Instance ApprovalDecision_eq_dec : EqDecision ApprovalDecision.
Proof. solve_decision. Defined.

Definition APPROVAL_TTL_MS : Z := (5 * 60 * 1000)%Z.

Record ApprovalRequest := {
  ar_id : string;
  ar_tool : string;
  ar_arguments_summary : string;
  ar_decision : ApprovalDecision;
  ar_created_at_ms : Z;
  ar_resolved_at_ms : option Z;
  ar_resolved_by : option string;
}.

Record ApprovalGate := {
  policy : ApprovalPolicy;
  pending : list ApprovalRequest;
  auto_approve_all : bool;
}.

Definition gate_new (p : ApprovalPolicy) : ApprovalGate :=
  {| policy := p; pending := []; auto_approve_all := false |}.

Definition gate_auto_approve (g : ApprovalGate) : ApprovalGate :=
  {| policy := policy g; pending := pending g; auto_approve_all := true |}.

Definition with_pending (l : list ApprovalRequest) (g : ApprovalGate) : ApprovalGate :=
  {| policy := policy g; pending := l; auto_approve_all := auto_approve_all g |}.

Definition check (g : ApprovalGate) (tool_name : string) : ApprovalDecision :=
  if bool_decide (tool_name ∈ deny (policy g)) then Denied
  else if auto_approve_all g || bool_decide (tool_name ∈ auto_approve (policy g)) then Approved
  else if bool_decide (tool_name ∈ require_approval (policy g)) then Pending
  else Approved.

Definition request_approval (uuid : string) (now : Z) (tool args : string) (g : ApprovalGate)
  : ApprovalRequest * ApprovalGate :=
  let req := {|
    ar_id := uuid; ar_tool := tool; ar_arguments_summary := str_concat (take 200 (chars args));
    ar_decision := Pending; ar_created_at_ms := now; ar_resolved_at_ms := None;
    ar_resolved_by := None |} in
  (req, with_pending (pending g ++ [req]) g).

Definition set_decision (now : Z) (d : ApprovalDecision) (by_ : option string)
    (r : ApprovalRequest) : ApprovalRequest := {|
  ar_id := ar_id r; ar_tool := ar_tool r; ar_arguments_summary := ar_arguments_summary r;
  ar_decision := d; ar_created_at_ms := ar_created_at_ms r;
  ar_resolved_at_ms := if decide (d = Pending) then None else Some now;
  ar_resolved_by := if decide (d = Pending) then None else by_;
|}.

Definition has_id (id : string) (r : ApprovalRequest) : bool := bool_decide (ar_id r = id).

Definition resolve (now : Z) (id : string) (d : ApprovalDecision) (by_ : option string)
    (g : ApprovalGate) : bool * ApprovalGate :=
  match find_first (has_id id) (pending g) with
  | Some _ => (true, with_pending (update_first (has_id id) (set_decision now d by_) (pending g)) g)
  | None => (false, g)
  end.

Definition approve (now : Z) (id : string) (g : ApprovalGate) := resolve now id Approved None g.
Definition gate_deny (now : Z) (id : string) (g : ApprovalGate) := resolve now id Denied None g.

Definition not_expired (now : Z) (r : ApprovalRequest) : bool :=
  negb (bool_decide (ar_decision r = Pending))
  || (sat_sub now (ar_created_at_ms r) <? APPROVAL_TTL_MS)%Z.

Definition evict_expired_pending (now : Z) (g : ApprovalGate) : ApprovalGate :=
  with_pending (retain (not_expired now) (pending g)) g.

Definition get_request (now : Z) (id : string) (g : ApprovalGate)
  : option ApprovalRequest * ApprovalGate :=
  let g' := evict_expired_pending now g in (find_first (has_id id) (pending g'), g').

Definition list_requests (now : Z) (g : ApprovalGate) : list ApprovalRequest * ApprovalGate :=
  let g' := evict_expired_pending now g in (pending g', g').

Definition pending_requests (now : Z) (g : ApprovalGate) : list ApprovalRequest * ApprovalGate :=
  let g' := evict_expired_pending now g in
  (retain (fun r => bool_decide (ar_decision r = Pending)) (pending g'), g').

(** * The gate over time *)

(** One call on the gate; the queries all evict. *)
Inductive gate_step : ApprovalGate -> ApprovalGate -> Prop :=
| gs_request uuid now tool args g :
    uuid ∉ ar_id <$> pending g ->
    gate_step g (request_approval uuid now tool args g).2
| gs_resolve now id d by_ g : gate_step g (resolve now id d by_ g).2
| gs_get now id g : gate_step g (get_request now id g).2
| gs_list now g : gate_step g (list_requests now g).2
| gs_pending now g : gate_step g (pending_requests now g).2.

(** A request records a resolver exactly when it is resolved. *)
Definition request_wf (r : ApprovalRequest) : Prop :=
  ar_decision r = Pending <-> ar_resolved_at_ms r = None.

Definition gate_wf (g : ApprovalGate) : Prop :=
  NoDup (ar_id <$> pending g) /\ Forall request_wf (pending g).

Lemma update_first_Forall {A} (P : A -> Prop) (p : A -> bool) f l :
  (forall x, P x -> p x = true -> P (f x)) -> Forall P l -> Forall P (update_first p f l).
Proof.
  intros Hf. induction 1 as [|x l Hx Hl IH]; simpl; [constructor|].
  destruct (p x) eqn:E; constructor; auto.
Qed.

Lemma retain_NoDup_fmap {A B} (f : A -> B) (p : A -> bool) l :
  NoDup (f <$> l) -> NoDup (f <$> retain p l).
Proof.
  unfold retain. induction l as [|x l IH]; simpl; [done|]. rewrite NoDup_cons. intros [Hx Hl].
  destruct (p x); simpl; [|by apply IH]. constructor; [|by apply IH].
  intros (y & Hy & Hin)%list_elem_of_fmap. apply Hx, list_elem_of_fmap. exists y. split; [done|].
  by apply (elem_of_retain p l y).
Qed.

Lemma evict_wf now g : gate_wf g -> gate_wf (evict_expired_pending now g).
Proof.
  intros [Hn HF]. split; simpl; [by apply retain_NoDup_fmap|].
  apply Forall_forall. intros r [Hin _]%elem_of_retain. rewrite Forall_forall in HF. auto.
Qed.

(** Every call keeps the request list well formed: identifiers distinct
    (given fresh UUIDs), and a request has a resolution time exactly when it is
    not pending; and the policy of the gate never changes. *)
Theorem gate_step_wf g g' :
  gate_step g g' -> gate_wf g -> gate_wf g' /\ policy g' = policy g /\
    auto_approve_all g' = auto_approve_all g.
Proof.
  intros Hs Hwf. destruct Hs; simpl; try (by split; [apply evict_wf | done]).
  - destruct Hwf as [Hn HF]. split; [|done]. split; simpl.
    + rewrite fmap_app. apply NoDup_app. split; [done|]. split; [|apply NoDup_singleton].
      intros x Hx ->%list_elem_of_singleton. contradiction.
    + apply Forall_app. split; [done|]. by repeat constructor.
  - unfold resolve. destruct (find_first (has_id id) (pending g)); [|done].
    destruct Hwf as [Hn HF]. split; [|done]. split; simpl.
    + rewrite (update_first_map ar_id); [done|]. done.
    + apply update_first_Forall; [|done]. intros r _ _. unfold request_wf. simpl.
      by destruct (decide (d = Pending)).
Qed.

Lemma find_first_retain {A} (p q : A -> bool) l x :
  find_first p (retain q l) = Some x -> x ∈ l /\ p x = true /\ q x = true.
Proof. intros H. apply find_first_Some in H as [[? ?]%elem_of_retain ?]. done. Qed.

Lemma pending_in_ttl g t i r :
  (get_request t i g).1 = Some r -> ar_decision r = Pending ->
  (sat_sub t (ar_created_at_ms r) < APPROVAL_TTL_MS)%Z.
Proof.
  intros (_ & _ & Hq)%find_first_retain Hd. unfold not_expired in Hq.
  rewrite bool_decide_eq_true_2 in Hq by done. by apply Z.ltb_lt in Hq.
Qed.

(** Resolving a listed request sets the decision the next query reports,
    at any later time and even when the request was older than its time to
    live; a request nobody resolved is reported only within its time to live. *)
Theorem resolution_reported g now id d by_ later :
  gate_wf g -> d <> Pending -> id ∈ ar_id <$> pending g ->
  (resolve now id d by_ g).1 = true /\
  exists r, (get_request later id (resolve now id d by_ g).2).1 = Some r /\
    (ar_id r = id /\ ar_decision r = d /\ ar_resolved_at_ms r = Some now /\ ar_resolved_by r = by_) /\
  forall t i r', (get_request t i g).1 = Some r' -> ar_decision r' = Pending ->
    (sat_sub t (ar_created_at_ms r') < APPROVAL_TTL_MS)%Z.
Proof.
  intros [Hn _] Hd Hin. unfold resolve.
  assert (Httl : forall t i r', (get_request t i g).1 = Some r' -> ar_decision r' = Pending ->
                   (sat_sub t (ar_created_at_ms r') < APPROVAL_TTL_MS)%Z) by (intros; eauto using pending_in_ttl).
  apply list_elem_of_fmap in Hin as (r0 & -> & Hin).
  destruct (find_first_is_Some (has_id (ar_id r0)) (pending g) r0) as [x ->];
    [done | unfold has_id; by apply bool_decide_eq_true |]. simpl.
  split; [done|].
  clear x. enough (He : exists r, find_first (has_id (ar_id r0)) (retain (not_expired later)
            (update_first (has_id (ar_id r0)) (set_decision now d by_) (pending g))) = Some r /\
    (ar_id r = ar_id r0 /\ ar_decision r = d /\ ar_resolved_at_ms r = Some now /\
     ar_resolved_by r = by_)) by (destruct He as (r & ? & ?); eauto). clear Httl. induction (pending g) as [|r l IH]; [by apply not_elem_of_nil in Hin|].
  simpl. unfold has_id at 2. destruct (decide (ar_id r = ar_id r0)) as [He|Hne].
  - rewrite bool_decide_eq_true_2 by done. exists (set_decision now d by_ r).
    unfold not_expired at 1. simpl. rewrite bool_decide_eq_false_2 by done. simpl.
    unfold has_id. rewrite bool_decide_eq_true_2 by done.
    by rewrite !decide_False by done.
  - rewrite bool_decide_eq_false_2 by done. rewrite fmap_cons, NoDup_cons in Hn.
    apply elem_of_cons in Hin as [->|Hin]; [done|].
    destruct (IH (proj2 Hn) Hin) as (r' & Hf & Hr'). exists r'. split; [|done].
    simpl. destruct (not_expired later r); [|done]. simpl.
    unfold has_id at 1. by rewrite bool_decide_eq_false_2.
Qed.

Definition gate1 : ApprovalGate :=
  (request_approval "u1" 0 "bash" "rm" (gate_new ApprovalPolicy_default)).2.

Lemma gate_step_wf_witness :
  gate_step gate1 (request_approval "u2" 5 "bash" "ls" gate1).2 /\ gate_wf gate1 /\
  gate_wf (request_approval "u2" 5 "bash" "ls" gate1).2.
Proof.
  assert (Hs : gate_step gate1 (request_approval "u2" 5 "bash" "ls" gate1).2).
  { apply gs_request. apply not_elem_of_cons. split; [discriminate | apply not_elem_of_nil]. }
  assert (Hw : gate_wf gate1) by (split; [apply NoDup_singleton | by repeat constructor]).
  split; [exact Hs|]. split; [exact Hw|]. exact (proj1 (gate_step_wf _ _ Hs Hw)).
Defined.

Lemma resolution_reported_witness :
  gate_wf gate1 /\ (resolve 900000 "u1" Approved None gate1).1 = true.
Proof.
  assert (Hw : gate_wf gate1) by (split; [apply NoDup_singleton | by repeat constructor]).
  split; [exact Hw|].
  apply (resolution_reported gate1 900000 "u1" Approved None 0 Hw); [discriminate | left].
Defined.

(** A request fifteen minutes old can still be approved, although the gate
    would have dropped it had anyone listed the requests before. *)
Theorem expired_request_still_approved :
  ar_decision <$> (get_request 1000000 "u1" (approve 900000 "u1" gate1).2).1 = Some Approved /\
  (get_request 1000000 "u1" (list_requests 900000 gate1).2).1 = None.
Proof. vm_compute. done. Qed.
