(* ===== verification/Provider.v ===== *)
(** What the agent core asks of the outside: the language model provider
    ([crates/llm-core/src/chat.rs], [crates/llm-core/src/error.rs]), the tool
    executor, the memory recaller and the clock.  The outside is a function of
    the trace of interactions so far, so it may keep any state of its own; an
    operation of the core is a function from the trace to its result and the
    extended trace. *)

From S2P Require Import Prelude RustStr Chat F64.
#[local] Open Scope string_scope.
#[local] Open Scope nat_scope.
#[local] Open Scope list_scope.

Inductive LlmError :=
| ApiError (m : string)
| AuthError (m : string)
| RateLimitError (m : string)
| InvalidRequest (m : string)
| ParseError (m : string)
| NetworkError (m : string)
| LlmTimeout (m : string)
| UnsupportedModel (m : string).

(** The [Display] instance. *)
Definition LlmError_to_string (e : LlmError) : string :=
  match e with
  | ApiError m => "API error: " +:+ m
  | AuthError m => "Authentication error: " +:+ m
  | RateLimitError m => "Rate limit error: " +:+ m
  | InvalidRequest m => "Invalid request: " +:+ m
  | ParseError m => "Parse error: " +:+ m
  | NetworkError m => "Network error: " +:+ m
  | LlmTimeout m => "Timeout: " +:+ m
  | UnsupportedModel m => "Unsupported model: " +:+ m
  end.

(** A tool description; its JSON schema is its text. *)
Record ToolFunction := { tf_name : string; tf_description : string; tf_parameters : string }.
Record ToolDef := { td_type : string; td_function : ToolFunction }.

Record ChatRequest := {
  rq_model : string;
  rq_messages : list ChatMessage;
  rq_temperature : option f64;
  rq_top_p : option f64;
  rq_max_tokens : option Z;
  rq_stop : option (list string);
  rq_tools : option (list ToolDef);
  rq_tool_choice : option (string * option string);
  rq_stream : option bool;
  rq_response_format : option string;
}.

Record ChatChoice := { ch_index : Z; ch_message : ChatMessage; ch_finish_reason : option string }.

Record ChatCompletion := {
  cc_id : string;
  cc_object : string;
  cc_created : Z;
  cc_model : string;
  cc_choices : list ChatChoice;
  cc_usage : option Usage;
  cc_system_fingerprint : option string;
}.

(** The calls that leave the core, in order. *)
Inductive event :=
| EvChat (request : ChatRequest)
| EvSleep (millis : Z)
| EvRecall (query : string)
| EvExecute (tool arguments : string)
| EvRequestApproval (tool arguments : string)
| EvTranscript (msg : ChatMessage)
| EvCompaction (summary : string).

Abbreviation trace := (list event).

(** The provider ([LlmProvider::chat]) as the core sees it. *)
Class LlmProvider := chat_reply : trace -> ChatRequest -> result ChatCompletion LlmError.

(** [rand::random::<f64>()]. *)
Class Randomness := random_f64 : trace -> f64.

(** * A small effect monad *)

Definition Eff (A : Type) : Type := trace -> A * trace.
Definition eff_ret {A} (x : A) : Eff A := fun tr => (x, tr).
Definition eff_bind {A B} (m : Eff A) (k : A -> Eff B) : Eff B :=
  fun tr => let '(x, tr') := m tr in k x tr'.
Definition emit (e : event) : Eff unit := fun tr => (tt, tr ++ [e]).
Definition sleep (ms : Z) : Eff unit := emit (EvSleep ms).
Definition chat `{LlmProvider} (rq : ChatRequest) : Eff (result ChatCompletion LlmError) :=
  fun tr => (chat_reply tr rq, tr ++ [EvChat rq]).

Notation "x <-- m ;; k" := (eff_bind m (fun x => k))
  (at level 100, m at next level, right associativity) : rust_scope.

(** Operations only append to the trace. *)
Definition extends {A} (m : Eff A) : Prop := forall tr, exists ev, (m tr).2 = tr ++ ev.

Lemma extends_ret {A} (x : A) : extends (eff_ret x).
Proof. intros tr. exists []. by rewrite app_nil_r. Qed.

Lemma extends_emit e : extends (emit e).
Proof. intros tr. by exists [e]. Qed.

Lemma extends_chat `{LlmProvider} rq : extends (chat rq).
Proof. intros tr. by exists [EvChat rq]. Qed.

Lemma extends_bind {A B} (m : Eff A) (k : A -> Eff B) :
  extends m -> (forall x, extends (k x)) -> extends (eff_bind m k).
Proof.
  intros Hm Hk tr. unfold eff_bind. destruct (Hm tr) as [ev He]. destruct (m tr) as [x tr'] eqn:E.
  simpl in He. subst. destruct (Hk x (tr ++ ev)) as [ev' ->]. exists (ev ++ ev'). by rewrite (assoc_L app).
Qed.

#[export] Hint Resolve @extends_ret @extends_emit @extends_chat @extends_bind : rust.

(** [2u64.pow(n)], modulo [2^64] as the release profile computes it. *)
Definition pow2_u64 (n : nat) : Z := wrap_u64 (2 ^ Z.of_nat n).

Definition chat_count (tr : trace) : nat :=
  length (retain (fun e => match e with EvChat _ => true | _ => false end) tr).

Lemma chat_count_app a b : chat_count (a ++ b) = chat_count a + chat_count b.
Proof. unfold chat_count, retain. by rewrite List.filter_app, length_app. Qed.
