(* ===== verification/ErrorClassify.v ===== *)
(** Error classification ([crates/agent-core/src/error_classify.rs]). *)

From S2P Require Import Prelude RustStr.
#[local] Open Scope string_scope.
#[local] Open Scope nat_scope.
#[local] Open Scope list_scope.

Inductive ErrorClass :=
| RateLimit | AuthFailure | ContextOverflow | NetworkError | ProviderError | ToolError | Unknown.

#[export] Instance ErrorClass_eq_dec : EqDecision ErrorClass.
Proof. solve_decision. Defined.

Definition contains_any (lower : string) (pats : list string) : bool := existsb (contains lower) pats.

Section Classify.
Context `{UnicodeCase}.

Definition classify_error (err : string) : ErrorClass :=
  let lower := to_lowercase err in
  if contains_any lower ["rate limit"; "rate_limit"; "429"; "too many requests";
       "quota exceeded"; "throttlingexception"; "throttling"] then RateLimit
  else if contains_any lower ["401"; "403"; "unauthorized"; "forbidden"; "invalid api key";
       "invalid_api_key"; "authentication"] then AuthFailure
  else if contains_any lower ["context length exceeded"; "maximum context"; "too many tokens";
       "content_too_large"; "request too large"; "context_length"] then ContextOverflow
  else if contains_any lower ["timeout"; "timed out"; "connection reset"; "connection refused";
       "dns"; "network"; "eof"] then NetworkError
  else if contains_any lower ["500"; "502"; "503"; "504"; "internal server error";
       "service unavailable"; "bad gateway"; "overloaded"] then ProviderError
  else if contains_any lower ["tool error"; "tool execution"; "tool '"] then ToolError
  else Unknown.
End Classify.

Definition should_retry (c : ErrorClass) : bool :=
  match c with RateLimit | NetworkError | ProviderError | Unknown => true | _ => false end.

Definition should_fallback (c : ErrorClass) : bool :=
  match c with ProviderError | AuthFailure => true | _ => false end.

Definition is_fatal (c : ErrorClass) : bool :=
  match c with ToolError => true | _ => false end.

(** Only an error that neither retries nor falls back is fatal, and a context
    overflow is none of the three: the caller must shrink the request. *)
Lemma class_partition c :
  is_fatal c = negb (should_retry c || should_fallback c) <-> c <> ContextOverflow.
Proof. by destruct c. Qed.
