(* ===== verification/Usage.v ===== *)
(** Token usage of an agent session ([crates/agent-core/src/usage.rs]). *)

From S2P Require Import Prelude Chat F64.
#[local] Open Scope Z_scope.

Record UsageSummary := {
  input_tokens : Z;
  output_tokens : Z;
  cache_read_tokens : Z;
  cache_write_tokens : Z;
  total_calls : Z;
  total_cost_usd : f64;
}.

Definition UsageSummary_default : UsageSummary := {|
  input_tokens := 0; output_tokens := 0; cache_read_tokens := 0; cache_write_tokens := 0;
  total_calls := 0; total_cost_usd := f64_of_Z 0;
|}.

(** [u32::saturating_add(1)]. *)
Definition incr_u32 (n : Z) : Z := Z.min u32_max (n + 1).

Definition usage_record (u : Usage) (s : UsageSummary) : UsageSummary := {|
  input_tokens := sat_add_i64 (input_tokens s) (prompt_tokens u);
  output_tokens := sat_add_i64 (output_tokens s) (completion_tokens u);
  cache_read_tokens := cache_read_tokens s; cache_write_tokens := cache_write_tokens s;
  total_calls := incr_u32 (total_calls s); total_cost_usd := total_cost_usd s;
|}.

Definition record_with_cache (input output cache_read cache_write : Z) (s : UsageSummary)
  : UsageSummary := {|
  input_tokens := sat_add_i64 (input_tokens s) input;
  output_tokens := sat_add_i64 (output_tokens s) output;
  cache_read_tokens := sat_add_i64 (cache_read_tokens s) cache_read;
  cache_write_tokens := sat_add_i64 (cache_write_tokens s) cache_write;
  total_calls := incr_u32 (total_calls s); total_cost_usd := total_cost_usd s;
|}.

Definition add_cost (cost : f64) (s : UsageSummary) : UsageSummary := {|
  input_tokens := input_tokens s; output_tokens := output_tokens s;
  cache_read_tokens := cache_read_tokens s; cache_write_tokens := cache_write_tokens s;
  total_calls := total_calls s; total_cost_usd := f64_add (total_cost_usd s) cost;
|}.

Definition usage_reset (s : UsageSummary) : UsageSummary := UsageSummary_default.

Definition usage_total_tokens (s : UsageSummary) : Z :=
  sat_add_i64 (input_tokens s) (output_tokens s).

Definition usage_wf (s : UsageSummary) : Prop :=
  is_i64 (input_tokens s) /\ is_i64 (output_tokens s) /\ is_i64 (cache_read_tokens s) /\
  is_i64 (cache_write_tokens s) /\ is_u32 (total_calls s).

Lemma sat_add_i64_range a b : is_i64 (sat_add_i64 a b).
Proof. unfold is_i64, sat_add_i64, i64_min, i64_max. lia. Qed.

(** Every operation keeps the counters in their machine ranges. *)
Lemma usage_record_wf u s : usage_wf s -> usage_wf (usage_record u s).
Proof.
  unfold usage_wf, usage_record. simpl. intros (_ & _ & ? & ? & Hc).
  split_and!; auto using sat_add_i64_range. unfold is_u32, incr_u32, u32_max in *. lia.
Qed.

(** Over any sequence of calls with non-negative counts the input counter is
    the exact sum, cut off at [i64::MAX]: saturation loses nothing until then. *)
Lemma usage_record_sum us s :
  Forall (fun u => 0 <= prompt_tokens u) us -> 0 <= input_tokens s <= i64_max ->
  input_tokens (foldl (fun s u => usage_record u s) s us)
  = Z.min i64_max (input_tokens s + foldr (fun u n => prompt_tokens u + n) 0 us).
Proof.
  intros HF. revert s. induction HF as [|u us Hu HF IH]; intros s Hs; simpl.
  { unfold i64_max in *. lia. }
  assert (Hr : input_tokens (usage_record u s) = Z.min i64_max (input_tokens s + prompt_tokens u)).
  { simpl. unfold sat_add_i64, i64_min, i64_max in *. lia. }
  assert (0 <= foldr (fun u n => prompt_tokens u + n) 0 us).
  { clear -HF. induction HF; simpl; lia. }
  rewrite IH; rewrite Hr; lia.
Qed.
