(* ===== verification/Compaction.v ===== *)
(** Context compaction ([crates/agent-core/src/compaction.rs]): when it is
    needed, how the history is split, the summary request with its retries, and
    the compacted history. *)

From S2P Require Import Prelude RustStr Chat F64 Provider.
#[local] Open Scope string_scope.
#[local] Open Scope nat_scope.
#[local] Open Scope list_scope.
#[local] Open Scope rust_scope.

Record RetryConfig := {
  attempts : nat;
  min_delay_ms : Z;
  max_delay_ms : Z;
  jitter : f64;
}.

Definition RetryConfig_default : RetryConfig := {|
  attempts := 3; min_delay_ms := 500; max_delay_ms := 5000; jitter := f64_lit 2 10;
|}.

Record CompactionConfig := {
  reserve_tokens : Z;
  keep_recent_tokens : Z;
  retry : RetryConfig;
}.

Definition CompactionConfig_default : CompactionConfig := {|
  reserve_tokens := 16384; keep_recent_tokens := 20000; retry := RetryConfig_default;
|}.

Record CompactionResult := { summary : ChatMessage; kept_messages : list ChatMessage }.

Definition COMPACTION_PROMPT : string :=
  "Summarize this conversation concisely, preserving key facts, decisions, code context, and any important details the assistant needs to continue helping.".

(** [f64::min] and [f64::max]: the other operand when one is [NaN]. *)
Definition f64_min (x y : f64) : f64 :=
  if f64_ltb x y then x else if f64_leb y x then y
  else match x with SpecFloat.S754_nan => y | _ => x end.
Definition f64_max (x y : f64) : f64 :=
  if f64_ltb x y then y else if f64_leb y x then x
  else match x with SpecFloat.S754_nan => y | _ => x end.

(** The delay in milliseconds; [rnd] is the draw of [rand::random]. *)
Definition retry_delay (rnd : f64) (attempt : nat) (cfg : RetryConfig) : Z :=
  let base := f64_mul (f64_of_Z (min_delay_ms cfg)) (f64_of_Z (2 ^ Z.of_nat attempt)) in
  let clamped := f64_min base (f64_of_Z (max_delay_ms cfg)) in
  let jitter_range := f64_mul clamped (jitter cfg) in
  let jittered :=
    f64_sub (f64_add clamped (f64_mul (f64_mul rnd jitter_range) (f64_of_Z 2))) jitter_range in
  f64_to_u64 (f64_max jittered (f64_of_Z 0)).

Section Compaction.
Context `{UnicodeCase} `{LlmProvider} `{Randomness}.
Context (bpe_for_model : string -> option (string -> Z)).

Definition needs_compaction (messages : list ChatMessage) (model : string)
    (config : CompactionConfig) : bool :=
  match max_tokens model with
  | None => false
  | Some max =>
      (sat_sub max (reserve_tokens config) <? estimate_messages bpe_for_model messages model)%Z
  end.

Definition retry_pause (attempt : nat) (cfg : RetryConfig) : Eff unit :=
  fun tr => if attempt =? 0 then (tt, tr)
            else sleep (retry_delay (random_f64 tr) (attempt - 1) cfg) tr.

(** The retry loop; [left] attempts remain after [attempt] were made. *)
Fixpoint summary_loop (rq : ChatRequest) (cfg : RetryConfig) (attempt left : nat)
    (last_err : string) : Eff (result string string) :=
  match left with
  | 0 => eff_ret (Err ("Compaction failed after " +:+ pretty (attempts cfg) +:+ " attempts: "
                       +:+ last_err))
  | S left' =>
      _ <-- retry_pause attempt cfg ;;
      r <-- chat rq ;;
      match r with
      | Ok resp =>
          eff_ret (Ok (match cc_choices resp with c :: _ => content (ch_message c) | [] => "" end))
      | Err e => summary_loop rq cfg (S attempt) left' (LlmError_to_string e)
      end
  end.

Definition generate_summary (rq : ChatRequest) (cfg : RetryConfig) : Eff (result string string) :=
  summary_loop rq cfg 0 (attempts cfg) "".

(** The split loop over the indices below [i], newest first; [n] is the
    initial [messages.len()]. *)
Fixpoint split_loop (messages : list ChatMessage) (model : string) (budget : Z) (n i : nat)
    (recent : Z) : nat :=
  match i with
  | 0 => n
  | S i' =>
      match messages !! i' with
      | None => n
      | Some msg =>
          let t := (estimate bpe_for_model (content msg) model + 4)%Z in
          if (budget <? recent + t)%Z then S i'
          else split_loop messages model budget n i' (recent + t)
      end
  end.

Definition split_index (messages : list ChatMessage) (model : string) (budget : Z) : nat :=
  let n := length messages in
  let idx := split_loop messages model budget n n 0 in
  if idx <=? 1 then 1 else idx.

Definition compact_request (model : string) (old : list ChatMessage) : ChatRequest := {|
  rq_model := model; rq_messages := old ++ [plain User COMPACTION_PROMPT];
  rq_temperature := Some (f64_of_Z 0); rq_top_p := None; rq_max_tokens := Some 2048%Z;
  rq_stop := None; rq_tools := None; rq_tool_choice := None; rq_stream := None;
  rq_response_format := None;
|}.

Definition assemble (messages kept : list ChatMessage) (text : string) : CompactionResult :=
  let summary_msg := plain System ("[Conversation summary]" +:+ nl +:+ text) in
  match find_first (fun m => bool_decide (role m = System)) messages with
  | Some sys => {| summary := sys; kept_messages := summary_msg :: kept |}
  | None => {| summary := summary_msg; kept_messages := kept |}
  end.

(** [None] is the panic of [messages[..split_idx]] on an empty history. *)
Definition compact_history (model : string) (messages : list ChatMessage)
    (config : CompactionConfig) : option (Eff (result CompactionResult string)) :=
  let split_idx := split_index messages model (keep_recent_tokens config) in
  if length messages <? split_idx then None
  else
    let old := take split_idx messages in
    let kept := drop split_idx messages in
    Some (r <-- generate_summary (compact_request model old) (retry config) ;;
          match r with
          | Ok text => eff_ret (Ok (assemble messages kept text))
          | Err e => eff_ret (Err e)
          end).
End Compaction.

(** * The split *)

Section Split.
Context (bpe : string -> option (string -> Z)) (model : string).

(** The tokens the split loop charges for a list of messages. *)
Definition split_tokens (l : list ChatMessage) : Z :=
  foldr (fun m n => estimate bpe (content m) model + 4 + n)%Z 0%Z l.

Context (Hbpe : forall s, (0 <= estimate bpe s model)%Z).

Lemma split_tokens_nonneg l : (0 <= split_tokens l)%Z.
Proof using Hbpe. induction l as [|m l IH]; simpl; [lia|]. specialize (Hbpe (content m)). lia. Qed.

Lemma split_tokens_mono l k : (split_tokens (drop k l) <= split_tokens l)%Z.
Proof using Hbpe.
  revert k. induction l as [|m l IH]; intros [|k]; simpl; try lia.
  specialize (Hbpe (content m)). specialize (IH k). lia.
Qed.

Lemma split_loop_spec msgs budget i recent :
  i <= length msgs -> recent = split_tokens (drop i msgs) -> (recent <= budget)%Z ->
  let r := split_loop bpe msgs model budget (length msgs) i recent in
  ((split_tokens msgs <= budget)%Z /\ r = length msgs) \/
  (1 <= r <= length msgs /\ (split_tokens (drop r msgs) <= budget)%Z /\
   (budget < split_tokens (drop (r - 1) msgs))%Z).
Proof.
  revert recent. induction i as [|i IH]; intros recent Hi Hr Hb; cbn [split_loop].
  { left. rewrite drop_0 in Hr. split; [lia | done]. }
  destruct (lookup_lt_is_Some_2 msgs i) as [m Hl]; [lia|]. rewrite Hl.
  assert (Hd : split_tokens (drop i msgs) = (estimate bpe (content m) model + 4 + recent)%Z).
  { by rewrite (drop_S _ _ _ Hl), Hr. }
  destruct (_ <? _)%Z eqn:E; boolean.
  - right. replace (S i - 1) with i by lia. split_and!; [lia | lia | lia | lia].
  - apply IH; lia.
Qed.

Lemma split_index_spec msgs budget :
  msgs <> [] -> (0 <= budget)%Z ->
  let s := split_index bpe msgs model budget in
  1 <= s <= length msgs /\
  ((split_tokens msgs <= budget)%Z -> s = length msgs) /\
  ((budget < split_tokens msgs)%Z ->
     (split_tokens (drop s msgs) <= budget < split_tokens (drop (s - 1) msgs))%Z).
Proof using Hbpe.
  intros Hne Hb. unfold split_index. assert (1 <= length msgs) by (destruct msgs; simpl; [done | lia]).
  pose proof (split_loop_spec msgs budget (length msgs) 0) as Hs. cbn zeta in Hs |- *.
  set (r := split_loop bpe msgs model budget (length msgs) (length msgs) 0) in *.
  assert (Hif : (if r <=? 1 then 1 else r) = Nat.max 1 r)
    by (destruct (r <=? 1) eqn:E; boolean; lia).
  rewrite Hif. destruct Hs as [[Ht ->]|(Hr & H1 & H2)]; [lia | by rewrite drop_all | done | |].
  - rewrite Nat.max_r by lia. split_and!; lia.
  - rewrite Nat.max_r by lia. split_and!; [lia | lia | | done].
    intros Hle. pose proof (split_tokens_mono msgs (r - 1)). lia.
Qed.
End Split.

(** * The summary request *)

Section Summary.
Context `{LlmProvider} `{Randomness}.

Lemma retry_pause_count attempt cfg tr :
  chat_count (retry_pause attempt cfg tr).2 = chat_count tr.
Proof.
  unfold retry_pause. destruct (attempt =? 0); simpl; [done|].
  rewrite chat_count_app. unfold chat_count at 2. simpl. lia.
Qed.

Lemma chat_count_snoc tr rq : chat_count (tr ++ [EvChat rq]) = S (chat_count tr).
Proof. rewrite chat_count_app. unfold chat_count at 2. simpl. lia. Qed.

Lemma summary_loop_count rq cfg attempt left e tr :
  let '(r, tr') := summary_loop rq cfg attempt left e tr in
  match r with
  | Ok _ => chat_count tr < chat_count tr' <= chat_count tr + left
  | Err _ => chat_count tr' = chat_count tr + left
  end.
Proof.
  revert attempt e tr. induction left as [|left IH]; intros attempt e tr; cbn [summary_loop].
  { simpl. lia. }
  pose proof (retry_pause_count attempt cfg tr) as Hc.
  unfold eff_bind at 1. destruct (retry_pause attempt cfg tr) as [[] tr1]. simpl in Hc.
  unfold eff_bind, chat. destruct (chat_reply _ rq) as [resp|err] eqn:Er; simpl.
  - rewrite chat_count_snoc. lia.
  - specialize (IH (S attempt) (LlmError_to_string err) (tr1 ++ [EvChat rq])).
    rewrite chat_count_snoc in IH.
    destruct (summary_loop _ _ _ _ _ _) as [[|] tr']; lia.
Qed.
End Summary.

(** The request and the pauses are all that reaches the outside. *)
Lemma summary_loop_events `{LlmProvider} `{Randomness} rq cfg attempt left e tr :
  exists ev, (summary_loop rq cfg attempt left e tr).2 = tr ++ ev /\
    Forall (fun x => x = EvChat rq \/ exists ms, x = EvSleep ms) ev.
Proof.
  revert attempt e tr. induction left as [|left IH]; intros attempt e tr; cbn [summary_loop].
  { exists []. rewrite app_nil_r. by split. }
  assert (Hp : exists ev, (retry_pause attempt cfg tr).2 = tr ++ ev /\
                 Forall (fun x => x = EvChat rq \/ exists ms, x = EvSleep ms) ev).
  { unfold retry_pause. destruct (attempt =? 0); simpl.
    - exists []. rewrite app_nil_r. by split.
    - eexists [_]. split; [done|]. constructor; [eauto | constructor]. }
  destruct Hp as (ev & Hev & HF). unfold eff_bind at 1.
  destruct (retry_pause attempt cfg tr) as [[] tr1]. simpl in Hev. subst tr1.
  unfold eff_bind, chat. destruct (chat_reply _ rq) as [resp|err]; simpl.
  - exists (ev ++ [EvChat rq]). rewrite (assoc_L app). split; [done|].
    apply Forall_app. split; [done|]. constructor; [by left | constructor].
  - destruct (IH (S attempt) (LlmError_to_string err) ((tr ++ ev) ++ [EvChat rq])) as (ev' & -> & HF').
    exists (ev ++ [EvChat rq] ++ ev'). rewrite !(assoc_L app). split; [done|].
    repeat (apply Forall_app; split); try done. constructor; [by left | constructor].
Qed.

(** A non-empty history is split without a panic. *)
Lemma compact_history_total `{LlmProvider} `{Randomness} bpe model msgs cfg :
  msgs <> [] ->
  let s := split_index bpe msgs model (keep_recent_tokens cfg) in
  compact_history bpe model msgs cfg
  = Some (eff_bind (generate_summary (compact_request model (take s msgs)) (retry cfg))
            (fun r => match r with
                      | Ok text => eff_ret (Ok (assemble msgs (drop s msgs) text))
                      | Err e => eff_ret (Err e)
                      end)).
Proof.
  intros Hne s. unfold compact_history.
  assert (Hl : forall i r, i <= length msgs ->
            split_loop bpe msgs model (keep_recent_tokens cfg) (length msgs) i r <= length msgs).
  { induction i as [|i IH]; intros r Hi; cbn [split_loop]; [lia|].
    destruct (msgs !! i); [|lia]. destruct (_ <? _)%Z; [lia | apply IH; lia]. }
  specialize (Hl (length msgs) 0%Z (le_n _)).
  assert (1 <= length msgs) by (destruct msgs; simpl; [done | lia]).
  rewrite (proj2 (Nat.ltb_ge _ _)); [done|]. unfold split_index.
  destruct (_ <=? 1); lia.
Qed.

Definition new_history (r : CompactionResult) : list ChatMessage := summary r :: kept_messages r.

(** The first system message, if any. *)
Definition system_prompt (msgs : list ChatMessage) : list ChatMessage :=
  option_list (find_first (fun m => bool_decide (role m = System)) msgs).

Lemma assemble_history msgs kept text :
  new_history (assemble msgs kept text)
    = system_prompt msgs ++ plain System ("[Conversation summary]" +:+ nl +:+ text) :: kept.
Proof. unfold assemble, new_history, system_prompt. by destruct (find_first _ msgs). Qed.

(** Compaction of a non-empty history splits it at an index [s >= 1] and,
    when the provider answers within the configured attempts, returns the first
    system message, the summary, and the messages from [s] on.  When the
    history exceeds the budget of recent tokens, what is kept is the longest
    suffix within the budget; when it fits the budget, [s] is its length and
    nothing of it is kept. *)
Theorem compact_history_spec `{LlmProvider} `{Randomness} bpe model msgs cfg :
  (forall s, (0 <= estimate bpe s model)%Z) -> msgs <> [] -> (0 <= keep_recent_tokens cfg)%Z ->
  exists s run, compact_history bpe model msgs cfg = Some run /\
    1 <= s <= length msgs /\
    ((split_tokens bpe model msgs <= keep_recent_tokens cfg)%Z -> s = length msgs) /\
    ((keep_recent_tokens cfg < split_tokens bpe model msgs)%Z ->
       (split_tokens bpe model (drop s msgs) <= keep_recent_tokens cfg
        < split_tokens bpe model (drop (s - 1) msgs))%Z) /\
  forall tr, match run tr with
      | (Ok res, tr') =>
          chat_count tr' <= chat_count tr + attempts (retry cfg) /\
    exists text, new_history res = system_prompt msgs ++
            plain System ("[Conversation summary]" +:+ nl +:+ text) :: drop s msgs
      | (Err _, tr') => chat_count tr' = chat_count tr + attempts (retry cfg)
      end.
Proof.
  intros Hbpe Hne Hk.
  destruct (split_index_spec bpe model Hbpe msgs (keep_recent_tokens cfg) Hne Hk) as (Hs & Ha & Hb).
  unfold compact_history. set (s := split_index bpe msgs model (keep_recent_tokens cfg)) in *.
  rewrite (proj2 (Nat.ltb_ge _ _)) by lia.
  eexists s, _. split; [reflexivity|]. split_and!; [lia | lia | done | done |]. intros tr.
  unfold eff_bind, generate_summary.
  pose proof (summary_loop_count (compact_request model (take s msgs)) (retry cfg) 0
                (attempts (retry cfg)) "" tr) as Hc.
  destruct (summary_loop _ _ _ _ _ tr) as [[text|e] tr'] eqn:E; simpl in *; [|done].
  split; [lia|]. exists text. apply assemble_history.
Qed.

(** A provider that fails once and then answers. *)
Definition flaky : LlmProvider := fun tr _ =>
  if chat_count tr =? 0 then Err (NetworkError "reset")
  else Ok {| cc_id := ""; cc_object := ""; cc_created := 0; cc_model := ""; cc_usage := None;
             cc_system_fingerprint := None;
             cc_choices := [{| ch_index := 0; ch_message := plain Assistant "sum";
                               ch_finish_reason := None |}] |}.

Definition demo_config (keep : Z) : CompactionConfig :=
  {| reserve_tokens := 0; keep_recent_tokens := keep; retry := RetryConfig_default |}.
Definition demo_msgs : list ChatMessage :=
  [plain System "prompt"; plain User "hello"; plain Assistant "hi there"].

(** With room for everything, everything but the system prompt is summarised. *)
Lemma compact_history_spec_witness :
  demo_msgs <> [] /\
  (match @compact_history flaky (fun _ => f64_of_Z 0) (fun _ => None) "m" demo_msgs (demo_config 1000) with
   | Some run => match run [] with
                 | (Ok res, _) => new_history res
                     = [plain System "prompt"; plain System ("[Conversation summary]" +:+ nl +:+ "sum")]
                 | _ => False end
   | None => False end) /\
  exists s run, @compact_history flaky (fun _ => f64_of_Z 0) (fun _ => None) "m" demo_msgs (demo_config 7) = Some run /\
    1 <= s <= 3.
Proof.
  split; [discriminate|]. split; [vm_compute; reflexivity|].
  destruct (@compact_history_spec flaky (fun _ => f64_of_Z 0) (fun _ => None) "m" demo_msgs
              (demo_config 7)) as (s & run & Hr & Hs & _).
  - intros s. simpl. unfold estimate_fallback. apply Z.div_pos; lia.
  - discriminate.
  - discriminate.
  - exists s, run. split; [exact Hr | exact Hs].
Defined.
