(* ===== verification/Agent.v ===== *)
(** The agent loop ([crates/agent-core/src/agent.rs]): state, initialisation,
    the plain run, and the tool loop with its compaction, context guard, loop
    detection and approval checks, over the outside world of [Provider]. *)

From S2P Require Import Prelude RustStr Chat F64 Provider ErrorClassify Usage History.
From S2P Require Import TranscriptRepair ContextGuard Compaction.
From S2P Require LoopDetect Approval.
#[local] Open Scope string_scope.
#[local] Open Scope nat_scope.
#[local] Open Scope list_scope.

Inductive AgentError :=
| InitError (m : string)
| ExecutionError (m : string)
| ModelError (m : string)
| AuthError (m : string)
| SubagentError (m : string)
| NotFound (m : string)
| Timeout (m : string)
| RateLimited (m : string)
| ContextOverflow (m : string).

Definition MAX_OVERFLOW_COMPACTION_ATTEMPTS : nat := 3.
Definition MAX_TOOL_CHARS : nat := N.to_nat 400000.
Definition TRUNCATION_SUFFIX : string :=
  nl +:+ nl +:+ "[Content truncated — original was too large for the model's context window. If you need more, request specific sections or use offset/limit parameters.]".

Record AgentConfig := {
  cfg_name : string;
  cfg_model : string;
  cfg_provider : string;
  cfg_system_prompt : option string;
  cfg_max_tokens : option Z;
  cfg_temperature : option f64;
  cfg_tools : option (list string);
  cfg_max_retries : option Z;
  cfg_timeout_ms : option Z;
  cfg_max_iterations : option nat;
}.

Definition AgentConfig_new (name model provider : string) : AgentConfig := {|
  cfg_name := name; cfg_model := model; cfg_provider := provider; cfg_system_prompt := None;
  cfg_max_tokens := None; cfg_temperature := None; cfg_tools := None;
  cfg_max_retries := Some 3%Z; cfg_timeout_ms := Some 60000%Z; cfg_max_iterations := Some 32;
|}.

Inductive AgentState := Idle | Initializing | Running | WaitingForResponse | Error | Stopped.
#[export] Instance AgentState_eq_dec : EqDecision AgentState.
Proof. solve_decision. Defined.

(** Auto-recall ([auto_recall.rs]); scores are the [f32] values. *)
Record AutoRecallConfig := { rc_enabled : bool; rc_max_results : nat; rc_min_score : f64 }.
Record RecallResult := { rr_key : string; rr_content : string; rr_score : f64 }.

(** What the agent holds of its environment: the executor, the recaller, the
    clock, and Rust's formatting of floats and of the [Debug] of an error. *)
Class ToolExecutor := {
  execute_reply : trace -> string -> string -> result string string;
  available_tools : list ToolDef;
}.
Class MemoryRecaller := recall_reply : trace -> string -> nat -> f64 -> list RecallResult.
Class Clock := { clock_now_ms : trace -> Z; fresh_uuid : trace -> string }.
Class Formatting := {
  fmt_score : f64 -> string;
  debug_last_error : option LlmError -> string;
}.

Definition format_recall_context `{Formatting} (results : list RecallResult) : option ChatMessage :=
  match results with
  | [] => None
  | _ =>
      Some {| role := System;
              content := "## Recalled from memory" +:+ nl +:+
                str_concat ((fun r => "- [" +:+ rr_key r +:+ "] (score " +:+ fmt_score (rr_score r)
                                      +:+ "): " +:+ rr_content r +:+ nl) <$> results);
              name := Some "memory_recall"; tool_calls := None; tool_call_id := None |}
  end.

Record Agent := {
  ag_config : AgentConfig;
  ag_state : AgentState;
  ag_history : list ChatMessage;
  ag_context : gmap string string;
  ag_approval_gate : option Approval.ApprovalGate;
  ag_transcript : bool;
  ag_history_limit : option nat;
  ag_compaction_config : option CompactionConfig;
  ag_pruning_config : option PruningConfig;
  ag_recall_config : option AutoRecallConfig;
  ag_has_recaller : bool;
  ag_context_guard : option ContextGuardConfig;
  ag_usage : UsageSummary;
}.

Definition Agent_new (config : AgentConfig) : Agent := {|
  ag_config := config; ag_state := Idle; ag_history := []; ag_context := ∅;
  ag_approval_gate := None; ag_transcript := false; ag_history_limit := None;
  ag_compaction_config := None; ag_pruning_config := None; ag_recall_config := None;
  ag_has_recaller := false; ag_context_guard := None; ag_usage := UsageSummary_default;
|}.

Definition set_state (st : AgentState) (a : Agent) : Agent := {|
  ag_config := ag_config a; ag_state := st; ag_history := ag_history a; ag_context := ag_context a;
  ag_approval_gate := ag_approval_gate a; ag_transcript := ag_transcript a;
  ag_history_limit := ag_history_limit a; ag_compaction_config := ag_compaction_config a;
  ag_pruning_config := ag_pruning_config a; ag_recall_config := ag_recall_config a;
  ag_has_recaller := ag_has_recaller a; ag_context_guard := ag_context_guard a;
  ag_usage := ag_usage a;
|}.

Definition set_history (h : list ChatMessage) (a : Agent) : Agent := {|
  ag_config := ag_config a; ag_state := ag_state a; ag_history := h; ag_context := ag_context a;
  ag_approval_gate := ag_approval_gate a; ag_transcript := ag_transcript a;
  ag_history_limit := ag_history_limit a; ag_compaction_config := ag_compaction_config a;
  ag_pruning_config := ag_pruning_config a; ag_recall_config := ag_recall_config a;
  ag_has_recaller := ag_has_recaller a; ag_context_guard := ag_context_guard a;
  ag_usage := ag_usage a;
|}.

Definition set_gate (g : Approval.ApprovalGate) (a : Agent) : Agent := {|
  ag_config := ag_config a; ag_state := ag_state a; ag_history := ag_history a;
  ag_context := ag_context a; ag_approval_gate := Some g; ag_transcript := ag_transcript a;
  ag_history_limit := ag_history_limit a; ag_compaction_config := ag_compaction_config a;
  ag_pruning_config := ag_pruning_config a; ag_recall_config := ag_recall_config a;
  ag_has_recaller := ag_has_recaller a; ag_context_guard := ag_context_guard a;
  ag_usage := ag_usage a;
|}.

Definition set_usage (u : UsageSummary) (a : Agent) : Agent := {|
  ag_config := ag_config a; ag_state := ag_state a; ag_history := ag_history a;
  ag_context := ag_context a; ag_approval_gate := ag_approval_gate a;
  ag_transcript := ag_transcript a; ag_history_limit := ag_history_limit a;
  ag_compaction_config := ag_compaction_config a; ag_pruning_config := ag_pruning_config a;
  ag_recall_config := ag_recall_config a; ag_has_recaller := ag_has_recaller a;
  ag_context_guard := ag_context_guard a; ag_usage := u;
|}.

(** [Clone] and [clone_with_history]. *)
Definition clone_with_history (a : Agent) : Agent := {|
  ag_config := ag_config a; ag_state := ag_state a; ag_history := ag_history a;
  ag_context := ag_context a; ag_approval_gate := ag_approval_gate a; ag_transcript := false;
  ag_history_limit := ag_history_limit a; ag_compaction_config := None; ag_pruning_config := None;
  ag_recall_config := None; ag_has_recaller := false; ag_context_guard := None;
  ag_usage := UsageSummary_default;
|}.

(** * The agent monad: agent state, trace, and panics *)

Definition M (A : Type) : Type := Agent * trace -> option (A * (Agent * trace)).
Definition aret {A} (x : A) : M A := fun s => Some (x, s).
Definition abind {A B} (m : M A) (k : A -> M B) : M B :=
  fun s => match m s with Some (x, s') => k x s' | None => None end.
Definition modify (f : Agent -> Agent) : M unit := fun s => Some (tt, (f s.1, s.2)).
Definition get : M Agent := fun s => Some (s.1, s).
Definition effect {A} (m : Eff A) : M A := fun s => let '(x, tr) := m s.2 in Some (x, (s.1, tr)).
Definition read {A} (f : trace -> A) : M A := fun s => Some (f s.2, s).
(** A value that is [None] when the code panics. *)
Definition or_panic {A} (o : option A) : M A := fun s => (fun x => (x, s)) <$> o.

Declare Scope agent_scope.
Delimit Scope agent_scope with agent.
Notation "x <- m ;; k" := (abind m (fun x => k))
  (at level 100, m at next level, right associativity) : agent_scope.
Notation "m ;;; k" := (abind m (fun _ => k))
  (at level 100, k at level 200, right associativity) : agent_scope.
#[local] Open Scope agent_scope.

Definition push (m : ChatMessage) : M unit := modify (fun a => set_history (ag_history a ++ [m]) a).
Definition goto (st : AgentState) : M unit := modify (set_state st).

(** A failed write of the transcript is only logged. *)
Definition transcript_append (m : ChatMessage) : M unit :=
  a <- get ;; if ag_transcript a then effect (emit (EvTranscript m)) else aret tt.

(** * Operations without the outside *)

(** [initialize]; [loaded] is what the transcript file holds, [None] when it
    does not exist. *)
Definition initialize (loaded : option (list ChatMessage)) (a : Agent) : Agent :=
  let fresh := match cfg_system_prompt (ag_config a) with
               | Some prompt => Some (plain System prompt) | None => None end in
  match (if ag_transcript a then loaded else None) with
  | Some ((_ :: _) as msgs) =>
      let repaired := (repair_tool_use_result_pairing msgs).1 in
      let h := match fresh with
               | Some p =>
                   match repaired with
                   | first :: rest => if is_role System first then p :: rest else p :: repaired
                   | [] => [p]
                   end
               | None => repaired
               end in
      set_state Idle (set_history h a)
  | _ =>
      set_state Idle
        (set_history (match fresh with Some p => ag_history a ++ [p] | None => ag_history a end) a)
  end.

(** [prepare_messages]: pruning, then the turn window; [None] is a panic. *)
Definition prepare_messages (a : Agent) : option (list ChatMessage) :=
  pruned ← match ag_pruning_config a with
           | Some cfg => prune_tool_results (ag_history a) cfg
           | None => Some (ag_history a)
           end;
  Some (match ag_history_limit a with
        | Some limit => limit_history_turns pruned limit
        | None => pruned
        end).

Definition truncate_tool_result (s : string) (max_chars : nat) : option string :=
  if len s <=? max_chars then Some s
  else
    let keep := Nat.max (max_chars - len TRUNCATION_SUFFIX) (N.to_nat 2000) in
    let keep := floor_char_boundary s keep in
    head ← slice_to s keep;
    let cut := match rfind head nl with
               | Some i => if keep * 4 / 5 <? i then i else keep
               | None => keep
               end in
    kept ← slice_to s cut;
    Some (kept +:+ TRUNCATION_SUFFIX).

(** The content an overflow leaves of the longest tool result. *)
Definition overflow_content (c : string) : option string :=
  let half := floor_char_boundary c (len c / 2) in
  h ← slice_to c half;
  kept ← slice_to c (default half (rfind h nl));
  Some (kept +:+ "..." +:+ nl +:+ "[truncated for context limit, " +:+ num (len c)
        +:+ " chars total]").

Definition truncate_history_tool_results (h : list ChatMessage) : option (list ChatMessage) :=
  match max_tool 0 h None with
  | None => Some h
  | Some (idx, _) =>
      m ← h !! idx;
      c ← overflow_content (content m);
      Some (<[idx := set_content c m]> h)
  end.

Section Run.
Context `{UnicodeCase} `{LlmProvider} `{Randomness} `{ToolExecutor} `{MemoryRecaller}
        `{Clock} `{Formatting}.
Context (bpe : string -> option (string -> Z)) (hash_str : string -> Z).

Definition record_usage (resp : ChatCompletion) : M unit :=
  match cc_usage resp with
  | Some u => modify (fun a => set_usage (usage_record u (ag_usage a)) a)
  | None => aret tt
  end.

Definition agent_request (a : Agent) (msgs : list ChatMessage) (tools : option (list ToolDef))
  : ChatRequest := {|
  rq_model := cfg_model (ag_config a); rq_messages := msgs;
  rq_temperature := cfg_temperature (ag_config a); rq_top_p := None;
  rq_max_tokens := cfg_max_tokens (ag_config a); rq_stop := None; rq_tools := tools;
  rq_tool_choice := None; rq_stream := None; rq_response_format := None;
|}.

Definition max_retries (a : Agent) : Z := default 3%Z (cfg_max_retries (ag_config a)).

(** [for attempt in 0..max_retries] of [run]. *)
Fixpoint run_loop (rq : ChatRequest) (attempt left : nat) (last_error : option LlmError)
  : M (result string (option LlmError)) :=
  match left with
  | 0 => aret (Err last_error)
  | S left' =>
      (if attempt =? 0 then aret tt
       else effect (sleep (wmul 500 (pow2_u64 (attempt - 1))))) ;;;
      r <- effect (chat rq) ;;
      match r with
      | Ok resp =>
          record_usage resp ;;;
          match cc_choices resp with
          | choice :: _ =>
              let asst := plain Assistant (content (ch_message choice)) in
              transcript_append asst ;;; push asst ;;; goto Idle ;;;
              aret (Ok (content (ch_message choice)))
          | [] => run_loop rq (S attempt) left' last_error
          end
      | Err e => run_loop rq (S attempt) left' (Some e)
      end
  end.

Definition run (input : string) : M (result string AgentError) :=
  goto Running ;;;
  let user_msg := plain User input in
  transcript_append user_msg ;;; push user_msg ;;;
  goto WaitingForResponse ;;;
  a <- get ;;
  msgs <- or_panic (prepare_messages a) ;;
  r <- run_loop (agent_request a msgs None) 0 (Z.to_nat (max_retries a)) None ;;
  match r with
  | Ok c => aret (Ok c)
  | Err e =>
      goto Error ;;;
      aret (Err (ModelError ("Failed after " +:+ pretty (max_retries a) +:+ " attempts: "
                             +:+ debug_last_error e)))
  end.

(** The retry loop of [chat_with_retry]. *)
Fixpoint retry_loop (max : Z) (rq : ChatRequest) (attempt left : nat) (last_err : string)
  : M (result ChatCompletion AgentError) :=
  match left with
  | 0 => aret (Err (ModelError ("Failed after " +:+ pretty max +:+ " retries: " +:+ last_err)))
  | S left' =>
      (if attempt =? 0 then aret tt
       else effect (sleep (wmul 1000 (pow2_u64 (attempt - 1))))) ;;;
      r <- effect (chat rq) ;;
      match r with
      | Ok resp => record_usage resp ;;; aret (Ok resp)
      | Err e =>
          let err := LlmError_to_string e in
          match classify_error err with
          | ErrorClassify.ContextOverflow => aret (Err (ContextOverflow err))
          | ErrorClassify.AuthFailure => aret (Err (AuthError err))
          | ErrorClassify.RateLimit =>
              effect (sleep (wmul 2000 (pow2_u64 attempt))) ;;;
              retry_loop max rq (S attempt) left' err
          | class =>
              if should_retry class then retry_loop max rq (S attempt) left' err
              else aret (Err (ModelError err))
          end
      end
  end.

Definition chat_with_retry (rq : ChatRequest) : M (result ChatCompletion AgentError) :=
  a <- get ;; retry_loop (max_retries a) rq 0 (Z.to_nat (max_retries a)) "".

Definition try_compact : M unit :=
  a <- get ;;
  match ag_compaction_config a with
  | None => aret tt
  | Some cfg =>
      if needs_compaction bpe (ag_history a) (cfg_model (ag_config a)) cfg then
        eff <- or_panic (compact_history bpe (cfg_model (ag_config a)) (ag_history a) cfg) ;;
        r <- effect eff ;;
        match r with
        | Ok res =>
            modify (set_history (new_history res)) ;;;
            (if ag_transcript a then effect (emit (EvCompaction (content (summary res))))
             else aret tt)
        | Err _ => aret tt
        end
      else aret tt
  end.

Definition guard_history : M unit :=
  a <- get ;;
  match ag_context_guard a with
  | None => aret tt
  | Some cfg =>
      match check_budget bpe cfg (cfg_model (ag_config a)) (ag_history a) with
      | TruncateNeeded _ _ =>
          r <- or_panic (truncate_tool_results bpe cfg (cfg_model (ag_config a)) (ag_history a)) ;;
          modify (set_history r.1)
      | _ => aret tt
      end
  end.

Definition tool_message (tc : ToolCall) (c : string) : ChatMessage :=
  {| role := Tool; content := c; name := Some (fn_name (tc_function tc)); tool_calls := None;
     tool_call_id := Some (tc_id tc) |}.

(** Executing one approved call and recording its outcome. *)
Definition execute_call (tc : ToolCall) (det : LoopDetect.LoopDetector)
  : M LoopDetect.LoopDetector :=
  let n := fn_name (tc_function tc) in
  let args := fn_arguments (tc_function tc) in
  out <- effect (fun tr => (execute_reply tr n args, tr ++ [EvExecute n args])) ;;
  c <- or_panic (match out with
                 | Ok output => truncate_tool_result output MAX_TOOL_CHARS
                 | Err err => Some ("Error: " +:+ err)
                 end) ;;
  let msg := tool_message tc c in
  transcript_append msg ;;; push msg ;;;
  aret (LoopDetect.record_outcome hash_str det c).

(** The approval check and the call; the loop's [continue] returns the
    detector unchanged. *)
Definition approve_and_execute (tc : ToolCall) (det : LoopDetect.LoopDetector)
  : M LoopDetect.LoopDetector :=
  let n := fn_name (tc_function tc) in
  let args := fn_arguments (tc_function tc) in
  a <- get ;;
  match ag_approval_gate a with
  | None => execute_call tc det
  | Some gate =>
      match Approval.check gate n with
      | Approval.Denied =>
          push (tool_message tc ("Tool '" +:+ n +:+ "' denied by approval policy")) ;;; aret det
      | Approval.Pending =>
          uuid <- read fresh_uuid ;;
          now <- read clock_now_ms ;;
          let '(req, gate') := Approval.request_approval uuid now n args gate in
          effect (emit (EvRequestApproval n args)) ;;;
          modify (set_gate gate') ;;;
          push (tool_message tc ("Tool '" +:+ n +:+ "' requires approval (request_id="
                                 +:+ Approval.ar_id req +:+ ")")) ;;; aret det
      | Approval.Approved => execute_call tc det
      end
  end.

(** The body of [for tc in &tool_calls]; [Err] is the early return. *)
Definition process_call (tc : ToolCall) (det : LoopDetect.LoopDetector)
  : M (result LoopDetect.LoopDetector AgentError) :=
  let n := fn_name (tc_function tc) in
  let args := fn_arguments (tc_function tc) in
  let detection := LoopDetect.detect hash_str det n args in
  let det := LoopDetect.record hash_str det n args in
  match LoopDetect.level detection with
  | LoopDetect.Critical =>
      goto Error ;;;
      aret (Err (ExecutionError (default "Tool loop detected" (LoopDetect.message detection))))
  | LoopDetect.Warning =>
      match LoopDetect.message detection with
      | Some m =>
          push {| role := User; content := m; name := Some "system"; tool_calls := None;
                  tool_call_id := None |}
      | None => aret tt
      end ;;;
      det <- approve_and_execute tc det ;; aret (Ok det)
  | LoopDetect.LevelNone => det <- approve_and_execute tc det ;; aret (Ok det)
  end.

Fixpoint process_calls (tcs : list ToolCall) (det : LoopDetect.LoopDetector)
  : M (result LoopDetect.LoopDetector AgentError) :=
  match tcs with
  | [] => aret (Ok det)
  | tc :: tcs' =>
      r <- process_call tc det ;;
      match r with Ok det' => process_calls tcs' det' | Err e => aret (Err e) end
  end.

(** The [while] loop with [left] iterations left. *)
Fixpoint tool_loop (max_iterations left overflow : nat) (det : LoopDetect.LoopDetector)
  : M (result string AgentError) :=
  match left with
  | 0 =>
      goto Error ;;;
      aret (Err (ExecutionError ("Max tool iterations (" +:+ num max_iterations
                                 +:+ ") reached without final response")))
  | S left' =>
      goto WaitingForResponse ;;;
      try_compact ;;; guard_history ;;;
      a <- get ;;
      msgs <- or_panic (prepare_messages a) ;;
      r <- chat_with_retry (agent_request a msgs (Some available_tools)) ;;
      match r with
      | Err (ContextOverflow e) =>
          if overflow <? MAX_OVERFLOW_COMPACTION_ATTEMPTS then
            a <- get ;;
            h <- or_panic (truncate_history_tool_results (ag_history a)) ;;
            modify (set_history h) ;;;
            tool_loop max_iterations left' (S overflow) det
          else goto Error ;;; aret (Err (ContextOverflow e))
      | Err e => goto Error ;;; aret (Err e)
      | Ok resp =>
          match cc_choices resp with
          | [] => aret (Err (ModelError "No choices in response"))
          | choice :: _ =>
              let asst := {| role := Assistant; content := content (ch_message choice);
                             name := None; tool_calls := tool_calls (ch_message choice);
                             tool_call_id := None |} in
              transcript_append asst ;;; push asst ;;;
              match tool_calls (ch_message choice) with
              | Some ((_ :: _) as tcs) =>
                  r <- process_calls tcs det ;;
                  match r with
                  | Ok det' => tool_loop max_iterations left' overflow det'
                  | Err e => aret (Err e)
                  end
              | _ => goto Idle ;;; aret (Ok (content (ch_message choice)))
              end
          end
      end
  end.

Definition inject_recall (input : string) : M unit :=
  a <- get ;;
  match ag_recall_config a with
  | Some cfg =>
      if rc_enabled cfg && ag_has_recaller a then
        results <- effect (fun tr => (recall_reply tr input (rc_max_results cfg) (rc_min_score cfg),
                                      tr ++ [EvRecall input])) ;;
        match format_recall_context results with Some m => push m | None => aret tt end
      else aret tt
  | None => aret tt
  end.

(** [run_with_tools] once the user message is in the history. *)
Definition run_tools_after (input : string) : M (result string AgentError) :=
  inject_recall input ;;;
  a <- get ;;
  let max_iterations := default 32 (cfg_max_iterations (ag_config a)) in
  tool_loop max_iterations max_iterations 0 LoopDetect.LoopDetector_default.

Definition run_with_tools (input : string) : M (result string AgentError) :=
  goto Running ;;;
  let user_msg := plain User input in
  transcript_append user_msg ;;; push user_msg ;;;
  run_tools_after input.
End Run.

(** * Reasoning about runs *)

(** [m] does not panic from [s] and its result and final state satisfy [P]. *)
Definition runs {A} (m : M A) (s : Agent * trace) (P : A -> Agent * trace -> Prop) : Prop :=
  match m s with Some (x, s') => P x s' | None => False end.

Lemma runs_mono {A} (m : M A) s (P Q : A -> Agent * trace -> Prop) :
  runs m s P -> (forall x s', P x s' -> Q x s') -> runs m s Q.
Proof. unfold runs. destruct (m s) as [[x s']|]; auto. Qed.

Lemma runs_bind {A B} (m : M A) (k : A -> M B) s P :
  runs m s (fun x s' => runs (k x) s' P) -> runs (abind m k) s P.
Proof. unfold runs, abind. by destruct (m s) as [[x s']|]. Qed.

Lemma runs_get {B} (k : Agent -> M B) a tr P :
  runs (k a) (a, tr) P -> runs (abind get k) (a, tr) P.
Proof. done. Qed.

Lemma runs_or_panic {A B} (o : option A) x (k : A -> M B) s P :
  o = Some x -> runs (k x) s P -> runs (abind (or_panic o) k) s P.
Proof. by intros ->. Qed.

Lemma runs_modify {B} f (k : unit -> M B) s P :
  runs (k tt) (f s.1, s.2) P -> runs (abind (modify f) k) s P.
Proof. done. Qed.

Section Triples.
Context (Inv : Agent * trace -> Prop).

(** From every state of the invariant, [m] does not panic, stays in the
    invariant, relates its initial and final states by [R] and returns a
    result satisfying [Q]. *)
Definition triple {A} (R : Agent * trace -> Agent * trace -> Prop) (m : M A)
    (Q : A -> Agent * trace -> Prop) : Prop :=
  forall s, Inv s -> runs m s (fun x s' => Inv s' /\ R s s' /\ Q x s').

Definition any {A} (x : A) (s : Agent * trace) : Prop := True.

Lemma triple_bind {A B} R1 R2 R3 (m : M A) (k : A -> M B) Q1 Q2 :
  (forall s1 s2 s3, R1 s1 s2 -> R2 s2 s3 -> R3 s1 s3) ->
  triple R1 m Q1 ->
  (forall x, (exists s, Q1 x s) -> triple R2 (k x) Q2) ->
  triple R3 (abind m k) Q2.
Proof.
  intros HR Hm Hk s Hs. apply runs_bind. eapply runs_mono; [by apply Hm|].
  simpl. intros x s' (Hs' & HR1 & HQ). eapply runs_mono; [apply (Hk x); eauto|].
  simpl. intros y s'' (? & ? & ?). eauto.
Qed.

Lemma triple_weaken {A} R R' (m : M A) (Q Q' : A -> Agent * trace -> Prop) :
  triple R m Q -> (forall s s', R s s' -> R' s s') -> (forall x s, Q x s -> Q' x s) ->
  triple R' m Q'.
Proof.
  intros Hm HR HQ s Hs. eapply runs_mono; [by apply Hm|]. simpl. intros x s' (? & ? & ?). auto.
Qed.

Lemma triple_ret {A} R (x : A) (Q : A -> Agent * trace -> Prop) :
  (forall s, R s s) -> (forall s, Q x s) -> triple R (aret x) Q.
Proof. intros HR HQ s Hs. cbn. auto. Qed.

(** A continuation may use the state that [get] reads. *)
Lemma triple_get {B} R (k : Agent -> M B) Q :
  (forall a, (exists tr, Inv (a, tr)) ->
     forall s, Inv s -> s.1 = a -> runs (k a) s (fun x s' => Inv s' /\ R s s' /\ Q x s')) ->
  triple R (abind get k) Q.
Proof. intros Hk [a tr] Hs. apply runs_bind. cbn. apply (Hk a); eauto. Qed.
End Triples.

(** * Safety: what a run does to the outside *)

Definition decision_of (gate : option Approval.ApprovalGate) (tool : string)
  : Approval.ApprovalDecision :=
  match gate with Some g => Approval.check g tool | None => Approval.Approved end.

(** Only approved tools are executed, and approval is requested only for
    pending ones. *)
Definition allowed (dec : string -> Approval.ApprovalDecision) (e : event) : Prop :=
  match e with
  | EvExecute n _ => dec n = Approval.Approved
  | EvRequestApproval n _ => dec n = Approval.Pending
  | _ => True
  end.

Lemma truncate_tool_result_total s n : exists s', truncate_tool_result s n = Some s'.
Proof.
  unfold truncate_tool_result. destruct (len s <=? n); [eauto|].
  set (k := Nat.max _ _). rewrite slice_floor. cbn [base.mbind option_bind].
  set (i := floor_char_boundary s k).
  assert (Hi : slice_to s i = Some (str_take i s)) by apply slice_floor.
  destruct (rfind (str_take i s) nl) as [j|] eqn:Ej; [destruct (_ <? j)|].
  - assert (Hj : slice_to s j = Some (str_take j s)).
    { unfold slice_to. by rewrite (rfind_nl_boundary _ _ _ Ej). }
    rewrite Hj. cbn. eauto.
  - rewrite Hi. cbn. eauto.
  - rewrite Hi. cbn. eauto.
Qed.

Lemma truncate_history_total h :
  exists h', truncate_history_tool_results h = Some h' /\ Forall2 only_content h h'.
Proof.
  unfold truncate_history_tool_results.
  pose proof (max_tool_spec [] h None (Forall_nil_2 _)) as Hmax. simpl in Hmax.
  destruct (max_tool 0 h None) as [[idx k]|]; [|by exists h].
  destruct Hmax as (m & Hl & Ht & _). rewrite Hl. cbn [base.mbind option_bind].
  unfold overflow_content. destruct (cut_ok (content m) (len (content m) / 2)) as (hd & p & Hh & Hp & _).
  rewrite Hh. cbn [base.mbind option_bind]. rewrite Hp. cbn [base.mbind option_bind].
  eexists. split; [done|]. by apply Forall2_set.
Qed.

Lemma only_content_nonempty h h' : Forall2 only_content h h' -> h <> [] -> h' <> [].
Proof. intros HF Hne ->. by inversion HF; simplify_eq. Qed.

Section Safety.
Context `{UnicodeCase} `{LlmProvider} `{Randomness} `{ToolExecutor} `{MemoryRecaller}
        `{Clock} `{Formatting}.
Context (bpe : string -> option (string -> Z)) (hash_str : string -> Z).
Context (cfg : AgentConfig) (cc : option CompactionConfig)
        (dec : string -> Approval.ApprovalDecision).

Definition safe_inv (s : Agent * trace) : Prop :=
  ag_history s.1 <> [] /\ ag_config s.1 = cfg /\ ag_compaction_config s.1 = cc /\
  forall n, decision_of (ag_approval_gate s.1) n = dec n.

(** The trace grows by allowed events, at most [k] of them model calls. *)
Definition adds (k : nat) (s s' : Agent * trace) : Prop :=
  exists ev, s'.2 = s.2 ++ ev /\ chat_count ev <= k /\ Forall (allowed dec) ev.

Lemma adds_same k s s' : s'.2 = s.2 -> adds k s s'.
Proof. intros He. exists []. rewrite app_nil_r. split_and!; [done | cbn; lia | constructor]. Qed.

Lemma adds_refl k s : adds k s s.
Proof. by apply adds_same. Qed.

Lemma adds_trans k1 k2 k s1 s2 s3 :
  k1 + k2 <= k -> adds k1 s1 s2 -> adds k2 s2 s3 -> adds k s1 s3.
Proof.
  intros Hk (e1 & He1 & ? & F1) (e2 & He2 & ? & F2). exists (e1 ++ e2).
  rewrite He2, He1, (assoc_L app), chat_count_app. split_and!; [done | lia | by apply Forall_app].
Qed.

Lemma adds_le k k' s s' : k <= k' -> adds k s s' -> adds k' s s'.
Proof. intros Hk (e & ? & ? & ?). exists e. split_and!; [done | lia | done]. Qed.

Lemma adds_one k e s s' :
  s'.2 = s.2 ++ [e] -> chat_count [e] <= k -> allowed dec e -> adds k s s'.
Proof. intros. exists [e]. split_and!; [done | done | by constructor]. Qed.

Abbreviation safe k := (triple safe_inv (adds k)).

Lemma safe_bind {A B} k1 k2 k (m : M A) (f : A -> M B) Q1 Q2 :
  k1 + k2 <= k -> safe k1 m Q1 -> (forall x, (exists s, Q1 x s) -> safe k2 (f x) Q2) ->
  safe k (abind m f) Q2.
Proof using. intros. eapply triple_bind; eauto using adds_trans. Qed.

Lemma safe_ret {A} k (x : A) : safe k (aret x) any.
Proof using. apply triple_ret; [apply adds_refl | done]. Qed.

(** An update of the agent that keeps what the invariant speaks about. *)
Lemma safe_modify k f :
  (forall a, ag_history a <> [] -> ag_history (f a) <> []) ->
  (forall a, ag_config (f a) = ag_config a) ->
  (forall a, ag_compaction_config (f a) = ag_compaction_config a) ->
  (forall a n, decision_of (ag_approval_gate (f a)) n = decision_of (ag_approval_gate a) n) ->
  safe k (modify f) any.
Proof using.
  intros Hh Hc Hk Hg [a tr] (? & ? & ? & Hd). cbn. split_and!; [|by apply adds_same|done].
  unfold safe_inv. simpl. rewrite Hc, Hk. split_and!; auto. intros n. by rewrite Hg.
Qed.

Lemma safe_goto k st : safe k (goto st) any.
Proof using. by apply safe_modify. Qed.

Lemma safe_push k m : safe k (push m) any.
Proof using.
  apply safe_modify; try done. intros a _. simpl. by destruct (ag_history a).
Qed.

Lemma safe_set_history k h : h <> [] -> safe k (modify (set_history h)) any.
Proof using. intros. by apply safe_modify. Qed.

Lemma safe_emit k e : chat_count [e] = 0 -> allowed dec e -> safe k (effect (emit e)) any.
Proof using. intros Hc Ha s Hs. cbn. split_and!; [done | | done]. apply (adds_one k e); [done | lia | done]. Qed.

Lemma safe_get {B} k (f : Agent -> M B) Q :
  (forall a, (exists tr, safe_inv (a, tr)) -> safe k (f a) Q) -> safe k (abind get f) Q.
Proof using. intros Hf. apply triple_get. intros a Ha s Hs _. by apply Hf. Qed.

Lemma safe_or_panic {A} k (o : option A) x :
  o = Some x -> safe k (or_panic o) (fun y _ => y = x).
Proof using. intros -> s Hs. cbn. split_and!; [done | apply adds_refl | done]. Qed.

Lemma safe_read {A} k (f : trace -> A) : safe k (read f) any.
Proof using. intros s Hs. cbn. split_and!; [done | apply adds_refl | done]. Qed.

Lemma safe_append k m : safe k (transcript_append m) any.
Proof using.
  apply safe_get. intros a _. destruct (ag_transcript a); [by apply safe_emit | apply safe_ret].
Qed.

Lemma safe_usage k resp : safe k (record_usage resp) any.
Proof using. unfold record_usage. destruct (cc_usage resp); [by apply safe_modify | apply safe_ret]. Qed.

Lemma safe_chat rq : safe 1 (effect (chat rq)) any.
Proof using. intros s Hs. cbn. split_and!; [done | | done]. by apply (adds_one 1 (EvChat rq)). Qed.

Lemma safe_retry_loop max rq attempt left e : safe left (retry_loop max rq attempt left e) any.
Proof using.
  revert attempt e. induction left as [|left IH]; intros attempt e; cbn [retry_loop].
  { apply safe_ret. }
  eapply (safe_bind 0 (S left)); [lia | destruct (attempt =? 0); [apply safe_ret | by apply safe_emit] |].
  intros _ _. eapply (safe_bind 1 left); [lia | apply safe_chat |]. intros [resp|err] _.
  - eapply (safe_bind 0 left); [lia | apply safe_usage |]. intros _ _. apply safe_ret.
  - destruct (classify_error (LlmError_to_string err)); cbn [should_retry];
      try apply safe_ret; try apply IH.
    eapply (safe_bind 0 left); [lia | by apply safe_emit |]. intros _ _. apply IH.
Qed.

Lemma safe_chat_with_retry rq :
  safe (Z.to_nat (default 3%Z (cfg_max_retries cfg))) (chat_with_retry rq) any.
Proof using.
  apply safe_get. intros a (tr & _ & Hc & _). simpl in Hc. unfold max_retries. rewrite Hc.
  apply safe_retry_loop.
Qed.

Definition compaction_attempts : nat :=
  match cc with Some c => attempts (retry c) | None => 0 end.

Lemma safe_try_compact : safe compaction_attempts (try_compact bpe) any.
Proof using.
  apply safe_get. intros a (tr & Hne & _ & Hcc & _). simpl in Hne, Hcc.
  unfold compaction_attempts. rewrite Hcc. destruct cc as [c|]; [|apply safe_ret].
  destruct (needs_compaction _ _ _ _); [|apply safe_ret].
  eapply (safe_bind 0 (attempts (retry c)));
    [lia | apply safe_or_panic, compact_history_total, Hne |].
  intros eff (_ & ->). eapply (safe_bind (attempts (retry c)) 0 _ _ _ any); [lia | |].
  - intros s Hs. unfold runs, effect, eff_bind, generate_summary. cbn.
    set (rq := compact_request _ _).
    pose proof (summary_loop_count rq (retry c) 0 (attempts (retry c)) "" s.2) as Hn.
    destruct (summary_loop_events rq (retry c) 0 (attempts (retry c)) "" s.2) as (ev & Hev & HF).
    destruct (summary_loop rq (retry c) 0 (attempts (retry c)) "" s.2) as [r tr'].
    simpl in Hev. subst tr'. rewrite chat_count_app in Hn.
    assert (Ha : adds (attempts (retry c)) s (s.1, s.2 ++ ev)).
    { exists ev. split_and!; [done | destruct r; lia |]. eapply Forall_impl; [exact HF|].
      simpl. intros e [->|[ms ->]]; done. }
    destruct r; cbn; split_and!; try done; exact I.
  - intros [res|e] _; [|apply safe_ret].
    eapply (safe_bind 0 0); [lia | by apply safe_set_history |]. intros _ _.
    destruct (ag_transcript a); [by apply safe_emit | apply safe_ret].
Qed.

Lemma safe_guard : safe 0 (guard_history bpe) any.
Proof using.
  apply safe_get. intros a (tr & Hne & _). simpl in Hne.
  destruct (ag_context_guard a) as [g|]; [|apply safe_ret].
  destruct (check_budget _ _ _ _); try apply safe_ret.
  destruct (truncate_all_ok bpe g (cfg_model (ag_config a)) (ag_history a)) as (out & l & Ho & HF & _).
  eapply (safe_bind 0 0); [lia | by apply safe_or_panic |]. intros r (_ & ->).
  apply safe_set_history. by apply (only_content_nonempty (ag_history a)).
Qed.

Lemma safe_execute tc det :
  dec (fn_name (tc_function tc)) = Approval.Approved ->
  safe 0 (execute_call hash_str tc det) any.
Proof using.
  intros Hd. unfold execute_call. eapply (safe_bind 0 0 _ _ _ any); [lia | |].
  - intros s Hs. cbn. split_and!; [done | | done]. by eapply adds_one.
  - intros out _.
    assert (Hc : exists c, match out with
                           | Ok output => truncate_tool_result output MAX_TOOL_CHARS
                           | Err err => Some ("Error: " +:+ err) end = Some c).
    { destruct out; [apply truncate_tool_result_total | eauto]. }
    destruct Hc as [c Hc]. eapply (safe_bind 0 0); [lia | by apply safe_or_panic |].
    intros x (_ & ->). eapply (safe_bind 0 0); [lia | apply safe_append |].
    intros _ _. eapply (safe_bind 0 0); [lia | apply safe_push |]. intros _ _. apply safe_ret.
Qed.

Lemma safe_set_gate k g :
  (forall n, Approval.check g n = dec n) -> safe k (modify (set_gate g)) any.
Proof using.
  intros Hg [a tr] (? & ? & ? & _). cbn. split_and!; [|by apply adds_same|done].
  by split_and!.
Qed.

Lemma safe_approve tc det : safe 0 (approve_and_execute hash_str tc det) any.
Proof using.
  apply safe_get. intros a (tr & _ & _ & _ & Hd). simpl in Hd.
  destruct (ag_approval_gate a) as [g|]; simpl in Hd; [|by apply safe_execute].
  pose proof (Hd (fn_name (tc_function tc))) as Hn.
  destruct (Approval.check g (fn_name (tc_function tc))); symmetry in Hn.
  - by apply safe_execute.
  - eapply (safe_bind 0 0); [lia | apply safe_push |]. intros _ _. apply safe_ret.
  - eapply (safe_bind 0 0 _ _ _ any); [lia | apply safe_read |].
    intros uuid _. eapply (safe_bind 0 0 _ _ _ any); [lia | apply safe_read |].
    intros now _. eapply (safe_bind 0 0); [lia | by apply safe_emit |].
    intros _ _. eapply (safe_bind 0 0); [lia | by apply safe_set_gate |].
    intros _ _. eapply (safe_bind 0 0); [lia | apply safe_push |]. intros _ _. apply safe_ret.
Qed.

(** The state an early return leaves. *)
Definition failed {A} (r : result A AgentError) (s : Agent * trace) : Prop :=
  match r with Ok _ => True | Err _ => ag_state s.1 = Error end.

Lemma safe_goto_ret {A} k st (x : A) :
  safe k (goto st ;;; aret x) (fun y s => y = x /\ ag_state s.1 = st).
Proof using.
  intros [a tr] (? & ? & ? & ?). cbn. split_and!; try done. by apply adds_same.
Qed.

Lemma safe_process_call tc det : safe 0 (process_call hash_str tc det) failed.
Proof using.
  unfold process_call.
  assert (Hok : forall d, safe 0 (d' <- approve_and_execute hash_str tc d ;; aret (Ok d')) failed).
  { intros d. eapply (safe_bind 0 0); [lia | apply safe_approve |]. intros d' _.
    apply triple_ret; [apply adds_refl | intros; exact I]. }
  destruct (LoopDetect.level _).
  - apply Hok.
  - eapply (safe_bind 0 0 _ _ _ any); [lia | | intros _ _; apply Hok].
    destruct (LoopDetect.message _); [apply safe_push | apply safe_ret].
  - eapply triple_weaken; [apply (safe_goto_ret 0) | done |]. by intros x s [-> ?].
Qed.

Lemma safe_process_calls tcs det : safe 0 (process_calls hash_str tcs det) failed.
Proof using.
  revert det. induction tcs as [|tc tcs IH]; intros det; cbn [process_calls].
  { apply triple_ret; [apply adds_refl | intros; exact I]. }
  intros s Hs. apply runs_bind. eapply runs_mono; [by apply safe_process_call|].
  intros [det'|e] s' (Hs' & Ha & Hf).
  - eapply runs_mono; [by apply IH|]. cbn beta. intros x s'' (? & ? & ?).
    split_and!; [done | by eapply (adds_trans 0 0) | done].
  - cbn. by split_and!.
Qed.

Definition NO_CHOICES : AgentError := ModelError "No choices in response".

(** The state when the loop returns. *)
Definition ended (r : result string AgentError) (s : Agent * trace) : Prop :=
  match r with Ok _ => ag_state s.1 = Idle | Err e => ag_state s.1 = Error \/ e = NO_CHOICES end.

Lemma safe_fail k e : safe k (goto Error ;;; aret (Err e)) ended.
Proof using.
  eapply triple_weaken; [apply (safe_goto_ret k) | done |]. intros x s [-> ?]. by left.
Qed.

Definition retries : nat := Z.to_nat (default 3%Z (cfg_max_retries cfg)).

Lemma prepare_total a : exists msgs, prepare_messages a = Some msgs.
Proof using.
  unfold prepare_messages. destruct (ag_pruning_config a) as [pc|]; [|cbn; eauto].
  destruct (prune_all_spec pc (protected_tc_ids (keep_last_assistants pc) (ag_history a))
              (ag_history a)) as (out & Ho & _).
  unfold prune_tool_results. rewrite Ho. cbn. eauto.
Qed.

Lemma safe_overflow_truncate {B} k (f : unit -> M B) Q :
  safe k (f tt) Q ->
  safe k (a <- get ;; h <- or_panic (truncate_history_tool_results (ag_history a)) ;;
          modify (set_history h) ;;; f tt) Q.
Proof using.
  intros Hf. apply safe_get. intros a (tr & Hne & _). simpl in Hne.
  destruct (truncate_history_total (ag_history a)) as (h & Hh & HF).
  eapply (safe_bind 0 k); [lia | by apply safe_or_panic |]. intros x (_ & ->).
  eapply (safe_bind 0 k); [lia | |by intros _ _].
  apply safe_set_history. by apply (only_content_nonempty (ag_history a)).
Qed.

Lemma safe_tool_loop max left overflow det :
  safe (left * (compaction_attempts + retries)) (tool_loop bpe hash_str max left overflow det) ended.
Proof using.
  revert overflow det. induction left as [|left IH]; intros overflow det; cbn [tool_loop].
  { apply safe_fail. }
  set (kc := compaction_attempts). set (kr := retries). set (rest := left * (kc + kr)) in *.
  replace (S left * (kc + kr)) with (kc + (kr + rest)) by (subst rest; nia).
  eapply (safe_bind 0 (kc + (kr + rest))); [lia | apply safe_goto |]. intros _ _.
  eapply (safe_bind kc (kr + rest)); [lia | apply safe_try_compact |]. intros _ _.
  eapply (safe_bind 0 (kr + rest)); [lia | apply safe_guard |]. intros _ _.
  apply safe_get. intros a _. destruct (prepare_total a) as [msgs Hm].
  eapply (safe_bind 0 (kr + rest)); [lia | by apply safe_or_panic |]. intros x (_ & ->).
  eapply (safe_bind kr rest); [lia | apply safe_chat_with_retry |]. intros [resp|e] _.
  - destruct (cc_choices resp) as [|choice choices].
    { apply triple_ret; [apply adds_refl | by right]. }
    eapply (safe_bind 0 rest); [lia | apply safe_append |]. intros _ _.
    eapply (safe_bind 0 rest); [lia | apply safe_push |]. intros _ _.
    assert (Hdone : safe rest (goto Idle ;;; aret (Ok (content (ch_message choice)))) ended).
    { eapply triple_weaken; [apply (safe_goto_ret rest) | done |]. by intros x s [-> ?]. }
    destruct (tool_calls (ch_message choice)) as [[|tc tcs]|]; [done | | done].
    intros s Hs. apply runs_bind. eapply runs_mono; [by apply safe_process_calls|].
    intros [det'|e] s' (Hs' & Ha & Hf).
    + eapply runs_mono; [by apply (IH overflow det')|]. cbn beta. intros x s'' (? & ? & ?).
      split_and!; [done | by eapply (adds_trans 0 rest) | done].
    + cbn. split_and!; [done | by eapply (adds_le 0); [lia|] | by left].
  - destruct e; try apply safe_fail.
    destruct (overflow <? _); [|apply safe_fail].
    apply (safe_overflow_truncate rest (fun _ => tool_loop bpe hash_str max left (S overflow) det)).
    apply IH.
Qed.

Lemma safe_inject k input : safe k (inject_recall input) any.
Proof using.
  apply safe_get. intros a _. destruct (ag_recall_config a) as [rc|]; [|apply safe_ret].
  destruct (_ && _); [|apply safe_ret].
  eapply (safe_bind 0 k _ _ _ any); [lia | |].
  - intros s Hs. cbn. split_and!; [done | by eapply adds_one | done].
  - intros l _. destruct (format_recall_context l); [apply safe_push | apply safe_ret].
Qed.

Lemma safe_run_tools_after input :
  safe (default 32 (cfg_max_iterations cfg) * (compaction_attempts + retries))
    (run_tools_after bpe hash_str input) ended.
Proof using.
  set (budget := _ * _). eapply (safe_bind 0 budget); [lia | apply safe_inject |]. intros _ _.
  apply safe_get. intros a (tr & _ & Hc & _). simpl in Hc. rewrite Hc. apply safe_tool_loop.
Qed.
End Safety.

(** What [run_with_tools] does before the recall. *)
Definition started (input : string) (a : Agent) (tr : trace) : Agent * trace :=
  (set_history (ag_history a ++ [plain User input]) (set_state Running a),
   if ag_transcript a then tr ++ [EvTranscript (plain User input)] else tr).

Lemma run_started `{UnicodeCase} `{LlmProvider} `{Randomness} `{ToolExecutor}
    `{MemoryRecaller} `{Clock} `{Formatting} bpe hash_str a tr input :
  run_with_tools bpe hash_str input (a, tr)
  = run_tools_after bpe hash_str input (started input a tr).
Proof.
  unfold run_with_tools, started, transcript_append, goto, push, modify, abind, get. cbn.
  destruct (ag_transcript a); reflexivity.
Qed.

(** C6. A run of the tool loop never panics and always returns, whatever the
    provider and the tools answer; it makes at most [max_iterations] times the
    model calls of one iteration; a tool is executed only when the approval
    gate approves it, and approval is requested only for a pending one; the
    agent ends idle with an answer, or with an error. *)
Theorem run_with_tools_safe `{UnicodeCase} `{LlmProvider} `{Randomness} `{ToolExecutor}
    `{MemoryRecaller} `{Clock} `{Formatting} bpe hash_str a tr input :
  runs (run_with_tools bpe hash_str input) (a, tr) (fun r s' =>
    exists ev, s'.2 = tr ++ ev /\
      chat_count ev <= default 32 (cfg_max_iterations (ag_config a))
                       * (compaction_attempts (ag_compaction_config a) + retries (ag_config a)) /\
      Forall (allowed (decision_of (ag_approval_gate a))) ev /\
      ag_config s'.1 = ag_config a /\ ended r s').
Proof.
  unfold runs. rewrite run_started.
  fold (runs (run_tools_after bpe hash_str input) (started input a tr)).
  set (dec := decision_of (ag_approval_gate a)).
  eapply runs_mono; [apply (safe_run_tools_after bpe hash_str (ag_config a) (ag_compaction_config a) dec)|].
  { split_and!; try done. simpl. by destruct (ag_history a). }
  cbn beta. intros r s' ((_ & Hc & _) & (ev & He & Hn & Hal) & Hend).
  exists ((if ag_transcript a then [EvTranscript (plain User input)] else []) ++ ev).
  rewrite He. unfold started. simpl. rewrite (assoc_L app).
  split_and!; [by destruct (ag_transcript a); rewrite ?app_nil_r | | | done | done].
  - rewrite chat_count_app. destruct (ag_transcript a); exact Hn.
  - apply Forall_app. split; [destruct (ag_transcript a); by repeat constructor | done].
Qed.

(** * Pairing: every call the model asks for is answered once, in order *)

(** The call identifiers asked for and answered in a history, in order. *)
Definition asked (h : list ChatMessage) : list string :=
  h ≫= fun m => tc_id <$> default [] (tool_calls m).
Definition answered (h : list ChatMessage) : list string :=
  omap (fun m => if is_tool m then tool_call_id m else None) h.

Lemma asked_app a b : asked (a ++ b) = asked a ++ asked b.
Proof. apply bind_app. Qed.
Lemma answered_app a b : answered (a ++ b) = answered a ++ answered b.
Proof. apply omap_app. Qed.

Lemma only_content_asked h h' :
  Forall2 only_content h h' -> asked h' = asked h /\ answered h' = answered h.
Proof.
  induction 1 as [|m m' h h' [Hm _] _ [IH1 IH2]]; [done|].
  change (m :: h) with ([m] ++ h). change (m' :: h') with ([m'] ++ h').
  rewrite !asked_app, !answered_app, IH1, IH2, Hm. done.
Qed.

Section Pairing.
Context `{UnicodeCase} `{LlmProvider} `{Randomness} `{ToolExecutor} `{MemoryRecaller}
        `{Clock} `{Formatting}.
Context (bpe : string -> option (string -> Z)) (hash_str : string -> Z).

Definition no_compaction (s : Agent * trace) : Prop := ag_compaction_config s.1 = None.

(** [m] appends [x] to the calls asked for and [y] to the calls answered,
    with [P] of its result and of the two. *)
Definition outcome {A} (m : M A) (P : A -> list string -> list string -> Prop) : Prop :=
  forall s, no_compaction s -> runs m s (fun r s' => no_compaction s' /\ exists x y,
    asked (ag_history s'.1) = asked (ag_history s.1) ++ x /\
    answered (ag_history s'.1) = answered (ag_history s.1) ++ y /\ P r x y).

Definition quiet {A} (_ : A) (x y : list string) : Prop := x = [] /\ y = [].

Lemma outcome_bind {A B} (m : M A) (k : A -> M B) P1 P :
  outcome m P1 ->
  (forall r x y, P1 r x y -> outcome (k r) (fun r' x' y' => P r' (x ++ x') (y ++ y'))) ->
  outcome (abind m k) P.
Proof using.
  intros Hm Hk s Hs. apply runs_bind. eapply runs_mono; [by apply Hm|]. cbn beta.
  intros r s' (Hs' & x & y & Hx & Hy & HP). eapply runs_mono; [by apply (Hk r x y HP)|]. cbn beta.
  intros r' s'' (Hs'' & x' & y' & Hx' & Hy' & HP'). split; [done|].
  exists (x ++ x'), (y ++ y'). by rewrite Hx', Hx, Hy', Hy, !(assoc_L app).
Qed.

(** After a step that touches no call, the rest is as if run alone. *)
Lemma quiet_bind {A B} (m : M A) (k : A -> M B) P :
  outcome m quiet -> (forall r, outcome (k r) P) -> outcome (abind m k) P.
Proof using. intros Hm Hk. eapply outcome_bind; [exact Hm|]. intros r x y [-> ->]. apply Hk. Qed.

Lemma outcome_ret {A} (r : A) (P : A -> list string -> list string -> Prop) :
  P r [] [] -> outcome (aret r) P.
Proof using. intros HP s Hs. cbn. split; [done|]. exists [], []. by rewrite !app_nil_r. Qed.

Lemma quiet_same {A} (m : M A) :
  (forall s, runs m s (fun _ s' => ag_history s'.1 = ag_history s.1 /\
     ag_compaction_config s'.1 = ag_compaction_config s.1)) -> outcome m quiet.
Proof using.
  intros Hm s Hs. eapply runs_mono; [apply Hm|]. cbn beta. intros r s' [Hh Hc].
  unfold no_compaction. rewrite Hc. split; [done|]. exists [], []. by rewrite Hh, !app_nil_r.
Qed.

Lemma outcome_push m (P : unit -> list string -> list string -> Prop) :
  P tt (asked [m]) (answered [m]) -> outcome (push m) P.
Proof using.
  intros HP s Hs. cbn. split; [done|]. exists (asked [m]), (answered [m]).
  by rewrite asked_app, answered_app.
Qed.

Lemma outcome_get {B} (k : Agent -> M B) P :
  (forall a, ag_compaction_config a = None -> outcome (k a) P) -> outcome (abind get k) P.
Proof using. intros Hk [a tr] Hs. apply runs_bind. cbn. by apply Hk. Qed.

Lemma quiet_append m : outcome (transcript_append m) quiet.
Proof using.
  apply quiet_same. intros [a tr]. unfold transcript_append, abind, get, runs. cbn.
  by destruct (ag_transcript a).
Qed.

Lemma quiet_retry max rq attempt left e : outcome (retry_loop max rq attempt left e) quiet.
Proof using.
  revert attempt e. induction left as [|left IH]; intros attempt e; cbn [retry_loop].
  { by apply outcome_ret. }
  apply quiet_bind; [by destruct (attempt =? 0); apply quiet_same|]. intros _.
  apply quiet_bind; [by apply quiet_same|]. intros [resp|err].
  - apply quiet_bind; [by apply quiet_same; unfold record_usage; destruct (cc_usage resp)|].
    intros _. by apply outcome_ret.
  - destruct (classify_error _); cbn [should_retry]; try (by apply outcome_ret); try apply IH.
    apply quiet_bind; [by apply quiet_same|]. intros _. apply IH.
Qed.

Lemma quiet_guard : outcome (guard_history bpe) quiet.
Proof using.
  intros [a tr] Hs. apply runs_get.
  destruct (ag_context_guard a) as [g|]; [|by apply (outcome_ret tt quiet)].
  destruct (check_budget _ _ _ _); try by apply (outcome_ret tt quiet).
  destruct (truncate_all_ok bpe g (cfg_model (ag_config a)) (ag_history a)) as (out & l & Ho & HF & _).
  destruct (only_content_asked _ _ HF) as [Ha Hb].
  apply (runs_or_panic _ _ _ _ _ Ho). split; [done|]. exists [], [].
  rewrite !app_nil_r. by split_and!.
Qed.

Lemma quiet_overflow {B} (f : M B) P :
  outcome f P ->
  outcome (a <- get ;; h <- or_panic (truncate_history_tool_results (ag_history a)) ;;
           modify (set_history h) ;;; f) P.
Proof using.
  intros Hf [a tr] Hs. destruct (truncate_history_total (ag_history a)) as (h & Hh & HF).
  apply runs_get, (runs_or_panic _ _ _ _ _ Hh), runs_modify.
  destruct (only_content_asked _ _ HF) as [Ha Hb].
  eapply runs_mono; [by apply Hf|]. cbn beta.
  intros r s' (Hs' & x & y & Hx & Hy & HP). split; [done|]. exists x, y.
  split_and!; [by etransitivity; [exact Hx | f_equal] | by etransitivity; [exact Hy | f_equal] | done].
Qed.

Definition answers (id : string) {A} (_ : A) (x y : list string) : Prop := x = [] /\ y = [id].

Lemma answers_execute tc det : outcome (execute_call hash_str tc det) (answers (tc_id tc)).
Proof using.
  unfold execute_call. apply quiet_bind; [by apply quiet_same|]. intros out.
  assert (Hc : exists c, match out with
                         | Ok output => truncate_tool_result output MAX_TOOL_CHARS
                         | Err err => Some ("Error: " +:+ err) end = Some c).
  { destruct out; [apply truncate_tool_result_total | eauto]. }
  destruct Hc as [c ->]. apply quiet_bind; [by apply quiet_same|]. intros c'.
  apply quiet_bind; [apply quiet_append|]. intros _.
  eapply outcome_bind; [by apply (outcome_push _ (answers (tc_id tc)))|].
  intros _ x y [-> ->]. by apply outcome_ret.
Qed.

Lemma answers_push tc c {A} (r : A) :
  outcome (push (tool_message tc c) ;;; aret r) (answers (tc_id tc)).
Proof using.
  eapply outcome_bind; [by apply (outcome_push _ (answers (tc_id tc)))|].
  intros _ x y [-> ->]. by apply outcome_ret.
Qed.

Lemma answers_approve tc det : outcome (approve_and_execute hash_str tc det) (answers (tc_id tc)).
Proof using.
  apply outcome_get. intros a _. destruct (ag_approval_gate a) as [g|]; [|apply answers_execute].
  destruct (Approval.check g _); [apply answers_execute | apply answers_push |].
  apply quiet_bind; [by apply quiet_same|]. intros uuid.
  apply quiet_bind; [by apply quiet_same|]. intros now.
  apply quiet_bind; [by apply quiet_same|]. intros _.
  apply quiet_bind; [by apply quiet_same|]. intros _. apply answers_push.
Qed.

Lemma outcome_mono {A} (m : M A) (P Q : A -> list string -> list string -> Prop) :
  outcome m P -> (forall r x y, P r x y -> Q r x y) -> outcome m Q.
Proof using.
  intros Hm HPQ s Hs. eapply runs_mono; [by apply Hm|]. cbn beta.
  intros r s' (? & x & y & ? & ? & ?). split; [done|]. exists x, y. auto.
Qed.

Definition call_outcome {A} (ids : list string) (r : result A AgentError) (x y : list string)
  : Prop := x = [] /\ match r with Ok _ => y = ids | Err _ => y `prefix_of` ids end.

Lemma process_call_outcome tc det :
  outcome (process_call hash_str tc det) (call_outcome [tc_id tc]).
Proof using.
  unfold process_call.
  assert (Hok : forall d, outcome (d' <- approve_and_execute hash_str tc d ;; aret (Ok d'))
                            (@call_outcome LoopDetect.LoopDetector [tc_id tc])).
  { intros d. eapply outcome_bind; [apply answers_approve|]. intros d' x y [-> ->].
    by apply outcome_ret. }
  destruct (LoopDetect.level _).
  - apply Hok.
  - apply quiet_bind; [|intros _; apply Hok].
    destruct (LoopDetect.message _); [by apply outcome_push | by apply outcome_ret].
  - apply quiet_bind; [by apply quiet_same|]. intros _. apply outcome_ret.
    split; [done|]. apply prefix_nil.
Qed.

Lemma process_calls_outcome tcs det :
  outcome (process_calls hash_str tcs det) (call_outcome (tc_id <$> tcs)).
Proof using.
  revert det. induction tcs as [|tc tcs IH]; intros det; cbn [process_calls].
  { by apply outcome_ret. }
  eapply outcome_bind; [apply process_call_outcome|]. intros [det'|e] x y [-> Hy].
  - subst y. eapply outcome_mono; [apply IH|]. intros r x y [-> Hr]. split; [done|].
    destruct r; simpl; [by rewrite Hr | by apply prefix_cons].
  - apply outcome_ret. split; [done|]. rewrite app_nil_r. simpl.
    etransitivity; [exact Hy|]. by exists (tc_id <$> tcs).
Qed.

(** A finished run has answered every call; a failed one the first ones. *)
Definition paired (r : result string AgentError) (x y : list string) : Prop :=
  match r with Ok _ => y = x | Err _ => y `prefix_of` x end.

Lemma paired_shift r ids x y : paired r x y -> paired r (ids ++ x) (ids ++ y).
Proof using. destruct r; simpl; [by intros -> | apply prefix_app]. Qed.

Lemma paired_nil r : paired r [] [].
Proof using. by destruct r; simpl. Qed.

Lemma paired_fail e : outcome (goto Error ;;; aret (Err e)) paired.
Proof using. apply quiet_bind; [by apply quiet_same|]. intros _. apply outcome_ret, paired_nil. Qed.

Lemma tool_loop_outcome max left overflow det :
  outcome (tool_loop bpe hash_str max left overflow det) paired.
Proof using.
  revert overflow det. induction left as [|left IH]; intros overflow det; cbn [tool_loop].
  { apply paired_fail. }
  apply quiet_bind; [by apply quiet_same|]. intros _.
  apply quiet_bind; [apply outcome_get; intros a ->; by apply outcome_ret|]. intros _.
  apply quiet_bind; [apply quiet_guard|]. intros _.
  apply outcome_get. intros a _. destruct (prepare_total a) as [msgs ->].
  apply quiet_bind; [by apply quiet_same|]. intros msgs'.
  apply quiet_bind; [apply outcome_get; intros; apply quiet_retry|]. intros [resp|e].
  - destruct (cc_choices resp) as [|choice choices]; [apply outcome_ret, paired_nil|].
    apply quiet_bind; [apply quiet_append|]. intros _.
    assert (Hasst : forall ids, tc_id <$> default [] (tool_calls (ch_message choice)) = ids ->
      outcome (push {| role := Assistant; content := content (ch_message choice); name := None;
                       tool_calls := tool_calls (ch_message choice); tool_call_id := None |})
        (fun _ x y => x = ids /\ y = [])).
    { intros ids Hids. apply outcome_push. split; [|done].
      unfold asked. simpl. by rewrite app_nil_r. }
    eapply outcome_bind; [by apply Hasst|]. intros _ x y [-> ->].
    destruct (tool_calls (ch_message choice)) as [[|tc tcs]|];
      try (apply quiet_bind; [by apply quiet_same|]; intros _; apply outcome_ret, paired_nil).
    eapply outcome_bind; [apply process_calls_outcome|]. intros [det'|e] x y [-> Hy].
    + eapply outcome_mono; [apply IH|]. subst y. intros r x y Hr.
      exact (paired_shift r (fmap (M:=list) tc_id (tc :: tcs)) x y Hr).
    + apply outcome_ret. by rewrite !app_nil_r.
  - destruct e; try apply paired_fail.
    destruct (overflow <? _); [|apply paired_fail]. apply quiet_overflow, IH.
Qed.

Lemma run_tools_outcome input : outcome (run_tools_after bpe hash_str input) paired.
Proof using.
  apply quiet_bind.
  - apply outcome_get. intros a _. destruct (ag_recall_config a); [|by apply outcome_ret].
    destruct (_ && _); [|by apply outcome_ret]. apply quiet_bind; [by apply quiet_same|].
    intros l. destruct (format_recall_context l) as [m|] eqn:Em; [|by apply outcome_ret].
    apply outcome_push. destruct l; [done|]. cbn [format_recall_context] in Em. by simplify_eq.
  - intros _. apply outcome_get. intros a _. apply tool_loop_outcome.
Qed.
End Pairing.

(** C7. Without compaction, a run extends the history so that the calls the
    model asked for are answered exactly once each, in the order asked: all of
    them when the run returns an answer, a prefix of them when it fails (the
    loop detector stops it inside a round); denied and pending calls and failed
    tools are answered too. *)
Theorem run_with_tools_pairing `{UnicodeCase} `{LlmProvider} `{Randomness} `{ToolExecutor}
    `{MemoryRecaller} `{Clock} `{Formatting} bpe hash_str a tr input :
  ag_compaction_config a = None ->
  runs (run_with_tools bpe hash_str input) (a, tr) (fun r s' => exists x y,
    asked (ag_history s'.1) = asked (ag_history a) ++ x /\
    answered (ag_history s'.1) = answered (ag_history a) ++ y /\
    match r with Ok _ => y = x | Err _ => y `prefix_of` x end).
Proof.
  intros Hc. unfold runs. rewrite run_started.
  pose proof (run_tools_outcome bpe hash_str input (started input a tr) Hc) as Hr.
  unfold runs in Hr. destruct (run_tools_after _ _ _ _) as [[r s']|]; [|done].
  destruct Hr as (_ & x & y & Hx & Hy & HP). exists x, y.
  unfold started in Hx, Hy. cbn [ag_history set_history fst] in Hx, Hy.
  rewrite asked_app in Hx. rewrite answered_app in Hy. cbn in Hx, Hy.
  rewrite !app_nil_r in Hx, Hy. done.
Qed.

(** * A concrete run *)

Definition demo_completion (m : ChatMessage) : ChatCompletion := {|
  cc_id := ""; cc_object := ""; cc_created := 0; cc_model := "";
  cc_choices := [{| ch_index := 0; ch_message := m; ch_finish_reason := None |}];
  cc_usage := None; cc_system_fingerprint := None;
|}.

Definition demo_call (id tool : string) : ToolCall :=
  {| tc_id := id; tc_type := "function";
     tc_function := {| fn_name := tool; fn_arguments := "{}" |} |}.

(** Asks for [bash] and [ls] once, then answers. *)
Definition demo_provider : LlmProvider := fun tr _ =>
  if chat_count tr =? 0 then
    Ok (demo_completion {| role := Assistant; content := ""; name := None; tool_call_id := None;
                           tool_calls := Some [demo_call "c1" "bash"; demo_call "c2" "ls"] |})
  else Ok (demo_completion (plain Assistant "done")).

Definition demo_executor : ToolExecutor := {|
  execute_reply := fun _ n _ => Ok ("ran " +:+ n); available_tools := [] |}.
Definition demo_clock : Clock := {| clock_now_ms := fun _ => 0%Z; fresh_uuid := fun _ => "u" |}.
Definition demo_format : Formatting := {|
  fmt_score := fun _ => "0.00"; debug_last_error := fun _ => "None" |}.

Definition demo_agent : Agent :=
  set_gate (Approval.gate_new Approval.ApprovalPolicy_default) (Agent_new (AgentConfig_new "a" "m" "p")).

Definition demo_run : option (result string AgentError * (Agent * trace)) :=
  @run_with_tools ascii_case demo_provider (fun _ => f64_of_Z 0) demo_executor (fun _ _ _ _ => [])
    demo_clock demo_format (fun _ => None) (fun s => Z.of_nat (len s)) "hi" (demo_agent, []).

(** [bash] waits for approval and is not executed; [ls] is. *)
Example demo_run_trace :
  (fun r => (r.1, retain (fun e => match e with EvChat _ => false | _ => true end) r.2.2,
             answered (ag_history r.2.1))) <$> demo_run
  = Some (Ok "done", [EvRequestApproval "bash" "{}"; EvExecute "ls" "{}"], ["c1"; "c2"]).
Proof. vm_compute. reflexivity. Qed.

Lemma run_with_tools_pairing_witness :
  ag_compaction_config demo_agent = None /\
  runs (@run_with_tools ascii_case demo_provider (fun _ => f64_of_Z 0) demo_executor
          (fun _ _ _ _ => []) demo_clock demo_format (fun _ => None) (fun s => Z.of_nat (len s)) "hi")
    (demo_agent, []) (fun r s' => exists x y,
    asked (ag_history s'.1) = x /\ answered (ag_history s'.1) = y /\
    match r with Ok _ => y = x | Err _ => y `prefix_of` x end).
Proof.
  split; [reflexivity|].
  exact (@run_with_tools_pairing ascii_case demo_provider (fun _ => f64_of_Z 0) demo_executor
           (fun _ _ _ _ => []) demo_clock demo_format (fun _ => None) (fun s => Z.of_nat (len s))
           demo_agent [] "hi" eq_refl).
Defined.

(** A response without choices is returned as an error while the agent still
    says it waits for a response. *)
Theorem no_choices_keeps_waiting :
  (fun r => (r.1, ag_state r.2.1)) <$>
    @run_with_tools ascii_case
      (fun _ _ => Ok {| cc_id := ""; cc_object := ""; cc_created := 0; cc_model := ""; cc_choices := [];
                        cc_usage := None; cc_system_fingerprint := None |})
      (fun _ => f64_of_Z 0) demo_executor (fun _ _ _ _ => []) demo_clock demo_format
      (fun _ => None) (fun s => Z.of_nat (len s)) "hi" (demo_agent, [])
  = Some (Err NO_CHOICES, WaitingForResponse).
Proof. vm_compute. reflexivity. Qed.

(** A loop warning is pushed as a user message between the call and its result:
    the eleventh identical call without progress. *)
Definition stuck_provider : LlmProvider := fun tr _ =>
  if chat_count tr <? 11 then
    Ok (demo_completion {| role := Assistant; content := ""; name := None; tool_call_id := None;
                           tool_calls := Some [demo_call "c" "ls"] |})
  else Ok (demo_completion (plain Assistant "done")).

Theorem warning_splits_call_and_result :
  (fun r => role <$> take 3 (rev (removelast (ag_history r.2.1)))) <$>
    @run_with_tools ascii_case stuck_provider (fun _ => f64_of_Z 0) demo_executor
      (fun _ _ _ _ => []) demo_clock demo_format (fun _ => None) (fun s => Z.of_nat (len s)) "hi"
      (demo_agent, [])
  = Some [Tool; User; Assistant].
Proof. vm_compute. reflexivity. Qed.
