(* ===== verification/ModelFallback.v ===== *)
(** Model fallback ([crates/agent-core/src/model_fallback.rs]) and provider
    cooldowns ([crates/agent-core/src/auth_cooldown.rs]): the executor that
    tries candidates in order and skips those cooling down, the model chain, the
    chain run over an agent, and the failure backoff of provider profiles. *)

From S2P Require Import Prelude RustStr Chat F64 Provider History Agent.
#[local] Open Scope string_scope.
#[local] Open Scope nat_scope.
#[local] Open Scope list_scope.

(** [Display for AgentError]. *)
Definition AgentError_to_string (e : AgentError) : string :=
  match e with
  | InitError m => "Initialization error: " +:+ m
  | ExecutionError m => "Execution error: " +:+ m
  | ModelError m => "Model error: " +:+ m
  | AuthError m => "Authentication error: " +:+ m
  | SubagentError m => "Subagent error: " +:+ m
  | NotFound m => "Not found: " +:+ m
  | Timeout m => "Timeout: " +:+ m
  | RateLimited m => "Rate limited: " +:+ m
  | ContextOverflow m => "Context overflow: " +:+ m
  end.

Record ModelCandidate := { mc_provider : string; mc_model : string }.

Record FallbackConfig := {
  fc_enabled : bool;
  fc_max_retries : Z;
  fc_retry_delay_ms : Z;
  fc_fallback_on_error : bool;
  fc_cooldown_secs : Z;
  fc_candidates : list ModelCandidate;
}.

Definition FallbackConfig_default : FallbackConfig := {|
  fc_enabled := true; fc_max_retries := 3; fc_retry_delay_ms := 1000;
  fc_fallback_on_error := true; fc_cooldown_secs := 60; fc_candidates := [];
|}.

Record FallbackAttempt := { fa_provider : string; fa_model : string; fa_error : string }.

Record FallbackResult (T : Type) := {
  fr_result : T;
  fr_provider : string;
  fr_model : string;
  fr_attempts : list FallbackAttempt;
}.
Arguments fr_result {T}. Arguments fr_provider {T}. Arguments fr_model {T}.
Arguments fr_attempts {T}.

(** * The fallback executor

    The executor calls the caller's [run], sleeps, and reads the monotonic
    clock ([Instant::now], in milliseconds); the outside answers as a function
    of these events so far. *)

Inductive fb_event := FbRun (provider model : string) | FbSleep (millis : Z) | FbNow.

Definition candidate_key (c : ModelCandidate) : string := mc_provider c +:+ ":" +:+ mc_model c.

Section Fallback.
Context {T : Type}.
Context (run_reply : list fb_event -> string -> string -> result T AgentError).
Context (now : list fb_event -> Z).

(** [CooldownTracker] and the events so far. *)
Abbreviation state := (gmap string Z * list fb_event)%type.

Definition mark_failed (key : string) (s : state) : state :=
  (<[key := now s.2]> s.1, s.2 ++ [FbNow]).

Definition is_cooled_down (key : string) (cooldown_secs : Z) (s : state) : bool * state :=
  match s.1 !! key with
  | None => (true, s)
  | Some t => ((cooldown_secs <=? sat_sub (now s.2) t / 1000)%Z, (s.1, s.2 ++ [FbNow]))
  end.

Definition clear (key : string) (s : state) : state := (delete key s.1, s.2).

(** The loop of [run_with_fallback], from the attempts so far. *)
Fixpoint try_candidates (cfg : FallbackConfig) (cs : list ModelCandidate)
    (attempts : list FallbackAttempt) (s : state)
  : result (FallbackResult T) AgentError * state :=
  match cs with
  | [] => (Err (ModelError ("All " +:+ num (length attempts) +:+ " fallback candidates exhausted")), s)
  | c :: cs' =>
      let key := candidate_key c in
      let '(available, s) := is_cooled_down key (fc_cooldown_secs cfg) s in
      if negb available then try_candidates cfg cs' attempts s
      else
        let reply := run_reply s.2 (mc_provider c) (mc_model c) in
        let s := (s.1, s.2 ++ [FbRun (mc_provider c) (mc_model c)]) in
        match reply with
        | Ok res =>
            (Ok {| fr_result := res; fr_provider := mc_provider c; fr_model := mc_model c;
                   fr_attempts := attempts |}, clear key s)
        | Err e =>
            let s := mark_failed key s in
            let attempts := attempts ++ [{| fa_provider := mc_provider c; fa_model := mc_model c;
                                            fa_error := AgentError_to_string e |}] in
            let s := if (0 <? fc_retry_delay_ms cfg)%Z
                     then (s.1, s.2 ++ [FbSleep (fc_retry_delay_ms cfg)]) else s in
            try_candidates cfg cs' attempts s
        end
  end.

Definition run_with_fallback (cfg : FallbackConfig) (s : state)
  : result (FallbackResult T) AgentError * state :=
  try_candidates cfg (fc_candidates cfg) [] s.

(** The candidates the executor ran, in order. *)
Definition ran (ev : list fb_event) : list ModelCandidate :=
  omap (fun e => match e with
                 | FbRun p m => Some {| mc_provider := p; mc_model := m |}
                 | _ => None end) ev.

Definition attempted (l : list FallbackAttempt) : list ModelCandidate :=
  (fun a => {| mc_provider := fa_provider a; mc_model := fa_model a |}) <$> l.

Definition available (cfg : FallbackConfig) (s : state) (c : ModelCandidate) : Prop :=
  (is_cooled_down (candidate_key c) (fc_cooldown_secs cfg) s).1 = true.

(** What a run from [s] over the candidates [cs] promises. *)
Definition fell_back (cfg : FallbackConfig) (cs : list ModelCandidate)
    (attempts : list FallbackAttempt) (s : state)
    (out : result (FallbackResult T) AgentError * state) : Prop :=
  exists ev tried, out.2.2 = s.2 ++ ev /\ ran ev `sublist_of` cs /\
    (forall key, key ∉ candidate_key <$> ran ev -> out.2.1 !! key = s.1 !! key) /\
    match out.1 with
    | Ok res =>
        exists before c after tr0, cs = before ++ c :: after /\
          fr_attempts res = attempts ++ tried /\ ran ev = attempted tried ++ [c] /\
          fr_provider res = mc_provider c /\ fr_model res = mc_model c /\
          run_reply tr0 (mc_provider c) (mc_model c) = Ok (fr_result res) /\
          (forall c', c' ∈ before -> available cfg s c' -> c' ∈ attempted tried) /\
          out.2.1 !! candidate_key c = None
    | Err e =>
        e = ModelError ("All " +:+ num (length (attempts ++ tried)) +:+ " fallback candidates exhausted") /\
        ran ev = attempted tried /\
        (forall c', c' ∈ cs -> available cfg s c' -> c' ∈ attempted tried)
    end /\
    (forall a, a ∈ attempted tried -> is_Some (out.2.1 !! candidate_key a)).
End Fallback.

Section FallbackProof.
Context {T : Type}.
Context (run_reply : list fb_event -> string -> string -> result T AgentError).
Context (now : list fb_event -> Z).
Context (clock_mono : forall tr e, (now tr <= now (tr ++ [e]))%Z).

#[local] Abbreviation state := (gmap string Z * list fb_event)%type.

Lemma now_mono tr ev : (now tr <= now (tr ++ ev))%Z.
Proof.
  induction ev as [|e ev IH] using rev_ind; [by rewrite app_nil_r|].
  rewrite (assoc_L app). pose proof (clock_mono (tr ++ ev) e). lia.
Qed.

Lemma is_cooled_down_state key secs (s : state) :
  exists ev, (is_cooled_down now key secs s).2 = (s.1, s.2 ++ ev) /\ ran ev = [].
Proof.
  destruct s as [fs tr]. unfold is_cooled_down. cbn [fst snd].
  destruct (fs !! key); [exists [FbNow] | exists []]; by rewrite ?app_nil_r.
Qed.

(** A candidate stays available as time passes and other keys change. *)
Lemma available_later cfg (s s' : state) c ev :
  s'.2 = s.2 ++ ev -> s'.1 !! candidate_key c = s.1 !! candidate_key c ->
  available now cfg s c -> available now cfg s' c.
Proof.
  unfold available, is_cooled_down. intros He Hk. rewrite Hk.
  destruct (s.1 !! candidate_key c) as [t|]; [|done]. cbn [fst].
  rewrite He, !Z.leb_le. pose proof (now_mono s.2 ev). unfold sat_sub.
  intros Ha. etransitivity; [exact Ha|]. apply Z.div_le_mono; lia.
Qed.

Lemma ran_app a b : ran (a ++ b) = ran a ++ ran b.
Proof. apply omap_app. Qed.

(** One candidate skipped or failed, then the rest. *)
Lemma fell_back_cons cfg c cs attempts pre s s1 ev1 out :
  candidate_key c ∉ candidate_key <$> cs ->
  attempted pre = [] \/ attempted pre = [c] ->
  s1.2 = s.2 ++ ev1 -> ran ev1 = attempted pre ->
  (forall key, key ∉ candidate_key <$> attempted pre -> s1.1 !! key = s.1 !! key) ->
  (available now cfg s c -> c ∈ attempted pre) ->
  (forall a, a ∈ attempted pre -> is_Some (s1.1 !! candidate_key a)) ->
  fell_back run_reply now cfg cs (attempts ++ pre) s1 out ->
  fell_back run_reply now cfg (c :: cs) attempts s out.
Proof.
  intros Hc Hpre Htr Hran Hkeys Hav Hmark (ev & tried & Hout & Hsub & Hframe & Hres & Htried).
  assert (Hfresh : forall c', c' ∈ cs -> candidate_key c' ∉ candidate_key <$> attempted pre).
  { intros c' Hin. destruct Hpre as [-> | ->]; cbn; [apply not_elem_of_nil|].
    rewrite list_elem_of_singleton. intros E. apply Hc. rewrite <- E. by apply list_elem_of_fmap_2. }
  assert (Hlater : forall c', c' ∈ cs -> available now cfg s c' -> available now cfg s1 c').
  { intros c' Hin. apply (available_later cfg s s1 c' ev1 Htr). by apply Hkeys, Hfresh. }
  assert (Happ : attempted (pre ++ tried) = attempted pre ++ attempted tried) by apply fmap_app.
  exists (ev1 ++ ev), (pre ++ tried). split_and!.
  - by rewrite Hout, Htr, (assoc_L app).
  - rewrite ran_app, Hran. destruct Hpre as [-> | ->]; cbn; by constructor.
  - intros key Hk. rewrite ran_app, fmap_app, not_elem_of_app, Hran in Hk. destruct Hk as [Hk1 Hk2].
    rewrite (Hframe key Hk2). by apply Hkeys.
  - destruct out.1 as [res|e].
    + destruct Hres as (before & c0 & after & tr0 & -> & Hatt & Hrn & Hp & Hm & Hrun & Hbef & Hdel).
      exists (c :: before), c0, after, tr0. split_and!; try done.
      * by rewrite Hatt, (assoc_L app).
      * by rewrite ran_app, Hran, Hrn, Happ, (assoc_L app).
      * intros c' Hin Ha. rewrite Happ, elem_of_app. apply elem_of_cons in Hin as [->|Hin]; [by left; apply Hav|].
        right. apply Hbef; [done|]. apply Hlater; [|done]. rewrite elem_of_app. by left.
    + destruct Hres as (-> & Hrn & Hall). split_and!.
      * by rewrite (assoc_L app).
      * by rewrite ran_app, Hran, Hrn, Happ.
      * intros c' Hin Ha. rewrite Happ, elem_of_app. apply elem_of_cons in Hin as [->|Hin]; [by left; apply Hav|].
        right. apply Hall; [done|]. by apply Hlater.
  - intros a Ha. rewrite Happ, elem_of_app in Ha. destruct Ha as [Ha|Ha]; [|by apply Htried].
    destruct Hpre as [Hp|Hp]; rewrite Hp in Ha; [by apply elem_of_nil in Ha|].
    apply list_elem_of_singleton in Ha as ->. rewrite Hframe.
    + apply Hmark. rewrite Hp. by apply list_elem_of_singleton.
    + intros Hin. apply Hc. eapply elem_of_submseteq; [exact Hin|]. by apply sublist_submseteq, fmap_sublist.
Qed.

Lemma try_candidates_spec cfg cs attempts s :
  NoDup (candidate_key <$> cs) ->
  fell_back run_reply now cfg cs attempts s (try_candidates run_reply now cfg cs attempts s).
Proof.
  intros Hnd. revert attempts s. induction cs as [|c cs IH]; intros attempts s.
  { exists [], []. cbn. rewrite !app_nil_r. split_and!; try done; by intros ? ?%elem_of_nil. }
  rewrite fmap_cons in Hnd. apply NoDup_cons in Hnd as [Hc Hnd]. specialize (IH Hnd).
  cbn [try_candidates].
  destruct (is_cooled_down_state (candidate_key c) (fc_cooldown_secs cfg) s) as (ev0 & Hs0 & Hev0).
  destruct (is_cooled_down now (candidate_key c) (fc_cooldown_secs cfg) s) as [av s0] eqn:Eav.
  cbn [snd] in Hs0. subst s0. cbn [fst snd].
  destruct av; cbn [negb].
  2:{ eapply (fell_back_cons cfg c cs attempts [] s (s.1, s.2 ++ ev0) ev0); try done; [by left | | |].
      - intros Ha. unfold available in Ha. by rewrite Eav in Ha.
      - by intros a ?%elem_of_nil.
      - rewrite app_nil_r. apply IH. }
  destruct (run_reply (s.2 ++ ev0) (mc_provider c) (mc_model c)) as [res|e] eqn:Er.
  - exists (ev0 ++ [FbRun (mc_provider c) (mc_model c)]), [].
    assert (Hr : ran (ev0 ++ [FbRun (mc_provider c) (mc_model c)]) = [c])
      by (rewrite ran_app, Hev0; by destruct c).
    rewrite Hr. cbn [fst snd clear]. split_and!; try done.
    + by rewrite (assoc_L app).
    + apply sublist_skip, sublist_nil_l.
    + intros key Hk. cbn in Hk. rewrite lookup_delete_ne; [done|].
      intros <-. apply Hk. by apply list_elem_of_singleton.
    + exists [], c, cs, (s.2 ++ ev0). cbn. rewrite app_nil_r. split_and!; try done.
      apply lookup_delete_eq.
    + by intros a ?%elem_of_nil.
  - set (a := {| fa_provider := mc_provider c; fa_model := mc_model c;
                 fa_error := AgentError_to_string e |}).
    set (d := if (0 <? fc_retry_delay_ms cfg)%Z then [FbSleep (fc_retry_delay_ms cfg)] else []).
    assert (Ha : attempted [a] = [c]) by (by destruct c).
    eapply (fell_back_cons cfg c cs attempts [a] s _
              (ev0 ++ [FbRun (mc_provider c) (mc_model c); FbNow] ++ d)); [done | by right | | | | | | apply IH].
    all: unfold mark_failed; cbn [fst snd].
    + unfold d. destruct (0 <? _)%Z; cbn [fst snd]; by rewrite ?app_nil_r, <- ?(assoc_L app).
    + rewrite !ran_app, Hev0, Ha. unfold d. destruct (0 <? _)%Z; by destruct c.
    + rewrite Ha. intros key Hk.
      assert (candidate_key c <> key) by (intros <-; apply Hk; by apply list_elem_of_singleton).
      destruct (0 <? _)%Z; cbn [fst snd]; by rewrite lookup_insert_ne.
    + intros _. rewrite Ha. by apply list_elem_of_singleton.
    + rewrite Ha. intros a' ->%list_elem_of_singleton.
      destruct (0 <? _)%Z; cbn [fst snd]; rewrite lookup_insert_eq; eauto.
Qed.
End FallbackProof.

(** With distinct candidates and a clock that does not go back, the
    executor runs candidates in the order configured, each at most once; it
    answers with the first that succeeds, having tried before it every candidate
    that was not cooling down when it began, and gives up only when all of those
    have failed.  Failed candidates are then cooling down, the one that
    succeeded is not, and no other candidate's record changes. *)
Theorem fallback_order {T} (run_reply : list fb_event -> string -> string -> result T AgentError)
    (now : list fb_event -> Z) cfg s :
  (forall tr e, (now tr <= now (tr ++ [e]))%Z) ->
  NoDup (candidate_key <$> fc_candidates cfg) ->
  let '(r, s') := run_with_fallback run_reply now cfg s in
  exists ev tried,
    s'.2 = s.2 ++ ev /\ ran ev `sublist_of` fc_candidates cfg /\
    (forall key, key ∉ candidate_key <$> ran ev -> s'.1 !! key = s.1 !! key) /\
    (forall a, a ∈ attempted tried -> is_Some (s'.1 !! candidate_key a)) /\
    match r with
    | Ok res => exists before c after tr0,
        fc_candidates cfg = before ++ c :: after /\ fr_attempts res = tried /\
        ran ev = attempted tried ++ [c] /\
        c = {| mc_provider := fr_provider res; mc_model := fr_model res |} /\
        run_reply tr0 (mc_provider c) (mc_model c) = Ok (fr_result res) /\
        (forall c', c' ∈ before -> available now cfg s c' -> c' ∈ attempted tried) /\
        s'.1 !! candidate_key c = None
    | Err e =>
        e = ModelError ("All " +:+ num (length tried) +:+ " fallback candidates exhausted") /\
        ran ev = attempted tried /\
        (forall c', c' ∈ fc_candidates cfg -> available now cfg s c' -> c' ∈ attempted tried)
    end.
Proof.
  intros Hclock Hnd.
  pose proof (try_candidates_spec run_reply now Hclock cfg (fc_candidates cfg) [] s Hnd) as Hf.
  unfold run_with_fallback. destruct (try_candidates _ _ _ _ _ _) as [r s'].
  destruct Hf as (ev & tried & Htr & Hsub & Hkeys & Hres & Hmark). cbn [fst snd] in *.
  exists ev, tried. split_and!; try done. destruct r as [res|e]; [|done].
  destruct Hres as (before & c & after & tr0 & Hcs & Hatt & Hran & Hp & Hm & Hrun & Hbef & Hdel).
  exists before, c, after, tr0. split_and!; try done. destruct c. cbn in *. congruence.
Qed.

Lemma fallback_order_witness :
  let a := {| mc_provider := "openai"; mc_model := "m1" |} in
  let b := {| mc_provider := "ollama"; mc_model := "m2" |} in
  let cfg := {| fc_enabled := true; fc_max_retries := 3; fc_retry_delay_ms := 1000;
                fc_fallback_on_error := true; fc_cooldown_secs := 60; fc_candidates := [a; b] |} in
  let run := fun (_ : list fb_event) p (_ : string) =>
               if String.eqb p "ollama" then Ok 7 else Err (ModelError "down") in
  let now := fun tr : list fb_event => Z.of_nat (length tr) in
  exists ev tried,
    let s' := (run_with_fallback run now cfg (∅, [])).2 in
    s'.2 = ev /\ ran ev = [a; b] /\ attempted tried = [a].
Proof.
  intros a b cfg run now.
  assert (Hmono : forall tr e, (now tr <= now (tr ++ [e]))%Z)
    by (intros tr e; unfold now; rewrite length_app; lia).
  assert (Hnd : NoDup (candidate_key <$> fc_candidates cfg))
    by (eapply bool_decide_eq_true_1; vm_compute; reflexivity).
  pose proof (fallback_order run now cfg (∅, []) Hmono Hnd) as Hf.
  assert (Hr : exists x, (run_with_fallback run now cfg (∅, [])).1 = Ok x) by (vm_compute; eauto).
  destruct Hr as [x Hr].
  destruct (run_with_fallback run now cfg (∅, [])) as [r s'] eqn:E. cbn [fst snd] in *. subst r.
  destruct Hf as (ev & tried & Htr & _ & _ & _ & before & c & after & tr0 & _ & _ & Hran & _).
  exists ev, tried. cbn [fst snd]. split; [by rewrite Htr|].
  assert (He : s'.2 = ev) by (by rewrite Htr).
  vm_compute in E. injection E as _ <-. cbn in He. subst ev. cbn in Hran |- *.
  split; [done|]. change [_; _] with ([a] ++ [b]) in Hran.
  by apply app_inj_tail in Hran as [<- _].
Defined.

(** * The model chain *)

Inductive ProviderType :=
| OpenAi | Anthropic | Ollama | Google | Cohere | Voyage | OpenRouter | Together | Bedrock | Qwen
| Volcengine | Moonshot | Xai | HuggingFace | Vllm | Cloudflare | Litellm | Copilot | Minimax.

Record ModelChainEntry := { me_provider_type : ProviderType; me_model : string; me_priority : Z }.

(** The index is a [usize]. *)
Record ModelChain := { mch_entries : list ModelChainEntry; mch_index : Z }.

Definition chain_new : ModelChain := {| mch_entries := []; mch_index := 0 |}.

Definition add_model (p : ProviderType) (model : string) (priority : Z) (c : ModelChain)
  : ModelChain := {|
  mch_entries := sort_desc me_priority
    (mch_entries c ++ [{| me_provider_type := p; me_model := model; me_priority := priority |}]);
  mch_index := mch_index c;
|}.

Definition current (c : ModelChain) : option ModelChainEntry := mch_entries c !! Z.to_nat (mch_index c).

(** [entries.len() - 1] wraps for an empty chain. *)
Definition advance (c : ModelChain) : bool * ModelChain :=
  if (mch_index c <? wsub (Z.of_nat (length (mch_entries c))) 1)%Z
  then (true, {| mch_entries := mch_entries c; mch_index := wadd (mch_index c) 1 |})
  else (false, c).

Definition reset (c : ModelChain) : ModelChain := {| mch_entries := mch_entries c; mch_index := 0 |}.

Definition is_exhausted (c : ModelChain) : bool :=
  (Z.of_nat (length (mch_entries c)) <=? mch_index c)%Z.

(** An empty chain can be advanced: the subtraction underflows. *)
Lemma empty_chain_advances : (advance chain_new).1 = true /\ current (advance chain_new).2 = None.
Proof. done. Qed.

(** * Running an agent over the chain *)

#[local] Open Scope agent_scope.

Section ChainRun.
Context `{UnicodeCase} `{LlmProvider} `{Formatting}.

Definition all_failed (attempts : Z) : AgentError :=
  ModelError ("All models in chain failed after " +:+ pretty attempts +:+ " attempts").

(** The loop of [execute_with_agent].  The chain is the guarded state; [None]
    stands for running out of fuel, which [execute_returns] excludes. *)
Fixpoint chain_loop (fuel : nat) (cfg : FallbackConfig) (max_attempts : Z) (input : string)
    (chain : ModelChain) (attempts : Z) : M (result string AgentError * ModelChain) :=
  match fuel with
  | 0 => or_panic None
  | S fuel' =>
      if negb (is_exhausted chain) && (attempts <? max_attempts)%Z then
        match current chain with
        | None => chain_loop fuel' cfg max_attempts input chain attempts
        | Some entry =>
            let attempts := wrap_i32 (attempts + 1) in
            r <- run input ;;
            match r with
            | Ok res => aret (Ok res, reset chain)
            | Err e =>
                let '(more, chain) := advance chain in
                if negb more then aret (Err (all_failed attempts), chain)
                else
                  (if (0 <? fc_retry_delay_ms cfg)%Z
                   then effect (sleep (fc_retry_delay_ms cfg)) else aret tt) ;;;
                  chain_loop fuel' cfg max_attempts input chain attempts
            end
        end
      else aret (Err (all_failed attempts), chain)
  end.

Definition execute_with_agent (cfg : FallbackConfig) (input : string) (chain : ModelChain)
  : M (result string AgentError * ModelChain) :=
  if negb (fc_enabled cfg) then aret (Err (ModelError "Fallback not enabled"), chain)
  else
    let chain := reset chain in
    let n := length (mch_entries chain) in
    let max_attempts := wrap_i32 (fc_max_retries cfg * wrap_i32 (Z.of_nat n)) in
    chain_loop (S n) cfg max_attempts input chain 0.
End ChainRun.

(** [m] returns, keeps the configuration and calls the model at most [n] times. *)
Definition costs {A} (cfg : AgentConfig) (n : nat) (m : M A) : Prop :=
  forall s, ag_config s.1 = cfg ->
    runs m s (fun _ s' => ag_config s'.1 = cfg /\
                exists ev, s'.2 = s.2 ++ ev /\ chat_count ev <= n).

Lemma costs_ret {A} cfg n (x : A) : costs cfg n (aret x).
Proof. intros s Hs. split; [done|]. exists []. rewrite app_nil_r. split; [done | apply Nat.le_0_l]. Qed.

Lemma costs_bind {A B} cfg n k (m : M A) (f : A -> M B) :
  costs cfg n m -> (forall x, costs cfg k (f x)) -> costs cfg (n + k) (abind m f).
Proof.
  intros Hm Hf s Hs. apply runs_bind. eapply runs_mono; [by apply Hm|]. cbn beta.
  intros x s' (Hs' & ev & Hev & Hc). eapply runs_mono; [by apply Hf|]. cbn beta.
  intros y s'' (Hs'' & ev' & Hev' & Hc'). split; [done|]. exists (ev ++ ev').
  rewrite Hev', Hev, (assoc_L app), chat_count_app. split; [done | lia].
Qed.

(** Steps that make no model call. *)
Lemma costs_free {A B} cfg k (m : M A) (f : A -> M B) :
  costs cfg 0 m -> (forall x, costs cfg k (f x)) -> costs cfg k (abind m f).
Proof. apply costs_bind. Qed.

Lemma costs_last {A B} cfg n (m : M A) (f : A -> M B) :
  costs cfg n m -> (forall x, costs cfg 0 (f x)) -> costs cfg n (abind m f).
Proof. intros Hm Hf. rewrite <- (Nat.add_0_r n). by apply costs_bind. Qed.

Lemma costs_modify cfg f : (forall a, ag_config (f a) = ag_config a) -> costs cfg 0 (modify f).
Proof.
  intros Hf s Hs. cbn. rewrite Hf. split; [done|]. exists []. rewrite app_nil_r. done.
Qed.

Lemma costs_effect {A} cfg n (m : Eff A) :
  (forall tr, exists ev, (m tr).2 = tr ++ ev /\ chat_count ev <= n) -> costs cfg n (effect m).
Proof.
  intros Hm [a tr] Hs. unfold runs, effect. cbn. destruct (Hm tr) as (ev & He & Hc).
  destruct (m tr) as [x tr']. cbn in He. subst. cbn. eauto.
Qed.

Lemma costs_emit cfg e : chat_count [e] = 0 -> costs cfg 0 (effect (emit e)).
Proof. intros He. apply costs_effect. intros tr. exists [e]. split; [done | by rewrite He]. Qed.

Lemma costs_append cfg m : costs cfg 0 (transcript_append m).
Proof.
  intros [a tr] Hs. unfold transcript_append, abind, get, runs. cbn.
  destruct (ag_transcript a); [by apply costs_emit | by apply costs_ret].
Qed.

Create HintDb costs discriminated.
#[export] Hint Resolve costs_ret costs_append costs_emit costs_modify : costs.
#[export] Hint Extern 1 (costs _ _ (push _)) => by apply costs_modify : costs.
#[export] Hint Extern 1 (costs _ _ (goto _)) => by apply costs_modify : costs.
#[export] Hint Extern 1 (costs _ _ (if _ then _ else _)) => case_match : costs.
#[export] Hint Extern 1 (chat_count _ = _) => reflexivity : costs.

Section ChainRunProof.
Context `{UnicodeCase} `{LlmProvider} `{Formatting}.

Lemma costs_record cfg resp : costs cfg 0 (record_usage resp).
Proof. unfold record_usage. destruct (cc_usage resp); [by apply costs_modify | apply costs_ret]. Qed.

Lemma costs_chat cfg rq : costs cfg 1 (effect (chat rq)).
Proof. apply costs_effect. intros tr. exists [EvChat rq]. done. Qed.

Lemma costs_run_loop cfg rq attempt left e : costs cfg left (run_loop rq attempt left e).
Proof.
  revert attempt e. induction left as [|left IH]; intros attempt e; [apply costs_ret|].
  cbn [run_loop]. apply costs_free; [eauto with costs|]. intros _.
  apply (costs_bind cfg 1); [apply costs_chat|]. intros [resp|e']; [|apply IH].
  apply costs_free; [apply costs_record|]. intros _.
  destruct (cc_choices resp); [apply IH|].
  repeat (apply costs_free; [eauto with costs | intros _]). apply costs_ret.
Qed.

Lemma costs_run cfg input :
  costs cfg (Z.to_nat (default 3%Z (cfg_max_retries cfg))) (run input).
Proof.
  unfold run. repeat (apply costs_free; [by eauto with costs | intros _]).
  intros [a tr] Ha. apply runs_get. cbn in Ha.
  destruct (prepare_total a) as [msgs Hm]. apply (runs_or_panic _ _ _ _ _ Hm).
  unfold max_retries. rewrite Ha.
  set (n := Z.to_nat _). revert Ha. change (ag_config a) with (ag_config (a, tr).1).
  generalize (a, tr) (agent_request a msgs None). intros s rq. revert s.
  refine (costs_last cfg n _ _ (costs_run_loop _ _ _ _ _) _).
  intros [c|e]; [apply costs_ret|]. apply costs_free; [eauto with costs | intros _; apply costs_ret].
Qed.
End ChainRunProof.

Section ChainRunTheorems.
Context `{UnicodeCase} `{LlmProvider} `{Formatting}.

Lemma current_some c : (0 <= mch_index c)%Z -> is_exhausted c = false -> is_Some (current c).
Proof. intros Hi He. unfold is_exhausted, current in *. boolean. apply lookup_lt_is_Some. lia. Qed.

Lemma advance_exact c :
  is_exhausted c = false -> (0 <= mch_index c)%Z ->
  (Z.of_nat (length (mch_entries c)) < 2147483648)%Z ->
  advance c = if (mch_index c + 1 <? Z.of_nat (length (mch_entries c)))%Z
              then (true, {| mch_entries := mch_entries c; mch_index := mch_index c + 1 |})
              else (false, c).
Proof.
  intros He Hi Hl. unfold advance, is_exhausted in *. boolean.
  rewrite wsub_exact by (unfold u64_max; lia). rewrite wadd_exact by (unfold u64_max; lia).
  replace (mch_index c <? Z.of_nat (length (mch_entries c)) - 1)%Z
    with (mch_index c + 1 <? Z.of_nat (length (mch_entries c)))%Z; [done|].
  destruct (Z.ltb_spec (mch_index c + 1) (Z.of_nat (length (mch_entries c)))); symmetry;
    [apply Z.ltb_lt | apply Z.ltb_ge]; lia.
Qed.

(** Calls left: a full set of retries for each entry from the current one. *)
Definition left (c : ModelChain) : nat := length (mch_entries c) - Z.to_nat (mch_index c).

Lemma costs_weaken {A} cfg n k (m : M A) : n <= k -> costs cfg n m -> costs cfg k m.
Proof.
  intros Hle Hm s Hs. eapply runs_mono; [by apply Hm|]. cbn beta.
  intros x s' (? & ev & ? & ?). split; [done|]. exists ev. split; [done | lia].
Qed.

Lemma costs_chain_loop acfg cfg max input fuel c attempts :
  (0 <= mch_index c <= Z.of_nat (length (mch_entries c)))%Z ->
  (Z.of_nat (length (mch_entries c)) < 2147483648)%Z -> left c < fuel ->
  costs acfg (left c * Z.to_nat (default 3%Z (cfg_max_retries acfg)))
    (chain_loop fuel cfg max input c attempts).
Proof.
  revert c attempts. induction fuel as [|fuel IH]; intros c attempts Hi Hl Hf; [lia|].
  cbn [chain_loop]. destruct (is_exhausted c) eqn:He; cbn [negb andb].
  { eapply costs_weaken, costs_ret. apply Nat.le_0_l. }
  destruct (attempts <? max)%Z; [|eapply costs_weaken, costs_ret; apply Nat.le_0_l].
  destruct (current_some c (proj1 Hi) He) as [entry ->].
  set (r := Z.to_nat _). assert (Hleft : left c = S (left {| mch_entries := mch_entries c;
    mch_index := mch_index c + 1 |})).
  { unfold left, is_exhausted in *. cbn. boolean. lia. }
  rewrite Hleft. cbn [Nat.mul]. apply costs_bind; [apply costs_run|].
  intros [res|e]; [eapply costs_weaken, costs_ret; apply Nat.le_0_l|].
  rewrite advance_exact by (done || lia). destruct (_ + 1 <? _)%Z eqn:Ea; cbn [negb].
  2:{ eapply costs_weaken, costs_ret. apply Nat.le_0_l. }
  boolean. apply costs_free; [by eauto with costs|]. intros _.
  apply IH; cbn [mch_index mch_entries]; lia.
Qed.

Definition outcome {A} (o : option ((A * ModelChain) * (Agent * trace))) : option (A * (Agent * trace)) :=
  (fun '((r, _), s) => (r, s)) <$> o.

Lemma chain_loop_ignores_models cfg max input fuel c1 c2 attempts s :
  mch_index c1 = mch_index c2 -> length (mch_entries c1) = length (mch_entries c2) ->
  outcome (chain_loop fuel cfg max input c1 attempts s)
  = outcome (chain_loop fuel cfg max input c2 attempts s).
Proof.
  revert c1 c2 attempts s. induction fuel as [|fuel IH]; intros c1 c2 attempts s Hi Hl; [done|].
  cbn [chain_loop]. unfold is_exhausted. rewrite Hi, Hl.
  destruct (_ && _); [|done].
  assert (Hcur : current c1 = None <-> current c2 = None)
    by (unfold current; rewrite !lookup_ge_None, Hi, Hl; done).
  destruct (current c1), (current c2); [|naive_solver|naive_solver|by apply IH].
  unfold abind. destruct (run input s) as [[[res|e] s1]|]; [done| |done].
  unfold advance. rewrite Hi, Hl. destruct (_ <? _)%Z; cbn [negb]; [|done].
  destruct (if (0 <? fc_retry_delay_ms cfg)%Z then _ else _) as [[[] s2]|]; [|done].
  by apply IH.
Qed.

(** Running an agent over a model chain always returns, keeps the
    agent's configuration and makes at most one full set of retries per entry;
    and only the number of entries matters: chains with other models give the
    same answer, history and model calls, because every attempt runs the same
    unchanged agent. *)
Theorem execute_with_agent_same_model cfg input chain a tr :
  (Z.of_nat (length (mch_entries chain)) < 2147483648)%Z ->
  exists r a' ev,
    outcome (execute_with_agent cfg input chain (a, tr)) = Some (r, (a', tr ++ ev)) /\
    ag_config a' = ag_config a /\
    chat_count ev <= length (mch_entries chain)
                     * Z.to_nat (default 3%Z (cfg_max_retries (ag_config a))) /\
    forall chain', length (mch_entries chain') = length (mch_entries chain) ->
      outcome (execute_with_agent cfg input chain' (a, tr)) = Some (r, (a', tr ++ ev)).
Proof.
  intros Hl. unfold execute_with_agent. destruct (fc_enabled cfg); cbn [negb].
  2:{ exists (Err (ModelError "Fallback not enabled")), a, []. rewrite app_nil_r.
      split_and!; try done. apply Nat.le_0_l. }
  pose proof (costs_chain_loop (ag_config a) cfg
    (wrap_i32 (fc_max_retries cfg * wrap_i32 (Z.of_nat (length (mch_entries chain))))) input
    (S (length (mch_entries chain))) (reset chain) 0) as Hc.
  unfold left in Hc. cbn [reset mch_index mch_entries] in Hc.
  specialize (Hc ltac:(lia) Hl ltac:(lia) (a, tr) eq_refl). unfold runs in Hc.
  destruct (chain_loop _ _ _ _ _ _ _) as [[[r c] [a' tr']]|] eqn:E; [|done].
  destruct Hc as (Ha & ev & Hev & Hc). cbn [fst snd] in Ha, Hev. subst tr'.
  exists r, a', ev. rewrite Nat.sub_0_r in Hc.
  split_and!; [done | done | done |].
  intros chain' Hl'. cbn [reset mch_entries]. rewrite Hl'.
  rewrite (chain_loop_ignores_models _ _ _ _ (reset chain') (reset chain)) by done.
  by rewrite E.
Qed.
End ChainRunTheorems.

Definition down_provider : LlmProvider := fun _ _ => Err (NetworkError "down").

Definition two_models : ModelChain :=
  add_model Ollama "m2" 1 (add_model OpenAi "m1" 5 chain_new).

Lemma execute_with_agent_same_model_witness :
  let chain := two_models in
  (Z.of_nat (length (mch_entries chain)) < 2147483648)%Z /\
  exists r a' ev,
    outcome (@execute_with_agent down_provider demo_format FallbackConfig_default "hi" chain
               (demo_agent, [])) = Some (r, (a', ev)) /\ chat_count ev <= 6.
Proof.
  intros chain. split; [vm_compute; reflexivity|].
  destruct (@execute_with_agent_same_model down_provider demo_format FallbackConfig_default
              "hi" chain demo_agent [] ltac:(vm_compute; reflexivity)) as (r & a' & ev & Ho & _ & Hc & _).
  exists r, a', ev. split; [exact Ho | exact Hc].
Defined.

(** * Cooldowns of provider profiles *)

Definition MAX_COOLDOWN_MS : Z := 3600000.
Definition FAILURE_WINDOW_MS : Z := 24 * 3600000.

Record ProfileUsageStats := {
  cooldown_until : option Z;
  error_count : Z;
  last_failure_at : option Z;
}.

Definition ProfileUsageStats_default : ProfileUsageStats :=
  {| cooldown_until := None; error_count := 0; last_failure_at := None |}.

Abbreviation Profiles := (gmap string ProfileUsageStats).

(** The exponent is at most 3, so [saturating_pow] never saturates. *)
Definition cooldown_ms (error_count : Z) : Z :=
  let exp := Z.min (Z.max error_count 1 - 1) 3 in
  Z.min (sat_mul 60000 (5 ^ exp)) MAX_COOLDOWN_MS.

Definition record_failure (profile_id : string) (now_ms : Z) (p : Profiles) : Z * Profiles :=
  let stats := default ProfileUsageStats_default (p !! profile_id) in
  let count := match last_failure_at stats with
               | Some last => if (FAILURE_WINDOW_MS <? sat_sub now_ms last)%Z then 0%Z
                              else error_count stats
               | None => error_count stats
               end in
  let count := wrap_u32 (count + 1) in
  let cd := cooldown_ms count in
  (cd, <[profile_id := {| cooldown_until := Some (wadd now_ms cd); error_count := count;
                          last_failure_at := Some now_ms |}]> p).

Definition in_cooldown (p : Profiles) (profile_id : string) (now_ms : Z) : bool :=
  match p !! profile_id ≫= cooldown_until with
  | Some until => (now_ms <? until)%Z
  | None => false
  end.

Definition cooldown_expired (now_ms : Z) (s : ProfileUsageStats) : bool :=
  match cooldown_until s with Some until => (until <=? now_ms)%Z | None => false end.

Definition clear_expired (now_ms : Z) (p : Profiles) : bool * Profiles :=
  (existsb (fun kv => cooldown_expired now_ms kv.2) (map_to_list p),
   (fun s => if cooldown_expired now_ms s then ProfileUsageStats_default else s) <$> p).

Definition fail_all (fails : list (string * Z)) (p : Profiles) : Profiles :=
  foldl (fun p f => (record_failure f.1 f.2 p).2) p fails.

(** The failures of a profile, newest first, and how many of them follow each
    other within the failure window. *)
Definition failures_of (profile : string) (fails : list (string * Z)) : list Z :=
  rev (omap (fun f => if String.eqb f.1 profile then Some f.2 else None) fails).

Fixpoint failure_streak (newest_first : list Z) : nat :=
  match newest_first with
  | [] => 0
  | t :: rest =>
      match rest with
      | [] => 1
      | u :: _ => if (FAILURE_WINDOW_MS <? sat_sub t u)%Z then 1 else S (failure_streak rest)
      end
  end.

(** What the tracker holds for a profile after its failures. *)
Definition stats_of (newest_first : list Z) : option ProfileUsageStats :=
  match newest_first with
  | [] => None
  | t :: _ =>
      let n := Z.of_nat (failure_streak newest_first) in
      Some {| cooldown_until := Some (t + cooldown_ms n)%Z; error_count := n;
              last_failure_at := Some t |}
  end.

Lemma cooldown_ms_bounds n : (60000 <= cooldown_ms n <= MAX_COOLDOWN_MS)%Z.
Proof.
  unfold cooldown_ms, MAX_COOLDOWN_MS, sat_mul, u64_max.
  assert (Hp : (5 ^ 0 <= 5 ^ Z.min (Z.max n 1 - 1) 3)%Z) by (apply Z.pow_le_mono_r; lia).
  change (5 ^ 0)%Z with 1%Z in Hp. lia.
Qed.

Lemma failure_streak_length l : failure_streak l <= length l.
Proof.
  induction l as [|t [|u l] IH]; simpl in *; [lia | lia|]. destruct (_ <? _)%Z; lia.
Qed.

Lemma failures_of_snoc profile fails f :
  failures_of profile (fails ++ [f])
  = if String.eqb f.1 profile then f.2 :: failures_of profile fails else failures_of profile fails.
Proof.
  unfold failures_of. rewrite omap_app, rev_app_distr. simpl. by destruct (String.eqb f.1 profile).
Qed.

Lemma failures_of_length profile fails : length (failures_of profile fails) <= length fails.
Proof.
  induction fails as [|f fails IH] using rev_ind; [done|].
  rewrite failures_of_snoc, length_app. simpl. destruct (String.eqb _ _); simpl; lia.
Qed.

Lemma fail_all_snoc fails f p :
  fail_all (fails ++ [f]) p = (record_failure f.1 f.2 (fail_all fails p)).2.
Proof. unfold fail_all. by rewrite foldl_app. Qed.

Lemma fail_all_stats profile fails :
  Forall (fun f => 0 <= f.2 <= u64_max - MAX_COOLDOWN_MS)%Z fails ->
  (Z.of_nat (length fails) <= u32_max)%Z ->
  fail_all fails ∅ !! profile = stats_of (failures_of profile fails).
Proof.
  induction fails as [|[q t] fails IH] using rev_ind; [done|].
  rewrite Forall_app, length_app. intros [Hf Ht] Hl. simpl in Hl.
  apply Forall_inv in Ht. cbn [snd] in Ht.
  specialize (IH Hf ltac:(lia)). rewrite fail_all_snoc, failures_of_snoc. unfold record_failure. cbn [fst snd].
  destruct (String.eqb_spec q profile) as [->|Hne]; [|by rewrite lookup_insert_ne].
  rewrite lookup_insert_eq, IH.
  pose proof (failure_streak_length (failures_of profile fails)) as Hs.
  pose proof (failures_of_length profile fails) as Hn.
  assert (Hcount : forall n, (0 <= n <= Z.of_nat (length fails))%Z -> wrap_u32 (n + 1) = (n + 1)%Z)
    by (intros n Hb; unfold wrap_u32; apply Z.mod_small; unfold u32_max in Hl; lia).
  assert (Hadd : forall n, wadd t (cooldown_ms n) = (t + cooldown_ms n)%Z)
    by (intros n; apply wadd_exact; pose proof (cooldown_ms_bounds n); lia).
  destruct (failures_of profile fails) as [|u l] eqn:E.
  - cbn [stats_of from_option id last_failure_at error_count ProfileUsageStats_default].
    rewrite Hcount, Hadd by lia. done.
  - unfold stats_of. cbn [from_option id last_failure_at error_count].
    change (failure_streak (t :: u :: l)) with
      (if (FAILURE_WINDOW_MS <? sat_sub t u)%Z then 1 else S (failure_streak (u :: l))).
    set (k := failure_streak (u :: l)) in *.
    destruct (FAILURE_WINDOW_MS <? sat_sub t u)%Z.
    + rewrite Hcount, Hadd by lia. done.
    + rewrite Hcount by lia. rewrite Hadd, Nat2Z.inj_succ. done.
Qed.

(** The cooldown of a provider profile depends only on its own failures:
    after failures of any profiles, it is in cooldown exactly until its last
    failure plus 60 s times 5 to the power of the number of earlier failures in
    the current streak (at most 3), capped at one hour, where a quiet period of
    more than 24 hours starts a new streak.  Clearing expired cooldowns changes
    no later answer. *)
Theorem cooldown_schedule profile fails now :
  Forall (fun f => 0 <= f.2 <= u64_max - MAX_COOLDOWN_MS)%Z fails ->
  (Z.of_nat (length fails) <= u32_max)%Z ->
  let p := fail_all fails ∅ in
  in_cooldown p profile now
    = match failures_of profile fails with
      | [] => false
      | last :: _ => (now <? last + Z.min 3600000
          (60000 * 5 ^ Z.of_nat (Nat.min 3 (failure_streak (failures_of profile fails) - 1))))%Z
      end /\
  forall cleared, (cleared <= now)%Z ->
    in_cooldown (clear_expired cleared p).2 profile now = in_cooldown p profile now.
Proof.
  intros Hf Hl p. assert (Hst := fail_all_stats profile fails Hf Hl). fold p in Hst. split.
  - unfold in_cooldown. rewrite Hst. destruct (failures_of profile fails) as [|t l] eqn:E; [done|].
    unfold stats_of. cbn [mbind option_bind cooldown_until]. f_equal. f_equal.
    set (n := failure_streak (t :: l)).
    assert (Hn : 1 <= n) by (unfold n; destruct l; cbn; [lia | destruct (_ <? _)%Z; lia]).
    unfold cooldown_ms, sat_mul, MAX_COOLDOWN_MS.
    replace (Z.min (Z.max (Z.of_nat n) 1 - 1) 3) with (Z.of_nat (Nat.min 3 (n - 1))) by lia.
    assert (Hp : (5 ^ Z.of_nat (Nat.min 3 (n - 1)) <= 5 ^ 3)%Z) by (apply Z.pow_le_mono_r; lia).
    change (5 ^ 3)%Z with 125%Z in Hp. unfold u64_max. lia.
  - intros cleared Hc. unfold in_cooldown, clear_expired. cbn [snd]. rewrite lookup_fmap.
    destruct (p !! profile) as [s|]; [|done]. cbn [fmap option_fmap option_map mbind option_bind].
    unfold cooldown_expired. destruct (cooldown_until s) as [u|] eqn:Eu; [|by rewrite Eu].
    destruct (Z.leb_spec u cleared); [|by rewrite Eu].
    cbn [cooldown_until ProfileUsageStats_default]. symmetry. apply Z.ltb_ge. lia.
Qed.

Lemma cooldown_schedule_witness :
  let fails := [("a", 1000%Z); ("b", 1500%Z); ("a", 2000%Z)] in
  Forall (fun f => 0 <= f.2 <= u64_max - MAX_COOLDOWN_MS)%Z fails /\
  in_cooldown (fail_all fails ∅) "a" 301999 = true /\
  in_cooldown (fail_all fails ∅) "a" 302000 = false.
Proof.
  intros fails.
  assert (Hf : Forall (fun f => 0 <= f.2 <= u64_max - MAX_COOLDOWN_MS)%Z fails)
    by (repeat constructor; vm_compute; discriminate).
  assert (Hl : (Z.of_nat (length fails) <= u32_max)%Z) by (vm_compute; discriminate).
  split; [exact Hf|]. split.
  - exact (proj1 (cooldown_schedule "a" fails 301999 Hf Hl)).
  - exact (proj1 (cooldown_schedule "a" fails 302000 Hf Hl)).
Defined.
