(* ===== verification/ToolPolicy.v ===== *)
(** Tool policies ([crates/tools-core/src/policy.rs], [groups.rs],
    [profiles.rs], [truncation.rs]): the allow/deny policy and its three-level
    pipeline, the seven-layer pipeline, tool groups and profiles, and the
    truncation of tool output. *)

From S2P Require Import Prelude RustStr.
#[local] Open Scope string_scope.
#[local] Open Scope nat_scope.
#[local] Open Scope list_scope.

(** [v.contains(x)] on a vector of strings. *)
Definition member (x : string) (l : list string) : bool := existsb (String.eqb x) l.

Lemma member_spec x l : member x l = true <-> x ∈ l.
Proof.
  unfold member. rewrite existsb_exists. split.
  - intros (y & Hy & ->%String.eqb_eq). by apply list_elem_of_In.
  - intros Hx. exists x. split; [by apply list_elem_of_In | apply String.eqb_refl].
Qed.

Lemma member_false x l : member x l = false <-> x ∉ l.
Proof. rewrite <- member_spec. destruct (member x l); naive_solver. Qed.

(** Appends an element that is not there yet. *)
Definition push_new (out : list string) (x : string) : list string :=
  if member x out then out else out ++ [x].

(** * Groups *)

Definition resolve_tool_group (group : string) : list string :=
  match group with
  | "group:memory" => ["memory_search"; "memory_get"]
  | "group:web" => ["web_search"; "web_fetch"; "link_reader"]
  | "group:fs" => ["read_file"; "write_file"; "list_dir"]
  | "group:runtime" => ["bash"]
  | "group:sessions" => ["sessions_list"; "sessions_history"; "sessions_send"; "sessions_spawn";
                         "subagents"; "session_status"]
  | "group:ui" => ["browse"]
  | "group:automation" => ["cron"]
  | "group:messaging" => ["message"]
  | "group:media" => ["media_describe"; "tts"]
  | _ => []
  end.

Definition is_group_ref (name : string) : bool := starts_with name "group:".

Definition expand_item (out : list string) (item : string) : list string :=
  if is_group_ref item then foldl push_new out (resolve_tool_group item) else push_new out item.

Definition expand_tool_list (items : list string) : list string := foldl expand_item [] items.

Definition resolve_tool_alias (name : string) : string :=
  match name with "exec" => "bash" | "apply-patch" => "apply_patch" | _ => name end.

Definition owner_only_tools : list string := ["cron"; "gateway"; "sessions_spawn"].
Definition is_owner_only_tool (name : string) : bool := member name owner_only_tools.

(** * Profiles *)

Inductive ToolProfile := Minimal | Coding | Messaging | Full.

Definition allowed_tools (p : ToolProfile) : list string :=
  match p with
  | Minimal => ["session_status"]
  | Coding => ["group:fs"; "group:runtime"; "group:sessions"; "group:memory"; "group:web";
               "media_describe"]
  | Messaging => ["group:messaging"; "sessions_list"; "sessions_history"; "sessions_send";
                  "session_status"]
  | Full => ["*"]
  end.

Definition allows_tool (p : ToolProfile) (tool_name : string) : bool :=
  let allowed := allowed_tools p in
  if member "*" allowed then true
  else if member tool_name allowed then true
  else existsb (fun entry => is_group_ref entry && member tool_name (resolve_tool_group entry)) allowed.

(** * The policy and its merge *)

Record ToolPolicy := {
  tp_allow : option (list string);
  tp_deny : list string;
  tp_require_approval : list string;
}.

Definition ToolPolicy_default : ToolPolicy :=
  {| tp_allow := None; tp_deny := []; tp_require_approval := [] |}.

Inductive ToolPolicyDecision := Allowed | DeniedBecause (reason : string) | NeedsApproval.

Definition deny_reason (t : string) : string := "Tool '" +:+ t +:+ "' is denied by policy".
Definition not_listed_reason (t : string) : string :=
  "Tool '" +:+ t +:+ "' is not in the allow list".

Definition is_allowed (p : ToolPolicy) (tool_name : string) : ToolPolicyDecision :=
  if member tool_name (tp_deny p) then DeniedBecause (deny_reason tool_name)
  else if match tp_allow p with Some allow => negb (member tool_name allow) | None => false end
  then DeniedBecause (not_listed_reason tool_name)
  else if member tool_name (tp_require_approval p) then NeedsApproval
  else Allowed.

Definition merge (p override : ToolPolicy) : ToolPolicy := {|
  tp_allow := match tp_allow override with Some a => Some a | None => tp_allow p end;
  tp_deny := foldl push_new (tp_deny p) (tp_deny override);
  tp_require_approval := foldl push_new (tp_require_approval p) (tp_require_approval override);
|}.

Record ToolPolicyPipeline := {
  global_policy : ToolPolicy;
  channel_policies : gmap string ToolPolicy;
  session_policies : gmap string ToolPolicy;
}.

(** The merge with the policy a map holds for a key, when both are given. *)
Definition merge_for (policies : gmap string ToolPolicy) (key : option string) (p : ToolPolicy)
  : ToolPolicy :=
  match key with
  | Some k => match policies !! k with Some q => merge p q | None => p end
  | None => p
  end.

Definition pipeline_check (pl : ToolPolicyPipeline) (tool_name : string)
    (channel session : option string) : ToolPolicyDecision :=
  let merged := merge_for (channel_policies pl) channel (global_policy pl) in
  let merged := merge_for (session_policies pl) session merged in
  is_allowed merged tool_name.

(** * The layered pipeline *)

Record PolicyContext := {
  px_channel : option string;
  px_session : option string;
  px_agent_id : option string;
  px_provider : option string;
}.

Inductive PolicyLayer :=
| Profile (profile : ToolProfile)
| ProviderProfile (provider : string) (profile : ToolProfile)
| GlobalAllow (list : list string)
| GlobalProviderAllow (provider : string) (list : list string)
| AgentAllow (agent_id : string) (list : list string)
| AgentProviderAllow (agent_id provider : string) (list : list string)
| GroupAllow (channel : string) (list : list string).

Record LayeredPolicyPipeline := { layers : list PolicyLayer; fallback : ToolPolicy }.

Definition add_layer (l : PolicyLayer) (p : LayeredPolicyPipeline) : LayeredPolicyPipeline :=
  {| layers := layers p ++ [l]; fallback := fallback p |}.

Definition profile_name (p : ToolProfile) : string :=
  match p with
  | Minimal => "Minimal" | Coding => "Coding" | Messaging => "Messaging" | Full => "Full"
  end.

Definition list_decision (list : list string) (tool_name : string) : option ToolPolicyDecision :=
  let expanded := expand_tool_list list in
  if member tool_name expanded || member "*" expanded then Some Allowed else None.

Definition is_key (o : option string) (k : string) : bool := bool_decide (o = Some k).

Definition evaluate_layer (layer : PolicyLayer) (tool_name : string) (ctx : PolicyContext)
  : option ToolPolicyDecision :=
  match layer with
  | Profile profile =>
      if allows_tool profile tool_name then Some Allowed
      else Some (DeniedBecause ("Tool '" +:+ tool_name +:+ "' not in profile "
                                +:+ profile_name profile))
  | ProviderProfile provider profile =>
      if negb (is_key (px_provider ctx) provider) then None
      else if allows_tool profile tool_name then Some Allowed
      else Some (DeniedBecause ("Tool '" +:+ tool_name +:+ "' not in provider profile"))
  | GlobalAllow list => list_decision list tool_name
  | GlobalProviderAllow provider list =>
      if negb (is_key (px_provider ctx) provider) then None else list_decision list tool_name
  | AgentAllow agent_id list =>
      if negb (is_key (px_agent_id ctx) agent_id) then None else list_decision list tool_name
  | AgentProviderAllow agent_id provider list =>
      if negb (is_key (px_agent_id ctx) agent_id) || negb (is_key (px_provider ctx) provider)
      then None else list_decision list tool_name
  | GroupAllow channel list =>
      if negb (is_key (px_channel ctx) channel) then None else list_decision list tool_name
  end.

Definition evaluate (p : LayeredPolicyPipeline) (tool_name : string) (ctx : PolicyContext)
  : ToolPolicyDecision :=
  if member tool_name (tp_deny (fallback p)) then DeniedBecause (deny_reason tool_name)
  else
    let last_decision :=
      foldl (fun last layer => match evaluate_layer layer tool_name ctx with
                               | Some d => Some d | None => last end)
        None (layers p) in
    match last_decision with Some d => d | None => is_allowed (fallback p) tool_name end.

(** * Truncation of tool output *)

Record TruncationConfig := { max_chars : nat; max_lines : nat; truncation_message : string }.

Definition TruncationConfig_default : TruncationConfig :=
  {| max_chars := N.to_nat 50000; max_lines := 500; truncation_message := "[truncated]" |}.

(** [None] is the panic of slicing inside a character. *)
Definition smart_truncate (result : string) (max : nat) : option string :=
  if len result <=? max then Some result
  else
    slice ← slice_to result max;
    let cut := default max (rfind slice nl) in
    kept ← slice_to result cut;
    Some (kept +:+ nl +:+ nl +:+ "[truncated, showing first " +:+ pretty cut +:+ " of "
          +:+ pretty (len result) +:+ " chars]").

Definition truncate_tool_result (result : string) (config : TruncationConfig) : option string :=
  if (len result <=? max_chars config) && (length (lines result) <=? max_lines config)
  then Some result
  else smart_truncate result (Nat.min (max_chars config) (max_lines config * 200)).

(** * Groups: expansion is duplicate free and means what it says *)

Lemma push_new_spec out x y : y ∈ push_new out x <-> y ∈ out \/ y = x.
Proof.
  unfold push_new. destruct (member x out) eqn:E.
  - apply member_spec in E. naive_solver.
  - rewrite elem_of_app, list_elem_of_singleton. done.
Qed.

Lemma push_new_NoDup out x : NoDup out -> NoDup (push_new out x).
Proof.
  intros Hn. unfold push_new. destruct (member x out) eqn:E; [done|]. apply member_false in E.
  apply NoDup_app. split_and!; [done | | apply NoDup_singleton].
  intros y Hy ->%list_elem_of_singleton. done.
Qed.

Lemma push_all_spec l out y : y ∈ foldl push_new out l <-> y ∈ out \/ y ∈ l.
Proof.
  revert out. induction l as [|x l IH]; intros out; simpl.
  - rewrite elem_of_nil. naive_solver.
  - rewrite IH, push_new_spec, elem_of_cons. naive_solver.
Qed.

Lemma push_all_NoDup l out : NoDup out -> NoDup (foldl push_new out l).
Proof. revert out. induction l as [|x l IH]; intros out Hn; simpl; [done|]. by apply IH, push_new_NoDup. Qed.

(** What an item of a list names. *)
Definition names (item t : string) : Prop :=
  if is_group_ref item then t ∈ resolve_tool_group item else t = item.

Lemma expand_go_spec items out t :
  t ∈ foldl expand_item out items <-> t ∈ out \/ exists i, i ∈ items /\ names i t.
Proof.
  revert out. induction items as [|i items IH]; intros out; simpl.
  { split; [auto | intros [?|(? & []%not_elem_of_nil & _)]; done]. }
  rewrite IH. unfold expand_item at 1. setoid_rewrite elem_of_cons.
  assert (Hi : t ∈ (if is_group_ref i then foldl push_new out (resolve_tool_group i)
                    else push_new out i) <-> t ∈ out \/ names i t).
  { unfold names. destruct (is_group_ref i); [apply push_all_spec | apply push_new_spec]. }
  rewrite Hi. naive_solver.
Qed.

Lemma expand_spec items t : t ∈ expand_tool_list items <-> exists i, i ∈ items /\ names i t.
Proof. unfold expand_tool_list. rewrite expand_go_spec. rewrite elem_of_nil. naive_solver. Qed.

Lemma expand_NoDup items : NoDup (expand_tool_list items).
Proof.
  unfold expand_tool_list. assert (Hn : NoDup (@nil string)) by constructor.
  revert Hn. generalize (@nil string). induction items as [|i items IH]; intros out Hn; simpl; [done|].
  apply IH. unfold expand_item. destruct (is_group_ref i); [by apply push_all_NoDup | by apply push_new_NoDup].
Qed.

(** [expand_tool_list] returns without duplicates exactly the plain names
    of the list and the members of its groups; and a profile allows a tool
    exactly when it is the wildcard profile, or the tool is an entry, or a
    member of a group entry, of its list. *)
Theorem groups_and_profiles items p t :
  NoDup (expand_tool_list items) /\
  (t ∈ expand_tool_list items <-> exists i, i ∈ items /\ names i t) /\
  (allows_tool p t = true <->
     p = Full \/ t ∈ allowed_tools p \/ t ∈ expand_tool_list (allowed_tools p)).
Proof.
  split_and!; [apply expand_NoDup | apply expand_spec |].
  assert (Hw : member "*" (allowed_tools p) = true <-> p = Full).
  { destruct p; vm_compute; split; congruence. }
  unfold allows_tool. destruct (member "*" (allowed_tools p)).
  { split; [by left; apply Hw | done]. }
  assert (Hp : p <> Full) by (intros Hp; by apply Hw in Hp).
  destruct (member t (allowed_tools p)) eqn:E; [apply member_spec in E; naive_solver|].
  apply member_false in E. rewrite existsb_exists. setoid_rewrite expand_spec. split.
  - intros (e & He & Hm). boolean. right. right. exists e. split; [by apply list_elem_of_In|].
    unfold names. by replace (is_group_ref e) with true; apply member_spec.
  - intros [?|[?|(i & Hi & Hn)]]; [done | done |]. unfold names in Hn. exists i.
    split; [by apply list_elem_of_In|]. destruct (is_group_ref i); [by apply member_spec | by subst].
Qed.

(** * The three-level pipeline *)

(** The policies that apply, the least specific first. *)
Definition policy_for (policies : gmap string ToolPolicy) (key : option string) : list ToolPolicy :=
  option_list (key ≫= fun k => policies !! k).
Definition applicable (pl : ToolPolicyPipeline) (channel session : option string) : list ToolPolicy :=
  global_policy pl :: policy_for (channel_policies pl) channel ++ policy_for (session_policies pl) session.

(** The allow list of the most specific policy that has one. *)
Definition effective_allow (ps : list ToolPolicy) : option (list string) :=
  foldl (fun acc p => match tp_allow p with Some a => Some a | None => acc end) None ps.

Definition decide_all (ps : list ToolPolicy) (t : string) : ToolPolicyDecision :=
  if existsb (fun p => member t (tp_deny p)) ps then DeniedBecause (deny_reason t)
  else if match effective_allow ps with Some l => negb (member t l) | None => false end
  then DeniedBecause (not_listed_reason t)
  else if existsb (fun p => member t (tp_require_approval p)) ps then NeedsApproval
  else Allowed.

Lemma member_push_all t a b : member t (foldl push_new a b) = member t a || member t b.
Proof.
  destruct (member t a || member t b) eqn:E.
  - apply member_spec, push_all_spec. apply orb_true_iff in E. rewrite !member_spec in E. done.
  - apply member_false. rewrite push_all_spec. boolean. rewrite <- !member_spec. naive_solver congruence.
Qed.

(** A policy behaves as the list of policies [ps]. *)
Definition summarises (m : ToolPolicy) (ps : list ToolPolicy) : Prop :=
  tp_allow m = effective_allow ps /\
  (forall t, member t (tp_deny m) = existsb (fun p => member t (tp_deny p)) ps) /\
  (forall t, member t (tp_require_approval m) = existsb (fun p => member t (tp_require_approval p)) ps).

Lemma summarises_merge m ps q : summarises m ps -> summarises (merge m q) (ps ++ [q]).
Proof.
  intros (Ha & Hd & Hr). split_and!; simpl.
  - unfold effective_allow in *. rewrite foldl_app. simpl. by destruct (tp_allow q).
  - intros t. rewrite member_push_all, Hd, existsb_app. simpl. by rewrite orb_false_r.
  - intros t. rewrite member_push_all, Hr, existsb_app. simpl. by rewrite orb_false_r.
Qed.

Lemma summarises_merge_for ps m policies key :
  summarises m ps -> summarises (merge_for policies key m) (ps ++ policy_for policies key).
Proof.
  intros Hs. unfold merge_for, policy_for. destruct key as [k|]; simpl; [|by rewrite app_nil_r].
  destruct (policies !! k); simpl; [by apply summarises_merge | by rewrite app_nil_r].
Qed.

(** The three-level check decides by all applicable policies together: a
    tool that any of them denies is denied; otherwise the allow list of the
    most specific policy that has one must name it; otherwise any of them can
    ask for approval. *)
Theorem pipeline_check_spec pl t channel session :
  pipeline_check pl t channel session = decide_all (applicable pl channel session) t.
Proof.
  unfold pipeline_check, applicable.
  assert (H0 : summarises (global_policy pl) [global_policy pl]).
  { split_and!; [|intros t'; simpl; by rewrite orb_false_r..].
    unfold effective_allow. simpl. by destruct (tp_allow (global_policy pl)). }
  pose proof (summarises_merge_for _ _ (session_policies pl) session
    (summarises_merge_for _ _ (channel_policies pl) channel H0)) as (Ha & Hd & Hr).
  rewrite <- (assoc_L app) in Ha, Hd, Hr. simpl in Ha, Hd, Hr.
  unfold is_allowed, decide_all. by rewrite Ha, Hd, Hr.
Qed.

(** * The layered pipeline *)

(** The layered pipeline: the fallback's deny list always wins; otherwise
    the last layer that applies decides, and only when none applies the
    fallback policy does; an allow-list layer never denies. *)
Theorem evaluate_spec p t ctx :
  (t ∈ tp_deny (fallback p) -> evaluate p t ctx = DeniedBecause (deny_reason t)) /\
  (t ∉ tp_deny (fallback p) ->
     (Forall (fun l => evaluate_layer l t ctx = None) (layers p) ->
        evaluate p t ctx = is_allowed (fallback p) t) /\
     (forall l1 l l2 d, layers p = l1 ++ l :: l2 -> evaluate_layer l t ctx = Some d ->
        Forall (fun l => evaluate_layer l t ctx = None) l2 -> evaluate p t ctx = d)) /\
  (forall l d, evaluate_layer l t ctx = Some d -> d <> Allowed ->
     exists profile, (l = Profile profile \/ exists provider, l = ProviderProfile provider profile) /\
       allows_tool profile t = false).
Proof.
  assert (Hnone : forall ls acc, Forall (fun l => evaluate_layer l t ctx = None) ls ->
    foldl (fun last layer => match evaluate_layer layer t ctx with
                             | Some d => Some d | None => last end) acc ls = acc).
  { intros ls acc HF. revert acc. induction HF as [|l ls Hl _ IH]; intros acc; simpl; [done|].
    by rewrite Hl, IH. }
  split_and!.
  - intros Hin%member_spec. unfold evaluate. by rewrite Hin.
  - intros Hin%member_false. unfold evaluate. rewrite Hin. split.
    + intros HF. by rewrite Hnone.
    + intros l1 l l2 d -> Hd HF. rewrite foldl_app. simpl. by rewrite Hd, Hnone.
  - assert (Hl : forall list d, list_decision list t = Some d -> d = Allowed).
    { intros list d. unfold list_decision. destruct (_ || _); congruence. }
    intros [] d; simpl; intros He Hd; try (exfalso; break; naive_solver).
    + exists profile. destruct (allows_tool profile t); [congruence | naive_solver].
    + exists profile. destruct (negb _); [done|].
      destruct (allows_tool profile t); [congruence | naive_solver].
Qed.

Definition no_context : PolicyContext :=
  {| px_channel := None; px_session := None; px_agent_id := None; px_provider := None |}.

(** Both layers apply and one allows the tool; the last one denies it. *)
Theorem allowed_by_one_layer_denied_by_last :
  evaluate {| layers := [GlobalAllow ["bash"]; Profile Minimal]; fallback := ToolPolicy_default |}
    "bash" no_context
  = DeniedBecause "Tool 'bash' not in profile Minimal".
Proof. vm_compute. reflexivity. Qed.

(** An allowing layer bypasses the approval the fallback asks for. *)
Theorem allow_layer_bypasses_approval :
  let fb := {| tp_allow := None; tp_deny := []; tp_require_approval := ["bash"] |} in
  evaluate {| layers := []; fallback := fb |} "bash" no_context = NeedsApproval /\
  evaluate {| layers := [Profile Full]; fallback := fb |} "bash" no_context = Allowed.
Proof. vm_compute. done. Qed.

Lemma evaluate_spec_witness :
  evaluate {| layers := [Profile Minimal; GroupAllow "c" ["group:fs"]]; fallback := ToolPolicy_default |}
    "read_file" {| px_channel := Some "c"; px_session := None; px_agent_id := None;
                   px_provider := None |} = Allowed.
Proof.
  set (p := {| layers := [Profile Minimal; GroupAllow "c" ["group:fs"]];
               fallback := ToolPolicy_default |}).
  destruct (evaluate_spec p "read_file"
    {| px_channel := Some "c"; px_session := None; px_agent_id := None; px_provider := None |})
    as (_ & Hs & _).
  destruct Hs as [_ Hlast]; [apply not_elem_of_nil|].
  apply (Hlast [Profile Minimal] (GroupAllow "c" ["group:fs"]) [] Allowed); [reflexivity.. | constructor].
Defined.

(** * Truncation *)

(** Cutting inside a three-byte character panics. *)
Theorem smart_truncate_panics : smart_truncate "a—b" 2 = None.
Proof. vm_compute. reflexivity. Qed.

(** Three short lines under a limit of two lines are returned whole. *)
Theorem line_limit_not_enforced :
  let s := "a" +:+ nl +:+ "b" +:+ nl +:+ "c" in
  truncate_tool_result s {| max_chars := 100; max_lines := 2; truncation_message := "" |} = Some s /\
  length (lines s) = 3.
Proof. vm_compute. done. Qed.
