(* ===== verification/ReplyQueue.v ===== *)
(** The per-session message queue of the auto-reply pipeline
    ([crates/auto-reply/src/queue.rs]), the message context it holds
    ([context.rs]) and the delivery envelope ([envelope.rs]).  JSON values are
    their texts; the clock is an argument. *)

From S2P Require Import Prelude RustStr.
#[local] Open Scope string_scope.
#[local] Open Scope nat_scope.
#[local] Open Scope list_scope.

(** * Contexts *)

Inductive ChatType := Direct | Group | Channel | Thread.

Record MsgContext := {
  mc_body : string;
  mc_raw_body : option string;
  mc_from : string;
  mc_from_name : option string;
  mc_to : string;
  mc_provider : string;
  mc_surface : option string;
  mc_chat_type : ChatType;
  mc_session_key : string;
  mc_message_id : option string;
  mc_thread_id : option string;
  mc_was_mentioned : bool;
  mc_media_paths : list string;
  mc_timestamp_ms : Z;
  mc_raw : string;
}.

Record FinalizedMsgContext := {
  fm_ctx : MsgContext;
  body_for_agent : string;
  body_for_commands : string;
  conversation_label : string;
  command_authorized : bool;
  sender_label : string;
}.

Definition crlf : string := String CR nl.

Definition finalize_inbound_context (ctx : MsgContext) : FinalizedMsgContext :=
  let body_normalized := str_replace (mc_body ctx) crlf nl in
  let sender := default (mc_from ctx) (mc_from_name ctx) in
  {| fm_ctx := ctx;
     body_for_agent := body_normalized;
     body_for_commands := default body_normalized (mc_raw_body ctx);
     conversation_label :=
       match mc_chat_type ctx with
       | Direct => "DM with " +:+ sender
       | Group | Channel => "Group " +:+ mc_to ctx +:+ " (" +:+ sender +:+ ")"
       | Thread => "Thread " +:+ default (mc_to ctx) (mc_thread_id ctx) +:+ " (" +:+ sender +:+ ")"
       end;
     command_authorized := match mc_chat_type ctx with Direct => true | _ => false end;
     sender_label := sender |}.

(** * The queue *)

Inductive QueueMode := Interrupt | Steer | Followup | Collect | SteerBacklog.
Inductive QueueDropPolicy := Summarize | Old | New.
#[export] Instance QueueDropPolicy_eq_dec : EqDecision QueueDropPolicy.
Proof. solve_decision. Defined.

Inductive QueueAction :=
| RunNow (m : FinalizedMsgContext)
| Queued
| Interrupted (m : FinalizedMsgContext)
| Collected (ms : list FinalizedMsgContext).

Definition summarize_queue_text (text : string) (limit : nat) : string :=
  let compact := join " " (split_whitespace text) in
  if length (chars compact) <=? limit then compact
  else str_concat (take (limit - 1) (chars compact)) +:+ "…".

(** [cap] is the [usize] bound; [usize::MAX] means none. *)
Record MessageQueue := {
  q_mode : QueueMode;
  q_pending : list FinalizedMsgContext;
  q_has_active_run : bool;
  q_collect_window_ms : Z;
  q_debounce_ms : Z;
  q_cap : Z;
  q_drop_policy : QueueDropPolicy;
  q_dropped_count : Z;
  q_summary_lines : list string;
  q_last_enqueued_at_ms : Z;
}.

Definition queue_new (mode : QueueMode) : MessageQueue := {|
  q_mode := mode; q_pending := []; q_has_active_run := false; q_collect_window_ms := 2000;
  q_debounce_ms := 0; q_cap := u64_max; q_drop_policy := Summarize; q_dropped_count := 0;
  q_summary_lines := []; q_last_enqueued_at_ms := 0;
|}.

Definition q_set (pending : list FinalizedMsgContext) (active : bool) (q : MessageQueue)
  : MessageQueue := {|
  q_mode := q_mode q; q_pending := pending; q_has_active_run := active;
  q_collect_window_ms := q_collect_window_ms q; q_debounce_ms := q_debounce_ms q;
  q_cap := q_cap q; q_drop_policy := q_drop_policy q; q_dropped_count := q_dropped_count q;
  q_summary_lines := q_summary_lines q; q_last_enqueued_at_ms := q_last_enqueued_at_ms q;
|}.

Definition q_configure (window debounce cap : Z) (policy : QueueDropPolicy) (mode : QueueMode)
    (q : MessageQueue) : MessageQueue := {|
  q_mode := mode; q_pending := q_pending q; q_has_active_run := q_has_active_run q;
  q_collect_window_ms := window; q_debounce_ms := debounce; q_cap := cap; q_drop_policy := policy;
  q_dropped_count := q_dropped_count q; q_summary_lines := q_summary_lines q;
  q_last_enqueued_at_ms := q_last_enqueued_at_ms q;
|}.

Definition q_stamp (now : Z) (q : MessageQueue) : MessageQueue := {|
  q_mode := q_mode q; q_pending := q_pending q; q_has_active_run := q_has_active_run q;
  q_collect_window_ms := q_collect_window_ms q; q_debounce_ms := q_debounce_ms q;
  q_cap := q_cap q; q_drop_policy := q_drop_policy q; q_dropped_count := q_dropped_count q;
  q_summary_lines := q_summary_lines q; q_last_enqueued_at_ms := now;
|}.

Definition q_note_dropped (count : Z) (lines : list string) (q : MessageQueue) : MessageQueue := {|
  q_mode := q_mode q; q_pending := q_pending q; q_has_active_run := q_has_active_run q;
  q_collect_window_ms := q_collect_window_ms q; q_debounce_ms := q_debounce_ms q;
  q_cap := q_cap q; q_drop_policy := q_drop_policy q; q_dropped_count := count;
  q_summary_lines := lines; q_last_enqueued_at_ms := q_last_enqueued_at_ms q;
|}.

Definition set_collect_window_ms (ms : Z) (q : MessageQueue) : MessageQueue :=
  q_configure (Z.max ms 1) (q_debounce_ms q) (q_cap q) (q_drop_policy q) (q_mode q) q.
Definition set_debounce_ms (ms : Z) (q : MessageQueue) : MessageQueue :=
  q_configure (q_collect_window_ms q) ms (q_cap q) (q_drop_policy q) (q_mode q) q.
Definition set_cap (cap : Z) (q : MessageQueue) : MessageQueue :=
  q_configure (q_collect_window_ms q) (q_debounce_ms q) (Z.max cap 1) (q_drop_policy q) (q_mode q) q.
Definition set_drop_policy (p : QueueDropPolicy) (q : MessageQueue) : MessageQueue :=
  q_configure (q_collect_window_ms q) (q_debounce_ms q) (q_cap q) p (q_mode q) q.
Definition set_mode (m : QueueMode) (q : MessageQueue) : MessageQueue :=
  q_configure (q_collect_window_ms q) (q_debounce_ms q) (q_cap q) (q_drop_policy q) m q.

(** [while lines.len() > bound { pop_front }]. *)
Definition keep_last (bound : Z) (l : list string) : list string := lastn (Z.to_nat bound) l.

(** One turn of the drop loop. *)
Definition drop_front (q : MessageQueue) : MessageQueue :=
  match q_pending q with
  | [] => q
  | dropped :: rest =>
      let q := q_set rest (q_has_active_run q) q in
      if decide (q_drop_policy q = Summarize) then
        q_note_dropped (sat_add (q_dropped_count q) 1)
          (keep_last (Z.min (q_cap q) 256)
             (q_summary_lines q ++ [summarize_queue_text (body_for_agent dropped) 160])) q
      else q
  end.

Definition over_cap (q : MessageQueue) : bool :=
  (negb (q_cap q =? u64_max) && (q_cap q <=? Z.of_nat (length (q_pending q))))%Z.

Definition push_pending (now : Z) (ctx : FinalizedMsgContext) (q : MessageQueue)
  : bool * MessageQueue :=
  let q := q_stamp now q in
  if over_cap q then
    if decide (q_drop_policy q = New) then (false, q)
    else
      let drop_count := (sat_sub (Z.of_nat (length (q_pending q))) (q_cap q) + 1)%Z in
      let q := Nat.iter (Z.to_nat drop_count) drop_front q in
      (true, q_set (q_pending q ++ [ctx]) (q_has_active_run q) q)
  else (true, q_set (q_pending q ++ [ctx]) (q_has_active_run q) q).

Definition enqueue (now : Z) (ctx : FinalizedMsgContext) (q : MessageQueue)
  : QueueAction * MessageQueue :=
  if negb (q_has_active_run q) then (RunNow ctx, q_set (q_pending q) true q)
  else match q_mode q with
       | Interrupt => (Interrupted ctx, q_set [] (q_has_active_run q) q)
       | Steer | SteerBacklog => (Queued, (push_pending now ctx q).2)
       | Followup => (Queued, (push_pending now ctx q).2)
       | Collect => (Queued, (push_pending now ctx q).2)
       end.

Definition drain (q : MessageQueue) : list FinalizedMsgContext * MessageQueue :=
  (q_pending q, q_set [] false q).

Definition mark_run_complete (q : MessageQueue) : MessageQueue := q_set (q_pending q) false q.

Definition complete_and_take_next (q : MessageQueue) : option FinalizedMsgContext * MessageQueue :=
  match q_pending q with
  | next :: rest => (Some next, q_set rest true q)
  | [] => (None, q_set [] false q)
  end.

Definition take_collect_batch (q : MessageQueue)
  : option (list FinalizedMsgContext) * MessageQueue :=
  match q_pending q with
  | [] => (None, q_set [] false q)
  | ms => (Some ms, q_set [] true q)
  end.

Definition take_summary_prompt (noun : string) (q : MessageQueue) : option string * MessageQueue :=
  if negb (bool_decide (q_drop_policy q = Summarize)) || (q_dropped_count q =? 0)%Z then (None, q)
  else
    let plural := if (q_dropped_count q =? 1)%Z then "" else "s" in
    let head := "[Queue overflow] Dropped " +:+ pretty (q_dropped_count q) +:+ " " +:+ noun
                +:+ plural +:+ " due to queue cap." in
    let body := match q_summary_lines q with
                | [] => []
                | ls => "Summary:" :: ((fun l => "- " +:+ l) <$> ls)
                end in
    (Some (join nl (head :: body)), q_note_dropped 0 [] q).

(** * Runs of the queue *)

Inductive queue_op :=
| OpEnqueue (now : Z) (m : FinalizedMsgContext)
| OpDrain
| OpTakeNext
| OpTakeBatch.

(** The messages an operation hands out for processing. *)
Definition queue_step (op : queue_op) (q : MessageQueue)
  : list FinalizedMsgContext * MessageQueue :=
  match op with
  | OpEnqueue now m =>
      let '(a, q') := enqueue now m q in
      (match a with RunNow m | Interrupted m => [m] | Queued => [] | Collected ms => ms end, q')
  | OpDrain => drain q
  | OpTakeNext => let '(o, q') := complete_and_take_next q in (option_list o, q')
  | OpTakeBatch => let '(o, q') := take_collect_batch q in (default [] o, q')
  end.

Fixpoint queue_run (ops : list queue_op) (q : MessageQueue)
  : list FinalizedMsgContext * MessageQueue :=
  match ops with
  | [] => ([], q)
  | op :: ops' =>
      let '(d, q1) := queue_step op q in
      let '(ds, q2) := queue_run ops' q1 in (d ++ ds, q2)
  end.

Definition offered (ops : list queue_op) : list FinalizedMsgContext :=
  omap (fun op => match op with OpEnqueue _ m => Some m | _ => None end) ops.

(** * Correctness *)

(** Without an active run nothing is pending. *)
Definition queue_wf (q : MessageQueue) : Prop := q_has_active_run q = false -> q_pending q = [].

Lemma wf_active p q : queue_wf (q_set p true q).
Proof. by intros [=]. Qed.

Definition same_settings (q q' : MessageQueue) : Prop :=
  q_mode q' = q_mode q /\ q_cap q' = q_cap q /\ q_drop_policy q' = q_drop_policy q.

Definition op_offer (op : queue_op) : list FinalizedMsgContext :=
  match op with OpEnqueue _ m => [m] | _ => [] end.

Lemma offered_cons op ops : offered (op :: ops) = op_offer op ++ offered ops.
Proof. by destruct op. Qed.

Lemma queue_run_cons op ops q :
  queue_run (op :: ops) q
  = let '(d, q1) := queue_step op q in let '(ds, q2) := queue_run ops q1 in (d ++ ds, q2).
Proof. done. Qed.

(** The operations other than [enqueue] hand out a front of the queue. *)
Lemma step_take op q d q1 :
  (forall now m, op <> OpEnqueue now m) -> queue_step op q = (d, q1) ->
  d ++ q_pending q1 = q_pending q /\ queue_wf q1 /\ same_settings q q1 /\
  q_dropped_count q1 = q_dropped_count q.
Proof.
  intros Hop. destruct op; simpl; [by edestruct Hop | | |];
    unfold drain, complete_and_take_next, take_collect_batch; destruct (q_pending q) eqn:E;
    intros; simplify_eq; simpl; rewrite ?app_nil_r; by split_and!.
Qed.

Section Unbounded.
(** No cap, and no interrupting mode. *)
Definition unbounded (q : MessageQueue) : Prop :=
  queue_wf q /\ q_cap q = u64_max /\ q_mode q <> Interrupt.

Lemma unbounded_step op q d q1 :
  unbounded q -> queue_step op q = (d, q1) ->
  d ++ q_pending q1 = q_pending q ++ op_offer op /\ unbounded q1.
Proof.
  intros (Hwf & Hcap & Hmode) Hs. destruct op as [now m| | |].
  2-4: apply step_take in Hs as (Hd & Hw & (Hm & Hc & _) & _); [|done];
    unfold unbounded; rewrite Hm, Hc; simpl; by rewrite app_nil_r.
  simpl in Hs. unfold enqueue in Hs. destruct (q_has_active_run q) eqn:Ha; simpl in Hs.
  - assert (Hp : push_pending now m q = (true, q_set (q_pending q ++ [m]) true (q_stamp now q))).
    { unfold push_pending, over_cap. simpl. rewrite Hcap. simpl. by rewrite Ha. }
    destruct (q_mode q) eqn:Em; [done|..]; rewrite Hp in Hs; simplify_eq; simpl;
      (split; [done|]; split_and!; simpl; [done | done | congruence]).
  - simplify_eq. rewrite (Hwf Ha). simpl. by split_and!.
Qed.
End Unbounded.

(** Without a cap and outside interrupt mode, messages are handed out
    exactly once and in the order they arrived: what was delivered, followed by
    what is pending, is what was pending before followed by what was offered. *)
Theorem queue_fifo ops q :
  queue_wf q -> q_cap q = u64_max -> q_mode q <> Interrupt ->
  let '(delivered, q') := queue_run ops q in
  delivered ++ q_pending q' = q_pending q ++ offered ops.
Proof.
  intros Hw Hc Hm. assert (Hu : unbounded q) by done. clear Hw Hc Hm.
  revert q Hu. induction ops as [|op ops IH]; intros q Hu; [simpl; by rewrite app_nil_r|].
  rewrite queue_run_cons, offered_cons. destruct (queue_step op q) as [d q1] eqn:Es.
  destruct (unbounded_step op q d q1 Hu Es) as [Hd Hu1]. specialize (IH q1 Hu1).
  destruct (queue_run ops q1) as [ds q2]. rewrite (assoc_L app), <- Hd, <- !(assoc_L app), IH. done.
Qed.

Section Bounded.
(** A cap below [usize::MAX], and no interrupting mode. *)
Definition bounded (q : MessageQueue) : Prop :=
  queue_wf q /\ (1 <= q_cap q < u64_max)%Z /\ q_mode q <> Interrupt /\
  (Z.of_nat (length (q_pending q)) <= q_cap q)%Z /\ (0 <= q_dropped_count q <= u64_max)%Z.

(** What one step may lose: [lost] messages, counted when summarising. *)
Definition loses (op : queue_op) (q q1 : MessageQueue) (d : list FinalizedMsgContext) : Prop :=
  (d ++ q_pending q1) `sublist_of` (q_pending q ++ op_offer op) /\
  same_settings q q1 /\
  (q_drop_policy q = Summarize ->
     let lost := (length (q_pending q) + length (op_offer op)
                  - (length d + length (q_pending q1)))%nat in
     q_dropped_count q1 = Z.min u64_max (q_dropped_count q + Z.of_nat lost)).

Lemma push_pending_full now m q x rest :
  bounded q -> over_cap q = true -> q_pending q = x :: rest -> q_drop_policy q <> New ->
  let q1 := (push_pending now m q).2 in
  q_pending q1 = rest ++ [m] /\ q_has_active_run q1 = q_has_active_run q /\ same_settings q q1 /\
  q_dropped_count q1 = if decide (q_drop_policy q = Summarize)
                       then sat_add (q_dropped_count q) 1 else q_dropped_count q.
Proof.
  intros (_ & Hcap & _ & Hlen & _) Ho Hp Hnew. unfold push_pending.
  change (over_cap (q_stamp now q)) with (over_cap q). rewrite Ho. simpl.
  rewrite decide_False by done.
  assert (Hn : (Z.to_nat (sat_sub (Z.of_nat (length (q_pending q))) (q_cap q) + 1) = 1)%nat).
  { unfold over_cap in Ho. boolean. unfold sat_sub. lia. }
  rewrite Hn. simpl. unfold drop_front. simpl. rewrite Hp.
  destruct (decide (q_drop_policy q = Summarize)); simpl; by split_and!.
Qed.

Lemma bounded_step op q d q1 :
  bounded q -> queue_step op q = (d, q1) -> bounded q1 /\ loses op q q1 d.
Proof.
  intros Hb Hs. pose proof Hb as (Hwf & Hcap & Hmode & Hlen & Hdrop). destruct op as [now m| | |].
  2-4: apply step_take in Hs as (Hd & Hw & (Hm & Hc & Hp) & Hk); [|done]; split;
    [split_and!; rewrite ?Hc, ?Hm, ?Hk; try done; rewrite <- Hd, length_app in Hlen; lia
    | split_and!; simpl; [by rewrite app_nil_r, Hd | done | intros _];
      rewrite Hk, <- Hd, length_app; simpl; unfold u64_max in *; lia].
  simpl in Hs. unfold enqueue in Hs. destruct (q_has_active_run q) eqn:Ha; simpl in Hs.
  2: { simplify_eq. split; [split_and!; first [apply wf_active | simpl; done | simpl; lia]|]. split_and!; simpl; [|done|].
       - rewrite (Hwf Ha). done.
       - intros _. rewrite (Hwf Ha). simpl. unfold u64_max in *. lia. }
  assert (Hpush : (d, q1) = ([], (push_pending now m q).2)) by (destruct (q_mode q); [done|..]; congruence).
  injection Hpush as -> ->. clear Hs.
  destruct (over_cap q) eqn:Ho.
  - destruct (decide (q_drop_policy q = New)) as [Hn|Hn].
    + unfold push_pending. change (over_cap (q_stamp now q)) with (over_cap q). rewrite Ho. simpl.
      rewrite decide_True by done. simpl.
      split; [split_and!; first [simpl; done | simpl; lia]|]. split_and!; simpl; [|done|congruence].
      by apply sublist_inserts_r.
    + destruct (q_pending q) as [|x rest] eqn:Ep; [unfold over_cap in Ho; boolean; rewrite Ep in *; simpl in *; lia|].
      destruct (push_pending_full now m q x rest Hb Ho Ep Hn) as (H1 & H2 & (H3 & H4 & H5) & H6).
      simpl in Hlen. split.
      * unfold bounded. rewrite H3, H4, H1, H6, length_app. simpl.
        split; [intros Hf; congruence|]. split; [done|]. split; [done|]. split; [lia|].
        destruct (decide _); unfold sat_add, u64_max in *; lia.
      * split_and!; simpl; [rewrite H1, Ep; by apply sublist_cons | done | intros Hsum].
        rewrite H6, H1, Ep, decide_True by done. rewrite length_app. simpl. unfold sat_add. f_equal. lia.
  - unfold push_pending. change (over_cap (q_stamp now q)) with (over_cap q). rewrite Ho. simpl.
    assert (Hl : (Z.of_nat (length (q_pending q)) < q_cap q)%Z).
    { unfold over_cap in Ho. apply andb_false_iff in Ho as [Ho|Ho]; boolean; lia. }
    split.
    { unfold bounded. simpl. rewrite length_app. simpl.
      split; [intros Hf; unfold queue_wf in *; simpl in *; congruence|]. split_and!; done || lia. }
    split_and!; simpl; [done | done | intros _]. rewrite length_app. simpl. unfold u64_max in *. lia.
Qed.
End Bounded.

(** With a cap, at most [cap] messages are pending, messages are handed
    out at most once and in arrival order, and the summarising policy counts
    exactly the messages it dropped (up to [usize::MAX]). *)
Theorem queue_capped ops q :
  bounded q ->
  let '(delivered, q') := queue_run ops q in
  (delivered ++ q_pending q') `sublist_of` (q_pending q ++ offered ops) /\
  (Z.of_nat (length (q_pending q')) <= q_cap q)%Z /\
  (q_drop_policy q = Summarize ->
     q_dropped_count q' = Z.min u64_max (q_dropped_count q +
       Z.of_nat (length (q_pending q) + length (offered ops)
                 - (length delivered + length (q_pending q'))))%Z).
Proof.
  revert q. induction ops as [|op ops IH]; intros q Hb.
  { simpl. destruct Hb as (_ & _ & _ & ? & ?). rewrite app_nil_r. split_and!; [done | done |].
    intros _. unfold u64_max in *. lia. }
  rewrite queue_run_cons, offered_cons. destruct (queue_step op q) as [d q1] eqn:Es.
  destruct (bounded_step op q d q1 Hb Es) as [Hb1 (Hsub & (_ & Hc & Hp) & Hcount)].
  specialize (IH q1 Hb1). destruct (queue_run ops q1) as [ds q2]. destruct IH as (IH1 & IH2 & IH3).
  rewrite Hc in IH2. rewrite Hp in IH3. split_and!; [|done|].
  - rewrite <- (assoc_L app). etransitivity; [by apply sublist_app|].
    rewrite !(assoc_L app). by apply sublist_app.
  - intros Hsum. specialize (Hcount Hsum). rewrite (IH3 Hsum), Hcount. simpl.
    apply sublist_length in Hsub, IH1. rewrite !length_app in *.
    destruct Hb as (_ & _ & _ & _ & ?). lia.
Qed.

(** * Concrete runs *)

Definition demo_ctx (body : string) : FinalizedMsgContext :=
  finalize_inbound_context
    {| mc_body := body; mc_raw_body := None; mc_from := "u"; mc_from_name := None; mc_to := "t";
       mc_provider := "p"; mc_surface := None; mc_chat_type := Direct; mc_session_key := "k";
       mc_message_id := None; mc_thread_id := None; mc_was_mentioned := false;
       mc_media_paths := []; mc_timestamp_ms := 0; mc_raw := "null" |}.

Definition demo_ops : list queue_op :=
  [OpEnqueue 0 (demo_ctx "a"); OpEnqueue 1 (demo_ctx "b"); OpEnqueue 2 (demo_ctx "c"); OpTakeNext].

Lemma queue_fifo_witness :
  queue_wf (queue_new Followup) /\
  (let '(delivered, q') := queue_run demo_ops (queue_new Followup) in
   delivered ++ q_pending q' = [demo_ctx "a"; demo_ctx "b"; demo_ctx "c"]).
Proof.
  split; [intros _; reflexivity|].
  exact (queue_fifo demo_ops (queue_new Followup) (fun _ => eq_refl) eq_refl ltac:(discriminate)).
Defined.

Lemma queue_capped_witness :
  let q := set_cap 1 (queue_new Collect) in
  bounded q /\
  (let '(delivered, q') := queue_run demo_ops q in
   (delivered, q_pending q', q_dropped_count q') = ([demo_ctx "a"; demo_ctx "c"], [], 1%Z)) /\
  (let '(delivered, q') := queue_run demo_ops q in
   (delivered ++ q_pending q') `sublist_of` [demo_ctx "a"; demo_ctx "b"; demo_ctx "c"]).
Proof.
  cbn zeta.
  assert (Hb : bounded (set_cap 1 (queue_new Collect)))
    by (split_and!; try (intros ?; reflexivity); vm_compute; congruence).
  split; [exact Hb|]. split; [vm_compute; reflexivity|].
  pose proof (queue_capped demo_ops (set_cap 1 (queue_new Collect)) Hb) as Hc.
  destruct (queue_run demo_ops (set_cap 1 (queue_new Collect))) as [d q']. exact (proj1 Hc).
Defined.

(** [mark_run_complete] leaves the backlog: the next message overtakes it. *)
Example mark_run_complete_overtakes :
  let q := (queue_run [OpEnqueue 0 (demo_ctx "a"); OpEnqueue 1 (demo_ctx "b")] (queue_new Followup)).2 in
  (queue_run [OpEnqueue 2 (demo_ctx "c")] (mark_run_complete q)).1 = [demo_ctx "c"].
Proof. vm_compute. reflexivity. Qed.

(** The summary of an overflow. *)
Example summary_prompt_demo :
  (take_summary_prompt "message" (queue_run demo_ops (set_cap 1 (queue_new Collect))).2).1
  = Some ("[Queue overflow] Dropped 1 message due to queue cap." +:+ nl +:+ "Summary:" +:+ nl +:+ "- b").
Proof. vm_compute. reflexivity. Qed.
