(* ===== verification/ReplyPipeline.v ===== *)
(** The outbound half of the auto-reply pipeline
    ([crates/auto-reply/src/debounce.rs], [block_pipeline.rs],
    [reply_dispatcher.rs], [normalize.rs], [tokens.rs], [envelope.rs]). *)

From S2P Require Import Prelude RustStr.
#[local] Open Scope string_scope.
#[local] Open Scope nat_scope.
#[local] Open Scope list_scope.

(** * Payloads *)

(** [channel_data] is a JSON value, here its text. *)
Record ReplyPayload := {
  rp_text : option string;
  rp_media_url : option string;
  rp_media_urls : option (list string);
  rp_reply_to_id : option string;
  rp_reply_to_current : bool;
  rp_audio_as_voice : bool;
  rp_is_error : bool;
  rp_channel_data : option string;
}.
#[export] Instance ReplyPayload_eq_dec : EqDecision ReplyPayload.
Proof. solve_decision. Defined.

Definition ReplyPayload_default : ReplyPayload := {|
  rp_text := None; rp_media_url := None; rp_media_urls := None; rp_reply_to_id := None;
  rp_reply_to_current := false; rp_audio_as_voice := false; rp_is_error := false;
  rp_channel_data := None;
|}.

Definition with_text (t : option string) (p : ReplyPayload) : ReplyPayload := {|
  rp_text := t; rp_media_url := rp_media_url p; rp_media_urls := rp_media_urls p;
  rp_reply_to_id := rp_reply_to_id p; rp_reply_to_current := rp_reply_to_current p;
  rp_audio_as_voice := rp_audio_as_voice p; rp_is_error := rp_is_error p;
  rp_channel_data := rp_channel_data p;
|}.

(** * Envelopes *)

Record ReplyEnvelope := {
  re_session_key : string;
  re_channel : string;
  re_target : string;
  re_payload : ReplyPayload;
  re_thread_id : option string;
  re_reply_to_message_id : option string;
}.

Definition envelope_new (session_key channel target : string) (p : ReplyPayload) : ReplyEnvelope := {|
  re_session_key := session_key; re_channel := channel; re_target := target; re_payload := p;
  re_thread_id := None;
  re_reply_to_message_id := if rp_reply_to_current p then rp_reply_to_id p else None;
|}.

Definition with_thread (t : option string) (e : ReplyEnvelope) : ReplyEnvelope := {|
  re_session_key := re_session_key e; re_channel := re_channel e; re_target := re_target e;
  re_payload := re_payload e; re_thread_id := t; re_reply_to_message_id := re_reply_to_message_id e;
|}.

Definition is_thread_reply (e : ReplyEnvelope) : bool :=
  match re_thread_id e with Some _ => true | None => false end.

(** * Inbound deduplication

    The SHA-256 digest is the [sha2] crate's: a parameter. *)
Section Debounce.
Context (sha256_hex : string -> string).

Record InboundDebounce := { seen : gmap string Z; ttl_ms : Z }.

Definition debounce_new (ttl : Z) : InboundDebounce := {| seen := ∅; ttl_ms := ttl |}.

Definition hash_key (body from : string) : string := sha256_hex (from +:+ "|" +:+ body).

Definition fresh (now ttl ts : Z) : bool := (sat_sub now ts <? ttl)%Z.

Definition cleanup_stale (now : Z) (d : InboundDebounce) : InboundDebounce :=
  {| seen := filter (fun kv => fresh now (ttl_ms d) kv.2 = true) (seen d); ttl_ms := ttl_ms d |}.

Definition should_skip (body from : string) (now : Z) (d : InboundDebounce)
  : bool * InboundDebounce :=
  let d := cleanup_stale now d in
  let key := hash_key body from in
  match seen d !! key with
  | Some _ => (true, d)
  | None => (false, {| seen := <[key := now]> (seen d); ttl_ms := ttl_ms d |})
  end.
End Debounce.

(** * The block pipeline *)

Definition payload_key (p : ReplyPayload) : string :=
  default "" (rp_text p) +:+ "|" +:+ default "" (rp_media_url p) +:+ "|"
  +:+ default "" (rp_reply_to_id p).

Record BlockReplyPipeline := {
  buffer : list ReplyPayload;
  seen_keys : gset string;
  timeout_ms : Z;
  aborted : bool;
  did_stream : bool;
}.

Definition pipeline_new (timeout : Z) : BlockReplyPipeline := {|
  buffer := []; seen_keys := ∅; timeout_ms := timeout; aborted := false; did_stream := false;
|}.

Definition block_enqueue (p : ReplyPayload) (b : BlockReplyPipeline) : BlockReplyPipeline :=
  if aborted b then b
  else if bool_decide (payload_key p ∈ seen_keys b) then b
  else {| buffer := buffer b ++ [p]; seen_keys := {[ payload_key p ]} ∪ seen_keys b;
          timeout_ms := timeout_ms b; aborted := aborted b; did_stream := did_stream b |}.

Definition has_buffered (b : BlockReplyPipeline) : bool :=
  match buffer b with [] => false | _ => true end.

Definition block_flush (force : bool) (b : BlockReplyPipeline)
  : list ReplyPayload * BlockReplyPipeline :=
  if aborted b then ([], b)
  else if force || has_buffered b then
    (buffer b, {| buffer := []; seen_keys := seen_keys b; timeout_ms := timeout_ms b;
                  aborted := aborted b; did_stream := true |})
  else ([], b).

Definition block_stop (b : BlockReplyPipeline) : BlockReplyPipeline :=
  {| buffer := buffer b; seen_keys := seen_keys b; timeout_ms := timeout_ms b; aborted := true;
     did_stream := did_stream b |}.

(** * The dispatcher

    Each of the three channels is a bounded queue; [pending] is an atomic
    [usize], whose subtraction wraps. *)
Inductive ReplyDispatchKind := Tool | Block | Final.

Record AutoReplyDispatcher := {
  capacity : nat;
  tool_q : list ReplyPayload;
  block_q : list ReplyPayload;
  final_q : list ReplyPayload;
  pending : Z;
}.

Definition dispatcher_new (buf : nat) : AutoReplyDispatcher :=
  {| capacity := buf; tool_q := []; block_q := []; final_q := []; pending := 1 |}.

Definition chan_of (k : ReplyDispatchKind) (d : AutoReplyDispatcher) : list ReplyPayload :=
  match k with Tool => tool_q d | Block => block_q d | Final => final_q d end.

Definition with_pending (n : Z) (d : AutoReplyDispatcher) : AutoReplyDispatcher :=
  {| capacity := capacity d; tool_q := tool_q d; block_q := block_q d; final_q := final_q d;
     pending := n |}.

Definition put (k : ReplyDispatchKind) (l : list ReplyPayload) (d : AutoReplyDispatcher)
  : AutoReplyDispatcher :=
  match k with
  | Tool => {| capacity := capacity d; tool_q := l; block_q := block_q d; final_q := final_q d;
               pending := pending d |}
  | Block => {| capacity := capacity d; tool_q := tool_q d; block_q := l; final_q := final_q d;
                pending := pending d |}
  | Final => {| capacity := capacity d; tool_q := tool_q d; block_q := block_q d; final_q := l;
                pending := pending d |}
  end.

(** [send_tool_result], [send_block_reply] and [send_final_reply]. *)
Definition send (k : ReplyDispatchKind) (p : ReplyPayload) (d : AutoReplyDispatcher)
  : bool * AutoReplyDispatcher :=
  let d := with_pending (wadd (pending d) 1) d in
  if length (chan_of k d) <? capacity d then
    let d := put k (chan_of k d ++ [p]) d in (true, with_pending (wsub (pending d) 1) d)
  else (false, with_pending (wsub (pending d) 1) d).

Definition mark_complete (d : AutoReplyDispatcher) : AutoReplyDispatcher :=
  with_pending (wsub (pending d) 1) d.

Definition is_idle (d : AutoReplyDispatcher) : bool := (pending d =? 0)%Z.

(** * Tokens and normalisation *)

Definition SILENT_REPLY_TOKEN : string := "[[SILENT]]".
Definition HEARTBEAT_TOKEN : string := "[[HEARTBEAT]]".

Definition is_silent (text : string) : bool := String.eqb (trim text) SILENT_REPLY_TOKEN.
Definition is_heartbeat (text : string) : bool := String.eqb (trim text) HEARTBEAT_TOKEN.

Definition strip_heartbeat (text : string) : option string :=
  let trimmed := trim (str_replace text HEARTBEAT_TOKEN "") in
  if String.eqb trimmed "" then None else Some trimmed.

Record NormalizeOptions := { strip_silent : bool; strip_heartbeat_opt : bool; skip_empty : bool }.

Definition default_outbound : NormalizeOptions :=
  {| strip_silent := true; strip_heartbeat_opt := true; skip_empty := true |}.

Definition has_media (p : ReplyPayload) : bool :=
  match rp_media_url p with Some _ => true | None => false end
  || match rp_media_urls p with Some (_ :: _) => true | _ => false end
  || match rp_channel_data p with Some _ => true | None => false end.

Definition no_text (t : option string) : bool :=
  match t with Some s => String.eqb s "" | None => true end.

Definition normalize_reply_payload (p : ReplyPayload) (opts : NormalizeOptions)
  : option ReplyPayload :=
  if match rp_text p with Some t => strip_silent opts && is_silent t | None => false end then None
  else
    let text := match rp_text p with
                | Some t => if strip_heartbeat_opt opts then strip_heartbeat t else Some t
                | None => None
                end in
    if skip_empty opts && no_text text && negb (has_media p) then None
    else Some (with_text text p).

(** * Deduplication is forgetting only what no longer matters *)

Section Debounce_correct.
Context (sha256_hex : string -> string).

(** Calls [(body, from, now)] and their answers. *)
Fixpoint debounce_run (calls : list (string * string * Z)) (d : InboundDebounce) : list bool :=
  match calls with
  | [] => []
  | (body, from, now) :: cs =>
      let '(r, d') := should_skip sha256_hex body from now d in r :: debounce_run cs d'
  end.

(** The reference: the time of the last accepted call per key, never cleaned. *)
Fixpoint debounce_ref (ttl : Z) (calls : list (string * string * Z)) (last : gmap string Z)
  : list bool :=
  match calls with
  | [] => []
  | (body, from, now) :: cs =>
      let key := hash_key sha256_hex body from in
      if match last !! key with Some t => fresh now ttl t | None => false end
      then true :: debounce_ref ttl cs last
      else false :: debounce_ref ttl cs (<[key := now]> last)
  end.

(** Times do not go back. *)
Fixpoint nondecreasing (t : Z) (calls : list (string * string * Z)) : Prop :=
  match calls with
  | [] => True
  | (_, _, now) :: cs => (t <= now)%Z /\ nondecreasing now cs
  end.

Lemma fresh_mono t now ttl ts : (t <= now)%Z -> fresh now ttl ts = true -> fresh t ttl ts = true.
Proof using. unfold fresh, sat_sub. intros Hle Hf. boolean. apply Z.ltb_lt. lia. Qed.

Definition known (d : InboundDebounce) (last : gmap string Z) : Prop :=
  forall k ts, seen d !! k = Some ts -> last !! k = Some ts.
Definition forgotten (t : Z) (d : InboundDebounce) (last : gmap string Z) : Prop :=
  forall k ts, last !! k = Some ts -> fresh t (ttl_ms d) ts = true -> seen d !! k = Some ts.

Lemma cleanup_lookup now d k ts :
  seen (cleanup_stale now d) !! k = Some ts <->
  seen d !! k = Some ts /\ fresh now (ttl_ms d) ts = true.
Proof using. simpl. by rewrite map_lookup_filter_Some. Qed.

Lemma cleanup_sync t now d last :
  (t <= now)%Z -> known d last -> forgotten t d last ->
  known (cleanup_stale now d) last /\ forgotten now (cleanup_stale now d) last.
Proof using.
  intros Hle Hk Hf. split.
  - intros k ts [Hs _]%cleanup_lookup. by apply Hk.
  - intros k ts Hl Hfr. apply cleanup_lookup. simpl in Hfr. split; [|done].
    apply Hf; [done | by eapply fresh_mono].
Qed.
End Debounce_correct.

(** For calls whose times do not go back, the window answers as if it
    remembered every accepted message for ever: a message is skipped exactly
    when the last accepted one of its key is less than [ttl_ms] old; evicting
    stale entries changes no answer. *)
Theorem debounce_window sha256_hex ttl calls :
  nondecreasing 0 calls ->
  debounce_run sha256_hex calls (debounce_new ttl) = debounce_ref sha256_hex ttl calls ∅.
Proof.
  intros Hnd. change ttl with (ttl_ms (debounce_new ttl)) at 2.
  assert (Hk : known (debounce_new ttl) ∅) by (intros k ts; simpl; by rewrite lookup_empty).
  assert (Hf : forgotten 0 (debounce_new ttl) ∅) by (intros k ts; by rewrite lookup_empty).
  revert Hnd Hk Hf. generalize (debounce_new ttl) as d, (∅ : gmap string Z) as last, 0%Z as t.
  induction calls as [|[[body from] now] cs IH]; intros d last t; simpl; [done|].
  intros [Hle Hnd] Hk Hf. destruct (cleanup_sync t now d last Hle Hk Hf) as [Hk' Hf'].
  unfold should_skip. set (key := hash_key _ _ _).
  destruct (seen (cleanup_stale now d) !! key) as [ts|] eqn:Es.
  - rewrite (Hk' _ _ Es). apply cleanup_lookup in Es as [_ Hfr]. rewrite Hfr. f_equal.
    change (ttl_ms d) with (ttl_ms (cleanup_stale now d)). by apply (IH _ _ now).
  - assert (Hno : match last !! key with Some ts => fresh now (ttl_ms d) ts | None => false end = false).
    { destruct (last !! key) as [ts|] eqn:El; [|done].
      destruct (fresh now (ttl_ms d) ts) eqn:Efr; [|done]. rewrite (Hf' _ _ El Efr) in Es. done. }
    rewrite Hno. f_equal.
    apply (IH {| seen := <[key := now]> (seen (cleanup_stale now d)); ttl_ms := ttl_ms d |} _ now);
      [done | |]; intros k ts; simpl; destruct (decide (k = key)) as [->|Hne];
      rewrite ?lookup_insert_eq, ?(lookup_insert_ne _ key k) by done; try done;
      [apply Hk' | apply Hf'].
Qed.

Lemma debounce_window_witness :
  nondecreasing 0 [("b", "f", 0%Z); ("b", "f", 50%Z); ("b", "f", 120%Z)] /\
  debounce_run (fun s => s) [("b", "f", 0%Z); ("b", "f", 50%Z); ("b", "f", 120%Z)] (debounce_new 100)
  = [false; true; false].
Proof.
  split; [simpl; lia|].
  rewrite (debounce_window (fun s => s) 100 [("b", "f", 0%Z); ("b", "f", 50%Z); ("b", "f", 120%Z)]).
  - vm_compute. reflexivity.
  - simpl. lia.
Defined.

(** * The block pipeline hands out each key once *)

Inductive block_op := BlockEnqueue (p : ReplyPayload) | BlockFlush (force : bool).

Fixpoint block_run (ops : list block_op) (b : BlockReplyPipeline)
  : list ReplyPayload * BlockReplyPipeline :=
  match ops with
  | [] => ([], b)
  | BlockEnqueue p :: ops' => block_run ops' (block_enqueue p b)
  | BlockFlush force :: ops' =>
      let '(out, b') := block_flush force b in
      let '(outs, b'') := block_run ops' b' in (out ++ outs, b'')
  end.

(** The first payload of each key not in [seen]. *)
Fixpoint first_of_key (seen : gset string) (ps : list ReplyPayload) : list ReplyPayload :=
  match ps with
  | [] => []
  | p :: ps' =>
      if bool_decide (payload_key p ∈ seen) then first_of_key seen ps'
      else p :: first_of_key ({[ payload_key p ]} ∪ seen) ps'
  end.

Definition enqueued (ops : list block_op) : list ReplyPayload :=
  omap (fun op => match op with BlockEnqueue p => Some p | _ => None end) ops.

(** However enqueueing and flushing interleave, an active pipeline hands
    out (or still buffers) the first payload of each key, in arrival order,
    and nothing else; a stopped pipeline takes and gives nothing. *)
Theorem block_pipeline_once ops timeout :
  (let '(out, b) := block_run ops (pipeline_new timeout) in
   out ++ buffer b = first_of_key ∅ (enqueued ops)) /\
  forall b, (block_run ops (block_stop b)) = ([], block_stop b).
Proof.
  split.
  - assert (Hgen : forall b, aborted b = false ->
      let '(out, b') := block_run ops b in
      out ++ buffer b' = buffer b ++ first_of_key (seen_keys b) (enqueued ops)).
    { induction ops as [|[p|force] ops IH]; intros b Hb.
      - simpl. by rewrite app_nil_r.
      - change (enqueued (BlockEnqueue p :: ops)) with (p :: enqueued ops). cbn [block_run first_of_key].
        unfold block_enqueue. rewrite Hb. destruct (bool_decide _); [by apply IH|].
        match goal with |- context [block_run ops ?b1] => specialize (IH b1 ltac:(done)) end.
        destruct (block_run ops _) as [out b']. simpl in IH. by rewrite IH, <- (assoc_L app).
      - change (enqueued (BlockFlush force :: ops)) with (enqueued ops). cbn [block_run].
        unfold block_flush. rewrite Hb. destruct (force || has_buffered b) eqn:Ef.
        + match goal with |- context [block_run ops ?b1] => specialize (IH b1 ltac:(done)) end.
          destruct (block_run ops _) as [out b']. simpl in IH. by rewrite <- (assoc_L app), IH.
        + specialize (IH b Hb). by destruct (block_run ops b) as [out b']. }
    exact (Hgen (pipeline_new timeout) eq_refl).
  - intros b. induction ops as [|[p|force] ops IH]; simpl; [done | exact IH |].
    unfold block_flush. simpl. by rewrite IH.
Qed.

(** Payloads that differ only in their media list have one key: the second is
    dropped. *)
Theorem media_list_not_in_key :
  let p urls := {| rp_text := None; rp_media_url := None; rp_media_urls := Some urls;
                   rp_reply_to_id := None; rp_reply_to_current := false; rp_audio_as_voice := false;
                   rp_is_error := false; rp_channel_data := None |} in
  (block_flush true (block_enqueue (p ["b.png"]) (block_enqueue (p ["a.png"]) (pipeline_new 0)))).1
  = [p ["a.png"]].
Proof. vm_compute. reflexivity. Qed.

(** * Tokens *)

(** Removing a heartbeat token can uncover another one. *)
Theorem strip_heartbeat_leaves_token :
  strip_heartbeat "[[HEART[[HEARTBEAT]]BEAT]]" = Some HEARTBEAT_TOKEN.
Proof. vm_compute. reflexivity. Qed.

(** A reply that is silent once its heartbeat is stripped is delivered. *)
Theorem silent_with_heartbeat_delivered :
  rp_text <$> normalize_reply_payload
    (with_text (Some "[[SILENT]][[HEARTBEAT]]") ReplyPayload_default) default_outbound
  = Some (Some SILENT_REPLY_TOKEN).
Proof. vm_compute. reflexivity. Qed.

(** * The dispatcher *)

(** A second completion wraps the counter below zero: never idle again. *)
Theorem mark_complete_twice_never_idle :
  let d := mark_complete (dispatcher_new 4) in
  is_idle d = true /\ is_idle (mark_complete d) = false /\ pending (mark_complete d) = u64_max.
Proof. vm_compute. done. Qed.

(** Sending keeps the count of unfinished sends, and fails exactly when the
    channel is full. *)
Lemma send_spec k p d :
  is_u64 (pending d) ->
  pending (send k p d).2 = pending d /\
  (send k p d).1 = (length (chan_of k d) <? capacity d) /\
  chan_of k (send k p d).2 = if (send k p d).1 then chan_of k d ++ [p] else chan_of k d.
Proof.
  intros Hp. unfold send.
  assert (Hw : wsub (wadd (pending d) 1) 1 = pending d).
  { unfold wsub, wadd, wrap_u64, is_u64, u64_max in *. rewrite Zminus_mod_idemp_l.
    replace (pending d + 1 - 1)%Z with (pending d) by lia. apply Z.mod_small. lia. }
  replace (chan_of k (with_pending (wadd (pending d) 1) d)) with (chan_of k d) by (by destruct k).
  destruct (length (chan_of k d) <? capacity d) eqn:E; simpl; rewrite E; destruct k; simpl;
    rewrite ?Hw; done.
Qed.
