(* ===== verification/Cron.v ===== *)
(** The cron core ([crates/cron-core/src/types.rs], [schedule.rs],
    [backoff.rs], [service.rs], [scheduler.rs], [runner.rs], [run_log.rs],
    [stagger.rs], [telemetry.rs]).  The service holds its mutex for the whole
    of each operation, so an operation is a function on the stored job list.
    Times are [u64] milliseconds given by the caller; a failing write of the
    store is not modelled. *)

From S2P Require Import Prelude RustStr F64.
#[local] Open Scope string_scope.
#[local] Open Scope nat_scope.
#[local] Open Scope list_scope.

(** * Data *)

Inductive CronScheduleKind :=
| At (at_ : string)
| Every (every_ms : Z) (anchor_ms : option Z)
| CronExpr (expr : string) (tz : option string).

Record CronDelivery := { cd_channel : string; cd_target : string; cd_target_type : option string }.

Inductive CronPayloadKind :=
| SystemEvent (text : string)
| AgentTurn (message : string) (model : option string) (timeout_secs : option Z)
    (channel : option string).

Record CronJobState := {
  next_run_at_ms : option Z;
  last_run_at_ms : option Z;
  last_status : option string;
  last_error : option string;
  consecutive_errors : Z;
  running_since_ms : option Z;
  total_runs : Z;
  total_errors : Z;
}.

Record CronJob := {
  cj_id : string;
  cj_name : string;
  cj_enabled : bool;
  cj_schedule : CronScheduleKind;
  cj_payload : CronPayloadKind;
  cj_session_target : string;
  cj_state : CronJobState;
  cj_created_at_ms : Z;
  cj_updated_at_ms : Z;
  cj_delete_after_run : bool;
  cj_delivery : list CronDelivery;
  cj_max_retries : option Z;
  cj_timeout_secs : option Z;
}.

Record DeliveryResult := {
  dr_channel : string; dr_target : string; dr_success : bool; dr_error : option string }.

Record CronRunResult := {
  rr_job_id : string;
  rr_output : string;
  rr_success : bool;
  rr_duration_ms : Z;
  rr_deliveries : list DeliveryResult;
}.

Inductive CronEvent :=
| JobStarted (job_id : string) (timestamp_ms : Z)
| JobCompleted (job_id : string) (duration_ms : Z) (success : bool)
| JobFailed (job_id : string) (error : string) (consecutive : Z)
| SchedulerStarted
| SchedulerStopped.

Definition set_state (st : CronJobState) (j : CronJob) : CronJob := {|
  cj_id := cj_id j; cj_name := cj_name j; cj_enabled := cj_enabled j; cj_schedule := cj_schedule j;
  cj_payload := cj_payload j; cj_session_target := cj_session_target j; cj_state := st;
  cj_created_at_ms := cj_created_at_ms j; cj_updated_at_ms := cj_updated_at_ms j;
  cj_delete_after_run := cj_delete_after_run j; cj_delivery := cj_delivery j;
  cj_max_retries := cj_max_retries j; cj_timeout_secs := cj_timeout_secs j;
|}.

Definition touch (now : Z) (j : CronJob) : CronJob := {|
  cj_id := cj_id j; cj_name := cj_name j; cj_enabled := cj_enabled j; cj_schedule := cj_schedule j;
  cj_payload := cj_payload j; cj_session_target := cj_session_target j; cj_state := cj_state j;
  cj_created_at_ms := cj_created_at_ms j; cj_updated_at_ms := now;
  cj_delete_after_run := cj_delete_after_run j; cj_delivery := cj_delivery j;
  cj_max_retries := cj_max_retries j; cj_timeout_secs := cj_timeout_secs j;
|}.

Definition set_next (next : option Z) (s : CronJobState) : CronJobState := {|
  next_run_at_ms := next; last_run_at_ms := last_run_at_ms s; last_status := last_status s;
  last_error := last_error s; consecutive_errors := consecutive_errors s;
  running_since_ms := running_since_ms s; total_runs := total_runs s; total_errors := total_errors s;
|}.

Definition set_running (since : option Z) (s : CronJobState) : CronJobState := {|
  next_run_at_ms := next_run_at_ms s; last_run_at_ms := last_run_at_ms s;
  last_status := last_status s; last_error := last_error s;
  consecutive_errors := consecutive_errors s; running_since_ms := since;
  total_runs := total_runs s; total_errors := total_errors s;
|}.

(** * Backoff *)

Definition BACKOFF_STEPS : list Z := [30000; 60000; 300000; 900000; 3600000]%Z.

Definition backoff_delay_ms (errors : Z) : Z :=
  if (errors =? 0)%Z then 0%Z
  else default 0%Z (BACKOFF_STEPS !! Nat.min (Z.to_nat errors - 1) (length BACKOFF_STEPS - 1)).

(** * Schedules

    Parsing of RFC 3339 times ([chrono]) and the next time of a cron
    expression ([cron]) are parameters. *)
Section Schedule.
Context (parse_rfc3339 : string -> option Z) (cron_after : string -> Z -> option Z).

Definition compute_next_run (schedule : CronScheduleKind) (now : Z) : option Z :=
  match schedule with
  | At at_ =>
      ts ← parse_rfc3339 at_;
      let ts := wrap_u64 ts in if (now <? ts)%Z then Some ts else None
  | Every every anchor =>
      let anchor := default 0%Z anchor in
      if (every =? 0)%Z then None
      else
        let elapsed := sat_sub now anchor in
        let periods := (elapsed / every)%Z in
        let next := wadd anchor (wmul (wadd periods 1) every) in
        if (next <=? now)%Z then Some (wadd next every) else Some next
  | CronExpr expr _ => wrap_u64 <$> cron_after expr now
  end.

(** * The service *)

Definition has_id (id : string) (j : CronJob) : bool := bool_decide (cj_id j = id).
Definition not_found {A} (id : string) : result A string := Err ("Job not found: " +:+ id).

Definition get (id : string) (jobs : list CronJob) : option CronJob := find_first (has_id id) jobs.

Definition add (now : Z) (j : CronJob) (jobs : list CronJob) : CronJob * list CronJob :=
  let j := {| cj_id := cj_id j; cj_name := cj_name j; cj_enabled := cj_enabled j;
              cj_schedule := cj_schedule j; cj_payload := cj_payload j;
              cj_session_target := cj_session_target j;
              cj_state := set_next (compute_next_run (cj_schedule j) now) (cj_state j);
              cj_created_at_ms := now; cj_updated_at_ms := now;
              cj_delete_after_run := cj_delete_after_run j; cj_delivery := cj_delivery j;
              cj_max_retries := cj_max_retries j; cj_timeout_secs := cj_timeout_secs j |} in
  (j, jobs ++ [j]).

Definition remove (id : string) (jobs : list CronJob) : result unit string * list CronJob :=
  let kept := retain (fun j => negb (has_id id j)) jobs in
  if length kept =? length jobs then (not_found id, jobs) else (Ok tt, kept).

Record CronJobPatch := {
  patch_name : option string;
  patch_enabled : option bool;
  patch_schedule : option CronScheduleKind;
}.

Definition apply_patch (now now_end : Z) (p : CronJobPatch) (j : CronJob) : CronJob := {|
  cj_id := cj_id j; cj_name := default (cj_name j) (patch_name p);
  cj_enabled := default (cj_enabled j) (patch_enabled p);
  cj_schedule := default (cj_schedule j) (patch_schedule p);
  cj_payload := cj_payload j; cj_session_target := cj_session_target j;
  cj_state := match patch_schedule p with
              | Some s => set_next (compute_next_run s now) (cj_state j)
              | None => cj_state j
              end;
  cj_created_at_ms := cj_created_at_ms j; cj_updated_at_ms := now_end;
  cj_delete_after_run := cj_delete_after_run j; cj_delivery := cj_delivery j;
  cj_max_retries := cj_max_retries j; cj_timeout_secs := cj_timeout_secs j;
|}.

(** [iter_mut().find(id)], an update of the job found, and the save. *)
Definition with_job (id : string) (f : CronJob -> CronJob) (jobs : list CronJob)
  : result unit string * list CronJob :=
  match get id jobs with
  | Some _ => (Ok tt, update_first (has_id id) f jobs)
  | None => (not_found id, jobs)
  end.

Definition update (now now_end : Z) (id : string) (p : CronJobPatch) :=
  with_job id (apply_patch now now_end p).

Definition mark_running (now : Z) (id : string) :=
  with_job id (fun j => set_state (set_running (Some now) (cj_state j)) j).

Definition max_retries (j : CronJob) : Z := default 5%Z (cj_max_retries j).

Definition after_run (now : Z) (r : CronRunResult) (j : CronJob) : CronJob :=
  let s := cj_state j in
  let scheduled_next := compute_next_run (cj_schedule j) now in
  touch now
    (set_state
       (if rr_success r then {|
          next_run_at_ms := scheduled_next; last_run_at_ms := Some now;
          last_status := Some "ok"; last_error := None; consecutive_errors := 0;
          running_since_ms := None; total_runs := wadd (total_runs s) 1;
          total_errors := total_errors s |}
        else
          let errors := wrap_u32 (consecutive_errors s + 1) in {|
          next_run_at_ms :=
            if (max_retries j <=? errors)%Z then None
            else
              let backoff_due := sat_add now (backoff_delay_ms errors) in
              Some (match scheduled_next with Some next => Z.max next backoff_due | None => backoff_due end);
          last_run_at_ms := Some now; last_status := Some "error";
          last_error := Some (rr_output r); consecutive_errors := errors;
          running_since_ms := None; total_runs := wadd (total_runs s) 1;
          total_errors := wadd (total_errors s) 1 |}) j).

Definition update_after_run (now : Z) (id : string) (r : CronRunResult) :=
  with_job id (after_run now r).

Definition trigger (id : string) :=
  with_job id (fun j => set_state (set_next (Some 0%Z) (cj_state j)) j).

(** * The scheduler *)

Definition is_due (j : CronJob) (now : Z) : bool :=
  match running_since_ms (cj_state j) with
  | Some _ => false
  | None =>
      let errors := consecutive_errors (cj_state j) in
      if ((0 <? errors) && (max_retries j <=? errors))%Z then false
      else if (0 <? errors)%Z &&
              match last_run_at_ms (cj_state j) with
              | Some last => (now <? wadd last (backoff_delay_ms errors))%Z
              | None => false
              end
      then false
      else match next_run_at_ms (cj_state j) with Some next => (next <=? now)%Z | None => false end
  end.

(** The jobs one pass of [run_loop] starts, from the list it read. *)
Definition due_jobs (now : Z) (jobs : list CronJob) : list CronJob :=
  retain (fun j => cj_enabled j && is_due j now) jobs.

Definition STUCK_THRESHOLD_MS : Z := (2 * 60 * 60 * 1000)%Z.

Definition stuck_result (now since : Z) (j : CronJob) : CronRunResult := {|
  rr_job_id := cj_id j; rr_output := "Job timed out (stuck detection)"; rr_success := false;
  rr_duration_ms := wsub now since; rr_deliveries := [] |}.

(** [detect_stuck_jobs] over the jobs [listed]; [clock] is the time of each
    [update_after_run]. *)
Fixpoint detect_stuck_jobs (now clock : Z) (listed jobs : list CronJob)
  : list CronEvent * list CronJob :=
  match listed with
  | [] => ([], jobs)
  | j :: listed' =>
      match running_since_ms (cj_state j) with
      | Some since =>
          if (STUCK_THRESHOLD_MS <? sat_sub now since)%Z then
            let jobs := (update_after_run clock (cj_id j) (stuck_result now since j) jobs).2 in
            let '(evs, jobs) := detect_stuck_jobs now clock listed' jobs in
            (JobFailed (cj_id j) "stuck detection timeout"
               (wrap_u32 (consecutive_errors (cj_state j) + 1)) :: evs, jobs)
          else detect_stuck_jobs now clock listed' jobs
      | None => detect_stuck_jobs now clock listed' jobs
      end
  end.

(** [RunLog::truncate_preview]; [None] is a slice panic. *)
Definition OUTPUT_PREVIEW_MAX : nat := 500.
Definition truncate_preview (s : string) : option string :=
  if len s <=? OUTPUT_PREVIEW_MAX then Some s
  else head ← slice_to s OUTPUT_PREVIEW_MAX; Some (head +:+ "…").

(** What the outside gives one execution: the result of the agent turn
    ([None] when the timeout fires), the outcome of each delivery, and the
    times at its start and at its end. *)
Record Execution := {
  ex_turn : option (result string string);
  ex_deliver : CronDelivery -> result unit string;
  ex_start : Z;
  ex_duration : Z;
  ex_end : Z;
}.

Definition exec_result (ex : Execution) (j : CronJob) : result string string :=
  match cj_payload j with
  | SystemEvent text => Ok text
  | AgentTurn _ _ _ _ => match ex_turn ex with Some r => r | None => Err "execution timed out" end
  end.

Definition deliver_to (ex : Execution) (d : CronDelivery) : DeliveryResult :=
  match ex_deliver ex d with
  | Ok _ => {| dr_channel := cd_channel d; dr_target := cd_target d; dr_success := true;
               dr_error := None |}
  | Err e => {| dr_channel := cd_channel d; dr_target := cd_target d; dr_success := false;
                dr_error := Some e |}
  end.

Definition run_result (ex : Execution) (j : CronJob) : CronRunResult :=
  let '(output, success) := match exec_result ex j with Ok t => (t, true) | Err e => (e, false) end in
  {| rr_job_id := cj_id j; rr_output := output; rr_success := success;
     rr_duration_ms := ex_duration ex;
     rr_deliveries := if success then deliver_to ex <$> cj_delivery j else [] |}.

(** The second half of [execute_job], after the payload ran: the events and
    the stored jobs. *)
Definition finish_job (ex : Execution) (j : CronJob) (jobs : list CronJob)
  : list CronEvent * list CronJob :=
  let r := run_result ex j in
  let jobs := (update_after_run (ex_end ex) (cj_id j) r jobs).2 in
  let jobs := if cj_delete_after_run j then (remove (cj_id j) jobs).2 else jobs in
  if rr_success r then ([JobCompleted (cj_id j) (rr_duration_ms r) true], jobs)
  else ([JobFailed (cj_id j) (rr_output r)
           (match get (cj_id j) jobs with Some j' => consecutive_errors (cj_state j') | None => 0%Z end)],
        jobs).

(** [execute_job] run without interleaving; the boolean is [true] when its
    task panics. *)
Definition execute_job (ex : Execution) (j : CronJob) (jobs : list CronJob)
  : bool * list CronEvent * list CronJob :=
  match mark_running (ex_start ex) (cj_id j) jobs with
  | (Err _, jobs) => (false, [], jobs)
  | (Ok _, jobs) =>
      let started := JobStarted (cj_id j) (ex_start ex) in
      match truncate_preview (rr_output (run_result ex j)) with
      | None => (true, [started], jobs)
      | Some _ => let '(evs, jobs) := finish_job ex j jobs in (false, started :: evs, jobs)
      end
  end.

(** [run_once]. *)
Definition run_once (ex : Execution) (id : string) (jobs : list CronJob)
  : result (bool * list CronEvent) string * list CronJob :=
  match get id jobs with
  | None => (not_found id, jobs)
  | Some j =>
      if negb (cj_enabled j) then (Err ("Job is disabled: " +:+ id), jobs)
      else let '(panicked, evs, jobs) := execute_job ex j jobs in (Ok (panicked, evs), jobs)
  end.
End Schedule.

(** * Stagger and telemetry *)

(** [sha256_u64] is the little-endian value of the first eight digest bytes. *)
Definition stagger_offset (sha256_u64 : string -> Z) (job_id : string) (window_ms : Z) : Z :=
  if (window_ms =? 0)%Z then 0%Z else (sha256_u64 job_id mod window_ms)%Z.

Definition apply_stagger (sha256_u64 : string -> Z) (next_run : Z) (job_id : string) (window : Z) : Z :=
  wadd next_run (stagger_offset sha256_u64 job_id window).

Record CronMetrics := {
  m_total_runs : Z;
  m_successful_runs : Z;
  m_failed_runs : Z;
  m_total_duration_ms : Z;
  m_active_jobs : Z;
}.

Definition metrics_new : CronMetrics := {|
  m_total_runs := 0; m_successful_runs := 0; m_failed_runs := 0; m_total_duration_ms := 0;
  m_active_jobs := 0 |}.

Definition record_run (success : bool) (duration : Z) (m : CronMetrics) : CronMetrics := {|
  m_total_runs := wadd (m_total_runs m) 1;
  m_successful_runs := if success then wadd (m_successful_runs m) 1 else m_successful_runs m;
  m_failed_runs := if success then m_failed_runs m else wadd (m_failed_runs m) 1;
  m_total_duration_ms := wadd (m_total_duration_ms m) duration;
  m_active_jobs := m_active_jobs m |}.

Definition set_active_jobs (count : Z) (m : CronMetrics) : CronMetrics := {|
  m_total_runs := m_total_runs m; m_successful_runs := m_successful_runs m;
  m_failed_runs := m_failed_runs m; m_total_duration_ms := m_total_duration_ms m;
  m_active_jobs := count |}.

Definition avg_duration_ms (m : CronMetrics) : Z :=
  if (0 <? m_total_runs m)%Z then (m_total_duration_ms m / m_total_runs m)%Z else 0%Z.

Definition success_rate (m : CronMetrics) : f64 :=
  if (0 <? m_total_runs m)%Z
  then f64_div (f64_of_Z (m_successful_runs m)) (f64_of_Z (m_total_runs m)) else f64_of_Z 0.

(** * Schedules *)

Lemma backoff_bounds e : (0 <= backoff_delay_ms e <= 3600000)%Z.
Proof.
  unfold backoff_delay_ms. destruct (e =? 0)%Z; [lia|]. simpl length.
  assert (Hi : Nat.min (Z.to_nat e - 1) (5 - 1) <= 4) by lia.
  destruct (Nat.min _ _) as [|[|[|[|[|i]]]]]; simpl; lia.
Qed.

(** An interval schedule that does not overflow runs next strictly in the
    future, on the grid of its anchor and at most one period away once the
    anchor has passed; before the anchor it runs one whole period after it. *)
Theorem every_next parse after every anchor now :
  is_u64 now -> (0 <= anchor)%Z -> (0 < every)%Z ->
  (anchor + (sat_sub now anchor / every + 1) * every <= u64_max)%Z ->
  exists next, compute_next_run parse after (Every every (Some anchor)) now = Some next /\
    (now < next)%Z /\ is_u64 next /\
    ((anchor <= now)%Z -> (next - now <= every)%Z /\ ((next - anchor) mod every = 0)%Z) /\
    ((now < anchor)%Z -> next = (anchor + every)%Z).
Proof.
  unfold is_u64, sat_sub, u64_max. intros Hn Ha He Ho.
  set (p := (Z.max 0 (now - anchor) / every)%Z) in *.
  assert (Hp : (0 <= p)%Z) by (apply Z.div_pos; lia).
  assert (Hb : (every * p <= Z.max 0 (now - anchor) < every * p + every)%Z).
  { pose proof (Z.mul_div_le (Z.max 0 (now - anchor)) every He).
    pose proof (Z.mul_succ_div_gt (Z.max 0 (now - anchor)) every He). subst p. lia. }
  assert (Hpe : (p + 1 <= (p + 1) * every)%Z) by nia.
  exists (anchor + (p + 1) * every)%Z. unfold compute_next_run. simpl.
  rewrite (proj2 (Z.eqb_neq every 0)) by lia. fold (sat_sub now anchor). unfold sat_sub. fold p.
  rewrite (wadd_exact p 1), (wmul_exact (p + 1) every), wadd_exact by (unfold u64_max; lia).
  rewrite (proj2 (Z.leb_gt _ _)) by lia.
  split_and!; [done | lia | lia | lia | intros Hle; split; [lia|] | intros Hlt].
  - replace (anchor + (p + 1) * every - anchor)%Z with ((p + 1) * every)%Z by lia.
    apply Z.mod_mul. lia.
  - assert (p = 0)%Z; [|lia]. subst p. rewrite Z.max_l by lia. apply Z.div_0_l. lia.
Qed.

Lemma every_next_witness :
  is_u64 250 /\ exists next,
    compute_next_run (fun _ => None) (fun _ _ => None) (Every 100 (Some 30%Z)) 250 = Some next /\
    (250 < next)%Z.
Proof.
  assert (Hu : is_u64 250) by (unfold is_u64, u64_max; lia).
  split; [exact Hu|].
  destruct (every_next (fun _ => None) (fun _ _ => None) 100 30 250 Hu ltac:(lia) ltac:(lia)
              ltac:(vm_compute; congruence)) as (next & Hn & Hlt & _).
  exists next. split; [exact Hn | exact Hlt].
Defined.

(** * When a job is due *)

Section Due.
Context (parse : string -> option Z) (after : string -> Z -> option Z).

(** After a run: a success clears the errors and the job is due again
    exactly from its scheduled time on; a failure within the retry budget
    makes it due from the later of the scheduled time and the end of the
    backoff; a failure that exhausts the budget makes it never due. *)
Theorem due_after_run now r j :
  is_u64 now -> (now + 3600000 <= u64_max)%Z ->
  (0 <= consecutive_errors (cj_state j) < u32_max)%Z ->
  let j' := after_run parse after now r j in
  let errors := (consecutive_errors (cj_state j) + 1)%Z in
  let next := compute_next_run parse after (cj_schedule j) now in
  forall t,
    is_due j' t =
      if rr_success r then match next with Some n => (n <=? t)%Z | None => false end
      else if (max_retries j <=? errors)%Z then false
      else ((now + backoff_delay_ms errors <=? t) &&
            match next with Some n => n <=? t | None => true end)%Z.
Proof.
  intros Hn Hb He j' errors next t. unfold is_u64, u64_max, u32_max in Hn, Hb, He.
  pose proof (backoff_bounds errors) as Hd.
  unfold is_due, j', after_run, touch, set_state, max_retries. simpl.
  destruct (rr_success r); simpl; [done|].
  assert (Hw : wrap_u32 (consecutive_errors (cj_state j) + 1) = errors)
    by (apply Z.mod_small; unfold errors; lia).
  rewrite !Hw. rewrite (proj2 (Z.ltb_lt 0 errors)) by (unfold errors; lia). simpl.
  fold (max_retries j). destruct (max_retries j <=? errors)%Z; [done|].
  rewrite wadd_exact by (unfold u64_max; lia).
  unfold sat_add. rewrite Z.min_r by (unfold u64_max; lia).
  fold next. destruct (t <? now + backoff_delay_ms errors)%Z eqn:Et; boolean.
  - by rewrite (proj2 (Z.leb_gt _ _)) by lia.
  - rewrite (proj2 (Z.leb_le (now + _) t)) by lia. simpl. destruct next as [n|]; [|lia].
    destruct (n <=? t)%Z eqn:En; boolean; [apply Z.leb_le | apply Z.leb_gt]; lia.
Qed.
End Due.

Definition demo_job : CronJob := {|
  cj_id := "j"; cj_name := "demo"; cj_enabled := true; cj_schedule := Every 60000 None;
  cj_payload := AgentTurn "hi" None None None; cj_session_target := "main";
  cj_state := {| next_run_at_ms := Some 60000%Z; last_run_at_ms := None; last_status := None;
                 last_error := None; consecutive_errors := 0; running_since_ms := None;
                 total_runs := 0; total_errors := 0 |};
  cj_created_at_ms := 0; cj_updated_at_ms := 0; cj_delete_after_run := false; cj_delivery := [];
  cj_max_retries := Some 1%Z; cj_timeout_secs := None;
|}.

Definition no_time : string -> option Z := fun _ => None.
Definition no_cron : string -> Z -> option Z := fun _ _ => None.

Definition failed_run : CronRunResult :=
  {| rr_job_id := "j"; rr_output := "boom"; rr_success := false; rr_duration_ms := 1;
     rr_deliveries := [] |}.

Lemma due_after_run_witness :
  is_u64 60000 /\ is_due (after_run no_time no_cron 60000 failed_run demo_job) 99999999 = false.
Proof.
  assert (Hu : is_u64 60000) by (unfold is_u64, u64_max; lia). split; [exact Hu|].
  exact (due_after_run no_time no_cron 60000 failed_run demo_job Hu ltac:(vm_compute; congruence)
           ltac:(vm_compute; split; congruence) 99999999%Z).
Defined.

(** * Interleaved service calls *)

Section Interleaving.
Context (parse : string -> option Z) (after : string -> Z -> option Z).

(** The atomic calls on the store; a scheduler pass looks for stuck jobs in
    the list it read, which may be out of date. *)
Inductive cron_op :=
| OpAdd (now : Z) (j : CronJob)
| OpRemove (id : string)
| OpUpdate (now now_end : Z) (id : string) (p : CronJobPatch)
| OpMarkRunning (now : Z) (id : string)
| OpAfterRun (now : Z) (id : string) (r : CronRunResult)
| OpTrigger (id : string)
| OpStuck (now clock : Z) (listed : list CronJob).

Definition cron_step (op : cron_op) (jobs : list CronJob) : list CronJob :=
  match op with
  | OpAdd now j => (add parse after now j jobs).2
  | OpRemove id => (remove id jobs).2
  | OpUpdate now now_end id p => (update parse after now now_end id p jobs).2
  | OpMarkRunning now id => (mark_running now id jobs).2
  | OpAfterRun now id r => (update_after_run parse after now id r jobs).2
  | OpTrigger id => (trigger id jobs).2
  | OpStuck now clock listed => (detect_stuck_jobs parse after now clock listed jobs).2
  end.

Definition cron_exec (ops : list cron_op) (jobs : list CronJob) : list CronJob :=
  foldl (fun jobs op => cron_step op jobs) jobs ops.

Lemma get_with_job id id' f jobs :
  (forall j, cj_id (f j) = cj_id j) ->
  get id (with_job id' f jobs).2 = if decide (id = id') then f <$> get id jobs else get id jobs.
Proof using.
  intros Hf. unfold with_job. destruct (get id' jobs) as [j0|] eqn:E0; simpl.
  2: { destruct (decide (id = id')) as [->|]; [by rewrite E0 | done]. }
  clear E0. unfold get. induction jobs as [|j js IH]; simpl; [by destruct (decide _)|].
  assert (Hid : has_id id (f j) = has_id id j) by (unfold has_id; by rewrite Hf).
  destruct (has_id id' j) eqn:E'; simpl.
  - rewrite Hid. destruct (decide (id = id')) as [->|Hne]; [by rewrite E'|].
    assert (has_id id j = false) as ->; [|done].
    unfold has_id in *. boolean. apply bool_decide_eq_false_2. congruence.
  - rewrite IH. by destruct (decide (id = id')) as [->|]; [rewrite E'|].
Qed.

Lemma get_remove id id' jobs : id <> id' -> get id (remove id' jobs).2 = get id jobs.
Proof using.
  intros Hne. unfold remove. destruct (_ =? _); simpl; [done|]. unfold get, retain.
  induction jobs as [|j js IH]; simpl; [done|].
  destruct (has_id id' j) eqn:E; simpl.
  - assert (has_id id j = false) as ->; [|exact IH].
    unfold has_id in *. boolean. apply bool_decide_eq_false_2. congruence.
  - destruct (has_id id j); [done | exact IH].
Qed.

Lemma get_add now id j jobs : is_Some (get id jobs) -> get id (add parse after now j jobs).2 = get id jobs.
Proof using.
  intros [x Hx]. rewrite Hx. simpl. unfold get in *. induction jobs as [|y ys IH]; simpl in *; [done|].
  destruct (has_id id y); [done | by apply IH].
Qed.

(** How often the job [id] may fail in a call. *)
Definition bumps (op : cron_op) : Z :=
  match op with OpAfterRun _ _ _ => 1 | OpStuck _ _ listed => Z.of_nat (length listed) | _ => 0 end.

(** Neither removes the job nor records a successful run of it. *)
Definition spares (id : string) (op : cron_op) : Prop :=
  match op with
  | OpRemove id' => id' <> id
  | OpAfterRun _ id' r => id' = id -> rr_success r = false
  | _ => True
  end.

Definition exhausted (id : string) (room : Z) (jobs : list CronJob) : Prop :=
  exists j, get id jobs = Some j /\ (0 < consecutive_errors (cj_state j))%Z /\
    (max_retries j <= consecutive_errors (cj_state j))%Z /\
    (consecutive_errors (cj_state j) + room <= u32_max)%Z.

(** An update of jobs that keeps the identifier, the retry bound and the
    error count. *)
Lemma exhausted_keep id id' f room jobs :
  (forall j, cj_id (f j) = cj_id j /\ max_retries (f j) = max_retries j /\
     consecutive_errors (cj_state (f j)) = consecutive_errors (cj_state j)) ->
  exhausted id room jobs -> exhausted id room (with_job id' f jobs).2.
Proof using.
  intros Hf (j & Hj & ? & ? & ?). unfold exhausted. rewrite get_with_job by apply Hf.
  rewrite Hj. destruct (decide (id = id')); simpl; [|eauto 6]. exists (f j).
  destruct (Hf j) as (_ & -> & ->). done.
Qed.

Lemma exhausted_fail now id id' r room jobs :
  (id' = id -> rr_success r = false) ->
  (0 <= room)%Z -> exhausted id (1 + room) jobs ->
  exhausted id room (update_after_run parse after now id' r jobs).2.
Proof using.
  intros Hr Hroom (j & Hj & Hp & Hm & Hb). unfold exhausted, update_after_run.
  rewrite get_with_job by done. rewrite Hj. destruct (decide (id = id')) as [<-|]; simpl.
  - eexists. split; [done|]. unfold after_run, touch, set_state, max_retries in *. simpl.
    rewrite Hr by done. simpl.
    assert (Hw : wrap_u32 (consecutive_errors (cj_state j) + 1)
                 = (consecutive_errors (cj_state j) + 1)%Z)
      by (apply Z.mod_small; unfold u32_max in Hb; lia).
    rewrite Hw. lia.
  - exists j. split_and!; [done | done | done | lia].
Qed.

Lemma exhausted_stuck id now clock listed room jobs :
  (0 <= room)%Z -> exhausted id (Z.of_nat (length listed) + room) jobs ->
  exhausted id room (detect_stuck_jobs parse after now clock listed jobs).2.
Proof using.
  intros Hroom. revert jobs. induction listed as [|j listed IH]; intros jobs He.
  { by rewrite Z.add_0_l in He. }
  assert (Hskip : exhausted id (Z.of_nat (length listed) + room) jobs).
  { destruct He as (x & ? & ? & ? & Hb). exists x. split_and!; try done. simpl length in Hb. lia. }
  cbn [detect_stuck_jobs]. destruct (running_since_ms (cj_state j)) as [since|]; [|by apply IH].
  destruct (_ <? _)%Z; [|by apply IH].
  assert (Hf : exhausted id (Z.of_nat (length listed) + room)
            (update_after_run parse after clock (cj_id j) (stuck_result now since j) jobs).2).
  { apply exhausted_fail; [done | lia |]. by replace (1 + (Z.of_nat (length listed) + room))%Z
      with (Z.of_nat (length (j :: listed)) + room)%Z by (simpl length; lia). }
  specialize (IH _ Hf). by destruct (detect_stuck_jobs _ _ _ _ _ _).
Qed.

Lemma exhausted_step id op room jobs :
  (0 <= room)%Z -> spares id op -> exhausted id (bumps op + room) jobs ->
  exhausted id room (cron_step op jobs).
Proof using.
  intros Hroom Hs He.
  destruct op; cbn [cron_step bumps spares] in *; rewrite ?Z.add_0_l in He.
  - destruct He as (x & Hx & He). exists x. rewrite get_add by eauto. done.
  - destruct He as (x & Hx & He). exists x. rewrite get_remove by congruence. done.
  - apply exhausted_keep; [|done]. intros x. split_and!; [done | done |]. simpl.
    by destruct (patch_schedule p).
  - by apply exhausted_keep.
  - by apply exhausted_fail.
  - by apply exhausted_keep.
  - by apply exhausted_stuck.
Qed.
End Interleaving.

Definition total_bumps (ops : list cron_op) : Z := foldr (fun op n => bumps op + n)%Z 0%Z ops.

Lemma bumps_nonneg op : (0 <= bumps op)%Z.
Proof. destruct op; simpl; lia. Qed.

(** Once a job has used its retries, no interleaving of service calls
    (adding, updating, triggering, marking, stuck detection, failing runs)
    makes it due again: only a run recorded as successful, or its removal,
    can.  In particular triggering it by hand does not. *)
Theorem exhausted_never_due parse after id ops jobs :
  exhausted id (total_bumps ops) jobs -> Forall (spares id) ops ->
  exists j, get id (cron_exec parse after ops jobs) = Some j /\ forall t, is_due j t = false.
Proof.
  intros He Hs. assert (Hend : exhausted id 0 (cron_exec parse after ops jobs)).
  { revert jobs He. induction Hs as [|op ops Hop _ IH]; intros jobs He; simpl; [exact He|].
    apply IH. apply exhausted_step; [|done..].
    clear. induction ops as [|op ops IH]; simpl; [lia|]. pose proof (bumps_nonneg op). lia. }
  destruct Hend as (j & Hj & Hp & Hm & _). exists j. split; [done|]. intros t. unfold is_due.
  destruct (running_since_ms (cj_state j)); [done|].
  by rewrite (proj2 (Z.ltb_lt _ _) Hp), (proj2 (Z.leb_le _ _) Hm).
Qed.

Definition spent_job : CronJob := after_run no_time no_cron 60000 failed_run demo_job.

Lemma exhausted_never_due_witness :
  exhausted "j" 0 [spent_job] /\
  exists j, get "j" (cron_exec no_time no_cron [OpTrigger "j"] [spent_job]) = Some j /\
    next_run_at_ms (cj_state j) = Some 0%Z /\ is_due j 99999999 = false.
Proof.
  assert (He : exhausted "j" 0 [spent_job]).
  { exists spent_job. split; [reflexivity|]. vm_compute. split; [reflexivity|]. split; congruence. }
  split; [exact He|].
  destruct (exhausted_never_due no_time no_cron "j" [OpTrigger "j"] [spent_job] He
              ltac:(constructor; [exact I | constructor])) as (j & Hj & Hd).
  exists j. split; [exact Hj|]. split; [|apply Hd].
  vm_compute in Hj. injection Hj as <-. reflexivity.
Defined.

(** * Executions *)

Definition long_output : string := str_repeat "a" 499 +:+ "é".

Definition demo_execution (r : result string string) : Execution := {|
  ex_turn := Some r; ex_deliver := fun _ => Ok tt; ex_start := 60000; ex_duration := 5;
  ex_end := 60005 |}.

(** A reply whose 500th byte is inside a character panics the task after it
    marked the job running: the job stays running, and is not due until the
    stuck detection clears it. *)
Theorem preview_panic_leaves_job_running :
  let '(panicked, evs, jobs) :=
    execute_job no_time no_cron (demo_execution (Ok long_output)) demo_job [demo_job] in
  panicked = true /\ evs = [JobStarted "j" 60000] /\
  (running_since_ms ∘ cj_state) <$> get "j" jobs = Some (Some 60000%Z).
Proof. vm_compute. done. Qed.

(** A one-shot job is deleted after a failed run too: it is never retried. *)
Theorem failed_one_shot_deleted :
  let j := {| cj_id := "j"; cj_name := "demo"; cj_enabled := true; cj_schedule := At "soon";
              cj_payload := AgentTurn "hi" None None None; cj_session_target := "main";
              cj_state := cj_state demo_job; cj_created_at_ms := 0; cj_updated_at_ms := 0;
              cj_delete_after_run := true; cj_delivery := []; cj_max_retries := None;
              cj_timeout_secs := None |} in
  execute_job no_time no_cron (demo_execution (Err "boom")) j [j]
  = (false, [JobStarted "j" 60000; JobFailed "j" "boom" 0], []).
Proof. vm_compute. done. Qed.
