(* ===== verification/Routing.v ===== *)
(** Gateway routing ([crates/gateway-core/src/session_key.rs], [binding.rs],
    [channel_access.rs], [http/rate_limit.rs]): session keys and their text
    form, session identifiers, binding rules, channel access policies and the
    sliding-window rate limiter. *)

From S2P Require Import Prelude RustStr.
From Stdlib Require Import Sorted.
#[local] Open Scope string_scope.
#[local] Open Scope nat_scope.
#[local] Open Scope list_scope.

(** * Session keys *)

Inductive ChatType := Direct | Group | Channel | Thread.
#[export] Instance ChatType_eq_dec : EqDecision ChatType.
Proof. solve_decision. Defined.

Definition ChatType_to_string (t : ChatType) : string :=
  match t with
  | Direct => "direct" | Group => "group" | Channel => "channel" | Thread => "thread"
  end.

Record SessionKey := {
  sk_channel : string;
  sk_chat_type : ChatType;
  sk_chat_id : string;
  sk_user_id : option string;
}.

Definition colon : ascii := byte 58.

(** The [Display] instance. *)
Definition SessionKey_to_string (k : SessionKey) : string :=
  sk_channel k +:+ ":" +:+ ChatType_to_string (sk_chat_type k) +:+ ":" +:+ sk_chat_id k +:+
  match sk_user_id k with Some uid => ":" +:+ uid | None => "" end.

Definition parse_chat_type (s : string) : option ChatType :=
  match s with
  | "direct" => Some Direct
  | "group" => Some Group
  | "channel" => Some Channel
  | "thread" => Some Thread
  | _ => None
  end.

Definition SessionKey_parse (raw : string) : option SessionKey :=
  match splitn_char 4 colon raw with
  | p0 :: p1 :: p2 :: rest =>
      chat_type ← parse_chat_type p1;
      Some {| sk_channel := p0; sk_chat_type := chat_type; sk_chat_id := p2;
              sk_user_id := head rest |}
  | _ => None
  end.

Definition is_dm (k : SessionKey) : bool := bool_decide (sk_chat_type k = Direct).
Definition is_group (k : SessionKey) : bool := bool_decide (sk_chat_type k = Group).

Inductive DmScope := Main | PerPeer | PerChannelPeer | PerAccountChannelPeer.
Definition DmScope_default : DmScope := Main.

(** [IdentityLinks.links] in the iteration order of its [HashMap]. *)
Abbreviation IdentityLinks := (list (string * list string)).

Definition resolve_identity (links : IdentityLinks) (channel peer : string) : option string :=
  let needle := channel +:+ ":" +:+ peer in
  fst <$> find_first (fun kv => existsb (String.eqb needle) kv.2) links.

Definition build_session_id (channel chat_id : string) (group : bool) (scope : DmScope)
    (links : option IdentityLinks) (account_id : option string) : string :=
  if group then channel +:+ "_" +:+ chat_id
  else
    let resolved_peer :=
      default chat_id (links ≫= fun l => resolve_identity l channel chat_id) in
    match scope with
    | Main => "main"
    | PerPeer => resolved_peer
    | PerChannelPeer => channel +:+ "_" +:+ resolved_peer
    | PerAccountChannelPeer =>
        channel +:+ "_" +:+ default "default" account_id +:+ "_" +:+ resolved_peer
    end.

(** ** Splitting at the first separator *)

Fixpoint has_char (c : ascii) (s : string) : bool :=
  match s with "" => false | String d s' => Ascii.eqb d c || has_char c s' end.

Lemma splitn_step n c s :
  exists w ws, splitn_char (S (S n)) c s = w :: ws /\ has_char c w = false /\
    (ws = [] /\ s = w \/ exists r, s = w +:+ String c r /\ ws = splitn_char (S n) c r).
Proof.
  induction s as [|d s IH].
  - exists "", []. split_and!; auto.
  - cbn [splitn_char]. destruct (Ascii.eqb d c) eqn:E.
    + apply Ascii.eqb_eq in E as ->. exists "", (splitn_char (S n) c s).
      split_and!; [done | done |]. right. by exists s.
    + destruct IH as (w & ws & Hs & Hw & Hr). cbn [splitn_char] in Hs. rewrite Hs.
      exists (String d w), ws. split_and!; [done | simpl; by rewrite E |].
      destruct Hr as [[-> ->]|(r & -> & ->)]; [by left|]. right. by exists r.
Qed.

Lemma split_unique c a b r1 r2 :
  has_char c a = false -> has_char c b = false ->
  a +:+ String c r1 = b +:+ String c r2 -> a = b /\ r1 = r2.
Proof.
  revert b. induction a as [|d a IH]; intros [|e b] Ha Hb H; simpl in *.
  - by injection H as ->.
  - injection H as -> _. by rewrite Ascii.eqb_refl in Hb.
  - injection H as -> _. by rewrite Ascii.eqb_refl in Ha.
  - injection H as -> H. apply orb_false_iff in Ha as [_ Ha], Hb as [_ Hb].
    by destruct (IH b Ha Hb H) as [-> ->].
Qed.

Lemma has_char_app c a b : has_char c (a +:+ b) = has_char c a || has_char c b.
Proof. induction a as [|d a IH]; simpl; [done|]. by rewrite IH, orb_assoc. Qed.

(** A part without the separator in front of one is the first part. *)
Lemma splitn_cut n c a r :
  has_char c a = false -> splitn_char (S (S n)) c (a +:+ String c r) = a :: splitn_char (S n) c r.
Proof.
  intros Ha. destruct (splitn_step n c (a +:+ String c r)) as (w & ws & -> & Hw & [[-> He]|(r' & He & ->)]).
  - exfalso. subst w. rewrite has_char_app in Hw. simpl in Hw.
    rewrite Ascii.eqb_refl, orb_true_r in Hw. done.
  - apply split_unique in He as [-> ->]; done.
Qed.

Lemma splitn_whole n c a : has_char c a = false -> splitn_char (S (S n)) c a = [a].
Proof.
  intros Ha. destruct (splitn_step n c a) as (w & ws & -> & Hw & [[-> ->]|(r' & He & ->)]); [done|].
  exfalso. rewrite He, has_char_app in Ha. simpl in Ha.
  rewrite Ascii.eqb_refl, orb_true_r in Ha. done.
Qed.

Lemma parse_chat_type_to_string t : parse_chat_type (ChatType_to_string t) = Some t.
Proof. by destruct t. Qed.

(** Parsed channels and chat identifiers hold no colon. *)
Lemma parse_no_colon raw k :
  SessionKey_parse raw = Some k ->
  has_char colon (sk_channel k) = false /\ has_char colon (sk_chat_id k) = false.
Proof.
  unfold SessionKey_parse.
  destruct (splitn_step 2 colon raw) as (p0 & w0 & -> & Hp0 & [[-> _]|(r0 & _ & ->)]); [done|].
  destruct (splitn_step 1 colon r0) as (p1 & w1 & -> & _ & [[-> _]|(r1 & _ & ->)]); [done|].
  destruct (splitn_step 0 colon r1) as (p2 & w2 & -> & Hp2 & _).
  destruct (parse_chat_type p1); simpl; [|done]. by intros [= <-].
Qed.

Lemma to_string_shape k :
  SessionKey_to_string k
  = sk_channel k +:+ String colon (ChatType_to_string (sk_chat_type k) +:+ String colon
      (sk_chat_id k +:+ match sk_user_id k with Some uid => String colon uid | None => "" end)).
Proof. unfold SessionKey_to_string. by destruct (sk_user_id k). Qed.

(** C40. The text form of a session key parses back to the key exactly when
    neither its channel nor its chat identifier holds a colon (its user
    identifier may). *)
Theorem session_key_roundtrip k :
  SessionKey_parse (SessionKey_to_string k) = Some k <->
  has_char colon (sk_channel k) = false /\ has_char colon (sk_chat_id k) = false.
Proof.
  split; [apply parse_no_colon|]. intros [Hc Hi].
  rewrite to_string_shape. unfold SessionKey_parse.
  rewrite splitn_cut by done. rewrite splitn_cut by (by destruct (sk_chat_type k)).
  destruct k as [ch ct ci [uid|]]; cbn [sk_channel sk_chat_type sk_chat_id sk_user_id] in *.
  - rewrite splitn_cut by done. rewrite parse_chat_type_to_string. done.
  - rewrite str_app_nil_r, splitn_whole by done. rewrite parse_chat_type_to_string. done.
Qed.

(** A Matrix room identifier holds a colon: its server becomes the user. *)
Theorem matrix_room_misparsed :
  SessionKey_parse (SessionKey_to_string
    {| sk_channel := "matrix"; sk_chat_type := Group; sk_chat_id := "!room:example.org";
       sk_user_id := None |})
  = Some {| sk_channel := "matrix"; sk_chat_type := Group; sk_chat_id := "!room";
            sk_user_id := Some "example.org" |}.
Proof. vm_compute. reflexivity. Qed.

(** Distinct peers can share a session identifier. *)
Theorem session_id_collision :
  build_session_id "slack" "b_c" false PerAccountChannelPeer None (Some "a")
  = build_session_id "slack" "c" false PerAccountChannelPeer None (Some "a_b").
Proof. reflexivity. Qed.

(** * Binding rules *)

Record Binding := {
  bd_system_prompt : option string;
  bd_tools : option (list string);
  bd_model_override : option string;
}.

Inductive BindingMatcher :=
| MatchChannel (channel : string)
| MatchUser (user_id : string)
| MatchGroup (channel group_id : string)
| MatchDefault.

Record BindingRule := { br_priority : Z; br_matcher : BindingMatcher; br_binding : Binding }.

(** [BindingRouter::new]: highest priority first, in the given order among
    equal priorities. *)
Definition sort_rules (rules : list BindingRule) : list BindingRule := sort_desc br_priority rules.

Definition matches (m : BindingMatcher) (k : SessionKey) : bool :=
  match m with
  | MatchChannel channel => String.eqb (sk_channel k) channel
  | MatchUser user_id => bool_decide (sk_user_id k = Some user_id)
  | MatchGroup channel group_id => String.eqb (sk_channel k) channel && String.eqb (sk_chat_id k) group_id
  | MatchDefault => true
  end.

(** [BindingRouter::new(rules).resolve(key)]. *)
Definition router_resolve (rules : list BindingRule) (k : SessionKey) : option Binding :=
  br_binding <$> find_first (fun r => matches (br_matcher r) k) (sort_rules rules).

(** The best match: the highest priority, the earliest of equal ones. *)
Definition best_match (k : SessionKey) (rules : list BindingRule) : option BindingRule :=
  best br_priority (fun r => matches (br_matcher r) k) rules.

(** A session key is bound by the matching rule of highest priority, and
    by the first listed of those of equal priority; it has no binding exactly
    when no rule matches. *)
Theorem binding_priority rules k :
  router_resolve rules k = br_binding <$> best_match k rules /\
  match best_match k rules with
  | Some r => r ∈ rules /\ matches (br_matcher r) k = true /\
      forall r', r' ∈ rules -> matches (br_matcher r') k = true ->
        (br_priority r' <= br_priority r)%Z
  | None => Forall (fun r => matches (br_matcher r) k = false) rules
  end.
Proof.
  split; [unfold router_resolve, sort_rules; by rewrite find_first_sort_desc|].
  apply (best_spec br_priority (fun r => matches (br_matcher r) k)).
Qed.

(** * Channel access *)

Record ChannelPolicy := {
  cp_allowlist : option (gset string);
  cp_blocklist : option (gset string);
  cp_require_mention : bool;
  cp_model_override : option string;
}.

Definition ChannelPolicy_default : ChannelPolicy := {|
  cp_allowlist := None; cp_blocklist := None; cp_require_mention := false;
  cp_model_override := None |}.

Definition policy_allows (p : ChannelPolicy) (sender : string) : bool :=
  if match cp_blocklist p with Some b => bool_decide (sender ∈ b) | None => false end then false
  else match cp_allowlist p with Some a => bool_decide (sender ∈ a) | None => true end.

Record ChannelAccessManager := {
  ca_policies : gmap string ChannelPolicy;
  ca_default : ChannelPolicy;
}.

Definition access_new : ChannelAccessManager :=
  {| ca_policies := ∅; ca_default := ChannelPolicy_default |}.

Definition set_policy (channel : string) (p : ChannelPolicy) (m : ChannelAccessManager)
  : ChannelAccessManager :=
  {| ca_policies := <[channel := p]> (ca_policies m); ca_default := ca_default m |}.

Definition set_default_policy (p : ChannelPolicy) (m : ChannelAccessManager)
  : ChannelAccessManager := {| ca_policies := ca_policies m; ca_default := p |}.

Definition check_access (m : ChannelAccessManager) (channel sender : string) : bool :=
  policy_allows (default (ca_default m) (ca_policies m !! channel)) sender.

Definition get_model_override (m : ChannelAccessManager) (channel : string) : option string :=
  ca_policies m !! channel ≫= cp_model_override.

Definition requires_mention (m : ChannelAccessManager) (channel : string) : bool :=
  match ca_policies m !! channel with
  | Some p => cp_require_mention p
  | None => cp_require_mention (ca_default m)
  end.

(** * Rate limiting

    Times are [Instant]s in one unit with the window; addresses are texts. *)
Section RateLimit.
Context (is_loopback : string -> bool) (max_requests : nat) (window : Z).

Abbreviation windows := (gmap string (list Z)).

Definition live (now t : Z) : bool := (now - window <? t)%Z.

(** [RateLimitService::call] for a request from [ip] ([None] when the
    connection has no address): whether it is forwarded. *)
Definition rate_call (ip : option string) (now : Z) (w : windows) : bool * windows :=
  match ip with
  | None => (true, w)
  | Some ip =>
      if is_loopback ip then (true, w)
      else
        let entries := retain (live now) (default [] (w !! ip)) in
        if max_requests <=? length entries then (false, <[ip := entries]> w)
        else
          let w := <[ip := entries ++ [now]]> w in
          (true, if (10000 <? Z.of_nat (size w))%Z then filter (fun kv => kv.2 <> []) w else w)
  end.

(** The requests of a sequence, with whether each was forwarded. *)
Fixpoint rate_run (reqs : list (option string * Z)) (w : windows)
  : list (option string * Z * bool) :=
  match reqs with
  | [] => []
  | (ip, now) :: rs =>
      let '(ok, w') := rate_call ip now w in (ip, now, ok) :: rate_run rs w'
  end.

(** The times of the forwarded requests of [ip], after [since]. *)
Definition forwarded (ip : string) (since : Z) (log : list (option string * Z * bool)) : list Z :=
  omap (fun '(i, t, ok) =>
          if ok && bool_decide (i = Some ip) && (since <? t)%Z then Some t else None) log.
End RateLimit.

Section RateLimit_correct.
Context (is_loopback : string -> bool) (max_requests : nat) (window : Z).

(** The reference decides from the whole log: a request is forwarded when it
    has no address, comes from the loopback, or fewer than [max_requests] of
    its address were forwarded within the window before it. *)
Definition ref_ok (log : list (option string * Z * bool)) (ip : option string) (now : Z) : bool :=
  match ip with
  | None => true
  | Some i => is_loopback i || (length (forwarded i (now - window) log) <? max_requests)
  end.

Fixpoint rate_ref (reqs : list (option string * Z)) (log : list (option string * Z * bool))
  : list (option string * Z * bool) :=
  match reqs with
  | [] => []
  | (ip, now) :: rs =>
      (ip, now, ref_ok log ip now) :: rate_ref rs (log ++ [(ip, now, ref_ok log ip now)])
  end.

Fixpoint ordered (t : Z) (reqs : list (option string * Z)) : Prop :=
  match reqs with [] => True | (_, now) :: rs => (t <= now)%Z /\ ordered now rs end.

Lemma forwarded_snoc ip since log i t ok :
  forwarded ip since (log ++ [(i, t, ok)])
  = forwarded ip since log ++ (if ok && bool_decide (i = Some ip) && (since <? t)%Z then [t] else []).
Proof using. unfold forwarded. rewrite omap_app. simpl. by destruct (_ && _). Qed.

Lemma retain_live_twice now now' l :
  (now <= now')%Z ->
  retain (live window now') (retain (live window now) l) = retain (live window now') l.
Proof using.
  intros Hle. unfold retain. induction l as [|x l IH]; simpl; [done|].
  destruct (live window now x) eqn:E; simpl; [by rewrite IH|].
  unfold live in *. boolean. rewrite (proj2 (Z.ltb_ge _ _)) by lia. exact IH.
Qed.

(** The map agrees with the log from time [t] on. *)
Definition tracks (t : Z) (w : gmap string (list Z)) (log : list (option string * Z * bool)) : Prop :=
  forall ip now, (t <= now)%Z -> is_loopback ip = false ->
    retain (live window now) (default [] (w !! ip)) = forwarded ip (now - window) log.

Lemma prune_default (w : gmap string (list Z)) ip :
  default [] (filter (fun kv => kv.2 <> []) w !! ip) = default [] (w !! ip).
Proof using.
  destruct (w !! ip) as [l|] eqn:E; [destruct (decide (l = [])) as [->|Hne]|].
  - rewrite (proj2 (map_lookup_filter_None _ w ip)); [done|].
    right. intros x Hx Hn. apply Hn. simpl. congruence.
  - by rewrite (proj2 (map_lookup_filter_Some _ w ip l)).
  - rewrite (proj2 (map_lookup_filter_None _ w ip)); [done | by left].
Qed.

Lemma tracks_step t w log ip now :
  (t <= now)%Z -> tracks t w log ->
  let '(ok, w') := rate_call is_loopback max_requests window ip now w in
  ok = ref_ok log ip now /\ tracks now w' (log ++ [(ip, now, ok)]).
Proof using.
  intros Hle Ht.
  assert (Hskip : forall i ok, (forall j, i = Some j -> ok = true -> is_loopback j = true) ->
            tracks now w (log ++ [(i, now, ok)])).
  { intros i ok Hi j now' Hn Hl. rewrite forwarded_snoc, (Ht j now') by (done || lia).
    destruct ok; simpl; [|by rewrite app_nil_r].
    destruct (bool_decide (i = Some j)) eqn:E; simpl; [|by rewrite app_nil_r].
    boolean. rewrite (Hi j E eq_refl) in Hl. done. }
  destruct ip as [ip|]; simpl; [|split; [done | by apply Hskip]].
  destruct (is_loopback ip) eqn:El; simpl.
  { split; [done|]. apply Hskip. intros j [= <-]. done. }
  rewrite (Ht ip now) by (done || lia).
  pose proof (retain_live_twice now) as Hrr. specialize (Ht) as Ht'.
  set (entries := forwarded ip (now - window) log) in *.
  assert (He : forall now', (now <= now')%Z ->
            retain (live window now') entries = forwarded ip (now' - window) log).
  { intros now' Hn. subst entries. rewrite <- (Ht ip now) by (done || lia).
    rewrite Hrr by done. apply Ht; [lia | done]. }
  destruct (max_requests <=? length entries) eqn:Em.
  - split; [symmetry; apply Nat.ltb_ge; by apply Nat.leb_le|].
    intros j now' Hn Hl. rewrite forwarded_snoc. simpl. rewrite app_nil_r.
    destruct (decide (j = ip)) as [->|Hj]; [rewrite lookup_insert_eq; by apply He|].
    rewrite lookup_insert_ne by done. apply Ht; [lia | done].
  - split; [symmetry; apply Nat.ltb_lt; by apply Nat.leb_gt|].
    intros j now' Hn Hl.
    assert (Hd : default [] ((if (10000 <? Z.of_nat (size (<[ip := entries ++ [now]]> w)))%Z
              then filter (fun kv => kv.2 <> []) (<[ip := entries ++ [now]]> w)
              else <[ip := entries ++ [now]]> w) !! j)
            = default [] (<[ip := entries ++ [now]]> w !! j)).
    { destruct (_ <? _)%Z; [apply prune_default | done]. }
    rewrite Hd, forwarded_snoc. destruct (decide (j = ip)) as [->|Hj].
    + rewrite lookup_insert_eq, bool_decide_eq_true_2 by done. simpl.
      unfold retain. rewrite List.filter_app. fold (retain (live window now') entries).
      rewrite He by done. simpl. fold (live window now' now). by destruct (live window now' now).
    + rewrite lookup_insert_ne, bool_decide_eq_false_2 by congruence. simpl. rewrite app_nil_r.
      apply Ht; [lia | done].
Qed.
End RateLimit_correct.

(** For requests in time order the limiter decides like the reference
    that remembers every request: a request is forwarded exactly when fewer
    than [max_requests] of its address were forwarded within the window before
    it (or it has no address, or comes from the loopback). *)
Theorem rate_limit_window is_loopback max_requests window reqs :
  ordered 0 reqs ->
  rate_run is_loopback max_requests window reqs ∅
  = rate_ref is_loopback max_requests window reqs [].
Proof.
  intros Ho. assert (Ht : tracks is_loopback window 0 ∅ []) by (intros ip now _ _; by rewrite lookup_empty).
  revert Ho Ht. generalize (∅ : gmap string (list Z)) as w, (@nil (option string * Z * bool)) as log, 0%Z as t.
  induction reqs as [|[ip now] rs IH]; intros w log t; simpl; [done|].
  intros [Hle Ho] Ht. pose proof (tracks_step is_loopback max_requests window t w log ip now Hle Ht) as Hs.
  destruct (rate_call _ _ _ _ _ _) as [ok w']. destruct Hs as [-> Ht']. f_equal. by apply (IH _ _ now).
Qed.

Lemma rate_limit_window_witness :
  let reqs := [(Some "a", 1%Z); (Some "a", 2%Z); (Some "a", 3%Z); (Some "a", 12%Z)] in
  ordered 0 reqs /\
  rate_run (fun _ => false) 2 10 reqs ∅
  = [(Some "a", 1%Z, true); (Some "a", 2%Z, true); (Some "a", 3%Z, false); (Some "a", 12%Z, true)].
Proof.
  cbn zeta. split; [simpl; lia|].
  rewrite (rate_limit_window (fun _ => false) 2 10
             [(Some "a", 1%Z); (Some "a", 2%Z); (Some "a", 3%Z); (Some "a", 12%Z)]).
  - vm_compute. reflexivity.
  - simpl. lia.
Defined.

(** No entry of the map is ever empty when requests are allowed at all, so the
    periodic pruning removes nothing: addresses are kept for ever. *)
Theorem pruning_keeps_stale_addresses is_loopback max_requests window ip now w :
  0 < max_requests -> map_Forall (fun _ l => l <> []) w ->
  let w' := (rate_call is_loopback max_requests window ip now w).2 in
  map_Forall (fun _ l => l <> []) w' /\ dom w ⊆ dom w'.
Proof.
  intros Hm Hw. unfold rate_call. destruct ip as [ip|]; [|done].
  destruct (is_loopback ip); [done|].
  set (entries := retain _ _). destruct (max_requests <=? length entries) eqn:E; boolean; simpl.
  - split; [apply map_Forall_insert_2; [|done]; intros He; rewrite He in E; simpl in E; lia | set_solver].
  - assert (Hw' : map_Forall (fun _ l => l <> []) (<[ip := entries ++ [now]]> w)).
    { apply map_Forall_insert_2; [by destruct entries | done]. }
    assert (Hf : filter (fun kv : string * list Z => kv.2 <> []) (<[ip := entries ++ [now]]> w)
                 = <[ip := entries ++ [now]]> w).
    { apply map_filter_id. intros i x Hi. by apply (Hw' i). }
    rewrite Hf. destruct (_ <? _)%Z; (split; [done | set_solver]).
Qed.
