(* ===== verification/Locks.v ===== *)
(** Lock usage.  The managers of [crates/security-core] keep each part of their
    state behind its own [tokio::sync::RwLock]; what an operation does to the
    locks is a list of acquisitions and releases.  This file holds the
    interleaving of such tasks and the lock-order theorem the managers use.  An
    acquisition waits for conflicting holders; that tokio also queues it behind
    earlier waiters can only add waiting and is left out. *)

From S2P Require Import Prelude.
#[local] Open Scope nat_scope.
#[local] Open Scope list_scope.

Inductive mode := Shared | Exclusive.

Definition conflicts (m m' : mode) : bool :=
  match m, m' with Shared, Shared => false | _, _ => true end.

Section Locks.
Context {L : Type} `{EqDecision L}.

Inductive action := Acquire (l : L) (m : mode) | Release (l : L).
Record task := { held : list (L * mode); todo : list action }.

Definition start (p : list action) : task := {| held := []; todo := p |}.

Definition blocks (l : L) (m : mode) (t : task) : bool :=
  existsb (fun h => bool_decide (h.1 = l) && conflicts h.2 m) (held t).

(** One step of task [i]; [None] when it waits or is done. *)
Definition run_task (ts : list task) (i : nat) : option (list task) :=
  t ← ts !! i;
  match todo t with
  | [] => None
  | Acquire l m :: rest =>
      if existsb (blocks l m) ts then None
      else Some (<[i := {| held := (l, m) :: held t; todo := rest |}]> ts)
  | Release l :: rest =>
      Some (<[i := {| held := retain (fun h => negb (bool_decide (h.1 = l))) (held t);
                      todo := rest |}]> ts)
  end.

Inductive lock_step (ts ts' : list task) : Prop :=
| lock_step_at i : run_task ts i = Some ts' -> lock_step ts ts'.

Definition deadlocked (ts : list task) : Prop :=
  (exists t, t ∈ ts /\ todo t <> []) /\ forall i, run_task ts i = None.

(** A schedule: the tasks to step, in turn. *)
Fixpoint run_schedule (sched : list nat) (ts : list task) : option (list task) :=
  match sched with
  | [] => Some ts
  | i :: sched' => ts' ← run_task ts i; run_schedule sched' ts'
  end.

Definition deadlocked_bool (ts : list task) : bool :=
  existsb (fun t => match todo t with [] => false | _ => true end) ts &&
  forallb (fun i => match run_task ts i with None => true | _ => false end) (seq 0 (length ts)).

(** Every lock is acquired above those held, and all are released. *)
Fixpoint ordered (rank : L -> nat) (hs : list (L * mode)) (p : list action) : bool :=
  match p with
  | [] => match hs with [] => true | _ => false end
  | Acquire l m :: p' =>
      forallb (fun h => rank h.1 <? rank l) hs && ordered rank ((l, m) :: hs) p'
  | Release l :: p' =>
      ordered rank (retain (fun h => negb (bool_decide (h.1 = l))) hs) p'
  end.
End Locks.
Arguments action L : clear implicits.
Arguments task L : clear implicits.

Section LockOrder.
Context {L : Type} `{EqDecision L} (rank : L -> nat).

Definition task_ordered (t : task L) : Prop := ordered rank (held t) (todo t) = true.

Lemma run_task_ordered ts i ts' :
  Forall task_ordered ts -> run_task ts i = Some ts' -> Forall task_ordered ts'.
Proof.
  intros Hall Hrun. unfold run_task in Hrun. apply bind_Some in Hrun as (t & Ht & Hrun).
  assert (Hto : task_ordered t) by (eapply Forall_lookup_1; eauto).
  unfold task_ordered in Hto. destruct (todo t) as [|[l m|l] rest]; [done| |]; cbn in Hto.
  - boolean. destruct (existsb _ _); [done|]. simplify_eq. by apply Forall_insert.
  - simplify_eq. by apply Forall_insert.
Qed.

(** The rank of the lock a task waits for. *)
Definition wants (t : task L) : option nat :=
  match todo t with Acquire l _ :: _ => Some (rank l) | _ => None end.

Lemma wants_bound (ts : list (task L)) : exists b, forall t k, t ∈ ts -> wants t = Some k -> k < b.
Proof.
  induction ts as [|t ts (b & Hb)]; [exists 0; by intros ? ? ?%elem_of_nil|].
  exists (S (b + default 0 (wants t))). intros t' k [->|Hin]%elem_of_cons Hk.
  - rewrite Hk. cbn. lia.
  - specialize (Hb t' k Hin Hk). lia.
Qed.

(** A task that cannot step waits for one that wants a higher lock. *)
Lemma waits_for_higher ts t :
  Forall task_ordered ts -> (forall i, run_task ts i = None) ->
  t ∈ ts -> todo t <> [] ->
  exists t' k k', t' ∈ ts /\ todo t' <> [] /\ wants t = Some k /\ wants t' = Some k' /\ k < k'.
Proof.
  intros Hall Hstuck Hin Htodo.
  assert (Hblocked : forall u, u ∈ ts -> todo u <> [] -> exists l m rest,
            todo u = Acquire l m :: rest /\ existsb (blocks l m) ts = true).
  { intros u Hu Hne. apply list_elem_of_lookup in Hu as [i Hi]. specialize (Hstuck i).
    unfold run_task in Hstuck. rewrite Hi in Hstuck. cbn in Hstuck.
    destruct (todo u) as [|[l m|l] rest]; [done | | done].
    exists l, m, rest. split; [done|]. by destruct (existsb _ _). }
  destruct (Hblocked t Hin Htodo) as (l & m & rest & Ht & Hb).
  apply existsb_exists in Hb as (t' & Hin'%list_elem_of_In & Hb').
  unfold blocks in Hb'. apply existsb_exists in Hb' as ((l0 & m0) & Hheld & Hl).
  cbn in Hl. boolean. subst l0.
  rewrite Forall_forall in Hall. pose proof (Hall t' Hin') as Hord. unfold task_ordered in Hord.
  assert (Hne : todo t' <> []).
  { intros E. rewrite E in Hord. revert Hord Hheld. cbn. by destruct (held t'). }
  destruct (Hblocked t' Hin' Hne) as (l' & m' & rest' & Ht' & _).
  exists t', (rank l), (rank l'). unfold wants. rewrite Ht, Ht'. split_and!; try done.
  rewrite Ht' in Hord. cbn in Hord. boolean.
  match goal with H : forallb _ _ = true |- _ => rewrite forallb_forall in H;
    specialize (H _ Hheld); cbn [fst] in H end. apply Nat.ltb_lt; assumption.
Qed.

Lemma ordered_not_deadlocked ts : Forall task_ordered ts -> ~ deadlocked ts.
Proof.
  intros Hall [(t & Hin & Htodo) Hstuck].
  assert (Hclimb : forall n, exists t k, t ∈ ts /\ todo t <> [] /\ wants t = Some k /\ n <= k).
  { induction n as [|n (u & k & Hu & Hne & Hk & Hle)].
    - destruct (waits_for_higher ts t Hall Hstuck Hin Htodo) as (? & k & ? & _ & _ & ? & _ & _).
      exists t, k. split_and!; [done | done | done | lia].
    - destruct (waits_for_higher ts u Hall Hstuck Hu Hne) as (u' & k0 & k' & ? & ? & ? & ? & ?).
      exists u', k'. simplify_eq. split_and!; [done | done | done | lia]. }
  destruct (wants_bound ts) as [b Hb]. destruct (Hclimb b) as (u & k & Hu & _ & Hk & Hle).
  specialize (Hb u k Hu Hk). lia.
Qed.

(** Tasks that all acquire in one order and release everything never
    deadlock. *)
Lemma lock_order ps ts :
  Forall (fun p => ordered rank [] p = true) ps ->
  rtc lock_step (start <$> ps) ts -> ~ deadlocked ts.
Proof.
  intros Hps Hrtc. apply ordered_not_deadlocked.
  assert (Hstart : Forall task_ordered (start <$> ps)) by (by apply Forall_fmap).
  induction Hrtc as [|ts1 ts2 ts3 [i Hi] _ IH]; [done|]. by eapply IH, run_task_ordered.
Qed.
End LockOrder.

Section Schedules.
Context {L : Type} `{EqDecision L}.

Lemma run_schedule_rtc sched (ts ts' : list (task L)) :
  run_schedule sched ts = Some ts' -> rtc lock_step ts ts'.
Proof.
  revert ts. induction sched as [|i sched IH]; intros ts H; cbn in H; [by simplify_eq|].
  apply bind_Some in H as (ts1 & H1 & H2). eapply rtc_l; [by exists i | by apply IH].
Qed.

Lemma deadlocked_bool_sound (ts : list (task L)) : deadlocked_bool ts = true -> deadlocked ts.
Proof.
  unfold deadlocked_bool. intros [He Hf]%andb_true_iff.
  apply existsb_exists in He as (t & Hin & Ht). rewrite forallb_forall in Hf. split.
  - exists t. split; [by apply list_elem_of_In | by destruct (todo t)].
  - intros i. destruct (decide (i < length ts)) as [Hlt|Hge].
    + assert (Hi : In i (seq 0 (length ts))) by (apply in_seq; lia).
      specialize (Hf i Hi). by destruct (run_task ts i).
    + unfold run_task. by rewrite (proj2 (lookup_ge_None ts i)) by lia.
Qed.
End Schedules.
