(* ===== verification/DevicePairing.v ===== *)
(** Device pairing ([crates/security-core/src/device_pairing.rs]): pairing
    codes, device tokens and their index, the device file, and the locks each
    operation takes.  Times are the [i64] seconds of the system clock; the random
    number, the UUID, the token and the outcome of a write are arguments.  The
    device file is what [serde_json] reads back: the devices written, or an error. *)

From S2P Require Import Prelude RustStr Locks.
#[local] Open Scope string_scope.
#[local] Open Scope nat_scope.
#[local] Open Scope list_scope.

Definition CODE_EXPIRY_SECS : Z := 300.

Record PendingCode := {
  pc_code : string;
  pc_device_name : option string;
  pc_created_at : Z;
  pc_expires_at : Z;
}.

Record PairedDevice := {
  dv_device_id : string;
  dv_device_name : string;
  dv_token : string;
  dv_paired_at : Z;
  dv_last_seen : option Z;
}.

Inductive DevicePairingError := InvalidCode | CodeExpired | DeviceNotFound.

Record DeviceManager := {
  dm_pending : gmap string PendingCode;
  dm_devices : list PairedDevice;
  dm_token_index : gmap string nat;
  dm_persist : bool;
  (** The device file; [None] when there is none. *)
  dm_file : option (result (list PairedDevice) string);
}.

Definition manager_new (persist : bool) (file : option (result (list PairedDevice) string))
  : DeviceManager := {|
  dm_pending := ∅; dm_devices := []; dm_token_index := ∅; dm_persist := persist; dm_file := file |}.

Definition set_pending (p : gmap string PendingCode) (m : DeviceManager) : DeviceManager := {|
  dm_pending := p; dm_devices := dm_devices m; dm_token_index := dm_token_index m;
  dm_persist := dm_persist m; dm_file := dm_file m |}.
Definition set_devices (ds : list PairedDevice) (ix : gmap string nat) (m : DeviceManager)
  : DeviceManager := {|
  dm_pending := dm_pending m; dm_devices := ds; dm_token_index := ix;
  dm_persist := dm_persist m; dm_file := dm_file m |}.
Definition set_file (f : option (result (list PairedDevice) string)) (m : DeviceManager)
  : DeviceManager := {|
  dm_pending := dm_pending m; dm_devices := dm_devices m; dm_token_index := dm_token_index m;
  dm_persist := dm_persist m; dm_file := f |}.

(** [for (i, d) in devices.iter().enumerate() { index.insert(d.token.clone(), i) }] *)
Definition rebuild_index (ds : list PairedDevice) : gmap string nat :=
  foldl (fun ix td => <[td.2 := td.1]> ix) ∅ (imap (fun i d => (i, dv_token d)) ds).

(** * Operations

    Each definition below is one critical section: the locks it takes are held
    to its end. *)

Definition load (m : DeviceManager) : result unit string * DeviceManager :=
  if negb (dm_persist m) then (Ok tt, m)
  else match dm_file m with
       | None => (Ok tt, m)
       | Some (Err e) => (Err e, m)
       | Some (Ok ds) => (Ok tt, set_devices ds (rebuild_index ds) m)
       end.

(** [write] is the outcome of the file operations. *)
Definition save (write : result unit string) (m : DeviceManager) : result unit string * DeviceManager :=
  if negb (dm_persist m) then (Ok tt, m)
  else match write with
       | Ok tt => (Ok tt, set_file (Some (Ok (dm_devices m))) m)
       | Err e => (Err e, m)
       end.

(** [format!("{:06}", n)] for the random [n] below a million. *)
Definition random_code (n : N) : string :=
  let s := pretty n in str_repeat "0" (6 - len s) +:+ s.

Definition generate_code (device_name : option string) (n : N) (now : Z) (m : DeviceManager)
  : string * DeviceManager :=
  let code := random_code n in
  (code, set_pending (<[code := {| pc_code := code; pc_device_name := device_name;
                                   pc_created_at := now;
                                   pc_expires_at := (now + CODE_EXPIRY_SECS)%Z |}]>
                      (dm_pending m)) m).

(** The first section of [verify_code]: the code is consumed, valid or not. *)
Definition take_code (now : Z) (code device_id token : string) (m : DeviceManager)
  : result PairedDevice DevicePairingError * DeviceManager :=
  match dm_pending m !! code with
  | None => (Err InvalidCode, m)
  | Some pending =>
      let m := set_pending (delete code (dm_pending m)) m in
      if (pc_expires_at pending <? now)%Z then (Err CodeExpired, m)
      else (Ok {| dv_device_id := device_id;
                  dv_device_name := default "Unknown Device" (pc_device_name pending);
                  dv_token := token; dv_paired_at := now; dv_last_seen := Some now |}, m)
  end.

(** Its second section. *)
Definition push_device (d : PairedDevice) (m : DeviceManager) : DeviceManager :=
  set_devices (dm_devices m ++ [d])
    (<[dv_token d := length (dm_devices m)]> (dm_token_index m)) m.

Definition verify_code (now : Z) (code device_id token : string) (write : result unit string)
    (m : DeviceManager) : result PairedDevice DevicePairingError * DeviceManager :=
  match take_code now code device_id token m with
  | (Ok d, m) => (Ok d, (save write (push_device d m)).2)
  | (Err e, m) => (Err e, m)
  end.

Definition validate_token (token : string) (m : DeviceManager) : option string :=
  idx ← dm_token_index m !! token; dv_device_id <$> dm_devices m !! idx.

(** [touch] reads the index in one section and writes the device in another. *)
Definition touch_find (token : string) (m : DeviceManager) : option nat := dm_token_index m !! token.

Definition see (now : Z) (d : PairedDevice) : PairedDevice := {|
  dv_device_id := dv_device_id d; dv_device_name := dv_device_name d; dv_token := dv_token d;
  dv_paired_at := dv_paired_at d; dv_last_seen := Some now |}.

Definition touch_at (now : Z) (idx : nat) (m : DeviceManager) : DeviceManager :=
  set_devices (alter (see now) idx (dm_devices m)) (dm_token_index m) m.

Definition touch (now : Z) (token : string) (m : DeviceManager) : DeviceManager :=
  match touch_find token m with Some idx => touch_at now idx m | None => m end.

(** The section of [revoke_device] before the save. *)
Definition remove_device (device_id : string) (m : DeviceManager)
  : result unit DevicePairingError * DeviceManager :=
  match position (fun d => String.eqb (dv_device_id d) device_id) (dm_devices m) with
  | None => (Err DeviceNotFound, m)
  | Some pos => let ds := delete pos (dm_devices m) in (Ok tt, set_devices ds (rebuild_index ds) m)
  end.

Definition revoke_device (device_id : string) (write : result unit string) (m : DeviceManager)
  : result unit DevicePairingError * DeviceManager :=
  match remove_device device_id m with
  | (Ok tt, m) => (Ok tt, (save write m).2)
  | (Err e, m) => (Err e, m)
  end.

Definition cleanup_expired_codes (now : Z) (m : DeviceManager) : DeviceManager :=
  set_pending (filter (fun kv => (now < pc_expires_at kv.2)%Z) (dm_pending m)) m.

(** * Interleaving

    The critical sections of any number of concurrent operations; another
    process may also replace the device file. *)
Inductive section :=
| Load
| Save (write : result unit string)
| Generate (device_name : option string) (n : N) (now : Z)
| TakeCode (now : Z) (code device_id token : string)
| PushDevice (d : PairedDevice)
| TouchAt (now : Z) (idx : nat)
| RemoveDevice (device_id : string)
| Cleanup (now : Z)
| ReplaceFile (f : option (result (list PairedDevice) string)).

Definition do_section (c : section) (m : DeviceManager) : DeviceManager :=
  match c with
  | Load => (load m).2
  | Save write => (save write m).2
  | Generate name n now => (generate_code name n now m).2
  | TakeCode now code id token => (take_code now code id token m).2
  | PushDevice d => push_device d m
  | TouchAt now idx => touch_at now idx m
  | RemoveDevice id => (remove_device id m).2
  | Cleanup now => cleanup_expired_codes now m
  | ReplaceFile f => set_file f m
  end.

Definition do_sections (cs : list section) (m : DeviceManager) : DeviceManager :=
  foldl (fun m c => do_section c m) m cs.

(** * The token index *)

(** The index agrees with the device list. *)
Definition index_ok (m : DeviceManager) : Prop := dm_token_index m = rebuild_index (dm_devices m).

Lemma rebuild_snoc ds d :
  rebuild_index (ds ++ [d]) = <[dv_token d := length ds]> (rebuild_index ds).
Proof.
  unfold rebuild_index. rewrite imap_app, foldl_app. simpl. by rewrite Nat.add_0_r.
Qed.

Lemma rebuild_bound ds t i : rebuild_index ds !! t = Some i -> i < length ds.
Proof.
  induction ds as [|d ds IH] using rev_ind; [done|].
  rewrite rebuild_snoc, length_app. simpl.
  destruct (decide (dv_token d = t)) as [->|Hne].
  - rewrite lookup_insert_eq. intros [= <-]. lia.
  - rewrite lookup_insert_ne by done. intros H. specialize (IH H). lia.
Qed.

(** The index finds the last device with the token. *)
Lemma rebuild_lookup ds t :
  (rebuild_index ds !! t ≫= fun i => ds !! i)
  = find_first (fun d => String.eqb (dv_token d) t) (rev ds).
Proof.
  induction ds as [|d ds IH] using rev_ind; [done|].
  rewrite rebuild_snoc, rev_app_distr. simpl.
  destruct (String.eqb_spec (dv_token d) t) as [->|Hne].
  - rewrite lookup_insert_eq. simpl. by rewrite lookup_app_r, Nat.sub_diag by lia.
  - rewrite lookup_insert_ne by done. rewrite <- IH.
    destruct (rebuild_index ds !! t) as [i|] eqn:E; simpl; [|done].
    apply rebuild_bound in E. by rewrite lookup_app_l.
Qed.

Lemma rebuild_tokens ds ds' :
  dv_token <$> ds = dv_token <$> ds' -> rebuild_index ds = rebuild_index ds'.
Proof.
  intros H. unfold rebuild_index. f_equal. revert ds' H.
  assert (Hg : forall k ds ds', dv_token <$> ds = dv_token <$> ds' ->
            imap (fun i d => (k + i, dv_token d)) ds = imap (fun i d => (k + i, dv_token d)) ds').
  { intros k l. revert k. induction l as [|d l IH]; intros k [|d' l']; simpl; intros [=]; [done|].
    f_equal; [by f_equal|].
    pose proof (IH (S k) l' ltac:(done)) as Hi.
    transitivity (imap (fun i d => (S k + i, dv_token d)) l); [apply imap_ext; intros; simpl; f_equal; lia|].
    rewrite Hi. apply imap_ext. intros. simpl. f_equal. lia. }
  intros ds' H. apply (Hg 0 ds ds' H).
Qed.

Lemma touch_tokens now (idx : nat) (ds : list PairedDevice) : dv_token <$> alter (see now) idx ds = dv_token <$> ds.
Proof. revert idx. induction ds as [|d ds IH]; intros [|idx]; simpl; [done..|]. f_equal. apply IH. Qed.

Lemma section_index_ok c m : index_ok m -> index_ok (do_section c m).
Proof.
  unfold index_ok. intros Hm. destruct c; cbn [do_section].
  - unfold load. destruct (negb _); [done|]. by destruct (dm_file m) as [[]|].
  - unfold save. destruct (negb _); [done|]. by destruct write as [[]|].
  - done.
  - unfold take_code. destruct (dm_pending m !! code); [|done]. by destruct (_ <? _)%Z.
  - unfold push_device, set_devices. cbn [dm_token_index dm_devices]. by rewrite rebuild_snoc, Hm.
  - unfold touch_at, set_devices. cbn [dm_token_index dm_devices]. rewrite Hm. apply rebuild_tokens.
    symmetry. apply touch_tokens.
  - unfold remove_device. destruct (position _ _); done.
  - done.
  - done.
Qed.

Lemma sections_index_ok cs m : index_ok m -> index_ok (do_sections cs m).
Proof. revert m. induction cs as [|c cs IH]; intros m Hm; [done|]. by apply IH, section_index_ok. Qed.

Lemma validate_last m t :
  index_ok m ->
  validate_token t m
  = dv_device_id <$> find_first (fun d => String.eqb (dv_token d) t) (rev (dm_devices m)).
Proof.
  intros Hm. rewrite <- rebuild_lookup, <- Hm. unfold validate_token.
  by destruct (dm_token_index m !! t).
Qed.

Lemma token_unique (ds : list PairedDevice) d d' :
  NoDup (dv_token <$> ds) -> d ∈ ds -> d' ∈ ds -> dv_token d = dv_token d' -> d = d'.
Proof.
  intros Hnd [i Hi]%list_elem_of_lookup [j Hj]%list_elem_of_lookup Ht.
  assert (i = j) as ->; [|congruence].
  eapply (NoDup_lookup _ i j (dv_token d) Hnd); rewrite list_lookup_fmap; [by rewrite Hi|].
  rewrite Hj. simpl. by rewrite Ht.
Qed.

Lemma validate_member m d :
  index_ok m -> NoDup (dv_token <$> dm_devices m) -> d ∈ dm_devices m ->
  validate_token (dv_token d) m = Some (dv_device_id d).
Proof.
  intros Hm Hnd Hin. rewrite validate_last by done.
  destruct (find_first_is_Some (fun d' => String.eqb (dv_token d') (dv_token d))
              (rev (dm_devices m)) d) as [d' E].
  - rewrite list_elem_of_In, <- in_rev. by apply list_elem_of_In.
  - apply String.eqb_refl.
  - rewrite E. apply find_first_Some in E as [Hin' Ht]. boolean.
    rewrite list_elem_of_In, <- in_rev in Hin'. apply list_elem_of_In in Hin'.
    simpl. f_equal. f_equal. by eapply token_unique.
Qed.

Lemma validate_absent m t :
  index_ok m -> t ∉ dv_token <$> dm_devices m -> validate_token t m = None.
Proof.
  intros Hm Hout. rewrite validate_last by done.
  rewrite (proj2 (find_first_None _ _)); [done|]. apply Forall_forall. intros d Hd.
  rewrite list_elem_of_In, <- in_rev in Hd. apply list_elem_of_In in Hd.
  apply String.eqb_neq. intros <-. apply Hout. by apply list_elem_of_fmap_2.
Qed.

(** Saving touches neither devices nor index. *)
Lemma save_keeps write m :
  dm_devices (save write m).2 = dm_devices m /\ dm_token_index (save write m).2 = dm_token_index m.
Proof. unfold save. destruct (negb _); [done|]. by destruct write as [[]|]. Qed.

Lemma position_delete_id (ds : list PairedDevice) d :
  NoDup (dv_device_id <$> ds) -> d ∈ ds ->
  exists pos, position (fun d' => String.eqb (dv_device_id d') (dv_device_id d)) ds = Some pos /\
    ds !! pos = Some d.
Proof.
  intros Hnd Hin. destruct (position _ ds) as [pos|] eqn:E.
  - exists pos. split; [done|]. apply position_Some in E as (d' & Hd' & Hid). boolean.
    apply list_elem_of_lookup in Hin as [j Hj].
    assert (pos = j) as ->; [|done].
    eapply (NoDup_lookup _ pos j (dv_device_id d) Hnd); rewrite list_lookup_fmap;
      [by rewrite Hd'; simpl; f_equal | by rewrite Hj].
  - apply position_None in E. apply find_first_None in E. rewrite Forall_forall in E.
    specialize (E d Hin). by rewrite String.eqb_refl in E.
Qed.

Lemma revoke_spec m d write :
  index_ok m -> NoDup (dv_token <$> dm_devices m) -> NoDup (dv_device_id <$> dm_devices m) ->
  d ∈ dm_devices m ->
  let m' := (revoke_device (dv_device_id d) write m).2 in
  validate_token (dv_token d) m' = None /\
  forall d', d' ∈ dm_devices m -> d' <> d -> validate_token (dv_token d') m' = Some (dv_device_id d').
Proof.
  intros Hm Ht Hid Hin m'.
  destruct (position_delete_id _ d Hid Hin) as (pos & Hpos & Hlk).
  set (ds := delete pos (dm_devices m)).
  assert (Hperm : dm_devices m ≡ₚ d :: ds) by (by apply delete_Permutation).
  assert (Hm' : dm_devices m' = ds /\ index_ok m').
  { unfold m', revoke_device, remove_device, index_ok. rewrite Hpos.
    destruct (save_keeps write (set_devices ds (rebuild_index ds) m)) as [Hd Hi].
    fold ds. cbn [snd]. by rewrite Hd, Hi. }
  destruct Hm' as [Hds Hok]. rewrite Hperm, fmap_cons, NoDup_cons in Ht. destruct Ht as [Hnew Ht].
  split; [apply validate_absent; by rewrite ?Hds|].
  intros d' Hin' Hne. apply validate_member; rewrite ?Hds; try done.
  rewrite Hperm, elem_of_cons in Hin'. by destruct Hin'.
Qed.

(** C36. However the critical sections of concurrent operations interleave,
    and whatever the device file held, a token is accepted exactly when a paired
    device carries it, and names the last such device; and when tokens and
    identifiers are distinct, revoking a device invalidates its token and no
    other. *)
Theorem device_tokens persist file cs :
  let m := do_sections cs (manager_new persist file) in
  (forall t, validate_token t m
     = dv_device_id <$> find_first (fun d => String.eqb (dv_token d) t) (rev (dm_devices m))) /\
  forall d write,
    NoDup (dv_token <$> dm_devices m) -> NoDup (dv_device_id <$> dm_devices m) ->
    d ∈ dm_devices m ->
    let m' := (revoke_device (dv_device_id d) write m).2 in
    validate_token (dv_token d) m' = None /\
    forall d', d' ∈ dm_devices m -> d' <> d ->
      validate_token (dv_token d') m' = Some (dv_device_id d').
Proof.
  intros m. assert (Hm : index_ok m) by (by apply sections_index_ok). split.
  - intros t. by apply validate_last.
  - intros d write Ht Hi Hin. by apply revoke_spec.
Qed.

Lemma device_tokens_witness :
  let a := {| dv_device_id := "1"; dv_device_name := "phone"; dv_token := "dev_a";
              dv_paired_at := 0; dv_last_seen := None |} in
  let b := {| dv_device_id := "2"; dv_device_name := "tablet"; dv_token := "dev_b";
              dv_paired_at := 0; dv_last_seen := None |} in
  let cs := [PushDevice a; ReplaceFile None; PushDevice b; TouchAt 9 0] in
  let m := do_sections cs (manager_new true None) in
  validate_token "dev_b" m = Some "2" /\
  validate_token "dev_a" (revoke_device "1" (Ok tt) m).2 = None.
Proof.
  intros a b cs m. destruct (device_tokens true None cs) as [Hv Hr]. split.
  - refine (eq_trans (Hv "dev_b") _). vm_compute. reflexivity.
  - refine (proj1 (Hr (see 9 a) (Ok tt) _ _ _)).
    + eapply bool_decide_eq_true_1. vm_compute. reflexivity.
    + eapply bool_decide_eq_true_1. vm_compute. reflexivity.
    + apply list_elem_of_here.
Defined.

(** * Pairing codes *)

(** Sections that leave a pending code which expires at [t] alone. *)
Definition leaves_code (code : string) (t : Z) (c : section) : Prop :=
  match c with
  | Generate _ n _ => random_code n <> code
  | TakeCode _ c' _ _ => c' <> code
  | Cleanup now => (now < t)%Z
  | _ => True
  end.

Definition does_not_generate (code : string) (c : section) : Prop :=
  match c with Generate _ n _ => random_code n <> code | _ => True end.

Lemma dm_pending_section c m :
  dm_pending (do_section c m) = dm_pending m \/
  (exists name n now, c = Generate name n now /\ forall code, random_code n <> code ->
     dm_pending (do_section c m) !! code = dm_pending m !! code) \/
  (exists now k id tok, c = TakeCode now k id tok /\
     dm_pending (do_section c m) = delete k (dm_pending m)) \/
  (exists now, c = Cleanup now /\
     dm_pending (do_section c m) = filter (fun kv => (now < pc_expires_at kv.2)%Z) (dm_pending m)).
Proof.
  destruct c as [|w|name n now|now k id tok|d|now i|id|now|f]; cbn [do_section].
  - left. unfold load. destruct (negb _); [done|]. by destruct (dm_file m) as [[]|].
  - left. unfold save. destruct (negb _); [done|]. by destruct w as [[]|].
  - right; left. exists name, n, now. split; [done|]. intros code Hc. cbn. by rewrite lookup_insert_ne.
  - right; right; left. exists now, k, id, tok. split; [done|]. unfold take_code.
    destruct (dm_pending m !! k) eqn:E; [by destruct (_ <? _)%Z|]. cbn. by rewrite delete_id.
  - by left.
  - by left.
  - left. unfold remove_device. by destruct (position _ _).
  - right; right; right. by exists now.
  - by left.
Qed.

Lemma leaves_code_kept code p cs m :
  Forall (leaves_code code (pc_expires_at p)) cs -> dm_pending m !! code = Some p ->
  dm_pending (do_sections cs m) !! code = Some p.
Proof.
  intros Hcs. revert m. induction Hcs as [|c cs Hc _ IH]; intros m Hp; [done|].
  apply IH. destruct (dm_pending_section c m) as [E|[(? & n & ? & -> & E)|[(? & k & ? & ? & -> & E)|(now & -> & E)]]].
  - by rewrite E.
  - by rewrite E.
  - rewrite E, lookup_delete_ne by done. done.
  - rewrite E. by apply map_lookup_filter_Some.
Qed.

Lemma code_stays_absent code cs m :
  Forall (does_not_generate code) cs -> dm_pending m !! code = None ->
  dm_pending (do_sections cs m) !! code = None.
Proof.
  intros Hcs. revert m. induction Hcs as [|c cs Hc _ IH]; intros m Hp; [done|].
  apply IH. destruct (dm_pending_section c m) as [E|[(? & n & ? & -> & E)|[(? & k & ? & ? & -> & E)|(now & -> & E)]]].
  - by rewrite E.
  - by rewrite E.
  - rewrite E. rewrite lookup_delete_None. by right.
  - rewrite E. apply map_lookup_filter_None. by left.
Qed.

Lemma verify_consumes now code id tok w m :
  dm_pending (verify_code now code id tok w m).2 !! code = None.
Proof.
  unfold verify_code, take_code. destruct (dm_pending m !! code) as [p|] eqn:E; [|done].
  destruct (_ <? _)%Z; [apply lookup_delete_eq|]. cbn [snd]. unfold save.
  destruct (negb _); [apply lookup_delete_eq|]. destruct w as [[]|]; apply lookup_delete_eq.
Qed.

Lemma pretty_go_len k n s :
  (n < 10 ^ N.of_nat k)%N -> len (pretty_N_go n s) <= k + len s.
Proof.
  revert n s. induction k as [|k IH]; intros n s Hn.
  - assert (n = 0%N) as -> by (cbn in Hn; lia). by rewrite pretty_N_go_0.
  - destruct (decide (n = 0%N)) as [->|Hne]; [rewrite pretty_N_go_0; lia|].
    rewrite pretty_N_go_step by lia. etransitivity; [apply IH|cbn; lia].
    apply N.Div0.div_lt_upper_bound. rewrite Nat2N.inj_succ, N.pow_succ_r' in Hn. lia.
Qed.

Lemma len_repeat0 n : len (str_repeat "0" n) = n.
Proof. induction n as [|n IH]; [done|]. simpl. by rewrite IH. Qed.

Lemma random_code_len n : (n < 1000000)%N -> len (random_code n) = 6.
Proof.
  intros Hn. unfold random_code. rewrite len_app, len_repeat0.
  assert (Hp : len (pretty n) <= 6); [|lia].
  unfold pretty, pretty_N. destruct (decide (n = 0%N)); [simpl; lia|].
  etransitivity; [by apply (pretty_go_len 6)|]. simpl. lia.
Qed.

(** A pairing code has six digits and, whatever other sections run in
    between (other codes, and clean-ups before the code expires), pairs a device
    under the name it was generated for until 300 seconds have passed and is
    refused as expired after that; either way it is consumed: until it is drawn
    again it is an invalid code. *)
Theorem pairing_code_once name n t0 cs cs' m now id token w now' id' token' w' :
  (n < 1000000)%N ->
  let code := random_code n in
  Forall (leaves_code code (t0 + 300)) cs -> Forall (does_not_generate code) cs' ->
  let used := verify_code now code id token w (do_sections cs (generate_code name n t0 m).2) in
  len code = 6 /\
  used.1 = (if (t0 + 300 <? now)%Z then Err CodeExpired
            else Ok {| dv_device_id := id; dv_device_name := default "Unknown Device" name;
                       dv_token := token; dv_paired_at := now; dv_last_seen := Some now |}) /\
  (verify_code now' code id' token' w' (do_sections cs' used.2)).1 = Err InvalidCode.
Proof.
  intros Hn code Hcs Hcs' used. split; [by apply random_code_len|]. split.
  - unfold used, verify_code, take_code.
    erewrite (leaves_code_kept code {| pc_code := code; pc_device_name := name;
      pc_created_at := t0; pc_expires_at := (t0 + CODE_EXPIRY_SECS)%Z |}); [| done | apply lookup_insert_eq].
    cbn [pc_expires_at pc_device_name]. unfold CODE_EXPIRY_SECS. by destruct (_ <? _)%Z.
  - unfold verify_code at 1. unfold take_code. rewrite code_stays_absent; [done | done |].
    apply verify_consumes.
Qed.

Lemma pairing_code_once_witness :
  let code := random_code 42 in
  let cs := [Cleanup 100; Generate None 43 5] in
  Forall (leaves_code code (0 + 300)) cs /\ Forall (does_not_generate code) [Cleanup 400] /\
  (verify_code 300 code "1" "dev_a" (Ok tt)
     (do_sections cs (generate_code (Some "phone") 42 0 (manager_new false None)).2)).1
  = Ok {| dv_device_id := "1"; dv_device_name := "phone"; dv_token := "dev_a";
          dv_paired_at := 300; dv_last_seen := Some 300%Z |}.
Proof.
  intros code cs.
  assert (Hcs : Forall (leaves_code code (0 + 300)) cs)
    by (constructor; [vm_compute; reflexivity|]; constructor; [vm_compute; discriminate | constructor]).
  assert (Hcs' : Forall (does_not_generate code) [Cleanup 400]) by (repeat constructor).
  split; [exact Hcs|]. split; [exact Hcs'|].
  exact (proj1 (proj2 (pairing_code_once (Some "phone") 42 0 cs [Cleanup 400] (manager_new false None)
    300 "1" "dev_a" (Ok tt) 400 "2" "dev_b" (Ok tt) eq_refl Hcs Hcs'))).
Defined.

(** A clean-up at the very second a code expires drops it although it would
    still be accepted; and drawing a number again replaces the pending code. *)
Lemma cleanup_drops_valid_code :
  let m := (generate_code None 42 0 (manager_new false None)).2 in
  (verify_code 300 "000042" "1" "dev_a" (Ok tt) m).1 <> Err InvalidCode /\
  (verify_code 300 "000042" "1" "dev_a" (Ok tt) (cleanup_expired_codes 300 m)).1 = Err InvalidCode.
Proof. by vm_compute. Qed.
