(* ===== verification/Session.v ===== *)
(** Login sessions ([crates/security-core/src/session.rs], the data of
    [crates/security-core/src/lib.rs]): the session table, the index of each
    user's tokens, expiry, and the locks of this manager and of
    [DevicePairing].  Times are [i64] seconds; tokens are the random ones the
    caller draws. *)

From S2P Require Import Prelude RustStr Locks.
From S2P Require DevicePairing.
#[local] Open Scope string_scope.
#[local] Open Scope nat_scope.
#[local] Open Scope list_scope.

(** [as i64], and [i64] addition without overflow checks. *)
Definition wrap_i64 (z : Z) : Z :=
  ((z + 9223372036854775808) mod 18446744073709551616 - 9223372036854775808)%Z.

Record AuthUser := {
  au_id : string;
  au_username : string;
  au_display_name : string;
  au_email : option string;
  au_avatar_url : option string;
  au_roles : list string;
  au_provider : string;
}.

Inductive AuthError :=
| InvalidCredentials | TokenExpired | TokenInvalid | UserNotFound | UserDisabled | RateLimited
| OAuthError (m : string) | Internal (m : string).

Record SecuritySession := {
  ss_token : string;
  ss_user_id : string;
  ss_username : string;
  ss_created_at : Z;
  ss_expires_at : Z;
  ss_last_activity : Z;
  ss_ip_address : option string;
  ss_user_agent : option string;
  ss_metadata : gmap string string;
}.

Definition is_expired (now : Z) (s : SecuritySession) : bool := (ss_expires_at s <=? now)%Z.
Definition is_active (now : Z) (s : SecuritySession) : bool := negb (is_expired now s).

Definition update_activity (now : Z) (s : SecuritySession) : SecuritySession := {|
  ss_token := ss_token s; ss_user_id := ss_user_id s; ss_username := ss_username s;
  ss_created_at := ss_created_at s; ss_expires_at := ss_expires_at s; ss_last_activity := now;
  ss_ip_address := ss_ip_address s; ss_user_agent := ss_user_agent s;
  ss_metadata := ss_metadata s |}.

Record SessionManager := {
  sm_sessions : gmap string SecuritySession;
  sm_user_sessions : gmap string (list string);
  sm_timeout_secs : Z;
}.

Definition session_manager_new (timeout_secs : Z) : SessionManager :=
  {| sm_sessions := ∅; sm_user_sessions := ∅; sm_timeout_secs := timeout_secs |}.

Definition with_timeout (timeout_secs : Z) (m : SessionManager) : SessionManager :=
  {| sm_sessions := sm_sessions m; sm_user_sessions := sm_user_sessions m;
     sm_timeout_secs := timeout_secs |}.

Definition expiry (m : SessionManager) (now : Z) : Z :=
  wrap_i64 (now + wrap_i64 (sm_timeout_secs m)).

Definition create_session (now : Z) (token : string) (user : AuthUser) (m : SessionManager)
  : result string AuthError * SessionManager :=
  let session := {| ss_token := token; ss_user_id := au_id user; ss_username := au_username user;
                    ss_created_at := now; ss_expires_at := expiry m now; ss_last_activity := now;
                    ss_ip_address := None; ss_user_agent := None; ss_metadata := ∅ |} in
  (Ok token,
   {| sm_sessions := <[token := session]> (sm_sessions m);
      sm_user_sessions :=
        <[au_id user := default [] (sm_user_sessions m !! au_id user) ++ [token]]> (sm_user_sessions m);
      sm_timeout_secs := sm_timeout_secs m |}).

Definition revoke_session (token : string) (m : SessionManager)
  : result unit AuthError * SessionManager :=
  match sm_sessions m !! token with
  | None => (Err TokenInvalid, m)
  | Some session =>
      (Ok tt,
       {| sm_sessions := delete token (sm_sessions m);
          sm_user_sessions :=
            alter (retain (fun t => negb (String.eqb t token))) (ss_user_id session)
                  (sm_user_sessions m);
          sm_timeout_secs := sm_timeout_secs m |})
  end.

Definition validate_session (now : Z) (token : string) (m : SessionManager)
  : result AuthUser AuthError * SessionManager :=
  match sm_sessions m !! token with
  | None => (Err TokenInvalid, m)
  | Some s =>
      if is_expired now s then (Err TokenExpired, (revoke_session token m).2)
      else (Ok {| au_id := ss_user_id s; au_username := ss_username s;
                  au_display_name := ss_username s; au_email := None; au_avatar_url := None;
                  au_roles := []; au_provider := "session" |}, m)
  end.

Definition refreshed (now expires : Z) (s : SecuritySession) : SecuritySession := {|
  ss_token := ss_token s; ss_user_id := ss_user_id s; ss_username := ss_username s;
  ss_created_at := ss_created_at s; ss_expires_at := expires; ss_last_activity := now;
  ss_ip_address := ss_ip_address s; ss_user_agent := ss_user_agent s;
  ss_metadata := ss_metadata s |}.

Definition refresh_session (now : Z) (token : string) (m : SessionManager)
  : result string AuthError * SessionManager :=
  match sm_sessions m !! token with
  | None => (Err TokenInvalid, m)
  | Some s =>
      if is_expired now s then (Err TokenExpired, m)
      else (Ok token,
            {| sm_sessions := <[token := refreshed now (expiry m now) s]> (sm_sessions m);
               sm_user_sessions := sm_user_sessions m; sm_timeout_secs := sm_timeout_secs m |})
  end.

Definition revoke_all_user_sessions (user_id : string) (m : SessionManager)
  : result nat AuthError * SessionManager :=
  let tokens := default [] (sm_user_sessions m !! user_id) in
  (Ok (length tokens),
   {| sm_sessions := foldl (fun s t => delete t s) (sm_sessions m) tokens;
      sm_user_sessions := delete user_id (sm_user_sessions m);
      sm_timeout_secs := sm_timeout_secs m |}).

Definition get_session (token : string) (m : SessionManager) : option SecuritySession :=
  sm_sessions m !! token.

Definition list_user_sessions (user_id : string) (m : SessionManager) : list SecuritySession :=
  omap (fun t => sm_sessions m !! t) (default [] (sm_user_sessions m !! user_id)).

(** Unlike [is_expired], a session that expires at [now] is kept. *)
Definition cleanup_expired (now : Z) (m : SessionManager) : SessionManager :=
  let expired := (map_to_list (filter (fun kv => (ss_expires_at kv.2 < now)%Z) (sm_sessions m))).*1 in
  foldl (fun m t => (revoke_session t m).2) m expired.

Definition session_count (m : SessionManager) : nat := size (sm_sessions m).
Definition active_user_count (m : SessionManager) : nat := size (sm_user_sessions m).

(** * Reachable managers *)

(** One operation of the manager; new tokens are fresh. *)
Inductive session_step : SessionManager -> SessionManager -> Prop :=
| step_create now token user m :
    sm_sessions m !! token = None -> session_step m (create_session now token user m).2
| step_validate now token m : session_step m (validate_session now token m).2
| step_refresh now token m : session_step m (refresh_session now token m).2
| step_revoke token m : session_step m (revoke_session token m).2
| step_revoke_all user_id m : session_step m (revoke_all_user_sessions user_id m).2
| step_cleanup now m : session_step m (cleanup_expired now m).

(** The table and the index hold the same sessions. *)
Record session_wf (m : SessionManager) : Prop := {
  wf_token : forall t s, sm_sessions m !! t = Some s -> ss_token s = t;
  wf_index : forall u t, t ∈ default [] (sm_user_sessions m !! u) <->
               exists s, sm_sessions m !! t = Some s /\ ss_user_id s = u;
  wf_nodup : forall u, NoDup (default [] (sm_user_sessions m !! u));
}.

Lemma wf_user m t s u :
  session_wf m -> sm_sessions m !! t = Some s ->
  t ∈ default [] (sm_user_sessions m !! u) <-> ss_user_id s = u.
Proof.
  intros Hm Hs. rewrite (wf_index m Hm). split; [|by eauto].
  intros (s' & Hs' & <-). congruence.
Qed.

Lemma wf_new timeout : session_wf (session_manager_new timeout).
Proof.
  split; cbn.
  - intros t s. by rewrite lookup_empty.
  - intros u t. rewrite !lookup_empty. cbn. split; [by intros ?%elem_of_nil | by intros (? & ? & _)].
  - intros u. rewrite lookup_empty. constructor.
Qed.

Lemma wf_create now token user m :
  sm_sessions m !! token = None -> session_wf m -> session_wf (create_session now token user m).2.
Proof.
  intros Hfresh Hm. pose proof Hm as [Ht Hi Hn].
  assert (Hout : forall u, token ∉ default [] (sm_user_sessions m !! u)).
  { intros u Hin. apply Hi in Hin as (s & Hs & _). congruence. }
  split; cbn [create_session snd sm_sessions sm_user_sessions].
  - intros t s. destruct (decide (token = t)) as [<-|Hne].
    + rewrite lookup_insert_eq. by intros [= <-].
    + rewrite lookup_insert_ne by done. apply Ht.
  - intros u t. destruct (decide (token = t)) as [<-|Hne].
    + rewrite lookup_insert_eq. destruct (decide (au_id user = u)) as [<-|Hu].
      * rewrite lookup_insert_eq. cbn. rewrite elem_of_app. split; [by eexists|].
        intros _. right. by apply list_elem_of_singleton.
      * rewrite lookup_insert_ne by done. split; [by intros ?%Hout|].
        intros (s & [= <-] & E). done.
    + rewrite (lookup_insert_ne (sm_sessions m)) by done. rewrite <- Hi.
      destruct (decide (au_id user = u)) as [<-|Hu]; [|by rewrite lookup_insert_ne].
      rewrite lookup_insert_eq. cbn. rewrite elem_of_app, list_elem_of_singleton.
      split; [intros [?|?]; [done | congruence] | by left].
  - intros u. destruct (decide (au_id user = u)) as [<-|Hu]; [|by rewrite lookup_insert_ne].
    rewrite lookup_insert_eq. cbn. apply NoDup_app. split_and!; [apply Hn | | apply NoDup_singleton].
    intros t Hin ->%list_elem_of_singleton. by apply (Hout (au_id user)).
Qed.

Lemma default_alter (f : list string -> list string) (m : gmap string (list string)) u v :
  f [] = [] ->
  default [] (alter f u m !! v) = if decide (u = v) then f (default [] (m !! v)) else default [] (m !! v).
Proof.
  intros Hf. destruct (decide (u = v)) as [<-|Hne].
  - rewrite lookup_alter_eq. by destruct (m !! u).
  - by rewrite lookup_alter_ne.
Qed.

Lemma revoke_sessions token m :
  sm_sessions (revoke_session token m).2 = delete token (sm_sessions m).
Proof.
  unfold revoke_session. destruct (sm_sessions m !! token) eqn:E; [done|].
  cbn. by rewrite delete_id.
Qed.

Lemma wf_revoke token m : session_wf m -> session_wf (revoke_session token m).2.
Proof.
  intros Hm. pose proof Hm as [Ht Hi Hn]. unfold revoke_session.
  destruct (sm_sessions m !! token) as [s0|] eqn:E; [|done].
  split; cbn [snd sm_sessions sm_user_sessions].
  - intros t s [_ Hs]%lookup_delete_Some. by apply Ht.
  - intros u t. rewrite default_alter by done. setoid_rewrite lookup_delete_Some.
    destruct (decide (t = token)) as [->|Hne].
    + split; [|by intros (? & [? _] & _)]. case_decide as Hu.
      * intros [_ Hx]%elem_of_retain. by rewrite String.eqb_refl in Hx.
      * rewrite (wf_user m token s0) by done. congruence.
    + assert (Hret : t ∈ (if decide (ss_user_id s0 = u)
               then retain (fun t => negb (String.eqb t token)) (default [] (sm_user_sessions m !! u))
               else default [] (sm_user_sessions m !! u)) <-> t ∈ default [] (sm_user_sessions m !! u)).
      { case_decide; [|done]. rewrite elem_of_retain, negb_true_iff, String.eqb_neq. naive_solver. }
      rewrite Hret, Hi. naive_solver.
  - intros u. rewrite default_alter by done. case_decide; [apply retain_NoDup|]; apply Hn.
Qed.

Lemma wf_validate now token m : session_wf m -> session_wf (validate_session now token m).2.
Proof.
  intros Hm. unfold validate_session. destruct (sm_sessions m !! token); [|done].
  destruct (is_expired _ _); [by apply wf_revoke | done].
Qed.

Lemma wf_refresh now token m : session_wf m -> session_wf (refresh_session now token m).2.
Proof.
  intros Hm. pose proof Hm as [Ht Hi Hn]. unfold refresh_session.
  destruct (sm_sessions m !! token) as [s0|] eqn:E; [|done]. destruct (is_expired _ _); [done|].
  split; cbn [snd sm_sessions sm_user_sessions]; [| |done].
  - intros t s [(<- & <-)|(_ & ?)]%lookup_insert_Some; [cbn|]; by apply Ht.
  - intros u t. rewrite Hi. setoid_rewrite lookup_insert_Some. split.
    + intros (s & Hs & <-). destruct (decide (token = t)) as [<-|Hne]; [|by eauto].
      rewrite E in Hs. simplify_eq. by eauto.
    + intros (s & [(<- & <-)|(? & ?)] & <-); [cbn|]; by eauto.
Qed.

Lemma lookup_delete_all (ts : list string) (s : gmap string SecuritySession) t x :
  foldl (fun s t => delete t s) s ts !! t = Some x <-> s !! t = Some x /\ t ∉ ts.
Proof.
  revert s. induction ts as [|t' ts IH]; intros s; simpl.
  - split; [intros ?; split; [done | apply not_elem_of_nil] | by intros [? _]].
  - rewrite IH, lookup_delete_Some, not_elem_of_cons. naive_solver.
Qed.

Lemma wf_revoke_all u m : session_wf m -> session_wf (revoke_all_user_sessions u m).2.
Proof.
  intros Hm. pose proof Hm as [Ht Hi Hn].
  split; cbn [revoke_all_user_sessions snd sm_sessions sm_user_sessions].
  - intros t s [Hs _]%lookup_delete_all. by apply Ht.
  - intros v t. setoid_rewrite lookup_delete_all.
    destruct (decide (u = v)) as [<-|Hne].
    + rewrite lookup_delete_eq. cbn. split; [by intros ?%elem_of_nil|].
      intros (s & [Hs Hout] & Hu). by rewrite (wf_user m t s) in Hout.
    + rewrite lookup_delete_ne by done. rewrite Hi. split.
      * intros (s & Hs & <-). exists s. split_and!; [done | | done].
        by rewrite (wf_user m t s).
      * intros (s & [Hs _] & <-). by eauto.
  - intros v. destruct (decide (u = v)) as [<-|Hne].
    + rewrite lookup_delete_eq. constructor.
    + rewrite lookup_delete_ne by done. apply Hn.
Qed.

Lemma wf_cleanup now m : session_wf m -> session_wf (cleanup_expired now m).
Proof.
  unfold cleanup_expired. generalize (map_to_list (filter (fun kv : string * SecuritySession =>
    (ss_expires_at kv.2 < now)%Z) (sm_sessions m))).*1. intros ts. revert m.
  induction ts as [|t ts IH]; intros m Hm; [done|]. by apply IH, wf_revoke.
Qed.

Lemma wf_step m m' : session_step m m' -> session_wf m -> session_wf m'.
Proof.
  intros [] Hm; [by apply wf_create | by apply wf_validate | by apply wf_refresh
    | by apply wf_revoke | by apply wf_revoke_all | by apply wf_cleanup].
Qed.

Lemma wf_reachable timeout m : rtc session_step (session_manager_new timeout) m -> session_wf m.
Proof.
  generalize (wf_new timeout). generalize (session_manager_new timeout). intros m0 H0 Hr.
  induction Hr as [|m1 m2 m3 Hs _ IH]; [done|]. by eapply IH, wf_step.
Qed.

Lemma list_user_sessions_elem m u s :
  session_wf m ->
  s ∈ list_user_sessions u m <-> sm_sessions m !! ss_token s = Some s /\ ss_user_id s = u.
Proof.
  intros Hm. unfold list_user_sessions. rewrite list_elem_of_omap. split.
  - intros (t & Hin & Hs). rewrite (wf_user m t s) in Hin by done.
    by rewrite (wf_token m Hm t s Hs).
  - intros [Hs Hu]. exists (ss_token s). split; [|done]. by apply (wf_user m _ s).
Qed.

(** Every listed token has its session, so none is skipped. *)
Lemma list_user_sessions_length m u :
  session_wf m -> length (list_user_sessions u m) = length (default [] (sm_user_sessions m !! u)).
Proof.
  intros Hm. unfold list_user_sessions.
  assert (Hall : Forall (fun t => is_Some (sm_sessions m !! t)) (default [] (sm_user_sessions m !! u))).
  { apply Forall_forall. intros t (s & -> & _)%(wf_index m Hm). eauto. }
  induction Hall as [|t ts [s Hs] _ IH]; [done|]. simpl. rewrite Hs. simpl. f_equal. exact IH.
Qed.


Definition demo_user (id : string) : AuthUser := {|
  au_id := id; au_username := id; au_display_name := id; au_email := None; au_avatar_url := None;
  au_roles := []; au_provider := "test" |}.

Definition demo_sessions : SessionManager :=
  (create_session 10 "t2" (demo_user "bob")
     (create_session 0 "t1" (demo_user "ann") (session_manager_new 3600)).2).2.


(** Revoking a user's only session leaves the user among the active ones. *)
Lemma revoked_user_still_active :
  let m := (revoke_session "t2" (revoke_session "t1" demo_sessions).2).2 in
  session_count m = 0 /\ active_user_count m = 2.
Proof. by vm_compute. Qed.

(** * Locks *)

Inductive session_lock := Sessions | UserSessions.
#[export] Instance session_lock_eq_dec : EqDecision session_lock.
Proof. solve_decision. Defined.

(** The operations by the path they take; what they do to the locks.  A
    validation that meets an expired session revokes it, and a clean-up revokes
    each expired one; a revocation may find the session gone. *)
Inductive session_op :=
| OpCreate | OpValidate (expired : option bool) | OpRefresh | OpRevoke (found : bool) | OpRevokeAll
| OpGet | OpList | OpCleanup (expired : list bool) | OpSessionCount | OpUserCount.

Definition once {L} (l : L) (m : mode) : list (action L) := [Acquire l m; Release l].

Definition revoke_locks (found : bool) : list (action session_lock) :=
  once Sessions Exclusive ++ (if found then once UserSessions Exclusive else []).

Definition session_locks (op : session_op) : list (action session_lock) :=
  match op with
  | OpCreate => [Acquire Sessions Exclusive; Acquire UserSessions Exclusive;
                 Release UserSessions; Release Sessions]
  | OpValidate expired => once Sessions Shared ++ from_option revoke_locks [] expired
  | OpRefresh => once Sessions Exclusive
  | OpRevoke found => revoke_locks found
  | OpRevokeAll => once UserSessions Exclusive ++ once Sessions Exclusive
  | OpGet | OpSessionCount => once Sessions Shared
  | OpList => [Acquire UserSessions Shared; Acquire Sessions Shared;
               Release Sessions; Release UserSessions]
  | OpCleanup expired => once Sessions Shared ++ concat (revoke_locks <$> expired)
  | OpUserCount => once UserSessions Shared
  end.

Inductive device_lock := Pending | Devices | TokenIndex.
#[export] Instance device_lock_eq_dec : EqDecision device_lock.
Proof. solve_decision. Defined.

Inductive device_op :=
| DevLoad (reads : bool) | DevGenerate | DevVerify (accepted persist : bool)
| DevValidate (found : bool) | DevTouch (found : bool) | DevList
| DevRevoke (found persist : bool) | DevCleanup.

Definition save_locks (persist : bool) : list (action device_lock) :=
  if persist then once Devices Shared else [].

Definition device_locks (op : device_op) : list (action device_lock) :=
  match op with
  | DevLoad reads =>
      if reads then [Acquire Devices Exclusive; Acquire TokenIndex Exclusive;
                     Release TokenIndex; Release Devices]
      else []
  | DevGenerate | DevCleanup => once Pending Exclusive
  | DevVerify accepted persist =>
      once Pending Exclusive ++
      (if accepted then
         [Acquire Devices Exclusive; Acquire TokenIndex Exclusive;
          Release Devices; Release TokenIndex] ++ save_locks persist
       else [])
  | DevValidate found =>
      [Acquire TokenIndex Shared] ++ (if found then once Devices Shared else []) ++ [Release TokenIndex]
  | DevTouch found => once TokenIndex Shared ++ (if found then once Devices Exclusive else [])
  | DevList => once Devices Shared
  | DevRevoke found persist =>
      if found then
        [Acquire Devices Exclusive; Acquire TokenIndex Exclusive;
         Release Devices; Release TokenIndex] ++ save_locks persist
      else once Devices Exclusive
  end.

Definition session_rank (l : session_lock) : nat := match l with Sessions => 0 | UserSessions => 1 end.
Definition device_rank (l : device_lock) : nat :=
  match l with Pending => 0 | Devices => 1 | TokenIndex => 2 end.

Lemma cleanup_ordered found :
  ordered session_rank [] (once Sessions Shared ++ concat (revoke_locks <$> found)) = true.
Proof.
  assert (Hc : ordered session_rank [] (concat (revoke_locks <$> found)) = true)
    by (induction found as [|[] found IH]; [done | exact IH | exact IH]).
  exact Hc.
Qed.

(** The lock use of the two managers.  Concurrent device operations never
    deadlock as long as none validates a known token, and concurrent session
    operations never deadlock as long as none lists a user's sessions.  With
    them they can: validating a token takes the index and then the devices
    while a verification takes them in the other order, and listing takes the
    index and then the table while a creation takes them in the other order. *)
Theorem manager_locks :
  (forall ops ts, Forall (fun op => op <> DevValidate true) ops ->
     rtc lock_step (start <$> (device_locks <$> ops)) ts -> ~ deadlocked ts) /\
  (forall ops ts, Forall (fun op => op <> OpList) ops ->
     rtc lock_step (start <$> (session_locks <$> ops)) ts -> ~ deadlocked ts) /\
  (exists ts, rtc lock_step
     (start <$> (device_locks <$> [DevVerify true true; DevValidate true])) ts /\ deadlocked ts) /\
  (exists ts, rtc lock_step (start <$> (session_locks <$> [OpCreate; OpList])) ts /\ deadlocked ts).
Proof.
  split_and!.
  - intros ops ts Hops. apply (lock_order device_rank). apply Forall_fmap.
    eapply Forall_impl; [exact Hops|]. intros [[]| |[] []|[]|[]| |[] []|]; done.
  - intros ops ts Hops. apply (lock_order session_rank). apply Forall_fmap.
    eapply Forall_impl; [exact Hops|].
    intros [|[[]|]| |[]| | | |n| |]; try done. intros _. apply cleanup_ordered.
  - eexists. split; [apply (run_schedule_rtc [0; 0; 0; 1]); vm_compute; reflexivity|].
    apply deadlocked_bool_sound. vm_compute. reflexivity.
  - eexists. split; [apply (run_schedule_rtc [0; 1]); vm_compute; reflexivity|].
    apply deadlocked_bool_sound. vm_compute. reflexivity.
Qed.
