(* ===== verification/Json.v ===== *)
(** JSON values as [serde_json] represents them.

    An object is a [BTreeMap]: its entries in ascending order of their keys, each
    key once ([wf]).  The first part has the ordered maps and sets with string
    keys the gateway uses, as sorted association lists; the second the accessors
    of [serde_json::Value] and the [json!] macro's objects. *)

From S2P Require Import Prelude RustStr F64.
From Stdlib Require Import Strings.String.
#[local] Open Scope string_scope.
#[local] Open Scope nat_scope.
#[local] Open Scope list_scope.

(** * The order of strings *)

Definition str_lt (a b : string) : Prop := String.compare a b = Lt.

Lemma str_compare_refl s : String.compare s s = Eq.
Proof. induction s as [|c s IH]; simpl; [done|]. unfold Ascii.compare. by rewrite N.compare_refl. Qed.

Lemma str_compare_eq a b : String.compare a b = Eq <-> a = b.
Proof. split; [apply String.compare_eq_iff | intros ->; apply str_compare_refl]. Qed.

Lemma str_compare_gt a b : String.compare a b = Gt <-> str_lt b a.
Proof. unfold str_lt. rewrite (String.compare_antisym b a). by destruct (String.compare a b). Qed.

Lemma str_lt_irrefl a : ~ str_lt a a.
Proof. unfold str_lt. by rewrite str_compare_refl. Qed.

Lemma str_lt_trans a b c : str_lt a b -> str_lt b c -> str_lt a c.
Proof.
  unfold str_lt. revert b c.
  induction a as [|x a IH]; intros [|y b] [|z c]; simpl; try done.
  unfold Ascii.compare.
  destruct (N.compare_spec (N_of_ascii x) (N_of_ascii y)) as [E1|E1|E1]; try done;
    destruct (N.compare_spec (N_of_ascii y) (N_of_ascii z)) as [E2|E2|E2]; try done; intros H1 H2.
  - rewrite E1, E2, N.compare_refl. by eapply IH.
  - rewrite E1. by rewrite (proj2 (N.compare_lt_iff _ _)).
  - rewrite <- E2. by rewrite (proj2 (N.compare_lt_iff _ _)).
  - by rewrite (proj2 (N.compare_lt_iff _ _)) by lia.
Qed.

Lemma str_lt_ne a b : str_lt a b -> a <> b.
Proof. intros H ->. by apply str_lt_irrefl in H. Qed.

(** * [BTreeMap<String, A>] *)

Section BTreeMap.
Context {A : Type}.

Fixpoint bt_get (k : string) (m : list (string * A)) : option A :=
  match m with
  | [] => None
  | (k', v) :: m' => if String.eqb k k' then Some v else bt_get k m'
  end.

Fixpoint bt_insert (k : string) (v : A) (m : list (string * A)) : list (string * A) :=
  match m with
  | [] => [(k, v)]
  | (k', v') :: m' =>
      match String.compare k k' with
      | Lt => (k, v) :: m
      | Eq => (k, v) :: m'
      | Gt => (k', v') :: bt_insert k v m'
      end
  end.

Definition bt_sorted (m : list (string * A)) : Prop :=
  StronglySorted (fun x y => str_lt x.1 y.1) m.

Lemma bt_insert_elem k v m x : x ∈ bt_insert k v m -> x = (k, v) \/ x ∈ m.
Proof.
  induction m as [|[k' v'] m IH]; simpl; [by rewrite list_elem_of_singleton; left|].
  destruct (String.compare k k'); rewrite !elem_of_cons; intros H.
  - destruct H as [->|H]; auto.
  - destruct H as [->|H]; auto.
  - destruct H as [->|H]; [auto|]. destruct (IH H); auto.
Qed.

Lemma bt_insert_sorted k v m : bt_sorted m -> bt_sorted (bt_insert k v m).
Proof.
  unfold bt_sorted. induction 1 as [|[k' v'] m Hs IH HF]; simpl; [by repeat constructor|].
  destruct (String.compare k k') eqn:E.
  - apply str_compare_eq in E as ->. by constructor.
  - constructor; [by constructor|]. constructor; [done|].
    eapply Forall_impl; [exact HF|]. intros x Hx. simpl in *. by eapply str_lt_trans.
  - constructor; [done|]. apply Forall_forall. intros x [->|Hx]%bt_insert_elem.
    + simpl. by apply str_compare_gt.
    + rewrite Forall_forall in HF. by apply HF.
Qed.

Lemma bt_get_insert k v m k' :
  bt_sorted m -> bt_get k' (bt_insert k v m) = if String.eqb k' k then Some v else bt_get k' m.
Proof.
  induction 1 as [|[k1 v1] m Hs IH HF]; simpl; [done|].
  destruct (String.compare k k1) eqn:E; simpl; [|done|].
  - apply str_compare_eq in E as ->. by destruct (String.eqb k' k1).
  - rewrite IH. destruct (String.eqb_spec k' k) as [->|]; [|done].
    apply str_compare_gt, str_lt_ne in E. destruct (String.eqb_spec k k1); congruence.
Qed.

Lemma bt_get_None_lt k m :
  Forall (fun x : string * A => str_lt k x.1) m -> bt_get k m = None.
Proof.
  induction 1 as [|[k' v'] m Hk _ IH]; simpl; [done|].
  apply str_lt_ne in Hk. by destruct (String.eqb_spec k k').
Qed.

Lemma bt_get_elem k v m : bt_sorted m -> bt_get k m = Some v <-> (k, v) ∈ m.
Proof.
  induction 1 as [|[k' v'] m Hs IH HF]; simpl; [split; [done | by intros ?%elem_of_nil]|].
  rewrite elem_of_cons. destruct (String.eqb_spec k k') as [->|Hne].
  - split; [intros [= ->]; by left | intros [[= ->]|Hin]; [done|]].
    rewrite Forall_forall in HF. by apply HF, str_lt_irrefl in Hin.
  - rewrite IH. split; [by right | by intros [[= -> ->]|]].
Qed.

(** Maps with the same entries are the same list. *)
Lemma bt_ext m1 m2 :
  bt_sorted m1 -> bt_sorted m2 -> (forall k, bt_get k m1 = bt_get k m2) -> m1 = m2.
Proof.
  intros H1. revert m2. induction H1 as [|[k1 v1] m1 Hs1 IH HF1]; intros m2 H2 Hg.
  - destruct m2 as [|[k2 v2] m2]; [done|]. specialize (Hg k2). simpl in Hg.
    by rewrite String.eqb_refl in Hg.
  - destruct H2 as [|[k2 v2] m2 Hs2 HF2].
    { specialize (Hg k1). simpl in Hg. by rewrite String.eqb_refl in Hg. }
    assert (k1 = k2) as <-.
    { pose proof (Hg k1) as Ha. pose proof (Hg k2) as Hb. simpl in Ha, Hb.
      rewrite String.eqb_refl in Ha, Hb.
      destruct (String.eqb_spec k1 k2) as [|Hne]; [done|]. exfalso.
      destruct (String.eqb_spec k2 k1) as [|_]; [done|].
      symmetry in Ha. apply bt_get_elem in Ha; [|done]. apply bt_get_elem in Hb; [|done].
      rewrite Forall_forall in HF1, HF2. apply HF2 in Ha. apply HF1 in Hb. simpl in *.
      by apply (str_lt_irrefl k1), (str_lt_trans _ k2). }
    pose proof (Hg k1) as Hv. simpl in Hv. rewrite String.eqb_refl in Hv. injection Hv as ->.
    f_equal. apply IH; [done|]. intros k. specialize (Hg k). simpl in Hg.
    destruct (String.eqb_spec k k1) as [Ek|]; [rewrite Ek | done].
    by rewrite !bt_get_None_lt.
Qed.
End BTreeMap.

(** * [BTreeSet<String>] *)

Definition set_insert (k : string) (l : list string) : list string :=
  (bt_insert k tt ((fun s => (s, tt)) <$> l)).*1.

(** [iter.collect::<BTreeSet<_>>().into_iter().collect::<Vec<_>>()] *)
Definition to_set (l : list string) : list string := (foldl (fun m s => bt_insert s tt m) [] l).*1.

Lemma foldl_insert_sorted l m :
  bt_sorted m -> bt_sorted (foldl (fun m s => bt_insert s tt m) m l).
Proof. revert m. induction l as [|s l IH]; simpl; [done|]. intros. by apply IH, bt_insert_sorted. Qed.

Lemma foldl_insert_get l m s :
  bt_sorted m ->
  bt_get s (foldl (fun m s => bt_insert s tt m) m l)
  = if decide (s ∈ l) then Some tt else bt_get s m.
Proof.
  revert m. induction l as [|x l IH]; simpl; intros m Hm.
  { destruct (decide (s ∈ [])) as [Hin|]; [by apply elem_of_nil in Hin | done]. }
  rewrite IH by by apply bt_insert_sorted. rewrite bt_get_insert by done.
  destruct (String.eqb_spec s x) as [->|Hne].
  - destruct (decide (x ∈ x :: l)) as [|Hn]; [by destruct (decide (x ∈ l)) | by destruct Hn; left].
  - destruct (decide (s ∈ l)) as [Hin|Hnin], (decide (s ∈ x :: l)) as [Hin'|Hnin']; try done.
    + by destruct Hnin'; right.
    + by apply elem_of_cons in Hin' as [|].
Qed.

Lemma elem_of_to_set l s : s ∈ to_set l <-> s ∈ l.
Proof.
  unfold to_set. pose proof (foldl_insert_sorted l [] (SSorted_nil _)) as Hs.
  rewrite list_elem_of_fmap. split.
  - intros ([k []] & -> & Hin). apply bt_get_elem in Hin; [|done].
    rewrite foldl_insert_get in Hin by constructor. simpl in *. by destruct (decide (k ∈ l)).
  - intros Hin. exists (s, tt). split; [done|]. apply bt_get_elem; [done|].
    rewrite foldl_insert_get by constructor. by rewrite decide_True.
Qed.

Lemma to_set_sorted l : StronglySorted str_lt (to_set l).
Proof.
  unfold to_set. pose proof (foldl_insert_sorted l [] (SSorted_nil _)) as Hs.
  induction Hs as [|x m Hs IH HF]; simpl; constructor; [done|].
  apply Forall_fmap. exact HF.
Qed.

Lemma str_sorted_NoDup l : StronglySorted str_lt l -> NoDup l.
Proof.
  induction 1 as [|x l Hs IH HF]; constructor; [|done].
  intros Hin. rewrite Forall_forall in HF. by apply HF, str_lt_irrefl in Hin.
Qed.

Lemma to_set_nil l : to_set l = [] <-> l = [].
Proof.
  split; [|by intros ->]. intros H. destruct l as [|s l]; [done|].
  pose proof (proj2 (elem_of_to_set (s :: l) s) ltac:(left)) as Hin. rewrite H in Hin. set_solver.
Qed.

#[export] Hint Resolve bt_insert_sorted to_set_sorted : rust.

(** [BTreeMap::remove]. *)
Fixpoint bt_remove {A} (k : string) (m : list (string * A)) : list (string * A) :=
  match m with
  | [] => []
  | (k', v) :: m' => if String.eqb k k' then m' else (k', v) :: bt_remove k m'
  end.

Lemma bt_remove_elem {A} k (m : list (string * A)) x : x ∈ bt_remove k m -> x ∈ m.
Proof.
  induction m as [|[k' v] m IH]; simpl; [done|].
  rewrite elem_of_cons. destruct (String.eqb k k'); [by right|].
  rewrite elem_of_cons. intros [->|H]; auto.
Qed.

Lemma bt_remove_sorted {A} k (m : list (string * A)) : bt_sorted m -> bt_sorted (bt_remove k m).
Proof.
  unfold bt_sorted. induction 1 as [|[k' v] m Hs IH HF]; simpl; [constructor|].
  destruct (String.eqb k k'); [done|]. constructor; [done|].
  apply Forall_forall. intros x Hx%bt_remove_elem. rewrite Forall_forall in HF. by apply HF.
Qed.

Lemma bt_get_remove {A} k (m : list (string * A)) k' :
  bt_sorted m -> bt_get k' (bt_remove k m) = if String.eqb k' k then None else bt_get k' m.
Proof.
  unfold bt_sorted. induction 1 as [|[k1 v] m Hs IH HF]; simpl; [by destruct (String.eqb k' k)|].
  destruct (String.eqb_spec k k1) as [<-|Hne]; simpl.
  - destruct (String.eqb_spec k' k) as [->|]; [|done]. by apply bt_get_None_lt.
  - rewrite IH. destruct (String.eqb_spec k' k1) as [->|]; [|done].
    by destruct (String.eqb_spec k1 k).
Qed.

(** * Values

    A number is an integer in the range of [i64] or [u64], or a binary64. *)

Inductive json :=
| JNull
| JBool (b : bool)
| JInt (z : Z)
| JFloat (x : f64)
| JStr (s : string)
| JArr (l : list json)
| JObj (m : list (string * json)).

Section json_ind'.
Variable P : json -> Prop.
Hypothesis Hnull : P JNull.
Hypothesis Hbool : forall b, P (JBool b).
Hypothesis Hint : forall z, P (JInt z).
Hypothesis Hfloat : forall x, P (JFloat x).
Hypothesis Hstr : forall s, P (JStr s).
Hypothesis Harr : forall l, Forall P l -> P (JArr l).
Hypothesis Hobj : forall m, Forall (fun kv => P kv.2) m -> P (JObj m).

Fixpoint json_ind' (v : json) : P v :=
  match v with
  | JNull => Hnull
  | JBool b => Hbool b
  | JInt z => Hint z
  | JFloat x => Hfloat x
  | JStr s => Hstr s
  | JArr l => Harr l ((fix go l : Forall P l :=
      match l with
      | [] => Forall_nil_2 _
      | x :: l' => Forall_cons_2 _ x l' (json_ind' x) (go l')
      end) l)
  | JObj m => Hobj m ((fix go m : Forall (fun kv => P kv.2) m :=
      match m with
      | [] => Forall_nil_2 _
      | kv :: m' => Forall_cons_2 _ kv m' (json_ind' kv.2) (go m')
      end) m)
  end.
End json_ind'.

(** What [serde_json] guarantees of every value: integers fit, object keys
    ascend. *)
Fixpoint wf (v : json) : Prop :=
  match v with
  | JInt z => (i64_min <= z <= u64_max)%Z
  | JArr l => (fix all l := match l with [] => True | x :: l' => wf x /\ all l' end) l
  | JObj m => bt_sorted m /\ (fix all m := match m with [] => True | kv :: m' => wf kv.2 /\ all m' end) m
  | _ => True
  end.

Lemma wf_arr l : wf (JArr l) <-> Forall wf l.
Proof.
  simpl. induction l as [|x l IH]; [by split|]. rewrite Forall_cons, IH. done.
Qed.

Lemma wf_obj m : wf (JObj m) <-> bt_sorted m /\ Forall (fun kv => wf kv.2) m.
Proof.
  change (wf (JObj m)) with (bt_sorted m /\
    (fix all m := match m with [] => True | kv :: m' => wf kv.2 /\ all m' end) m).
  assert (forall m, (fix all (m : list (string * json)) :=
            match m with [] => True | kv :: m' => wf kv.2 /\ all m' end) m
          <-> Forall (fun kv => wf kv.2) m) as H; [|by rewrite H].
  clear m. induction m as [|x m IH]; [by split|]. rewrite Forall_cons, IH. done.
Qed.

(** [wf] decided. *)
Definition str_ltb (a b : string) : bool :=
  match String.compare a b with Lt => true | _ => false end.

Fixpoint bt_sortedb {A} (m : list (string * A)) : bool :=
  match m with
  | [] => true
  | kv :: m' => forallb (fun x => str_ltb kv.1 x.1) m' && bt_sortedb m'
  end.

Fixpoint wfb (v : json) : bool :=
  match v with
  | JInt z => (i64_min <=? z)%Z && (z <=? u64_max)%Z
  | JArr l => forallb wfb l
  | JObj m => bt_sortedb m && forallb (fun kv => wfb kv.2) m
  | _ => true
  end.

Lemma str_ltb_spec a b : str_ltb a b = true <-> str_lt a b.
Proof. unfold str_ltb, str_lt. by destruct (String.compare a b). Qed.

Lemma bt_sortedb_sorted {A} (m : list (string * A)) : bt_sortedb m = true -> bt_sorted m.
Proof.
  unfold bt_sorted. induction m as [|kv m IH]; simpl; [constructor|].
  intros [H1 H2]%andb_true_iff. constructor; [by apply IH|].
  apply Forall_forall. intros x Hx. apply str_ltb_spec.
  rewrite forallb_forall in H1. apply H1. by apply list_elem_of_In.
Qed.

Lemma wfb_wf v : wfb v = true -> wf v.
Proof.
  induction v as [| | | | |l IH|m IH] using json_ind'; try done.
  - simpl. intros [H1%Z.leb_le H2%Z.leb_le]%andb_true_iff. done.
  - intros H. apply wf_arr. simpl in H. rewrite forallb_forall in H. apply Forall_forall.
    intros x Hx. rewrite Forall_forall in IH. apply IH; [done|]. apply H. by apply list_elem_of_In.
  - intros H. apply wf_obj. simpl in H. apply andb_true_iff in H as [H1 H2].
    split; [by apply bt_sortedb_sorted|]. rewrite forallb_forall in H2. apply Forall_forall.
    intros x Hx. rewrite Forall_forall in IH. apply (IH x Hx), H2. by apply list_elem_of_In.
Qed.

(** ** Accessors *)

Definition as_object (v : json) : option (list (string * json)) :=
  match v with JObj m => Some m | _ => None end.
Definition as_array (v : json) : option (list json) :=
  match v with JArr l => Some l | _ => None end.
Definition as_str (v : json) : option string := match v with JStr s => Some s | _ => None end.
Definition as_bool (v : json) : option bool := match v with JBool b => Some b | _ => None end.
Definition as_i64 (v : json) : option Z :=
  match v with JInt z => if (z <=? i64_max)%Z then Some z else None | _ => None end.
Definition as_u64 (v : json) : option Z :=
  match v with JInt z => if (0 <=? z)%Z then Some z else None | _ => None end.
Definition is_object (v : json) : bool := match v with JObj _ => true | _ => false end.

(** [v.get(k)] and [v[k]]. *)
Definition get (k : string) (v : json) : option json := as_object v ≫= bt_get k.
Definition index (k : string) (v : json) : json := default JNull (get k v).

(** [v.get(k).and_then(|v| v.as_str())] and its companions. *)
Definition get_str (k : string) (v : json) : option string := get k v ≫= as_str.
Definition get_bool (k : string) (v : json) : option bool := get k v ≫= as_bool.
Definition get_u64 (k : string) (v : json) : option Z := get k v ≫= as_u64.

(** [o.or_else(|| p)] *)
Definition or_else {A} (o p : option A) : option A := match o with Some x => Some x | None => p end.

(** [raw.map(str::trim).filter(|s| !s.is_empty())] *)
Definition non_empty (o : option string) : option string :=
  o ≫= fun s => if String.eqb s "" then None else Some s.
Definition trimmed (o : option string) : option string := non_empty (trim <$> o).

(** [json!({..})]. *)
Definition jobject (l : list (string * json)) : json :=
  JObj (foldl (fun m kv => bt_insert kv.1 kv.2 m) [] l).

Definition jopt {A} (f : A -> json) (o : option A) : json :=
  match o with Some x => f x | None => JNull end.
Definition jstrs (l : list string) : json := JArr (JStr <$> l).

(** [arr.iter().filter_map(|v| v.as_str()).map(str::trim).filter(|s| !s.is_empty())] *)
Definition trimmed_strings (l : list json) : list string :=
  omap (fun v => trimmed (as_str v)) l.

Lemma get_wf k v x : wf v -> get k v = Some x -> wf x.
Proof.
  destruct v as [| | | | | |m]; simpl; try done. intros [Hs HF]%wf_obj Hg.
  apply bt_get_elem in Hg; [|done]. rewrite Forall_forall in HF. by apply (HF (k, x)).
Qed.

Lemma get_jobject_go l m k :
  bt_sorted m ->
  bt_get k (foldl (fun m kv => bt_insert kv.1 kv.2 m) m l)
  = match bt_get k (rev l) with Some v => Some v | None => bt_get k m end
  /\ bt_sorted (foldl (fun m (kv : string * json) => bt_insert kv.1 kv.2 m) m l).
Proof.
  revert m. induction l as [|[k1 v1] l IH]; simpl; intros m Hm; [done|].
  destruct (IH (bt_insert k1 v1 m)) as [Hg Hs]; [by apply bt_insert_sorted|].
  split; [|done]. rewrite Hg, bt_get_insert by done.
  assert (forall l1 l2 : list (string * json),
    bt_get k (l1 ++ l2) = match bt_get k l1 with Some v => Some v | None => bt_get k l2 end) as Happ.
  { intros l1 l2. induction l1 as [|[k2 v2] l1 IH']; simpl; [done|]. by destruct (String.eqb k k2). }
  rewrite Happ. simpl. destruct (bt_get k (rev l)); [done|]. by destruct (String.eqb k k1).
Qed.

(** The last value given for a key counts. *)
Lemma get_jobject l k : get k (jobject l) = bt_get k (rev l).
Proof.
  unfold get, jobject. simpl. rewrite (proj1 (get_jobject_go l [] k (SSorted_nil _))). simpl.
  by destruct (bt_get k (rev l)).
Qed.

Lemma jobject_sorted l : bt_sorted (foldl (fun m (kv : string * json) => bt_insert kv.1 kv.2 m) [] l).
Proof. apply (get_jobject_go l [] "" (SSorted_nil _)). Qed.

Lemma trimmed_Some o s : trimmed o = Some s -> s <> "" /\ exists r, o = Some r /\ s = trim r.
Proof.
  unfold trimmed, non_empty. destruct o as [r|]; simpl; [|done].
  destruct (String.eqb_spec (trim r) ""); intros [= <-]. eauto.
Qed.

#[export] Hint Resolve get_wf jobject_sorted : rust.
