(* ===== verification/Parse.v ===== *)
(** Integers in text ([str::parse], [to_string]) and JSON pointers
    ([serde_json]'s [Value::pointer]). *)

From Stdlib Require Import Strings.String.
From stdpp Require Import pretty.
From S2P Require Import Prelude RustStr Json.
#[local] Open Scope string_scope.
#[local] Open Scope nat_scope.
#[local] Open Scope list_scope.

(** * Integers *)

Definition digit_value (c : ascii) : option Z :=
  let n := nat_of_ascii c in
  if (48 <=? n) && (n <=? 57) then Some (Z.of_nat (n - 48)) else None.

Fixpoint parse_digits (acc : Z) (s : string) : option Z :=
  match s with
  | "" => Some acc
  | String c s' => d ← digit_value c; parse_digits (acc * 10 + d)%Z s'
  end.

(** An unsigned integer up to [max]. *)
Definition parse_unsigned (max : Z) (s : string) : option Z :=
  let digits := match s with String "+" s' => s' | _ => s end in
  if String.eqb digits "" then None
  else n ← parse_digits 0 digits; if (n <=? max)%Z then Some n else None.

(** [parse::<i64>]. *)
Definition parse_i64 (s : string) : option Z :=
  match s with
  | String "-" s' =>
      if String.eqb s' "" then None
      else n ← parse_digits 0 s'; if (i64_min <=? - n)%Z then Some (- n)%Z else None
  | _ => parse_unsigned i64_max s
  end.

(** * JSON pointers *)

(** Reference tokens: [~1] stands for a slash, [~0] for a tilde. *)
Definition unescape_token (s : string) : string := str_replace (str_replace s "~1" "/") "~0" "~".

Definition array_index (s : string) : option nat :=
  match s with
  | String "+" _ => None
  | String "0" (String _ _) => None
  | _ => Z.to_nat <$> parse_unsigned u64_max s
  end.

Definition pointer_step (o : option json) (token : string) : option json :=
  o ≫= fun v => match v with
                | JObj m => bt_get token m
                | JArr l => array_index token ≫= fun i => l !! i
                | _ => None
                end.

Definition json_pointer (path : string) (v : json) : option json :=
  match path with
  | "" => Some v
  | String "/" rest => foldl pointer_step (Some v) (unescape_token <$> split_char "/"%char rest)
  | _ => None
  end.

(** * Round trip *)

Lemma digit_of_char n : (n < 10)%N -> digit_value (pretty_N_char n) = Some (Z.of_N n).
Proof.
  intros H. assert (n ∈ [0; 1; 2; 3; 4; 5; 6; 7; 8; 9])%N as Hin.
  { rewrite !elem_of_cons. lia. }
  repeat (apply elem_of_cons in Hin as [->|Hin]; [reflexivity|]). by apply not_elem_of_nil in Hin.
Qed.

Lemma parse_digits_go x s : parse_digits 0 (pretty_N_go x s) = parse_digits (Z.of_N x) s.
Proof.
  revert s. induction (N.lt_wf_0 x) as [x _ IH]. intros s.
  destruct (decide (x = 0%N)) as [->|Hx]; [by rewrite pretty_N_go_0|].
  assert (x `div` 10 < x)%N by (apply N.div_lt; lia).
  rewrite pretty_N_go_step by lia. rewrite IH by done. cbn [parse_digits].
  pose proof (N.mod_lt x 10 ltac:(lia)). rewrite digit_of_char by done. cbn. f_equal.
  pose proof (N.div_mod x 10 ltac:(lia)). lia.
Qed.

(** A number printed reads back. *)
Lemma parse_pretty max n : (0 <= n <= max)%Z -> parse_unsigned max (pretty n) = Some n.
Proof.
  intros Hn. unfold parse_unsigned.
  destruct (decide (n = 0)%Z) as [->|Hz].
  { destruct max; [done|done|lia]. }
  destruct n as [|p|]; [done| |lia].
  change (pretty (Z.pos p)) with (pretty (N.pos p)).
  assert (pretty (N.pos p) = pretty_N_go (N.pos p) "") as -> by done.
  assert (parse_digits 0 (pretty_N_go (N.pos p) "") = Some (Z.pos p)) as E by apply parse_digits_go.
  destruct (pretty_N_go (N.pos p) "") as [|c s] eqn:Es; [done|].
  assert (c <> "+"%char) as Hc.
  { intros ->. done. }
  assert ((match String c s with String "+" s' => s' | _ => String c s end) = String c s) as ->.
  { clear -Hc. destruct c as [[] [] [] [] [] [] [] []]; done. }
  rewrite E. cbn [String.eqb mbind option_bind]. by replace (Z.pos p <=? max)%Z with true by lia.
Qed.

(** ** Digits are not trimmed *)

Definition digit_byte (c : ascii) : bool := let n := nat_of_ascii c in (48 <=? n) && (n <=? 57).

Lemma digit_no_space c : digit_byte c = true -> is_whitespace (String c "") = false /\ is_utf8_cont c = false.
Proof. destruct c as [[] [] [] [] [] [] [] []]; vm_compute; done. Qed.

Lemma drop_while_none {A} (p : A -> bool) l : Forall (fun x => p x = false) l -> drop_while p l = l.
Proof. intros [|x l' E _]; simpl; [done|by rewrite E]. Qed.

Lemma trim_digits s : str_all digit_byte s = true -> trim s = s.
Proof.
  intros D. assert (chars s = singles s) as E.
  { apply chars_single. eapply str_all_impl; [|exact D]. intros c Hc. by rewrite (proj2 (digit_no_space c Hc)). }
  assert (Forall (fun x => is_whitespace x = false) (chars s)) as F.
  { rewrite E. unfold singles. clear E. induction s as [|c s IH]; simpl in *; [constructor|].
    apply andb_true_iff in D as [Hc D]. constructor; [exact (proj1 (digit_no_space c Hc))|by apply IH]. }
  rewrite <- (chars_concat (trim s)), chars_trim. unfold trim_list.
  rewrite (drop_while_none is_whitespace (chars s) F), (drop_while_none is_whitespace (rev (chars s))) by (by apply Forall_rev).
  by rewrite rev_involutive, chars_concat.
Qed.

Lemma digits_pretty n : (0 <= n)%Z -> str_all digit_byte (pretty n) = true.
Proof.
  intros Hn. destruct n as [|p|]; [done| |done].
  assert (forall x s, str_all digit_byte s = true -> str_all digit_byte (pretty_N_go x s) = true) as G.
  { intros x. induction (N.lt_wf_0 x) as [x _ IH]. intros s Hs.
    destruct (decide (x = 0%N)) as [->|Hx]; [by rewrite pretty_N_go_0|].
    rewrite pretty_N_go_step by lia. apply IH; [by apply N.div_lt; lia|]. cbn [str_all]. apply andb_true_iff. split; [|done].
    pose proof (N.mod_lt x 10 ltac:(lia)) as Hm. generalize dependent (x `mod` 10)%N. intros y Hy.
    assert (y ∈ [0; 1; 2; 3; 4; 5; 6; 7; 8; 9])%N as Hin by (rewrite !elem_of_cons; lia). clear Hy.
    repeat (apply elem_of_cons in Hin as [->|Hin]; [reflexivity|]). by apply not_elem_of_nil in Hin. }
  assert (pretty (Z.pos p) = pretty_N_go (N.pos p) "") as -> by done. by apply G.
Qed.

(** A signed number printed reads back. *)
Lemma parse_pretty_i64 n : (i64_min <= n <= i64_max)%Z -> parse_i64 (pretty n) = Some n.
Proof.
  intros Hn. destruct (decide (0 <= n)%Z) as [H|H].
  - pose proof (digits_pretty n H) as D. pose proof (parse_pretty i64_max n) as P. unfold parse_i64.
    destruct (pretty n) as [|c s]; [by specialize (P ltac:(lia))|]. cbn [str_all] in D. apply andb_true_iff in D as [D _].
    destruct c as [[] [] [] [] [] [] [] []]; try (apply P; lia). vm_compute in D; discriminate.
  - destruct n as [|p|p]; [lia|lia|]. change (pretty (Z.neg p)) with (String "-" (pretty (N.pos p))).
    assert (pretty (N.pos p) = pretty_N_go (N.pos p) "") as -> by done. unfold parse_i64.
    assert (parse_digits 0 (pretty_N_go (N.pos p) "") = Some (Z.pos p)) as E by apply parse_digits_go.
    rewrite E. destruct (pretty_N_go (N.pos p) "") as [|c s]; [done|]. cbn [String.eqb mbind option_bind].
    by replace (i64_min <=? - Z.pos p)%Z with true by lia.
Qed.

Lemma trimmed_pretty n : (0 <= n)%Z -> trimmed (Some (pretty n)) = Some (pretty n).
Proof.
  intros Hn. unfold trimmed, non_empty. cbn [fmap option_fmap option_map mbind option_bind].
  rewrite trim_digits by (by apply digits_pretty).
  destruct (String.eqb_spec (pretty n) "") as [E|]; [|done].
  pose proof (parse_pretty (Z.max n 0) n ltac:(lia)) as P. rewrite E in P. done.
Qed.

Example parse_signs :
  parse_unsigned u64_max "+7" = Some 7%Z /\ parse_unsigned u64_max "-7" = None
  /\ parse_i64 "-9223372036854775808" = Some i64_min /\ parse_i64 "9223372036854775808" = None
  /\ parse_i64 "-" = None /\ parse_unsigned u32_max "4294967296" = None.
Proof. vm_compute. done. Qed.

Example pointers :
  json_pointer "/a~1b/1" (jobject [("a/b", JArr [JNull; JBool true])]) = Some (JBool true)
  /\ json_pointer "/a/01" (jobject [("a", JArr [JNull; JNull])]) = None
  /\ json_pointer "a" (jobject [("a", JNull)]) = None.
Proof. vm_compute. done. Qed.

#[export] Hint Rewrite parse_pretty using lia : rust.
