(* ===== verification/ConfigStore.v ===== *)
(** Configuration ([crates/config/src/config_override.rs], [migration.rs] and the
    config RPCs of [crates/gateway-core/src/http.rs]): layered overrides, version
    migration, the deep merge of JSON patches and the patch handler.

    A configuration document is a [json] value.  The settings type is opaque to
    the handler: it only uses its derived serialisation, which is a parameter. *)

From Stdlib Require Import Strings.String.
From S2P Require Import Prelude RustStr F64 Json.
#[local] Open Scope string_scope.
#[local] Open Scope nat_scope.
#[local] Open Scope list_scope.

(** * Layered overrides *)

Record ConfigOverride := {
  co_system_prompt : option string;
  co_model : option string;
  co_temperature : option f64;
  co_max_tokens : option Z;
  co_tools : option (list string);
}.

Definition ConfigOverride_default : ConfigOverride := {|
  co_system_prompt := None; co_model := None; co_temperature := None; co_max_tokens := None;
  co_tools := None |}.

(** [self.merge(other)]: the fields of [other] win. *)
Definition merge (self other : ConfigOverride) : ConfigOverride := {|
  co_system_prompt := or_else (co_system_prompt other) (co_system_prompt self);
  co_model := or_else (co_model other) (co_model self);
  co_temperature := or_else (co_temperature other) (co_temperature self);
  co_max_tokens := or_else (co_max_tokens other) (co_max_tokens self);
  co_tools := or_else (co_tools other) (co_tools self) |}.

Record OverrideResolver := {
  account_overrides : gmap string ConfigOverride;
  channel_overrides : gmap string ConfigOverride;
}.

Definition OverrideResolver_new : OverrideResolver := {|
  account_overrides := ∅; channel_overrides := ∅ |}.

Definition set_account_override (account_id : string) (ovr : ConfigOverride) (r : OverrideResolver)
  : OverrideResolver := {|
  account_overrides := <[account_id := ovr]> (account_overrides r);
  channel_overrides := channel_overrides r |}.

Definition set_channel_override (channel : string) (ovr : ConfigOverride) (r : OverrideResolver)
  : OverrideResolver := {|
  account_overrides := account_overrides r;
  channel_overrides := <[channel := ovr]> (channel_overrides r) |}.

(** Base, then account, then channel. *)
Definition resolve (r : OverrideResolver) (base : ConfigOverride)
    (account_id channel : option string) : ConfigOverride :=
  let result := match account_id ≫= fun aid => account_overrides r !! aid with
                | Some acct => merge base acct
                | None => base
                end in
  match channel ≫= fun ch => channel_overrides r !! ch with
  | Some ch_ovr => merge result ch_ovr
  | None => result
  end.

(** * Migration *)

Record ConfigMigration := {
  from_version : Z;
  to_version : Z;
  migrate_fn : json -> json;
}.

(** The built-in step: [llm] becomes [models], unless there are models already. *)
Definition rename_llm (v : json) : json :=
  match v with
  | JObj obj =>
      match bt_get "llm" obj with
      | Some llm =>
          let obj := bt_remove "llm" obj in
          JObj (match bt_get "models" obj with Some _ => obj | None => bt_insert "models" llm obj end)
      | None => v
      end
  | _ => v
  end.

Definition register_builtins : list ConfigMigration :=
  [{| from_version := 1; to_version := 2; migrate_fn := rename_llm |}].

(** [max().unwrap_or(1)] *)
Definition current_version (ms : list ConfigMigration) : Z :=
  match ms with
  | [] => 1
  | m :: ms => foldl (fun a m => Z.max a (to_version m)) (to_version m) ms
  end.

Definition extract_version (config : json) : Z :=
  wrap_u32 (default 1%Z ((get "meta" config ≫= get "configVersion") ≫= as_u64)).

Definition needs_migration (ms : list ConfigMigration) (config : json) : bool :=
  (extract_version config <? current_version ms)%Z.

(** The loop of [migrate]: every registered step once, in order. *)
Definition run_steps (ms : list ConfigMigration) (config : json) (from : Z) : json * Z :=
  foldl (fun s m => if (from_version m =? s.2)%Z then (migrate_fn m s.1, to_version m) else s)
        (config, from) ms.

(** The new version is stamped where there is, or can be, a [meta] object. *)
Definition stamp_version (current : Z) (config : json) : json :=
  match config with
  | JObj obj =>
      match default (JObj []) (bt_get "meta" obj) with
      | JObj meta => JObj (bt_insert "meta" (JObj (bt_insert "configVersion" (JInt current) meta)) obj)
      | _ => config
      end
  | _ => config
  end.

Definition migrate (ms : list ConfigMigration) (config : json) (from : Z) : json :=
  let '(config, current) := run_steps ms config from in stamp_version current config.

(** * Patches *)

Fixpoint deep_merge_json (base patch : json) {struct patch} : json :=
  match patch with
  | JObj patch_map =>
      match base with
      | JObj base_map =>
          JObj ((fix go (bm pm : list (string * json)) {struct pm} :=
                   match pm with
                   | [] => bm
                   | (k, v) :: pm' =>
                       go (match bt_get k bm with
                           | Some existing => bt_insert k (deep_merge_json existing v) bm
                           | None => bt_insert k v bm
                           end) pm'
                   end) base_map patch_map)
      | _ => patch
      end
  | _ => patch
  end.

Definition json_value_truthy (v : json) : bool :=
  match v with
  | JNull => false
  | JBool b => b
  | JInt z => negb (z =? 0)%Z
  | JFloat x => match x with SpecFloat.S754_zero _ => false | _ => true end
  | JStr s => negb (String.eqb (trim s) "")
  | JArr l => match l with [] => false | _ => true end
  | JObj m => match m with [] => false | _ => true end
  end.

(** [path.split('.')]: empty segments are skipped. *)
Fixpoint path_truthy_go (cur : json) (segs : list string) : bool :=
  match segs with
  | [] => json_value_truthy cur
  | raw :: segs' =>
      let seg := trim raw in
      if String.eqb seg "" then path_truthy_go cur segs'
      else match get seg cur with
           | Some next => path_truthy_go next segs'
           | None => false
           end
  end.
Definition config_path_truthy (root : json) (path : string) : bool :=
  path_truthy_go root (split_char (byte 46) path).

(** ** The patch handler *)

(** [ErrorDetails] of [rpc_error]: a code and a message. *)
Record RpcError := { re_code : string; re_message : string }.
Definition rpc_error (code message : string) : RpcError := {| re_code := code; re_message := message |}.
Abbreviation RpcResult := (result json RpcError).

Section Handler.
Context {Config : Type}.
(** The derived [Serialize] and [Deserialize] of [settings::Config]. *)
Variable to_value : Config -> result json string.
Variable from_value : json -> result Config string.

Record ConfigState := {
  full_config : option Config;
  has_config_path : bool;
  config_file : option Config;
}.

Definition with_config (c : Config) (s : ConfigState) : ConfigState := {|
  full_config := Some c; has_config_path := has_config_path s; config_file := config_file s |}.
Definition with_file (c : Config) (s : ConfigState) : ConfigState := {|
  full_config := full_config s; has_config_path := has_config_path s; config_file := Some c |}.

(** [write] is the outcome of the file write; the file holds a configuration's text. *)
Definition persist_full_config (write : result unit string) (s : ConfigState)
  : result unit RpcError * ConfigState :=
  match full_config s, has_config_path s with
  | Some c, true =>
      match to_value c with
      | Err e => (Err (rpc_error "INTERNAL" e), s)
      | Ok _ =>
          match write with
          | Ok tt => (Ok tt, with_file c s)
          | Err e => (Err (rpc_error "INTERNAL" ("Failed to write config: " +:+ e)), s)
          end
      end
  | _, _ => (Ok tt, s)
  end.

Definition rpc_config_get (s : ConfigState) : RpcResult :=
  match full_config s with
  | None => Err (rpc_error "NO_CONFIG" "No configuration loaded")
  | Some c => match to_value c with Ok v => Ok v | Err e => Err (rpc_error "INTERNAL" e) end
  end.

Definition rpc_config_set (p : json) (write : result unit string) (s : ConfigState)
  : RpcResult * ConfigState :=
  match full_config s with
  | None => (Err (rpc_error "NO_CONFIG" "No configuration loaded"), s)
  | Some _ =>
      match from_value p with
      | Err e => (Err (rpc_error "INVALID_PARAMS" ("Invalid config: " +:+ e)), s)
      | Ok c =>
          match persist_full_config write (with_config c s) with
          | (Ok _, s) => (Ok (jobject [("updated", JBool true)]), s)
          | (Err e, s) => (Err e, s)
          end
      end
  end.

Definition rpc_config_patch (p : json) (write : result unit string) (s : ConfigState)
  : RpcResult * ConfigState :=
  match full_config s with
  | None => (Err (rpc_error "NO_CONFIG" "No configuration loaded"), s)
  | Some cfg =>
      let patch := default p (get "patch" p) in
      if negb (is_object patch) then
        (Err (rpc_error "INVALID_PARAMS" "config.patch expects an object or { patch: object }"), s)
      else
        match to_value cfg with
        | Err e => (Err (rpc_error "INTERNAL" e), s)
        | Ok current =>
            let current_json := deep_merge_json current patch in
            match from_value current_json with
            | Err e => (Err (rpc_error "INVALID_PARAMS" ("Patch invalid: " +:+ e)), s)
            | Ok next =>
                match persist_full_config write (with_config next s) with
                | (Ok _, s) =>
                    (Ok (jobject [("updated", JBool true); ("method", JStr "patch");
                                  ("config", current_json)]), s)
                | (Err e, s) => (Err e, s)
                end
            end
        end
  end.
End Handler.

(** * Lemmas *)

Lemma deep_merge_obj bm pm :
  deep_merge_json (JObj bm) (JObj pm)
  = JObj (foldl (fun bm kv => bt_insert kv.1
            match bt_get kv.1 bm with
            | Some existing => deep_merge_json existing kv.2
            | None => kv.2
            end bm) bm pm).
Proof.
  cbn. f_equal. revert bm. induction pm as [|[k v] pm IH]; intros bm; [done|].
  cbn. rewrite IH. by destruct (bt_get k bm).
Qed.

Definition merged (o : option json) (v : json) : json :=
  match o with Some e => deep_merge_json e v | None => v end.

Lemma merge_fold_spec pm bm :
  bt_sorted pm -> bt_sorted bm ->
  let r := foldl (fun bm (kv : string * json) => bt_insert kv.1 (merged (bt_get kv.1 bm) kv.2) bm) bm pm in
  bt_sorted r /\
  forall k, bt_get k r = match bt_get k pm with
                         | Some v => Some (merged (bt_get k bm) v)
                         | None => bt_get k bm
                         end.
Proof.
  intros Hp. revert bm. induction Hp as [|[k1 v1] pm Hs IH HF]; intros bm Hb; [done|].
  destruct (IH (bt_insert k1 (merged (bt_get k1 bm) v1) bm)) as [Hr Hg]; [by apply bt_insert_sorted|].
  split; [exact Hr|]. intros k. cbn [foldl]. simpl in Hg |- *. rewrite Hg, bt_get_insert by done.
  destruct (String.eqb_spec k k1) as [->|]; [|done].
  by rewrite (bt_get_None_lt k1 pm).
Qed.

Lemma deep_merge_get bm pm k :
  bt_sorted bm -> bt_sorted pm ->
  get k (deep_merge_json (JObj bm) (JObj pm))
  = match bt_get k pm with
    | Some v => Some (merged (bt_get k bm) v)
    | None => bt_get k bm
    end.
Proof. intros Hb Hp. rewrite deep_merge_obj. unfold get. simpl. by apply merge_fold_spec. Qed.

Lemma deep_merge_sorted bm pm :
  bt_sorted bm -> bt_sorted pm ->
  exists m, deep_merge_json (JObj bm) (JObj pm) = JObj m /\ bt_sorted m.
Proof. intros Hb Hp. rewrite deep_merge_obj. eexists. split; [done|]. by apply merge_fold_spec. Qed.

Lemma Forall_bt_get (P : json -> Prop) m :
  bt_sorted m -> Forall (fun kv => P kv.2) m <-> forall k v, bt_get k m = Some v -> P v.
Proof.
  intros Hs. rewrite Forall_forall. split.
  - intros H k v Hg. apply bt_get_elem in Hg; [|done]. by apply (H (k, v)).
  - intros H [k v] Hin. apply (H k v). by apply bt_get_elem.
Qed.

Lemma Forall_bt_get_1 (P : json -> Prop) m :
  bt_sorted m -> Forall (fun kv => P kv.2) m -> forall k v, bt_get k m = Some v -> P v.
Proof. intros Hs HF. by apply Forall_bt_get. Qed.

Lemma deep_merge_wf patch : forall base, wf base -> wf patch -> wf (deep_merge_json base patch).
Proof.
  induction patch as [| | | | | |pm IH] using json_ind'; intros base Hb Hp; try done.
  destruct base as [| | | | | |bm]; try done.
  apply wf_obj in Hb as [Hbs Hbw]. pose proof Hp as [Hps Hpw]%wf_obj.
  destruct (deep_merge_sorted bm pm Hbs Hps) as (m & Hm & Hs). rewrite Hm.
  apply wf_obj. split; [done|]. apply (Forall_bt_get wf); [done|]. intros k v Hg.
  change (bt_get k m) with (get k (JObj m)) in Hg. rewrite <- Hm, deep_merge_get in Hg by done.
  pose proof (Forall_bt_get_1 _ _ Hbs Hbw) as Hb'. pose proof (Forall_bt_get_1 _ _ Hps Hpw) as Hp'.
  destruct (bt_get k pm) as [pv|] eqn:Ep; [|by eapply Hb'].
  injection Hg as <-. unfold merged. destruct (bt_get k bm) as [e|] eqn:Eb; [|by eapply Hp'].
  apply (Forall_bt_get_1 (fun v => forall base, wf base -> wf v -> wf (deep_merge_json base v))
    pm Hps IH k pv Ep); [by apply (Hb' k) | by apply (Hp' k)].
Qed.

Lemma deep_merge_self v : wf v -> deep_merge_json v v = v.
Proof.
  induction v as [| | | | | |m IH] using json_ind'; try done. intros [Hs Hw]%wf_obj.
  destruct (deep_merge_sorted m m Hs Hs) as (m' & Hm' & Hs'). rewrite Hm'. f_equal.
  apply bt_ext; [done..|]. intros k. change (bt_get k m') with (get k (JObj m')).
  rewrite <- Hm', deep_merge_get by done. destruct (bt_get k m) as [v|] eqn:E; [|done].
  simpl. f_equal. apply (Forall_bt_get_1 (fun v => wf v -> deep_merge_json v v = v) m Hs IH k v E).
  by apply (Forall_bt_get_1 wf m Hs Hw k).
Qed.

Lemma deep_merge_twice patch : forall base,
  wf base -> wf patch ->
  deep_merge_json (deep_merge_json base patch) patch = deep_merge_json base patch.
Proof.
  induction patch as [| | | | | |pm IH] using json_ind'; intros base Hb Hp; try done.
  destruct base as [| | | | | |bm]; try by apply (deep_merge_self (JObj pm)).
  apply wf_obj in Hb as [Hbs Hbw]. apply wf_obj in Hp as [Hps Hpw].
  destruct (deep_merge_sorted bm pm Hbs Hps) as (m & Hm & Hs). rewrite Hm.
  destruct (deep_merge_sorted m pm Hs Hps) as (m' & Hm' & Hs'). rewrite Hm'. f_equal.
  apply bt_ext; [done..|]. intros k. change (bt_get k m') with (get k (JObj m')).
  rewrite <- Hm', deep_merge_get by done. change (bt_get k m) with (get k (JObj m)).
  rewrite <- Hm, deep_merge_get by done.
  destruct (bt_get k pm) as [pv|] eqn:Ep; [|done]. f_equal.
  pose proof (Forall_bt_get_1 wf pm Hps Hpw k pv Ep) as Hpv. unfold merged.
  destruct (bt_get k bm) as [e|] eqn:Eb; [|by apply deep_merge_self].
  apply (Forall_bt_get_1 (fun v => forall base, wf base -> wf v ->
    deep_merge_json (deep_merge_json base v) v = deep_merge_json base v) pm Hps IH k pv Ep); [|done].
  by apply (Forall_bt_get_1 wf bm Hbs Hbw k).
Qed.

(** ** Migration *)

Lemma rename_llm_wf v : wf v -> wf (rename_llm v).
Proof.
  destruct v as [| | | | | |obj]; try done. intros Hw. pose proof Hw as [Hs HF]%wf_obj. simpl.
  destruct (bt_get "llm" obj) as [llm|] eqn:E; [|done].
  assert (Forall (fun kv => wf kv.2) (bt_remove "llm" obj)) as HF'.
  { apply Forall_forall. intros x Hx%bt_remove_elem. rewrite Forall_forall in HF. by apply HF. }
  destruct (bt_get "models" _); apply wf_obj; (split; [by auto using bt_insert_sorted, bt_remove_sorted|]); [done|].
  apply Forall_forall. intros x [->|Hx]%bt_insert_elem.
  - by apply (Forall_bt_get_1 wf obj Hs HF "llm").
  - rewrite Forall_forall in HF'. by apply HF'.
Qed.

Definition meta_stampable (config : json) : Prop :=
  match config with
  | JObj obj => is_object (default (JObj []) (bt_get "meta" obj)) = true
  | _ => False
  end.

Lemma rename_llm_get k v :
  wf v -> k <> "llm" -> k <> "models" -> get k (rename_llm v) = get k v.
Proof.
  destruct v as [| | | | | |obj]; try done. intros [Hs _]%wf_obj H1 H2. simpl.
  destruct (bt_get "llm" obj) as [llm|] eqn:E; [|done]. unfold get.
  assert (bt_sorted (bt_remove "llm" obj)) as Hs' by by apply bt_remove_sorted.
  assert (bt_get k (bt_remove "llm" obj) = bt_get k obj) as Hk.
  { rewrite bt_get_remove by done. by destruct (String.eqb_spec k "llm"). }
  destruct (bt_get "models" _); simpl; [done|].
  rewrite bt_get_insert by done. by destruct (String.eqb_spec k "models").
Qed.

Lemma rename_llm_gone v : wf v -> get "llm" (rename_llm v) = None.
Proof.
  destruct v as [| | | | | |obj]; try done. intros [Hs _]%wf_obj. simpl.
  destruct (bt_get "llm" obj) as [llm|] eqn:E; [|done]. unfold get.
  pose proof (bt_remove_sorted "llm" obj Hs) as Hs'.
  assert (bt_get "llm" (bt_remove "llm" obj) = None) as Hl by by rewrite bt_get_remove.
  destruct (bt_get "models" _); simpl; [done|]. by rewrite bt_get_insert.
Qed.

Lemma stamp_version_get current config :
  wf config -> meta_stampable config -> is_u32 current ->
  extract_version (stamp_version current config) = current /\
  forall k, k <> "meta" -> get k (stamp_version current config) = get k config.
Proof.
  destruct config as [| | | | | |obj]; try done. intros [Hs HF]%wf_obj Hm Hc. simpl in *.
  assert (forall meta, default (JObj []) (bt_get "meta" obj) = JObj meta -> bt_sorted meta) as Hmeta.
  { intros meta. destruct (bt_get "meta" obj) as [x|] eqn:E; simpl; [|intros [= <-]; constructor].
    intros ->. by apply (Forall_bt_get_1 wf obj Hs HF), wf_obj in E as [? _]. }
  destruct (default (JObj []) (bt_get "meta" obj)) as [| | | | | |meta]; try done.
  specialize (Hmeta meta eq_refl). unfold extract_version, get. simpl. split.
  - rewrite bt_get_insert, String.eqb_refl by done. simpl.
    rewrite bt_get_insert, String.eqb_refl by done. simpl.
    unfold is_u32, u32_max in Hc. rewrite (proj2 (Z.leb_le 0%Z current)) by lia. simpl.
    apply Z.mod_small. lia.
  - intros k Hk. rewrite bt_get_insert by done. by destruct (String.eqb_spec k "meta").
Qed.

Lemma bt_insert_same {A} k (v : A) m : bt_sorted m -> bt_get k m = Some v -> bt_insert k v m = m.
Proof.
  intros Hs Hg. apply bt_ext; [by apply bt_insert_sorted | done |]. intros k'.
  rewrite bt_get_insert by done. by destruct (String.eqb_spec k' k) as [->|].
Qed.

Lemma stamp_version_twice current config :
  wf config -> stamp_version current (stamp_version current config) = stamp_version current config.
Proof.
  destruct config as [| | | | | |obj]; try done. intros [Hs HF]%wf_obj. simpl.
  destruct (default (JObj []) (bt_get "meta" obj)) as [| | | | | |meta] eqn:E; simpl; try by rewrite E.
  rewrite bt_get_insert, String.eqb_refl by done. simpl.
  assert (bt_sorted meta) as Hm.
  { destruct (bt_get "meta" obj) as [x|] eqn:Em; simpl in E; simplify_eq; [|constructor].
    by apply (Forall_bt_get_1 wf obj Hs HF), wf_obj in Em as [? _]. }
  rewrite (bt_insert_same "configVersion" (JInt current) (bt_insert _ _ meta)).
  - rewrite (bt_insert_same "meta" _ (bt_insert _ _ obj)); [done | by apply bt_insert_sorted |].
    by rewrite bt_get_insert, String.eqb_refl.
  - by apply bt_insert_sorted.
  - by rewrite bt_get_insert, String.eqb_refl.
Qed.

Lemma rename_llm_meta config :
  wf config -> meta_stampable config -> meta_stampable (rename_llm config).
Proof.
  intros Hw Hm. pose proof (rename_llm_get "meta" config Hw ltac:(done) ltac:(done)) as Hg.
  destruct config as [| | | | | |obj]; try done. simpl in *.
  destruct (bt_get "llm" obj); [|done].
  destruct (bt_get "models" _); unfold get in Hg; simpl in *; by rewrite Hg.
Qed.

Lemma extract_version_range config : is_u32 (extract_version config).
Proof.
  unfold is_u32, u32_max, extract_version, wrap_u32.
  pose proof (Z.mod_pos_bound (default 1%Z ((get "meta" config ≫= get "configVersion") ≫= as_u64))
    4294967296). lia.
Qed.

Lemma run_builtins config from :
  run_steps register_builtins config from
  = if (from =? 1)%Z then (rename_llm config, 2%Z) else (config, from).
Proof. unfold run_steps. simpl. rewrite Z.eqb_sym. by destruct (from =? 1)%Z. Qed.

(** * Properties *)

(** C38. Patching keeps documents well formed and is a keyed merge: under an
    object patch, a key the patch names holds the patch's value merged into the
    old one, every other key keeps its value; a patch that is not an object, or
    meets a base that is not one, replaces it; and applying a patch a second time
    changes nothing. *)
Theorem deep_merge_laws base patch :
  wf base -> wf patch ->
  wf (deep_merge_json base patch) /\
  deep_merge_json (deep_merge_json base patch) patch = deep_merge_json base patch /\
  match is_object base && is_object patch with
  | true => forall k, get k (deep_merge_json base patch)
                    = match get k patch, get k base with
                      | Some v, Some old => Some (deep_merge_json old v)
                      | Some v, None => Some v
                      | None, o => o
                      end
  | false => deep_merge_json base patch = patch
  end.
Proof.
  intros Hb Hp. split_and!; [by apply deep_merge_wf | by apply deep_merge_twice |].
  destruct base as [| | | | | |bm], patch as [| | | | | |pm]; try done. simpl is_object. intros k.
  apply wf_obj in Hb as [Hb _]. apply wf_obj in Hp as [Hp _].
  rewrite deep_merge_get by done. unfold get. simpl.
  by destruct (bt_get k pm), (bt_get k bm).
Qed.

Definition sample_config : json :=
  jobject [("gateway", jobject [("port", JInt 3000); ("bind", JStr "lo")]); ("cron", JBool true)].
Definition sample_patch : json := jobject [("gateway", jobject [("port", JInt 4000)])].

Lemma sample_config_wf : wf sample_config /\ wf sample_patch.
Proof. split; apply wfb_wf; reflexivity. Qed.

Lemma deep_merge_laws_witness :
  wf sample_config /\ wf sample_patch /\
  deep_merge_json (deep_merge_json sample_config sample_patch) sample_patch
  = jobject [("gateway", jobject [("port", JInt 4000); ("bind", JStr "lo")]); ("cron", JBool true)].
Proof.
  destruct sample_config_wf as [H1 H2]. split; [exact H1|]. split; [exact H2|].
  rewrite (proj1 (proj2 (deep_merge_laws sample_config sample_patch H1 H2))). reflexivity.
Defined.



(** Migrating a well-formed document from the version it declares, where the
    version can be stamped, settles it: the document declares the version reached,
    it needs no further migration unless it declared version 0, every key but
    [llm], [models] and [meta] keeps its value, a version 1 document has no [llm]
    key left, and a second migration changes nothing. *)
Theorem migrate_settles config :
  wf config -> meta_stampable config ->
  let ms := register_builtins in
  let out := migrate ms config (extract_version config) in
  needs_migration ms out = (extract_version config =? 0)%Z /\
  extract_version out = (if (extract_version config =? 1)%Z then 2 else extract_version config)%Z /\
  (forall k, k <> "llm" -> k <> "models" -> k <> "meta" -> get k out = get k config) /\
  (extract_version config = 1%Z -> get "llm" out = None) /\
  migrate ms out (extract_version out) = out.
Proof.
  intros Hw Hm. cbv zeta. set (v := extract_version config).
  pose proof (extract_version_range config) as Hv. fold v in Hv.
  set (out := migrate register_builtins config v).
  assert (exists c n, out = stamp_version n c /\ wf c /\ meta_stampable c /\ is_u32 n /\ n = (if (v =? 1)%Z then 2 else v)%Z /\
            (v = 1%Z -> get "llm" c = None) /\
            forall k, k <> "llm" -> k <> "models" -> get k c = get k config)
    as (c & n & Hout & Hcw & Hcm & Hn & Hnv & Hl & Hck).
  { unfold out, migrate. rewrite run_builtins.
    destruct (v =? 1)%Z eqn:E; do 2 eexists; (split; [done|]).
    - split_and!; [by apply rename_llm_wf | by apply rename_llm_meta | done | done | |].
      + intros _. by apply rename_llm_gone.
      + intros. by apply rename_llm_get.
    - apply Z.eqb_neq in E. by split_and!. }
  clearbody out. subst out. destruct (stamp_version_get n c Hcw Hcm Hn) as [He Hk].
  split_and!.
  - unfold needs_migration. rewrite He. simpl. rewrite Hnv. unfold is_u32, u32_max in Hv.
    destruct (Z.eqb_spec v 1) as [->|]; [done|].
    destruct (Z.eqb_spec v 0) as [->|]; [done|]. apply Z.ltb_ge. lia.
  - by rewrite He.
  - intros k ???. rewrite Hk by done. by apply Hck.
  - intros H1. rewrite Hk by done. by apply Hl.
  - rewrite He. unfold migrate. rewrite run_builtins.
    replace (n =? 1)%Z with false; [by apply stamp_version_twice|].
    rewrite Hnv. destruct (Z.eqb_spec v 1); symmetry; by apply Z.eqb_neq.
Qed.

Definition sample_v1 : json := jobject [("llm", JStr "openai"); ("gateway", JInt 1)].

Lemma migrate_settles_witness :
  wf sample_v1 /\ meta_stampable sample_v1 /\
  needs_migration register_builtins
    (migrate register_builtins sample_v1 (extract_version sample_v1)) = false.
Proof.
  assert (wf sample_v1) as Hw by (apply wfb_wf; reflexivity).
  split; [exact Hw|]. split; [reflexivity|].
  rewrite (proj1 (migrate_settles sample_v1 Hw eq_refl)). reflexivity.
Defined.

(** The whole sequence of layers is a field-wise choice: the channel's value,
    else the account's, else the base's. *)
Lemma resolve_model r base account_id channel :
  co_model (resolve r base account_id channel)
  = or_else (channel ≫= fun ch => channel_overrides r !! ch ≫= co_model)
      (or_else (account_id ≫= fun aid => account_overrides r !! aid ≫= co_model) (co_model base)).
Proof.
  unfold resolve. destruct account_id as [aid|], channel as [ch|]; simpl;
    try destruct (account_overrides r !! aid) as [a|]; try destruct (channel_overrides r !! ch) as [c|];
    simpl; try done.
Qed.

Lemma or_else_assoc {A} (x y z : option A) : or_else x (or_else y z) = or_else (or_else x y) z.
Proof. by destruct x. Qed.

Lemma merge_assoc a b c : merge (merge a b) c = merge a (merge b c).
Proof. unfold merge. simpl. by rewrite <- !or_else_assoc. Qed.

(** A [meta] that is not an object is never stamped: such a document needs
    migration for ever. *)
Example unstampable :
  needs_migration register_builtins
    (migrate register_builtins (jobject [("meta", JNull)]) 1) = true.
Proof. reflexivity. Qed.
