(* ===== verification/Sorting.v ===== *)
(** [slice::sort_by]: a stable sort by a comparison function.

    [Comparator] is the contract the standard library asks of the comparison: a
    total preorder.  The instances build comparisons as the code does, from keys,
    [reverse] and [then]. *)

From Stdlib Require Import Strings.String.
From S2P Require Import Prelude RustStr Json.
#[local] Open Scope nat_scope.
#[local] Open Scope list_scope.

Class Comparator {A} (cmp : A -> A -> comparison) : Prop := {
  cmp_opp x y : cmp y x = CompOpp (cmp x y);
  cmp_trans x y z : cmp x y <> Gt -> cmp y z <> Gt -> cmp x z <> Gt;
}.

(** [a.key().cmp(&b.key())] for an integer and for a string key. *)
Definition by_Z {A} (key : A -> Z) (a b : A) : comparison := Z.compare (key a) (key b).
Definition by_str {A} (key : A -> string) (a b : A) : comparison := String.compare (key a) (key b).
(** [b.cmp(a)] and [c1.then(c2)]. *)
Definition cmp_rev {A} (cmp : A -> A -> comparison) (a b : A) : comparison := cmp b a.
Definition cmp_then {A} (c1 c2 : A -> A -> comparison) (a b : A) : comparison :=
  match c1 a b with Eq => c2 a b | c => c end.

#[global] Typeclasses Opaque by_Z by_str cmp_rev cmp_then.

#[export] Instance by_Z_comparator {A} (key : A -> Z) : Comparator (by_Z key).
Proof.
  constructor; unfold by_Z; intros.
  - apply Z.compare_antisym.
  - by apply (Z.le_trans _ (key y)).
Qed.

#[export] Instance by_str_comparator {A} (key : A -> string) : Comparator (by_str key).
Proof.
  constructor; unfold by_str.
  - intros. apply String.compare_antisym.
  - intros x y z H1 H2 [=H3]. apply str_compare_gt in H3.
    destruct (String.compare (key x) (key y)) eqn:E1; try done;
      destruct (String.compare (key y) (key z)) eqn:E2; try done.
    + apply str_compare_eq in E1 as E1', E2 as E2'. rewrite E1', E2' in H3. by apply str_lt_irrefl in H3.
    + apply str_compare_eq in E1 as E1'. rewrite E1' in H3. fold (str_lt (key y) (key z)) in E2.
      by apply (str_lt_irrefl (key y)), (str_lt_trans _ (key z)).
    + apply str_compare_eq in E2 as E2'. rewrite <- E2' in H3. fold (str_lt (key x) (key y)) in E1.
      by apply (str_lt_irrefl (key x)), (str_lt_trans _ (key y)).
    + fold (str_lt (key x) (key y)) in E1. fold (str_lt (key y) (key z)) in E2.
      apply (str_lt_irrefl (key x)). by eapply str_lt_trans; [exact E1|]; eapply str_lt_trans.
Qed.

#[export] Instance cmp_rev_comparator {A} (cmp : A -> A -> comparison) `{Comparator A cmp} :
  Comparator (cmp_rev cmp).
Proof. constructor; unfold cmp_rev; intros; [apply cmp_opp | by eapply cmp_trans]. Qed.

#[export] Instance cmp_then_comparator {A} (c1 c2 : A -> A -> comparison)
  `{!Comparator c1, !Comparator c2} : Comparator (cmp_then c1 c2).
Proof.
  constructor; unfold cmp_then.
  - intros x y. rewrite (cmp_opp x y). destruct (c1 x y); simpl; [apply cmp_opp | done..].
  - intros x y z H1 H2.
    assert (c1 x y <> Gt) as L1 by by destruct (c1 x y).
    assert (c1 y z <> Gt) as L2 by by destruct (c1 y z).
    pose proof (cmp_trans x y z L1 L2) as L3.
    destruct (c1 x z) eqn:E; [|done..].
    assert (c1 z x <> Gt) as L4 by by rewrite (cmp_opp x z), E.
    pose proof (cmp_trans z x y L4 L1) as L5. pose proof (cmp_trans y z x L2 L4) as L6.
    rewrite (cmp_opp y z) in L5. rewrite (cmp_opp x y) in L6.
    destruct (c1 x y), (c1 y z); simpl in *; try done. by apply (cmp_trans x y z).
Qed.

Section SortBy.
Context {A : Type} (cmp : A -> A -> comparison).

(** [x] goes after the elements it is equal to. *)
Fixpoint insert_by (x : A) (l : list A) : list A :=
  match l with
  | [] => [x]
  | y :: l' => match cmp y x with Gt => x :: y :: l' | _ => y :: insert_by x l' end
  end.

Definition sort_by (l : list A) : list A := foldl (fun acc x => insert_by x acc) [] l.

Definition ordered (a b : A) : Prop := cmp a b <> Gt.

Lemma insert_by_perm x l : insert_by x l ≡ₚ x :: l.
Proof.
  induction l as [|y l IH]; simpl; [done|].
  destruct (cmp y x); [|..|done]; by rewrite IH, Permutation_swap.
Qed.

Lemma sort_by_perm l : sort_by l ≡ₚ l.
Proof.
  induction l as [|x l IH] using rev_ind; [done|].
  unfold sort_by. rewrite foldl_app. simpl. fold (sort_by l).
  rewrite insert_by_perm, IH. apply Permutation_cons_append.
Qed.

Context `{!Comparator cmp}.

Lemma insert_by_sorted x l : StronglySorted ordered l -> StronglySorted ordered (insert_by x l).
Proof.
  unfold ordered. induction 1 as [|y l Hs IH HF]; simpl; [by repeat constructor|].
  destruct (cmp y x) eqn:E.
  1,2: constructor; [done|]; apply Forall_forall; intros z; rewrite insert_by_perm, elem_of_cons;
    rewrite Forall_forall in HF; intros [->|Hz]; [by rewrite E | by apply HF].
  assert (cmp x y <> Gt) as Hxy by by rewrite (cmp_opp y x), E.
  constructor; [by constructor|]. constructor; [done|].
  eapply Forall_impl; [exact HF|]. intros z Hz. simpl in Hz. by eapply cmp_trans.
Qed.

Lemma sort_by_sorted l : StronglySorted ordered (sort_by l).
Proof.
  induction l as [|x l IH] using rev_ind; [constructor|].
  unfold sort_by. rewrite foldl_app. simpl. by apply insert_by_sorted.
Qed.

(** A sort leaves a sorted list alone. *)
Lemma insert_by_last x l :
  Forall (fun y => ordered y x) l -> insert_by x l = l ++ [x].
Proof.
  unfold ordered. induction 1 as [|y l Hy _ IH]; simpl; [done|].
  destruct (cmp y x); [by rewrite IH..|done].
Qed.
End SortBy.

Lemma elem_of_sort_by {A} (cmp : A -> A -> comparison) l x : x ∈ sort_by cmp l <-> x ∈ l.
Proof. by rewrite (sort_by_perm cmp l). Qed.

#[export] Hint Resolve sort_by_sorted sort_by_perm : rust.
