(* ===== verification/GatewayEvents.v ===== *)
(** System events of the gateway ([crates/gateway-core/src/http.rs], "System
    RPCs"): the per-session event queues, the pending heartbeat wakes, the
    presence table and the handlers that write them.

    Each table is behind a mutex held for the whole of an operation, and no
    operation panics while holding it, so the operations are functions on the
    tables and the "lock poisoned" errors do not arise.  A handler reads the clock
    once: [now] is in milliseconds.  A session's queue is removed when drained. *)

From Stdlib Require Import Strings.String.
From stdpp Require Import sorting.
From S2P Require Import Prelude RustStr Json Sorting ConfigStore.
#[local] Open Scope string_scope.
#[local] Open Scope nat_scope.
#[local] Open Scope list_scope.

Definition SYSTEM_PRESENCE_SELF_KEY : string := "gateway:self".
Definition SYSTEM_PRESENCE_TTL_MS : Z := (5 * 60 * 1000)%Z.
Definition SYSTEM_PRESENCE_MAX_ENTRIES : nat := 200.
Definition MAIN_SYSTEM_SESSION_KEY : string := "main".
Definition MAX_SYSTEM_EVENTS : nat := 20.
Definition DEFAULT_WAKE_REASON : string := "requested".

(** * Normalisation *)

Definition normalize_system_session_key (raw : option string) : string :=
  default MAIN_SYSTEM_SESSION_KEY (trimmed raw).
Definition normalize_context_key (raw : option string) : option string :=
  to_ascii_lowercase <$> trimmed raw.
Definition normalize_wake_target (raw : option string) : option string := trimmed raw.
Definition normalize_wake_reason (raw : option string) : string :=
  default DEFAULT_WAKE_REASON (trimmed raw).

Inductive WakeKind := KRetry | KInterval | KManual | KExecEvent | KWake | KCron | KHook | KOther.
#[export] Instance WakeKind_eq_dec : EqDecision WakeKind.
Proof. solve_decision. Defined.

Definition resolve_wake_reason_kind (reason : string) : WakeKind :=
  let t := trim reason in
  if eq_ignore_ascii_case t "retry" then KRetry
  else if eq_ignore_ascii_case t "interval" then KInterval
  else if eq_ignore_ascii_case t "manual" then KManual
  else if eq_ignore_ascii_case t "exec-event" then KExecEvent
  else if eq_ignore_ascii_case t "wake" then KWake
  else
    let lowered := to_ascii_lowercase t in
    if starts_with lowered "cron:" then KCron
    else if starts_with lowered "hook:" then KHook
    else KOther.

Definition is_action_wake_reason (reason : string) : bool :=
  match resolve_wake_reason_kind reason with KManual | KExecEvent | KHook => true | _ => false end.

Definition resolve_wake_reason_priority (reason : string) : Z :=
  match resolve_wake_reason_kind reason with
  | KRetry => 0
  | KInterval => 1
  | _ => if is_action_wake_reason reason then 3 else 2
  end.

Definition wake_target_key (agent_id session_key : option string) : string :=
  default "" agent_id +:+ "::" +:+ default "" session_key.

(** * Event queues *)

Record SystemEventEntry := {
  ev_text : string;
  ev_ts : Z;
  ev_context_key : option string;
}.

Record SessionSystemEventQueue := {
  sq_queue : list SystemEventEntry;
  sq_last_text : option string;
  sq_last_context_key : option string;
}.

Definition SessionSystemEventQueue_default : SessionSystemEventQueue := {|
  sq_queue := []; sq_last_text := None; sq_last_context_key := None |}.

Abbreviation EventQueues := (gmap string SessionSystemEventQueue).

Definition is_system_event_context_changed (session_key : string) (context_key : option string)
    (qs : EventQueues) : bool :=
  let previous := qs !! normalize_system_session_key (Some session_key) ≫= sq_last_context_key in
  negb (bool_decide (normalize_context_key context_key = previous)).

(** The section under the lock, for a cleaned text. *)
Definition push_event (cleaned : string) (context : option string) (now : Z)
    (q : SessionSystemEventQueue) : SessionSystemEventQueue :=
  if bool_decide (sq_last_text q = Some cleaned) then
    {| sq_queue := sq_queue q; sq_last_text := sq_last_text q; sq_last_context_key := context |}
  else
    {| sq_queue := lastn MAX_SYSTEM_EVENTS
         (sq_queue q ++ [{| ev_text := cleaned; ev_ts := now; ev_context_key := context |}]);
       sq_last_text := Some cleaned;
       sq_last_context_key := context |}.

Definition enqueue_system_event_entry (session_key text : string) (context_key : option string)
    (now : Z) (qs : EventQueues) : EventQueues :=
  let session := normalize_system_session_key (Some session_key) in
  let cleaned := trim text in
  if String.eqb cleaned "" then qs
  else <[session := push_event cleaned (normalize_context_key context_key) now
                      (default SessionSystemEventQueue_default (qs !! session))]> qs.

Definition drain_system_event_entries (session_key : string) (qs : EventQueues)
  : list SystemEventEntry * EventQueues :=
  let session := normalize_system_session_key (Some session_key) in
  match qs !! session with
  | None => ([], qs)
  | Some entry => (sq_queue entry, delete session qs)
  end.

(** * Pending wakes *)

Record PendingHeartbeatWake := {
  wk_reason : string;
  wk_priority : Z;
  wk_requested_at : Z;
  wk_agent_id : option string;
  wk_session_key : option string;
}.

Abbreviation Wakes := (gmap string PendingHeartbeatWake).

Definition mk_wake (reason agent_id session_key : option string) (now : Z) : PendingHeartbeatWake :=
  let r := normalize_wake_reason reason in {|
  wk_reason := r; wk_priority := resolve_wake_reason_priority r; wk_requested_at := now;
  wk_agent_id := normalize_wake_target agent_id; wk_session_key := normalize_wake_target session_key |}.

Definition wake_key (w : PendingHeartbeatWake) : string :=
  wake_target_key (wk_agent_id w) (wk_session_key w).

Definition replaces (next previous : PendingHeartbeatWake) : bool :=
  (wk_priority previous <? wk_priority next)%Z
  || ((wk_priority next =? wk_priority previous)%Z
      && (wk_requested_at previous <=? wk_requested_at next)%Z).

Definition queue_pending_heartbeat_wake (reason agent_id session_key : option string) (now : Z)
    (wakes : Wakes) : Wakes :=
  let next := mk_wake reason agent_id session_key now in
  match wakes !! wake_key next with
  | Some previous => if replaces next previous then <[wake_key next := next]> wakes else wakes
  | None => <[wake_key next := next]> wakes
  end.

(** Highest priority first, then the earliest request. *)
Definition wake_cmp : PendingHeartbeatWake -> PendingHeartbeatWake -> comparison :=
  cmp_then (cmp_rev (by_Z wk_priority)) (by_Z wk_requested_at).

#[export] Instance wake_cmp_comparator : Comparator wake_cmp.
Proof. unfold wake_cmp. apply _. Qed.

(** [values] is the hash map's iteration order. *)
Definition take_pending_heartbeat_wakes (values : Wakes -> list PendingHeartbeatWake) (wakes : Wakes)
  : list PendingHeartbeatWake * Wakes := (sort_by wake_cmp (values wakes), ∅).

(** * Presence *)

Record SystemPresenceEntry := {
  pr_host : option string;
  pr_ip : option string;
  pr_version : option string;
  pr_platform : option string;
  pr_device_family : option string;
  pr_model_identifier : option string;
  pr_last_input_seconds : option Z;
  pr_mode : option string;
  pr_reason : option string;
  pr_device_id : option string;
  pr_roles : option (list string);
  pr_scopes : option (list string);
  pr_instance_id : option string;
  pr_text : string;
  pr_ts : Z;
}.

Definition SystemPresenceEntry_default : SystemPresenceEntry := {|
  pr_host := None; pr_ip := None; pr_version := None; pr_platform := None; pr_device_family := None;
  pr_model_identifier := None; pr_last_input_seconds := None; pr_mode := None; pr_reason := None;
  pr_device_id := None; pr_roles := None; pr_scopes := None; pr_instance_id := None; pr_text := "";
  pr_ts := 0 |}.

Abbreviation Presence := (gmap string SystemPresenceEntry).

(** What the entry of the gateway itself reads from its environment. *)
Record SelfInfo := {
  env_computername : option string;
  env_hostname : option string;
  self_version : string;
  os_name : string;
  arch : string;
}.

Definition non_blank (o : option string) : option string :=
  o ≫= fun v => if String.eqb (trim v) "" then None else Some v.

(** The middle dot, as UTF-8. *)
Definition middot : string := chr2 194 183.

Definition build_self_system_presence_entry (info : SelfInfo) (now : Z) : SystemPresenceEntry :=
  let host := default "localhost" (or_else (non_blank (env_computername info))
                                           (non_blank (env_hostname info))) in
  let device_family := match os_name info with
    | "macos" => "Mac" | "windows" => "Windows" | "linux" => "Linux" | _ => "Unknown" end in {|
  pr_host := Some host; pr_ip := None; pr_version := Some (self_version info);
  pr_platform := Some (os_name info +:+ " " +:+ arch info);
  pr_device_family := Some device_family; pr_model_identifier := Some (arch info);
  pr_last_input_seconds := None; pr_mode := Some "gateway"; pr_reason := Some "self";
  pr_device_id := None; pr_roles := None; pr_scopes := None; pr_instance_id := None;
  pr_text := "Gateway: " +:+ host +:+ " " +:+ middot +:+ " app " +:+ self_version info +:+ " "
             +:+ middot +:+ " mode gateway " +:+ middot +:+ " reason self";
  pr_ts := now |}.

Definition normalize_presence_key (raw : option string) : option string :=
  to_ascii_lowercase <$> trimmed raw.
Definition read_presence_string (p : json) (key : string) : option string := trimmed (get_str key p).

(** [u64 as i64] *)
Definition wrap_i64 (z : Z) : Z :=
  ((z + 9223372036854775808) mod 18446744073709551616 - 9223372036854775808)%Z.
Definition read_presence_i64 (p : json) (key : string) : option Z :=
  or_else (get key p ≫= as_i64) (wrap_i64 <$> get_u64 key p).

Definition some_list {A} (l : list A) : option (list A) := match l with [] => None | _ => Some l end.

Definition read_presence_string_list (p : json) (key : string) : option (list string) :=
  some_list (default [] (trimmed_strings <$> (get key p ≫= as_array))).

(** The first spelling of each name, ignoring ASCII case. *)
Definition dedup_case (l : list string) : list string :=
  (foldl (fun '(merged, seen) item =>
            let key := to_ascii_lowercase item in
            if decide (key ∈ seen) then (merged, seen) else (merged ++ [item], {[key]} ∪ seen))
         ([], ∅ : gset string) l).1.
Definition merge_presence_string_list (existing incoming : option (list string))
  : option (list string) :=
  some_list (dedup_case (default [] existing ++ default [] incoming)).

Section Presence.
Variable info : SelfInfo.
(** The iteration order of the table. *)
Variable order : Presence -> list (string * SystemPresenceEntry).

Definition ensure_self_presence_locked (now : Z) (es : Presence) : Presence :=
  match es !! SYSTEM_PRESENCE_SELF_KEY with
  | Some _ => es
  | None => <[SYSTEM_PRESENCE_SELF_KEY := build_self_system_presence_entry info now]> es
  end.

Definition set_ts (ts : Z) (e : SystemPresenceEntry) : SystemPresenceEntry := {|
  pr_host := pr_host e; pr_ip := pr_ip e; pr_version := pr_version e; pr_platform := pr_platform e;
  pr_device_family := pr_device_family e; pr_model_identifier := pr_model_identifier e;
  pr_last_input_seconds := pr_last_input_seconds e; pr_mode := pr_mode e; pr_reason := pr_reason e;
  pr_device_id := pr_device_id e; pr_roles := pr_roles e; pr_scopes := pr_scopes e;
  pr_instance_id := pr_instance_id e; pr_text := pr_text e; pr_ts := ts |}.

Definition touch_self_presence_locked (now : Z) (es : Presence) : Presence :=
  match es !! SYSTEM_PRESENCE_SELF_KEY with
  | Some self => <[SYSTEM_PRESENCE_SELF_KEY := set_ts now self]> es
  | None => <[SYSTEM_PRESENCE_SELF_KEY := build_self_system_presence_entry info now]> es
  end.

(** [i64::saturating_sub] *)
Definition sat_sub_i64 (a b : Z) : Z := Z.max i64_min (Z.min i64_max (a - b)).

Definition fresh (now : Z) (kv : string * SystemPresenceEntry) : Prop :=
  kv.1 = SYSTEM_PRESENCE_SELF_KEY \/ (sat_sub_i64 now (pr_ts kv.2) <= SYSTEM_PRESENCE_TTL_MS)%Z.
#[export] Instance fresh_dec now kv : Decision (fresh now kv).
Proof. unfold fresh. apply _. Defined.

Definition prune_system_presence_locked (now : Z) (es : Presence) : Presence :=
  let es := filter (fresh now) es in
  if size es <=? SYSTEM_PRESENCE_MAX_ENTRIES then es
  else
    let keyed := retain (fun kv => negb (String.eqb kv.1 SYSTEM_PRESENCE_SELF_KEY)) (order es) in
    let keyed := sort_by (by_Z (fun kv => pr_ts kv.2)) keyed in
    let excess := Nat.min (size es - SYSTEM_PRESENCE_MAX_ENTRIES) (length keyed) in
    foldl (fun es (kv : string * SystemPresenceEntry) => delete kv.1 es) es (take excess keyed).

Definition list_system_presence_entries (now : Z) (es : Presence)
  : list SystemPresenceEntry * Presence :=
  let es := touch_self_presence_locked now
              (prune_system_presence_locked now (ensure_self_presence_locked now es)) in
  (sort_by (cmp_rev (by_Z pr_ts)) ((order es).*2), es).

Record SystemPresenceUpdate := {
  pu_key : string;
  pu_next : SystemPresenceEntry;
  pu_changed_keys : list string;
}.

Definition changed {A} `{EqDecision A} (name : string) (a b : A) : list string :=
  if decide (a = b) then [] else [name].

(** The key under which an update is stored. *)
Definition presence_key (device_id instance_id host ip : option string) (text : string) : string :=
  match normalize_presence_key device_id, normalize_presence_key instance_id,
        normalize_presence_key host, normalize_presence_key ip with
  | Some k, _, _, _ | None, Some k, _, _ | None, None, Some k, _ | None, None, None, Some k => k
  | None, None, None, None => to_ascii_lowercase (str_concat (take 64 (chars text)))
  end.

Definition update_system_presence_entry (p : json) (now : Z) (es : Presence)
  : result SystemPresenceUpdate RpcError * Presence :=
  match trimmed (get_str "text" p) with
  | None => (Err (rpc_error "INVALID_PARAMS" "text required"), es)
  | Some text =>
      let rd := read_presence_string p in
      let key := presence_key (rd "deviceId") (rd "instanceId") (rd "host") (rd "ip") text in
      let es := ensure_self_presence_locked now es in
      let existing := default SystemPresenceEntry_default (es !! key) in
      let next := {|
        pr_host := or_else (rd "host") (pr_host existing);
        pr_ip := or_else (rd "ip") (pr_ip existing);
        pr_version := or_else (rd "version") (pr_version existing);
        pr_platform := or_else (rd "platform") (pr_platform existing);
        pr_device_family := or_else (rd "deviceFamily") (pr_device_family existing);
        pr_model_identifier := or_else (rd "modelIdentifier") (pr_model_identifier existing);
        pr_last_input_seconds :=
          or_else (read_presence_i64 p "lastInputSeconds") (pr_last_input_seconds existing);
        pr_mode := or_else (rd "mode") (pr_mode existing);
        pr_reason := or_else (rd "reason") (pr_reason existing);
        pr_device_id := or_else (rd "deviceId") (pr_device_id existing);
        pr_roles := merge_presence_string_list (pr_roles existing) (read_presence_string_list p "roles");
        pr_scopes :=
          merge_presence_string_list (pr_scopes existing) (read_presence_string_list p "scopes");
        pr_instance_id := or_else (rd "instanceId") (pr_instance_id existing);
        pr_text := text;
        pr_ts := now |} in
      let changed_keys :=
        changed "host" (pr_host existing) (pr_host next) ++ changed "ip" (pr_ip existing) (pr_ip next)
        ++ changed "version" (pr_version existing) (pr_version next)
        ++ changed "mode" (pr_mode existing) (pr_mode next)
        ++ changed "reason" (pr_reason existing) (pr_reason next) in
      (Ok {| pu_key := key; pu_next := next; pu_changed_keys := changed_keys |},
       prune_system_presence_locked now (<[key := next]> es))
  end.
End Presence.

(** * Handlers *)

Record SystemState := {
  ss_queues : EventQueues;
  ss_wakes : Wakes;
  ss_presence : Presence;
  (** [GLOBAL_HEARTBEATS_ENABLED] and its copy in the server state. *)
  ss_enabled : bool;
  ss_state_enabled : bool;
  (** The last heartbeat event, global and in the server state. *)
  ss_global_last : option json;
  ss_state_last : option json;
}.

Definition set_queues (q : EventQueues) (s : SystemState) : SystemState := {|
  ss_queues := q; ss_wakes := ss_wakes s; ss_presence := ss_presence s; ss_enabled := ss_enabled s;
  ss_state_enabled := ss_state_enabled s; ss_global_last := ss_global_last s;
  ss_state_last := ss_state_last s |}.
Definition set_wakes (w : Wakes) (s : SystemState) : SystemState := {|
  ss_queues := ss_queues s; ss_wakes := w; ss_presence := ss_presence s; ss_enabled := ss_enabled s;
  ss_state_enabled := ss_state_enabled s; ss_global_last := ss_global_last s;
  ss_state_last := ss_state_last s |}.
Definition set_presence (p : Presence) (s : SystemState) : SystemState := {|
  ss_queues := ss_queues s; ss_wakes := ss_wakes s; ss_presence := p; ss_enabled := ss_enabled s;
  ss_state_enabled := ss_state_enabled s; ss_global_last := ss_global_last s;
  ss_state_last := ss_state_last s |}.
Definition set_last (v : json) (s : SystemState) : SystemState := {|
  ss_queues := ss_queues s; ss_wakes := ss_wakes s; ss_presence := ss_presence s;
  ss_enabled := ss_enabled s; ss_state_enabled := ss_state_enabled s;
  ss_global_last := Some v; ss_state_last := Some v |}.
Definition set_enabled (b : bool) (s : SystemState) : SystemState := {|
  ss_queues := ss_queues s; ss_wakes := ss_wakes s; ss_presence := ss_presence s;
  ss_enabled := b; ss_state_enabled := b; ss_global_last := ss_global_last s;
  ss_state_last := ss_state_last s |}.

Section Handlers.
Variable info : SelfInfo.
Variable order : Presence -> list (string * SystemPresenceEntry).

(** [next.as_deref().map(str::trim).filter(non-empty).unwrap_or(d)] *)
Definition label (d : string) (o : option string) : string := default d (trimmed o).

(** The text of a node's changes, in the order the code pushes the parts. *)
Definition node_delta_text (context_changed : bool) (next : SystemPresenceEntry)
    (reason_value : option string) (host_changed ip_changed version_changed mode_changed
     reason_changed : bool) : string :=
  join (" " +:+ middot +:+ " ")
    ((if context_changed || host_changed || ip_changed then
        ["Node: " +:+ label "Unknown" (pr_host next)
         +:+ match trimmed (pr_ip next) with Some ip => " (" +:+ ip +:+ ")" | None => "" end]
      else [])
     ++ (if version_changed then ["app " +:+ label "unknown" (pr_version next)] else [])
     ++ (if mode_changed then ["mode " +:+ label "unknown" (pr_mode next)] else [])
     ++ (if reason_changed then ["reason " +:+ label "event" reason_value] else [])).

Definition is_heartbeat_reason (reason : string) : bool :=
  starts_with reason "periodic" || String.eqb reason "heartbeat".

Definition rpc_system_event (p : json) (now : Z) (s : SystemState) : RpcResult * SystemState :=
  match get_str "text" p with
  | Some raw_text =>
      let text := trim raw_text in
      if String.eqb text "" then (Err (rpc_error "INVALID_PARAMS" "text required"), s)
      else
        let session_key := normalize_system_session_key (get_str "sessionKey" p) in
        match update_system_presence_entry info order p now (ss_presence s) with
        | (Err e, es) => (Err e, set_presence es s)
        | (Ok pu, es) =>
            let s := set_presence es s in
            let reason_value := or_else (pr_reason (pu_next pu)) (read_presence_string p "reason") in
            let reason := default "" ((fun v => to_ascii_lowercase (trim v)) <$> reason_value) in
            let s := if is_heartbeat_reason reason then
              set_last (jobject [("timestamp", JInt now); ("alive", JBool true);
                                 ("reason", JStr (default "heartbeat" reason_value));
                                 ("sessionKey", JStr session_key); ("source", JStr "system-event")]) s
              else s in
            let s :=
              if starts_with text "Node:" then
                let has k := existsb (String.eqb k) (pu_changed_keys pu) in
                let reason_changed := has "reason" && negb (is_heartbeat_reason reason) in
                if has "host" || has "ip" || has "version" || has "mode" || reason_changed then
                  let delta_text := node_delta_text
                    (is_system_event_context_changed session_key (Some (pu_key pu)) (ss_queues s))
                    (pu_next pu) reason_value (has "host") (has "ip") (has "version") (has "mode")
                    reason_changed in
                  if String.eqb delta_text "" then s
                  else set_queues (enqueue_system_event_entry session_key delta_text
                                     (Some (pu_key pu)) now (ss_queues s)) s
                else s
              else set_queues (enqueue_system_event_entry session_key text None now (ss_queues s)) s in
            (Ok (jobject [("ok", JBool true)]), s)
        end
  | None =>
      let event := default "unknown" (as_str (index "event" p)) in
      let accepted := jobject [("accepted", JBool true); ("event", JStr event);
                               ("payload", index "payload" p); ("timestamp", JInt now)] in
      let heartbeat_like := eq_ignore_ascii_case event "heartbeat"
        || eq_ignore_ascii_case event "last-heartbeat"
        || contains (to_ascii_lowercase event) "heartbeat" in
      (Ok accepted, if heartbeat_like then set_last accepted s else s)
  end.

Definition rpc_last_heartbeat (now : Z) (s : SystemState) : RpcResult :=
  match ss_global_last s, ss_state_last s with
  | Some v, _ | None, Some v => Ok v
  | None, None =>
      Ok (jobject [("timestamp", JInt now); ("alive", JBool false); ("seen", JBool false)])
  end.

Definition rpc_system_heartbeat (now : Z) (s : SystemState) : RpcResult * SystemState :=
  let event := jobject [("timestamp", JInt now); ("alive", JBool true);
                        ("enabled", JBool (ss_enabled s))] in
  (Ok event, set_last event (set_enabled (ss_enabled s) s)).

Definition rpc_set_heartbeats (p : json) (s : SystemState) : RpcResult * SystemState :=
  match get_bool "enabled" p with
  | None => (Err (rpc_error "INVALID_PARAMS" "enabled(boolean) required"), s)
  | Some enabled =>
      (Ok (jobject [("ok", JBool true); ("enabled", JBool enabled)]), set_enabled enabled s)
  end.

Inductive WakeMode := WmNow | WmNextHeartbeat.
Definition WakeMode_name (m : WakeMode) : string :=
  match m with WmNow => "now" | WmNextHeartbeat => "next-heartbeat" end.

Definition parse_wake_mode (raw : string) : option WakeMode :=
  let mode := trim raw in
  if eq_ignore_ascii_case mode "now" then Some WmNow
  else if eq_ignore_ascii_case mode "next-heartbeat" then Some WmNextHeartbeat
  else None.

Definition rpc_wake (p : json) (now : Z) (s : SystemState) : RpcResult * SystemState :=
  let bad m := (Err (rpc_error "INVALID_PARAMS" m), s) in
  match get_str "mode" p with
  | None => bad "mode(now|next-heartbeat) required"
  | Some mode =>
  match parse_wake_mode mode with
  | None => bad "mode must be now or next-heartbeat"
  | Some mode =>
  match trimmed (get_str "text" p) with
  | None => bad "text(non-empty string) required"
  | Some text =>
      let session_key :=
        normalize_system_session_key (or_else (get "sessionKey" p) (get "key" p) ≫= as_str) in
      let reason := default "wake" (trimmed (get_str "reason" p)) in
      let s := set_queues (enqueue_system_event_entry session_key text (get_str "contextKey" p) now
                             (ss_queues s)) s in
      let s := match mode with
        | WmNow =>
            let agent_id := or_else (get "agentId" p) (get "agent" p) ≫= as_str in
            set_wakes (queue_pending_heartbeat_wake (Some reason) agent_id (Some session_key) now
                         (ss_wakes s)) s
        | WmNextHeartbeat => s
        end in
      let payload := jobject [("ok", JBool true); ("mode", JStr (WakeMode_name mode));
                              ("reason", JStr reason); ("text", JStr text);
                              ("sessionKey", JStr session_key); ("ts", JInt now)] in
      (Ok payload, set_last payload s)
  end end end.
End Handlers.

(** * The event queues refine a log

    The log of a session is the texts accepted since its last drain. *)

Inductive EvOp :=
| Enq (session text : string) (context : option string) (now : Z)
| Drain (session : string).

Definition apply_op (qs : EventQueues) (op : EvOp) : EventQueues :=
  match op with
  | Enq session text context now => enqueue_system_event_entry session text context now qs
  | Drain session => (drain_system_event_entries session qs).2
  end.

Definition log_op (s : string) (acc : list string) (op : EvOp) : list string :=
  match op with
  | Enq session text _ _ =>
      if String.eqb (normalize_system_session_key (Some session)) s && negb (String.eqb (trim text) "")
      then acc ++ [trim text] else acc
  | Drain session =>
      if String.eqb (normalize_system_session_key (Some session)) s then [] else acc
  end.
Definition log (s : string) (ops : list EvOp) : list string := foldl (log_op s) [] ops.

(** One of each run of equal texts. *)
Fixpoint squeeze (l : list string) : list string :=
  match l with
  | [] => []
  | x :: l' => match l' with
               | y :: _ => if String.eqb x y then squeeze l' else x :: squeeze l'
               | [] => [x]
               end
  end.

Definition queue_of (s : string) (qs : EventQueues) : list SystemEventEntry :=
  sq_queue (default SessionSystemEventQueue_default (qs !! s)).

Lemma squeeze_cons2 x y l :
  squeeze (x :: y :: l) = if String.eqb x y then squeeze (y :: l) else x :: squeeze (y :: l).
Proof. done. Qed.

Lemma squeeze_snoc l x :
  squeeze (l ++ [x]) = if bool_decide (last l = Some x) then squeeze l else squeeze l ++ [x].
Proof.
  induction l as [|y l IH]; [done|]. destruct l as [|z l].
  - simpl. destruct (String.eqb_spec y x) as [->|Hne]; [by rewrite bool_decide_true|].
    rewrite bool_decide_false by congruence. done.
  - cbn [app] in *. rewrite !squeeze_cons2, IH.
    change (last (y :: z :: l)) with (last (z :: l)).
    destruct (bool_decide _), (String.eqb y z); done.
Qed.

(** What holds of every session's queue. *)
Definition queue_matches (l : list string) (o : option SessionSystemEventQueue) : Prop :=
  ev_text <$> sq_queue (default SessionSystemEventQueue_default o) = lastn MAX_SYSTEM_EVENTS (squeeze l) /\
  (o ≫= sq_last_text) = last l.

Lemma push_event_matches l o cleaned context now :
  queue_matches l o ->
  queue_matches (l ++ [cleaned])
    (Some (push_event cleaned context now (default SessionSystemEventQueue_default o))).
Proof.
  unfold queue_matches, push_event. intros [Hq Hl].
  assert (sq_last_text (default SessionSystemEventQueue_default o) = last l) as Hl'.
  { destruct o; simpl in *; [done | by rewrite <- Hl]. }
  rewrite squeeze_snoc, last_snoc, Hl'. case_bool_decide as Hd; simpl.
  - done.
  - split; [|done]. unfold lastn in *. rewrite fmap_drop, fmap_app, Hq. simpl.
    pose proof (f_equal length Hq) as Hlen. rewrite length_fmap, length_drop in Hlen.
    rewrite !length_app, Hlen. simpl. rewrite <- (drop_app_le (squeeze l) [cleaned]) by lia.
    rewrite drop_drop. f_equal. unfold MAX_SYSTEM_EVENTS. lia.
Qed.

Lemma run_ops_match ops s :
  queue_matches (log s ops) (foldl apply_op (∅ : EventQueues) ops !! s).
Proof.
  induction ops as [|op ops IH] using rev_ind; [done|].
  unfold log. rewrite !foldl_app. simpl. fold (log s ops).
  set (qs := foldl apply_op ∅ ops) in *. clearbody qs.
  destruct op as [session text context now|session]; simpl.
  - unfold enqueue_system_event_entry.
    destruct (String.eqb_spec (normalize_system_session_key (Some session)) s) as [->|Hne]; simpl.
    + destruct (String.eqb (trim text) ""); simpl; [done|].
      rewrite lookup_insert_eq. by apply push_event_matches.
    + destruct (String.eqb (trim text) ""); [done|]. by rewrite lookup_insert_ne.
  - unfold drain_system_event_entries.
    destruct (qs !! normalize_system_session_key (Some session)) as [e|] eqn:E; simpl.
    + destruct (String.eqb_spec (normalize_system_session_key (Some session)) s) as [<-|Hne].
      * by rewrite lookup_delete_eq.
      * by rewrite lookup_delete_ne.
    + destruct (String.eqb_spec (normalize_system_session_key (Some session)) s) as [<-|Hne]; [|done].
      by rewrite E.
Qed.

(** C35. Whatever is enqueued and drained, in any order and for any sessions, a
    session's queue holds exactly the last twenty texts accepted since its last
    drain, after runs of equal texts are squeezed to one; a drain returns these
    texts in order, a second drain returns nothing, and draining a session leaves
    the others alone. *)
Theorem event_queue_refines ops session :
  let qs := foldl apply_op (∅ : EventQueues) ops in
  let s := normalize_system_session_key (Some session) in
  let '(drained, qs') := drain_system_event_entries session qs in
  ev_text <$> queue_of s qs = lastn MAX_SYSTEM_EVENTS (squeeze (log s ops)) /\
  drained = queue_of s qs /\ length drained <= MAX_SYSTEM_EVENTS /\
  (drain_system_event_entries session qs').1 = [] /\
  forall s', s' <> s -> queue_of s' qs' = queue_of s' qs.
Proof.
  intros qs s. destruct (run_ops_match ops s) as [Hq _]. fold qs in Hq.
  unfold queue_of, drain_system_event_entries. fold s.
  pose proof (f_equal length Hq) as Hlen. rewrite length_fmap, lastn_length in Hlen.
  pose proof (Nat.le_min_l MAX_SYSTEM_EVENTS (length (squeeze (log s ops)))) as Hle.
  rewrite <- Hlen in Hle. clear Hlen.
  destruct (qs !! s) as [e|] eqn:E; cbn [default sq_queue fst snd] in *.
  - split_and!; [done | done | done | by rewrite lookup_delete_eq |].
    intros s' Hs'. by rewrite lookup_delete_ne.
  - split_and!; [done | done | done | by rewrite E | done].
Qed.

(** * Pending wakes *)

Record WakeReq := {
  rq_reason : option string; rq_agent : option string; rq_session : option string; rq_now : Z }.

Definition apply_wake (w : Wakes) (r : WakeReq) : Wakes :=
  queue_pending_heartbeat_wake (rq_reason r) (rq_agent r) (rq_session r) (rq_now r) w.
Definition wake_of (r : WakeReq) : PendingHeartbeatWake :=
  mk_wake (rq_reason r) (rq_agent r) (rq_session r) (rq_now r).

(** [y] yields to [x]: lower priority, or the same and not later. *)
Definition yields (y x : PendingHeartbeatWake) : Prop :=
  (wk_priority y < wk_priority x)%Z
  \/ wk_priority y = wk_priority x /\ (wk_requested_at y <= wk_requested_at x)%Z.

Lemma replaces_spec next previous : replaces next previous = true <-> yields previous next.
Proof.
  unfold replaces, yields. rewrite orb_true_iff, andb_true_iff, Z.ltb_lt, Z.eqb_eq, Z.leb_le. lia.
Qed.

Lemma apply_wake_lookup w r k :
  apply_wake w r !! k =
  if decide (wake_key (wake_of r) = k)
  then Some match w !! k with
            | Some p => if replaces (wake_of r) p then wake_of r else p
            | None => wake_of r
            end
  else w !! k.
Proof.
  unfold apply_wake, queue_pending_heartbeat_wake. fold (wake_of r).
  destruct (decide (wake_key (wake_of r) = k)) as [<-|Hne].
  - destruct (w !! wake_key (wake_of r)) as [p|] eqn:E; [|by rewrite lookup_insert_eq].
    destruct (replaces (wake_of r) p); [by rewrite lookup_insert_eq | done].
  - destruct (w !! wake_key (wake_of r)) as [p|]; [|by rewrite lookup_insert_ne].
    destruct (replaces (wake_of r) p); [by rewrite lookup_insert_ne | done].
Qed.

Definition best_wake (rs : list WakeReq) (k : string) (o : option PendingHeartbeatWake) : Prop :=
  match o with
  | Some x => (exists r, r ∈ rs /\ x = wake_of r) /\ wake_key x = k /\
              forall r, r ∈ rs -> wake_key (wake_of r) = k -> yields (wake_of r) x
  | None => forall r, r ∈ rs -> wake_key (wake_of r) <> k
  end.

Lemma wakes_best rs k : best_wake rs k (foldl apply_wake (∅ : Wakes) rs !! k).
Proof.
  induction rs as [|r rs IH] using rev_ind.
  { simpl. rewrite lookup_empty. simpl. by intros r ?%elem_of_nil. }
  rewrite foldl_app. simpl. rewrite apply_wake_lookup.
  set (w := foldl apply_wake ∅ rs) in *. clearbody w.
  assert (forall r', r' ∈ rs ++ [r] -> r' ∈ rs \/ r' = r) as Hin.
  { intros r'. by rewrite elem_of_app, list_elem_of_singleton. }
  assert (r ∈ rs ++ [r]) as Hr by (apply elem_of_app; right; left).
  assert (forall r', r' ∈ rs -> r' ∈ rs ++ [r]) as Hrs by (intros; apply elem_of_app; by left).
  assert (yields (wake_of r) (wake_of r)) as Hrefl by (right; lia).
  destruct (decide (wake_key (wake_of r) = k)) as [Hk|Hk].
  - destruct (w !! k) as [x|]; simpl in *.
    + destruct IH as ((r0 & Hr0 & ->) & Hx & Hall).
      destruct (replaces (wake_of r) (wake_of r0)) eqn:E.
      * apply replaces_spec in E. split_and!; [by eauto | done |].
        intros r' [Hr'| ->]%Hin Hk'; [|done]. specialize (Hall r' Hr' Hk'). unfold yields in *. lia.
      * assert (~ yields (wake_of r0) (wake_of r)) as Hn by by rewrite <- replaces_spec, E.
        split_and!; [by eauto | done |].
        intros r' [Hr'| ->]%Hin Hk'; [by apply Hall | unfold yields in *; lia].
    + split_and!; [by eauto | done |]. intros r' [Hr'| ->]%Hin Hk'; [by destruct (IH r' Hr') | done].
  - destruct (w !! k) as [x|]; simpl in *.
    + destruct IH as ((r0 & Hr0 & ->) & Hx & Hall). split_and!; [by eauto | done |].
      intros r' [Hr'| ->]%Hin Hk'; [by apply Hall | done].
    + intros r' [Hr'| ->]%Hin; [by apply IH | done].
Qed.

(** The wakes taken are, for each target asked for since the last take, the
    one request of the highest priority and, among those, the latest; every
    target appears once, the list is in order of descending priority and then
    ascending time, and nothing stays pending. *)
Theorem wakes_coalesced (values : Wakes -> list PendingHeartbeatWake) rs :
  (forall w, values w ≡ₚ (map_to_list w).*2) ->
  let '(taken, w') := take_pending_heartbeat_wakes values (foldl apply_wake (∅ : Wakes) rs) in
  w' = ∅ /\ StronglySorted (ordered wake_cmp) taken /\ NoDup (wake_key <$> taken) /\
  (forall x, x ∈ taken -> best_wake rs (wake_key x) (Some x)) /\
  forall r, r ∈ rs -> exists x, x ∈ taken /\ wake_key x = wake_key (wake_of r).
Proof.
  intros Hv. unfold take_pending_heartbeat_wakes. set (w := foldl apply_wake ∅ rs).
  assert (forall x, x ∈ sort_by wake_cmp (values w) <-> w !! wake_key x = Some x) as Hin.
  { intros x. rewrite elem_of_sort_by, (Hv w), list_elem_of_fmap. split.
    - intros ([k y] & -> & Hy%elem_of_map_to_list). simpl.
      pose proof (wakes_best rs k) as Hb. fold w in Hb. rewrite Hy in Hb. by destruct Hb as (_ & -> & _).
    - intros Hx. exists (wake_key x, x). split; [done|]. by apply elem_of_map_to_list. }
  cbv beta iota. split; [reflexivity|]. split; [apply sort_by_sorted; apply _|]. split; [|split].
  - rewrite (sort_by_perm wake_cmp (values w)), (Hv w).
    assert (forall kv : string * PendingHeartbeatWake, kv ∈ map_to_list w -> wake_key kv.2 = kv.1) as Hkey.
    { intros [k y] Hy%elem_of_map_to_list. pose proof (wakes_best rs k) as Hb. fold w in Hb.
      rewrite Hy in Hb. by destruct Hb as (_ & Hb & _). }
    replace (wake_key <$> (map_to_list w).*2) with ((map_to_list w).*1); [apply NoDup_fst_map_to_list|].
    rewrite <- list_fmap_compose. apply list_fmap_ext. intros i kv Hi. simpl.
    symmetry. by apply Hkey, (list_elem_of_lookup_2 _ i).
  - intros x Hx%Hin. pose proof (wakes_best rs (wake_key x)) as Hb. fold w in Hb. by rewrite Hx in Hb.
  - intros r Hr. pose proof (wakes_best rs (wake_key (wake_of r))) as Hb. fold w in Hb.
    destruct (w !! wake_key (wake_of r)) as [x|] eqn:E; [|by destruct (Hb r Hr)].
    destruct Hb as (_ & Hk & _). exists x. split; [apply Hin; by rewrite Hk | done].
Qed.

Definition sample_reqs : list WakeReq :=
  [{| rq_reason := Some "interval"; rq_agent := None; rq_session := Some "main"; rq_now := 5 |};
   {| rq_reason := Some "cron:daily"; rq_agent := None; rq_session := Some " main "; rq_now := 3 |};
   {| rq_reason := Some "manual"; rq_agent := Some "ops"; rq_session := Some "main"; rq_now := 9 |}].

Lemma wakes_coalesced_witness :
  let '(taken, _) := take_pending_heartbeat_wakes (fun w => (map_to_list w).*2)
                       (foldl apply_wake ∅ sample_reqs) in
  wk_reason <$> taken = ["manual"; "cron:daily"] /\ NoDup (wake_key <$> taken).
Proof.
  pose proof (wakes_coalesced (fun w => (map_to_list w).*2) sample_reqs (fun w => Permutation_refl _)) as H.
  destruct (take_pending_heartbeat_wakes _ _) as [taken w'] eqn:E.
  destruct H as (_ & _ & Hnd & _). split; [|exact Hnd]. vm_compute in E. by injection E as <- <-.
Defined.

(** Two targets can share a key: the text of the key does not separate agent and
    session, so a request for one displaces the other. *)
Example wake_keys_collide :
  wake_target_key (Some "a::b") (Some "c") = wake_target_key (Some "a") (Some "b::c").
Proof. reflexivity. Qed.

(** * Presence *)

Section PresenceProofs.
Variable info : SelfInfo.
Variable order : Presence -> list (string * SystemPresenceEntry).
Hypothesis order_perm : forall es, order es ≡ₚ map_to_list es.

Lemma foldl_delete_lookup (ks : list (string * SystemPresenceEntry)) (es : Presence) k :
  foldl (fun es (kv : string * SystemPresenceEntry) => delete kv.1 es) es ks !! k
  = if decide (k ∈ ks.*1) then None else es !! k.
Proof.
  revert es. induction ks as [|[k' e] ks IH]; intros es; cbn [foldl].
  { destruct (decide _) as [H|]; [by apply elem_of_nil in H | done]. }
  rewrite IH, fmap_cons. cbn [fst]. destruct (decide (k ∈ ks.*1)) as [H|H], (decide (k ∈ k' :: ks.*1)) as [H'|H'];
    try done.
  - destruct H'. apply elem_of_cons. by right.
  - apply elem_of_cons in H' as [->|]; [by rewrite lookup_delete_eq | done].
  - rewrite lookup_delete_ne; [done|]. intros ->. destruct H'. apply elem_of_cons. by left.
Qed.

Lemma foldl_delete_size (ks : list (string * SystemPresenceEntry)) (es : Presence) :
  NoDup ks.*1 -> (forall kv, kv ∈ ks -> is_Some (es !! kv.1)) ->
  size (foldl (fun es (kv : string * SystemPresenceEntry) => delete kv.1 es) es ks)
  = size es - length ks.
Proof.
  revert es. induction ks as [|[k e] ks IH]; intros es Hnd Hin; cbn [foldl length]; [lia|].
  rewrite fmap_cons in Hnd. apply NoDup_cons in Hnd as [Hk Hnd]. rewrite IH; [|done|].
  - rewrite map_size_delete_Some by (apply (Hin (k, e)), list_elem_of_here). lia.
  - intros kv Hkv. rewrite lookup_delete_ne; [apply Hin; by right|].
    intros Heq. simpl in Heq. apply Hk. simpl. rewrite Heq. by apply (list_elem_of_fmap_2 fst).
Qed.

(** The table's entries but the gateway's own, oldest first. *)
Definition by_age (es : Presence) : list (string * SystemPresenceEntry) :=
  sort_by (by_Z (fun kv => pr_ts kv.2))
    (retain (fun kv => negb (String.eqb kv.1 SYSTEM_PRESENCE_SELF_KEY)) (order es)).

Lemma by_age_elem es k e :
  (k, e) ∈ by_age es <-> es !! k = Some e /\ k <> SYSTEM_PRESENCE_SELF_KEY.
Proof.
  unfold by_age. rewrite elem_of_sort_by, elem_of_retain, order_perm, elem_of_map_to_list. simpl.
  destruct (String.eqb_spec k SYSTEM_PRESENCE_SELF_KEY); simpl; split; intros [? ?]; done.
Qed.

Lemma by_age_keys es : NoDup (by_age es).*1.
Proof.
  unfold by_age. rewrite (sort_by_perm _ _).
  assert (NoDup (order es).*1) as Hnd by (rewrite order_perm; apply NoDup_fst_map_to_list).
  induction (order es) as [|x l IH]; simpl; [constructor|].
  apply NoDup_cons in Hnd as [Hx Hnd]. destruct (negb _); simpl; [|by apply IH].
  constructor; [|by apply IH]. intros (y & Hy & [Hin _]%elem_of_retain)%list_elem_of_fmap.
  apply Hx. rewrite Hy. by apply list_elem_of_fmap_2.
Qed.

Lemma by_age_length es : size es <= S (length (by_age es)).
Proof.
  unfold by_age. rewrite (Permutation_length (sort_by_perm _ _)).
  rewrite <- length_map_to_list, <- (order_perm es).
  assert (NoDup (order es).*1) as Hnd by (rewrite order_perm; apply NoDup_fst_map_to_list).
  induction (order es) as [|x l IH]; simpl; [lia|].
  apply NoDup_cons in Hnd as [Hx Hnd]. specialize (IH Hnd).
  destruct (String.eqb_spec x.1 SYSTEM_PRESENCE_SELF_KEY) as [Heq|]; simpl; [|lia].
  clear IH. apply le_n_S. clear Hnd. induction l as [|y l IH]; simpl; [lia|].
  apply not_elem_of_cons in Hx as [Hy Hx]. destruct (String.eqb_spec y.1 SYSTEM_PRESENCE_SELF_KEY); simpl.
  - congruence.
  - apply le_n_S. by apply IH.
Qed.

Lemma prune_spec now es :
  is_Some (es !! SYSTEM_PRESENCE_SELF_KEY) ->
  let out := prune_system_presence_locked order now es in
  size out <= SYSTEM_PRESENCE_MAX_ENTRIES /\
  is_Some (out !! SYSTEM_PRESENCE_SELF_KEY) /\
  (forall k e, out !! k = Some e -> es !! k = Some e /\ fresh now (k, e)) /\
  (forall k e k' e', es !! k = Some e -> fresh now (k, e) -> out !! k = None ->
     out !! k' = Some e' -> k' <> SYSTEM_PRESENCE_SELF_KEY -> (pr_ts e <= pr_ts e')%Z).
Proof.
  intros [self Hself]. unfold prune_system_presence_locked. set (fs := filter (fresh now) es).
  assert (forall k e, fs !! k = Some e <-> es !! k = Some e /\ fresh now (k, e)) as Hfs
    by (intros; apply map_lookup_filter_Some).
  assert (fs !! SYSTEM_PRESENCE_SELF_KEY = Some self) as Hfself by (apply Hfs; split; [done | by left]).
  destruct (size fs <=? SYSTEM_PRESENCE_MAX_ENTRIES) eqn:E; [apply Nat.leb_le in E | apply Nat.leb_gt in E].
  { split_and!; [done | by eexists | by intros; apply Hfs |].
    intros k e k' e' Hk Hf Hn. by rewrite (proj2 (Hfs k e)) in Hn. }
  cbv zeta. fold (by_age fs). pose proof (by_age_length fs) as Hlen.
  rewrite Nat.min_l by (unfold SYSTEM_PRESENCE_MAX_ENTRIES in *; lia). set (n := size fs - SYSTEM_PRESENCE_MAX_ENTRIES).
  assert (forall kv, kv ∈ take n (by_age fs) -> kv ∈ by_age fs) as Htake.
  { intros kv Hkv. rewrite <- (take_drop n (by_age fs)). apply elem_of_app. by left. }
  split_and!.
  - rewrite foldl_delete_size.
    + rewrite length_take. unfold n, SYSTEM_PRESENCE_MAX_ENTRIES in *. lia.
    + rewrite fmap_take. pose proof (by_age_keys fs) as Hnd.
      rewrite <- (take_drop n (by_age fs).*1) in Hnd. by apply NoDup_app in Hnd as [? _].
    + intros [k e] [Hk _]%Htake%by_age_elem. by eexists.
  - rewrite foldl_delete_lookup. destruct (decide _) as [Hin|]; [|by eexists].
    apply list_elem_of_fmap in Hin as ([k e] & Hk & [_ Hin]%Htake%by_age_elem). by simpl in Hk.
  - intros k e. rewrite foldl_delete_lookup. destruct (decide _); [done|]. apply Hfs.
  - intros k e k' e' Hk Hf. rewrite !foldl_delete_lookup.
    destruct (decide (k ∈ _)) as [Hin|]; [|by rewrite (proj2 (Hfs k e))]. intros _.
    destruct (decide (k' ∈ _)) as [|Hnin]; [done|]. intros Hk' Hns.
    apply list_elem_of_fmap in Hin as ([k2 e2] & Heq & Hin). simpl in Heq. subst k2.
    assert (e2 = e) as ->.
    { apply Htake, by_age_elem in Hin as [Hin _]. rewrite (proj2 (Hfs k e)) in Hin by done. by simplify_eq. }
    assert ((k', e') ∈ drop n (by_age fs)) as Hd.
    { assert ((k', e') ∈ by_age fs) as Hb by by apply by_age_elem.
      rewrite <- (take_drop n (by_age fs)) in Hb. apply elem_of_app in Hb as [Hb|]; [|done].
      destruct Hnin. by apply (list_elem_of_fmap_2 fst) in Hb. }
    pose proof (sort_by_sorted (by_Z (fun kv : string * SystemPresenceEntry => pr_ts kv.2))
      (retain (fun kv => negb (String.eqb kv.1 SYSTEM_PRESENCE_SELF_KEY)) (order fs))) as Hs.
    fold (by_age fs) in Hs. rewrite <- (take_drop n (by_age fs)) in Hs.
    exact (StronglySorted_app_1_elem_of _ _ _ _ _ Hs Hin Hd).
Qed.
End PresenceProofs.

(** An accepted presence update leaves a table that holds the gateway's own
    entry, at most 200 entries, and nothing but entries seen within the last five
    minutes; where a recent entry had to go, it was no younger than any entry kept
    (the gateway's own aside); the update merges into the entry of its key as the
    result reports.  A rejected update changes nothing. *)
Theorem presence_bounded info order p now es :
  (forall es, order es ≡ₚ map_to_list es) ->
  match update_system_presence_entry info order p now es with
  | (Err _, es') => es' = es
  | (Ok u, es') =>
      let before := <[pu_key u := pu_next u]> (ensure_self_presence_locked info now es) in
      size es' <= SYSTEM_PRESENCE_MAX_ENTRIES /\
      is_Some (es' !! SYSTEM_PRESENCE_SELF_KEY) /\
      (forall k e, es' !! k = Some e -> before !! k = Some e /\ fresh now (k, e)) /\
      (forall k e k' e', before !! k = Some e -> fresh now (k, e) -> es' !! k = None ->
         es' !! k' = Some e' -> k' <> SYSTEM_PRESENCE_SELF_KEY -> (pr_ts e <= pr_ts e')%Z)
  end.
Proof.
  intros Hord. unfold update_system_presence_entry.
  destruct (trimmed (get_str "text" p)) as [text|]; [|done]. cbv beta iota zeta. cbn [pu_key pu_next].
  apply (prune_spec order Hord). unfold ensure_self_presence_locked.
  apply lookup_insert_is_Some'. right. destruct (es !! SYSTEM_PRESENCE_SELF_KEY) as [e|] eqn:E.
  - rewrite E. by eexists.
  - rewrite lookup_insert_eq. by eexists.
Qed.

Definition sample_info : SelfInfo := {|
  env_computername := None; env_hostname := Some "box"; self_version := "1"; os_name := "linux";
  arch := "x86_64" |}.

Definition sample_presence : json := jobject [("text", JStr "hello"); ("deviceId", JStr "Phone")].
Definition sample_update : result SystemPresenceUpdate RpcError * Presence :=
  update_system_presence_entry sample_info map_to_list sample_presence 7 ∅.

Lemma presence_bounded_witness :
  size sample_update.2 <= SYSTEM_PRESENCE_MAX_ENTRIES /\
  match sample_update.1 with Ok u => pu_key u = "phone" | Err _ => False end.
Proof.
  pose proof (presence_bounded sample_info map_to_list sample_presence 7 ∅
    (fun _ => Permutation_refl _)) as H. fold sample_update in H.
  assert (match sample_update.1 with Ok u => pu_key u = "phone" | Err _ => False end) as E
    by (vm_compute; reflexivity).
  split; [|exact E]. revert H E. destruct sample_update as [[u|e] es']; [|done].
  intros H _. exact (proj1 H).
Defined.
