(* ===== verification/Heartbeat.v ===== *)
(** Heartbeats ([crates/workspace-core/src/heartbeat.rs],
    [crates/gateway-core/src/heartbeat_runner.rs] and the background loop of
    [HttpServer::start] in [http.rs]): the checklist file, the acknowledgement
    token, the runner's tick and one pass of the loop over the pending wakes.
    Also the triggers of the other background turns of [workspace-core]:
    [memory_flush.rs] and [evolution.rs].

    [NaiveTime::parse_from_str] is a parameter; a time of day is a number.  What a
    tick meets outside (the clocks, the file, the agent's turn, the channel) is a
    record.  [None] is a panic. *)

From Stdlib Require Import Strings.String.
From S2P Require Import Prelude RustStr Json Sorting ConfigStore GatewayEvents.
#[local] Open Scope string_scope.
#[local] Open Scope nat_scope.
#[local] Open Scope list_scope.

(** * The workspace's heartbeat *)

Record ActiveHours := { ah_start : string; ah_end : string; ah_timezone : option string }.

Record HeartbeatConfig := {
  interval_secs : Z;
  hb_target : string;
  hb_prompt : option string;
  ack_max_chars : nat;
  active_hours : option ActiveHours;
}.

Definition HeartbeatConfig_default : HeartbeatConfig := {|
  interval_secs := 1800; hb_target := "last"; hb_prompt := None; ack_max_chars := 300;
  active_hours := None |}.

Definition HEARTBEAT_OK_TOKEN : string := "HEARTBEAT_OK".

Definition line_has_task (line : string) : bool :=
  let t := trim line in
  if String.eqb t "" || starts_with t "#" || starts_with t "//" || starts_with t "<!--" then false
  else match or_else (strip_prefix t "- ") (or_else (strip_prefix t "* ") (strip_prefix t "+ ")) with
       | Some rest => negb (String.eqb (trim rest) "")
       | None => negb (String.eqb t "-" || String.eqb t "*" || String.eqb t "+")
       end.

Definition HeartbeatFile_has_tasks (raw : string) : bool := existsb line_has_task (lines raw).

Definition effective_prompt (c : HeartbeatConfig) : string :=
  default ("Read HEARTBEAT.md if it exists (workspace context). Follow it strictly. Do not infer or "
           +:+ "repeat old tasks from prior chats. If nothing needs attention, reply HEARTBEAT_OK.")
          (hb_prompt c).

(** One of the wrappers of [unwrap_and_check]. *)
Definition unwrap (before after s : string) : string :=
  let s := trim s in default s (strip_prefix s before ≫= fun s => strip_suffix s after).

Definition unwrap_and_check (s : string) : bool :=
  String.eqb (trim (unwrap "_" "_" (unwrap "<b>" "</b>" (unwrap "__" "__" (unwrap "**" "**" s)))))
    HEARTBEAT_OK_TOKEN.

(** The token at the start of the text, for one length of the prefix: the outer
    option is the panic of a slice off a character boundary. *)
Definition strip_token_prefix (trimmed : string) (prefix_len : nat) : option (option string) :=
  if prefix_len <=? len trimmed then
    candidate ← slice_to trimmed prefix_len;
    if unwrap_and_check candidate then
      rest ← slice_from trimmed prefix_len; Some (Some (trim rest))
    else Some None
  else Some None.

Definition strip_heartbeat_token (text : string) : option (string * bool) :=
  let trimmed := trim text in
  if unwrap_and_check trimmed then Some ("", true)
  else
    r ← strip_token_prefix trimmed (len HEARTBEAT_OK_TOKEN);
    match r with
    | Some rest => Some (rest, true)
    | None =>
        r ← strip_token_prefix trimmed (len HEARTBEAT_OK_TOKEN + 4);
        match r with
        | Some rest => Some (rest, true)
        | None =>
            match strip_suffix trimmed HEARTBEAT_OK_TOKEN with
            | Some rest => Some (trim rest, true)
            | None =>
                if ends_with trimmed ("**" +:+ HEARTBEAT_OK_TOKEN +:+ "**") then
                  rest ← slice_to trimmed (len trimmed - (len HEARTBEAT_OK_TOKEN + 4));
                  Some (trim rest, true)
                else Some (trimmed, false)
            end
        end
    end.

Definition should_drop_heartbeat_reply (text : string) (ack_max : nat) : option bool :=
  '(remaining, had_token) ← strip_heartbeat_token text;
  Some (had_token && (len remaining <=? ack_max)).

(** [parse] is [NaiveTime::parse_from_str(_, "%H:%M").ok()]. *)
Definition is_within_active_hours (parse : string -> option Z) (now : Z) (c : HeartbeatConfig) : bool :=
  match active_hours c with
  | None => true
  | Some hours =>
      match parse (ah_start hours), parse (ah_end hours) with
      | Some start, Some stop =>
          if (start <=? stop)%Z then (start <=? now)%Z && (now <=? stop)%Z
          else (start <=? now)%Z || (now <=? stop)%Z
      | _, _ => true
      end
  end.

(** * The runner *)

Definition EXEC_EVENT_PROMPT : string :=
  "An async command you ran earlier has completed. The result is shown in the system messages above. "
  +:+ "Please relay the command output to the user in a helpful way. If the command succeeded, share "
  +:+ "the relevant output. If it failed, explain what went wrong.".

Definition resolve_heartbeat_reason_kind (reason : option string) : WakeKind :=
  resolve_wake_reason_kind (default "" reason).

Definition is_exec_completion_event (evt : string) : bool :=
  contains (to_ascii_lowercase evt) "exec finished".

Definition is_ascii_alphanumeric (c : ascii) : bool :=
  let n := nat_of_ascii c in
  ((48 <=? n) && (n <=? 57)) || ((65 <=? n) && (n <=? 90)) || ((97 <=? n) && (n <=? 122)).

Definition is_heartbeat_ack_event (evt : string) : bool :=
  match strip_prefix (to_ascii_lowercase (trim evt)) "heartbeat_ok" with
  | None => false
  | Some "" => true
  | Some (String c _) => negb (is_ascii_alphanumeric c || Ascii.eqb c (byte 95))
  end.

Definition is_heartbeat_noise_event (evt : string) : bool :=
  let lower := to_ascii_lowercase (trim evt) in
  if String.eqb lower "" then false
  else is_heartbeat_ack_event lower || contains lower "heartbeat poll" || contains lower "heartbeat wake".

Definition is_cron_system_event (evt : string) : bool :=
  if String.eqb (trim evt) "" then false
  else negb (is_heartbeat_noise_event evt) && negb (is_exec_completion_event evt).

Definition non_blank_trimmed (l : list string) : list string :=
  retain (fun s => negb (String.eqb s "")) (trim <$> l).

Definition build_cron_event_prompt (pending_events : list string) : string :=
  let event_text := trim (join nl (non_blank_trimmed pending_events)) in
  if String.eqb event_text "" then
    "A scheduled cron event was triggered, but no event content was found. Reply HEARTBEAT_OK."
  else "A scheduled reminder has been triggered. The reminder content is:" +:+ nl +:+ nl +:+ event_text
       +:+ nl +:+ nl +:+ "Please relay this reminder to the user in a helpful and friendly way.".

(** [should_tick]: the interval in milliseconds is a wrapping product. *)
Definition should_tick (c : HeartbeatConfig) (last_run_ms now_ms : Z) : bool :=
  if (interval_secs c =? 0)%Z then false
  else (wmul (interval_secs c) 1000 <=? sat_sub now_ms last_run_ms)%Z.

Definition should_bypass_empty_heartbeat_file (reason : option string) : bool :=
  match trimmed reason with
  | None => false
  | Some reason =>
      match resolve_heartbeat_reason_kind (Some reason) with
      | KWake | KExecEvent | KCron | KHook => true
      | _ => false
      end
  end.

(** The prompt of a turn. *)
Definition tick_prompt (c : HeartbeatConfig) (reason : option string) (system_events : list string)
  : string :=
  let reason_kind := resolve_heartbeat_reason_kind reason in
  let clean_events := non_blank_trimmed system_events in
  let has_exec_completion := existsb is_exec_completion_event clean_events in
  let cron_events := retain (fun evt => bool_decide (reason_kind = KCron) && is_cron_system_event evt)
                       clean_events in
  if has_exec_completion then EXEC_EVENT_PROMPT
  else match cron_events with
       | _ :: _ => build_cron_event_prompt cron_events
       | [] =>
           match clean_events with
           | [] => effective_prompt c
           | _ => effective_prompt c +:+ nl +:+ nl +:+ "System events queued for this wake:" +:+ nl
                  +:+ str_concat ((fun e => "- " +:+ e +:+ nl) <$> clean_events)
           end
       end.

(** What a tick meets. *)
Record TickEnv := {
  te_now_ms : Z;
  te_time_of_day : Z;
  (** [HeartbeatFile::load]: the file's text, [None] when there is none. *)
  te_file : result (option string) string;
  te_turn : string -> result string string;
  te_alert : string -> string -> result unit string;
}.

Inductive HbAction := ATurn (prompt : string) | AAlert (target text : string).

(** The result, the runner's [last_run_ms] and the calls made; [None]: panic. *)
Abbreviation TickResult := (option (result unit string * Z * list HbAction)).

Section Tick.
Variable parse : string -> option Z.
Variable c : HeartbeatConfig.

(** From the agent's turn on. *)
Definition run_turn (env : TickEnv) (prompt : string) (last_run_ms : Z) : TickResult :=
  match te_turn env prompt with
  | Err e => Some (Err e, last_run_ms, [ATurn prompt])
  | Ok reply =>
      drop_reply ← should_drop_heartbeat_reply reply (ack_max_chars c);
      if drop_reply : bool then Some (Ok tt, te_now_ms env, [ATurn prompt])
      else Some (te_alert env (hb_target c) reply, te_now_ms env,
                 [ATurn prompt; AAlert (hb_target c) reply])
  end.

Definition tick_with_options (env : TickEnv) (force : bool) (reason : option string)
    (system_events : list string) (last_run_ms : Z) : TickResult :=
  if negb force && negb (should_tick c last_run_ms (te_now_ms env)) then Some (Ok tt, last_run_ms, [])
  else if negb (is_within_active_hours parse (te_time_of_day env) c) then Some (Ok tt, te_now_ms env, [])
  else
    let prompt := tick_prompt c reason system_events in
    if should_bypass_empty_heartbeat_file reason then run_turn env prompt last_run_ms
    else match te_file env with
         | Err e => Some (Err e, last_run_ms, [])
         | Ok (Some raw) =>
             if HeartbeatFile_has_tasks raw then run_turn env prompt last_run_ms
             else Some (Ok tt, te_now_ms env, [])
         | Ok None => run_turn env prompt last_run_ms
         end.

(** ** The loop *)

Record LoopState := {
  lp_queues : EventQueues;
  lp_wakes : Wakes;
  lp_last_run_ms : Z;
}.

(** [entries.iter().map(text.trim()).filter(non-empty)] *)
Definition event_texts (es : list SystemEventEntry) : list string := non_blank_trimmed (ev_text <$> es).

(** One wake of a pass: the session's events, the tick, and a retry if it failed. *)
Definition run_wake (env : TickEnv) (wake : PendingHeartbeatWake) (s : LoopState)
  : option (LoopState * list HbAction) :=
  let session_key := default MAIN_SYSTEM_SESSION_KEY (wk_session_key wake) in
  let '(entries, queues) := drain_system_event_entries session_key (lp_queues s) in
  '(r, last, acts) ← tick_with_options env true (Some (wk_reason wake)) (event_texts entries)
                       (lp_last_run_ms s);
  let wakes := match r with
    | Ok _ => lp_wakes s
    | Err _ => queue_pending_heartbeat_wake (Some "retry") (wk_agent_id wake) (wk_session_key wake)
                 (te_now_ms env) (lp_wakes s)
    end in
  Some ({| lp_queues := queues; lp_wakes := wakes; lp_last_run_ms := last |}, acts).

(** The wakes of a pass in order, each with what its tick meets. *)
Fixpoint run_wakes (ws : list (TickEnv * PendingHeartbeatWake)) (s : LoopState)
  : option (LoopState * list HbAction) :=
  match ws with
  | [] => Some (s, [])
  | (env, w) :: ws =>
      '(s, acts) ← run_wake env w s;
      '(s, acts') ← run_wakes ws s;
      Some (s, acts ++ acts')
  end.

(** One pass of the loop, with heartbeats enabled: the wakes taken, or else the
    periodic tick.  [envs] is what each tick meets. *)
Definition heartbeat_pass (values : Wakes -> list PendingHeartbeatWake) (envs : nat -> TickEnv)
    (enabled : bool) (s : LoopState) : option (LoopState * list HbAction) :=
  if negb enabled then Some (s, [])
  else
    let '(pending, wakes) := take_pending_heartbeat_wakes values (lp_wakes s) in
    let s := {| lp_queues := lp_queues s; lp_wakes := wakes; lp_last_run_ms := lp_last_run_ms s |} in
    match pending with
    | _ :: _ => run_wakes (imap (fun i w => (envs i, w)) pending) s
    | [] =>
        let env := envs 0 in
        if should_tick c (lp_last_run_ms s) (te_now_ms env) then
          let '(entries, queues) := drain_system_event_entries MAIN_SYSTEM_SESSION_KEY (lp_queues s) in
          '(_, last, acts) ← tick_with_options env false (Some "interval") (event_texts entries)
                               (lp_last_run_ms s);
          Some ({| lp_queues := queues; lp_wakes := lp_wakes s; lp_last_run_ms := last |}, acts)
        else Some (s, [])
    end.
End Tick.

(** * Memory flush and evolution *)

Record MemoryFlushConfig := {
  mf_enabled : bool;
  soft_threshold_tokens : Z;
  reserve_tokens_floor : Z;
}.
Definition MemoryFlushConfig_default : MemoryFlushConfig := {|
  mf_enabled := true; soft_threshold_tokens := 4000; reserve_tokens_floor := 2000 |}.

Definition should_run_memory_flush (total_tokens context_window : Z) (c : MemoryFlushConfig)
    (last_flush_at_compaction current_compaction_count : Z) : bool :=
  if negb (mf_enabled c) then false
  else
    let threshold := sat_sub (sat_sub context_window (reserve_tokens_floor c)) (soft_threshold_tokens c) in
    (threshold <=? total_tokens)%Z && negb (last_flush_at_compaction =? current_compaction_count)%Z.

Record EvolutionConfig := {
  ec_enabled : bool;
  trigger_every_n_messages : Z;
  min_tokens_to_count : Z;
  ec_prompt : option string;
}.
Definition EvolutionConfig_default : EvolutionConfig := {|
  ec_enabled := true; trigger_every_n_messages := 20; min_tokens_to_count := 0; ec_prompt := None |}.

Record EvolutionState := {
  message_count : Z;
  last_evolved_at_message : Z;
  last_evolved_date : option string;
  evolution_count : Z;
}.
Definition EvolutionState_default : EvolutionState := {|
  message_count := 0; last_evolved_at_message := 0; last_evolved_date := None; evolution_count := 0 |}.

Definition evolution_tick (tokens : Z) (c : EvolutionConfig) (s : EvolutionState) : EvolutionState :=
  if (min_tokens_to_count c <=? tokens)%Z then
    {| message_count := wadd (message_count s) 1; last_evolved_at_message := last_evolved_at_message s;
       last_evolved_date := last_evolved_date s; evolution_count := evolution_count s |}
  else s.

Definition should_run_evolution (s : EvolutionState) (c : EvolutionConfig) : bool :=
  ec_enabled c && (0 <? message_count s)%Z
  && (trigger_every_n_messages c <=? wsub (message_count s) (last_evolved_at_message s))%Z.

(** * The acknowledgement token *)

Lemma is_ascii_app a b : is_ascii_str (a +:+ b) = is_ascii_str a && is_ascii_str b.
Proof. induction a as [|x a IH]; simpl; [done|]. by rewrite IH, andb_assoc. Qed.

Lemma is_ascii_trim s : is_ascii_str s = true -> is_ascii_str (trim s) = true.
Proof.
  destruct (trim_decompose s) as (a & b & H). rewrite H at 1. rewrite !is_ascii_app.
  by intros [_ [? _]%andb_true_iff]%andb_true_iff.
Qed.

Lemma ascii_byte_at s i x : is_ascii_str s = true -> byte_at s i = Some x -> is_utf8_cont x = false.
Proof.
  revert i. induction s as [|y s IH]; intros i; simpl; [done|].
  intros [Hy Hs]%andb_true_iff. apply Nat.ltb_lt in Hy. destruct i; [|by apply IH].
  intros [= ->]. unfold is_utf8_cont. destruct (128 <=? nat_of_ascii x) eqn:E; [|done].
  apply Nat.leb_le in E. lia.
Qed.

Lemma ascii_boundary s i : is_ascii_str s = true -> i <= len s -> is_char_boundary s i = true.
Proof.
  intros Ha Hi. unfold is_char_boundary. destruct (i =? 0); [done|].
  destruct (byte_at s i) as [x|] eqn:E; [by rewrite (ascii_byte_at s i x)|].
  apply byte_at_None in E. apply Nat.eqb_eq. lia.
Qed.

Lemma strip_prefix_total t n :
  is_ascii_str t = true -> is_Some (strip_token_prefix t n).
Proof.
  intros Ha. unfold strip_token_prefix. destruct (n <=? len t) eqn:E; [|by eexists].
  apply Nat.leb_le in E. unfold slice_to, slice_from. rewrite ascii_boundary by done. cbn [mbind option_bind].
  destruct (unwrap_and_check _); cbn [mbind option_bind]; by eexists.
Qed.

(** An ASCII reply is always classified. *)
Lemma strip_heartbeat_ascii text :
  is_ascii_str text = true -> is_Some (strip_heartbeat_token text).
Proof.
  intros Ha%is_ascii_trim. unfold strip_heartbeat_token. cbv zeta.
  destruct (unwrap_and_check (trim text)); [by eexists|].
  destruct (strip_prefix_total (trim text) (len HEARTBEAT_OK_TOKEN) Ha) as [r ->]. cbn [mbind option_bind].
  destruct r; [by eexists|].
  destruct (strip_prefix_total (trim text) (len HEARTBEAT_OK_TOKEN + 4) Ha) as [r ->]. cbn [mbind option_bind].
  destruct r; [by eexists|]. destruct (strip_suffix _ _); [by eexists|].
  destruct (ends_with _ _); [|by eexists].
  unfold slice_to. rewrite ascii_boundary; [by eexists | done | lia].
Qed.

(** A reply of six three-byte characters panics the runner: byte 16 is inside the
    sixth one. *)
Definition six_characters : string := str_repeat (chr3 230 151 165) 6.
Example six_characters_panic : strip_heartbeat_token six_characters = None.
Proof. reflexivity. Qed.

Example token_alone : strip_heartbeat_token " **HEARTBEAT_OK** " = Some ("", true).
Proof. reflexivity. Qed.
Example token_then_text : strip_heartbeat_token "HEARTBEAT_OK all quiet" = Some ("all quiet", true).
Proof. reflexivity. Qed.
Example text_then_token : strip_heartbeat_token "all quiet **HEARTBEAT_OK**" = Some ("all quiet", true).
Proof. reflexivity. Qed.

(** * Ticks *)

Record TickCall := {
  tc_env : TickEnv; tc_force : bool; tc_reason : option string; tc_events : list string }.

Section TickProofs.
Variable parse : string -> option Z.
Variable c : HeartbeatConfig.

Definition call_tick (t : TickCall) (last : Z) : TickResult :=
  tick_with_options parse c (tc_env t) (tc_force t) (tc_reason t) (tc_events t) last.

(** A sequence of ticks: the last [last_run_ms]. *)
Fixpoint run_ticks (ts : list TickCall) (last : Z) : option Z :=
  match ts with
  | [] => Some last
  | t :: ts => '(_, last, _) ← call_tick t last; run_ticks ts last
  end.

Lemma run_turn_result env prompt last r last' acts :
  run_turn c env prompt last = Some (r, last', acts) ->
  (last' = last /\ (exists e, te_turn env prompt = Err e /\ r = Err e) /\ acts = [ATurn prompt]) \/
  exists reply drop_reply, last' = te_now_ms env /\ te_turn env prompt = Ok reply /\
    should_drop_heartbeat_reply reply (ack_max_chars c) = Some drop_reply /\
    if drop_reply : bool then r = Ok tt /\ acts = [ATurn prompt]
    else r = te_alert env (hb_target c) reply /\ acts = [ATurn prompt; AAlert (hb_target c) reply].
Proof.
  unfold run_turn. destruct (te_turn env prompt) as [reply|e]; [|intros; simplify_eq; left; by eauto].
  destruct (should_drop_heartbeat_reply reply (ack_max_chars c)) as [d|] eqn:E; simpl; [|done].
  destruct d; intros; simplify_eq; right;
    [exists reply, true | exists reply, false]; by split_and!.
Qed.

(** Every tick: what it did to the clock and what it called. *)
Lemma tick_result env force reason events last r last' acts :
  tick_with_options parse c env force reason events last = Some (r, last', acts) ->
  (acts = [] /\ (last' = last \/ last' = te_now_ms env)) \/
  (force = true \/ should_tick c last (te_now_ms env) = true) /\
  is_within_active_hours parse (te_time_of_day env) c = true /\
  run_turn c env (tick_prompt c reason events) last = Some (r, last', acts).
Proof.
  unfold tick_with_options.
  destruct (negb force && negb (should_tick c last (te_now_ms env))) eqn:Eg;
    [intros; simplify_eq; by auto|].
  destruct (is_within_active_hours parse (te_time_of_day env) c) eqn:Eh; simpl;
    [|intros; simplify_eq; by auto].
  assert (force = true \/ should_tick c last (te_now_ms env) = true) as Hg.
  { destruct force, (should_tick c last (te_now_ms env)); auto. }
  destruct (should_bypass_empty_heartbeat_file reason); [by auto|].
  destruct (te_file env) as [[raw|]|e]; [|by auto | intros; simplify_eq; by auto].
  destruct (HeartbeatFile_has_tasks raw); [by auto | intros; simplify_eq; by auto].
Qed.

Lemma tick_last env force reason events last r last' acts :
  tick_with_options parse c env force reason events last = Some (r, last', acts) ->
  last' = last \/ last' = te_now_ms env.
Proof.
  intros [[_ H]|(_ & _ & H)]%tick_result; [by destruct H; auto|].
  apply run_turn_result in H as [[-> _]|(? & ? & -> & _)]; auto.
Qed.

Lemma run_ticks_last ts last last' lo :
  run_ticks ts last = Some last' -> (lo <= last)%Z ->
  Forall (fun t => lo <= te_now_ms (tc_env t))%Z ts -> (lo <= last')%Z.
Proof.
  revert last. induction ts as [|t ts IH]; simpl; intros last H Hlo HF; [by simplify_eq|].
  apply Forall_cons in HF as [Ht HF]. unfold call_tick in H.
  destruct (tick_with_options _ _ _ _ _ _ _) as [[[r l] acts]|] eqn:E; simpl in H; [|done].
  apply tick_last in E as [->| ->]; by eapply IH.
Qed.
End TickProofs.

Lemma run_ticks_app parse c ts1 ts2 last :
  run_ticks parse c (ts1 ++ ts2) last = (run_ticks parse c ts1 last ≫= run_ticks parse c ts2).
Proof.
  revert last. induction ts1 as [|t ts1 IH]; intros last; [done|]. simpl.
  destruct (call_tick parse c t last) as [[[r l] acts]|]; simpl; [apply IH | done].
Qed.

(** A heartbeat turn never comes too early and never alerts on an
    acknowledgement.  In any sequence of ticks (forced or not, whatever the agent,
    the file and the channel do) an unforced tick that calls the agent comes at
    least one interval after every earlier tick that was answered, provided the
    clock does not run backwards and the interval fits 64 bits of milliseconds;
    with interval 0 an unforced tick never calls the agent.  A tick calls the agent at most
    once, inside the active hours; it delivers an alert only after an answer, to the
    configured target, with the answer verbatim, and only if the answer is not
    an acknowledgement. *)
Theorem heartbeat_spacing parse c t1 between t2 last last1 last2 r1 acts1 r2 last3 acts2 :
  call_tick parse c t1 last = Some (r1, last1, acts1) -> last1 = te_now_ms (tc_env t1) ->
  run_ticks parse c between last1 = Some last2 ->
  Forall (fun t => te_now_ms (tc_env t1) <= te_now_ms (tc_env t))%Z between ->
  tc_force t2 = false ->
  call_tick parse c t2 last2 = Some (r2, last3, acts2) ->
  acts2 = [] \/
  (interval_secs c <> 0%Z /\
   ((0 <= interval_secs c * 1000 <= u64_max)%Z -> (0 < interval_secs c)%Z ->
    (te_now_ms (tc_env t1) + interval_secs c * 1000 <= te_now_ms (tc_env t2))%Z) /\
   is_within_active_hours parse (te_time_of_day (tc_env t2)) c = true /\
   exists prompt,
     acts2 = [ATurn prompt] \/
     exists reply, acts2 = [ATurn prompt; AAlert (hb_target c) reply] /\
       te_turn (tc_env t2) prompt = Ok reply /\
       should_drop_heartbeat_reply reply (ack_max_chars c) = Some false).
Proof.
  intros _ -> Hrun HF Hforce H.
  pose proof (run_ticks_last parse c between _ _ (te_now_ms (tc_env t1)) Hrun ltac:(lia) HF) as Hlast.
  unfold call_tick in H. apply tick_result in H as [[-> _]|(Hg & Hh & H)]; [by left|].
  right. rewrite Hforce in Hg. destruct Hg as [|Hg]; [done|]. unfold should_tick in Hg.
  destruct (interval_secs c =? 0)%Z eqn:E0; [done|]. apply Z.eqb_neq in E0. apply Z.leb_le in Hg.
  split_and!; [done | | done |].
  - intros Hr Hpos. rewrite wmul_exact in Hg by done. unfold sat_sub in Hg. lia.
  - exists (tick_prompt c (tc_reason t2) (tc_events t2)).
    apply run_turn_result in H as [(_ & _ & ->)|(reply & [] & _ & Hr & Hd & H)]; [by left|..];
      destruct H as [_ ->]; eauto.
Qed.

Definition quiet_env (now : Z) : TickEnv := {|
  te_now_ms := now; te_time_of_day := 0; te_file := Ok None;
  te_turn := fun _ => Ok "disk is full"; te_alert := fun _ _ => Ok tt |}.
Definition quiet_call (now : Z) : TickCall := {|
  tc_env := quiet_env now; tc_force := false; tc_reason := None; tc_events := [] |}.

Lemma heartbeat_spacing_witness :
  let c := HeartbeatConfig_default in
  let none := fun _ : string => @None Z in
  run_ticks none c [quiet_call 2000000; quiet_call 2000500] 0 = Some 2000000%Z /\
  (2000000 + interval_secs c * 1000 <= 4000000)%Z.
Proof.
  intros c none. split; [reflexivity|].
  destruct (heartbeat_spacing none c (quiet_call 2000000) [quiet_call 2000500] (quiet_call 4000000) 0
    2000000 2000000 (Ok tt) [ATurn (effective_prompt c); AAlert "last" "disk is full"] (Ok tt) 4000000
    [ATurn (effective_prompt c); AAlert "last" "disk is full"]
    eq_refl eq_refl eq_refl ltac:(repeat constructor; simpl; lia) eq_refl eq_refl) as [H|(_ & H & _)].
  - discriminate H.
  - apply H; simpl; unfold u64_max; lia.
Defined.

(** * The pass *)

Definition wake_session (w : PendingHeartbeatWake) : string :=
  normalize_system_session_key (Some (default MAIN_SYSTEM_SESSION_KEY (wk_session_key w))).

Lemma drain_lookup session qs k :
  (drain_system_event_entries session qs).2 !! k
  = if decide (k = normalize_system_session_key (Some session)) then None else qs !! k.
Proof.
  unfold drain_system_event_entries. destruct (decide _) as [->|Hne].
  - destruct (qs !! _) as [e|] eqn:E; simpl; [by rewrite lookup_delete_eq | done].
  - destruct (qs !! normalize_system_session_key (Some session)) as [e|]; simpl; [by rewrite lookup_delete_ne | done].
Qed.

(** A retry of one of the wakes in [ws]. *)
Definition is_retry_of (ws : list PendingHeartbeatWake) (x : PendingHeartbeatWake) : Prop :=
  wk_reason x = "retry" /\ wk_priority x = 0%Z /\
  exists w, w ∈ ws /\ wk_agent_id x = normalize_wake_target (wk_agent_id w) /\
            wk_session_key x = normalize_wake_target (wk_session_key w).

Lemma queue_wake_cases reason agent session now wakes k x :
  queue_pending_heartbeat_wake reason agent session now wakes !! k = Some x ->
  wakes !! k = Some x \/ x = mk_wake reason agent session now.
Proof.
  pose proof (apply_wake_lookup wakes
    {| rq_reason := reason; rq_agent := agent; rq_session := session; rq_now := now |} k) as H.
  unfold apply_wake, wake_of in H. simpl in H. rewrite H.
  destruct (decide _); [|by left]. destruct (wakes !! k) as [p|]; [|intros [= <-]; by right].
  destruct (replaces _ p); intros [= <-]; auto.
Qed.

Section PassProofs.
Variable parse : string -> option Z.
Variable c : HeartbeatConfig.

Lemma run_wake_spec env w s s' acts :
  run_wake parse c env w s = Some (s', acts) ->
  (forall k, lp_queues s' !! k = if decide (k = wake_session w) then None else lp_queues s !! k) /\
  (forall k x, lp_wakes s' !! k = Some x -> lp_wakes s !! k = Some x \/ is_retry_of [w] x) /\
  exists r, tick_with_options parse c env true (Some (wk_reason w))
              (event_texts (queue_of (wake_session w) (lp_queues s))) (lp_last_run_ms s)
            = Some (r, lp_last_run_ms s', acts).
Proof.
  unfold run_wake.
  set (key := default MAIN_SYSTEM_SESSION_KEY (wk_session_key w)).
  pose proof (drain_lookup key (lp_queues s)) as Hq.
  destruct (drain_system_event_entries key (lp_queues s)) as [entries queues] eqn:Ed.
  assert (entries = queue_of (wake_session w) (lp_queues s)) as Hentries.
  { unfold drain_system_event_entries in Ed. fold key (wake_session w) in Ed. unfold queue_of, wake_session.
    fold key. destruct (lp_queues s !! _); by simplify_eq/=. }
  destruct (tick_with_options _ _ _ _ _ _ _) as [[[r last] a]|] eqn:E; [|done].
  cbn [mbind option_bind]. intros [= <- <-]. cbn [lp_queues lp_wakes lp_last_run_ms]. split_and!.
  - exact Hq.
  - intros k x. destruct r; [by left|]. intros [H| ->]%queue_wake_cases; [by left|]. right.
    split_and!; [done | done |]. exists w. split; [by left|]. done.
  - exists r. by rewrite <- Hentries.
Qed.

Lemma run_wakes_spec ws s s' acts :
  run_wakes parse c ws s = Some (s', acts) ->
  (forall k, lp_queues s' !! k = if decide (k ∈ wake_session <$> ws.*2) then None else lp_queues s !! k) /\
  (forall k x, lp_wakes s' !! k = Some x -> lp_wakes s !! k = Some x \/ is_retry_of ws.*2 x).
Proof.
  revert s acts. induction ws as [|[env w] ws IH]; intros s acts.
  { cbn [run_wakes]. intros [= <- <-]. split; [|by left]. intros k.
    destruct (decide _) as [H|]; [by apply elem_of_nil in H | done]. }
  cbn [run_wakes]. destruct (run_wake parse c env w s) as [[s1 a1]|] eqn:E1; [|done].
  cbn [mbind option_bind].
  destruct (run_wakes parse c ws s1) as [[s2 a2]|] eqn:E2; [|done]. cbn [mbind option_bind].
  intros [= -> <-]. apply run_wake_spec in E1 as (Hq1 & Hw1 & _).
  destruct (IH _ _ E2) as [Hq2 Hw2]. rewrite !fmap_cons. cbn [snd]. split.
  - intros k. rewrite Hq2, Hq1.
    destruct (decide (k ∈ wake_session <$> ws.*2)) as [H|H],
      (decide (k ∈ wake_session w :: (wake_session <$> ws.*2))) as [H'|H'], (decide (k = wake_session w)) as [H1|H1];
      try done; exfalso; rewrite elem_of_cons in H'; naive_solver.
  - intros k x [H|(Hr & Hp & w' & Hin & Ht)]%Hw2.
    + apply Hw1 in H as [H|(Hr & Hp & w' & Hin & Ht)]; [by left|]. right.
      apply list_elem_of_singleton in Hin as ->. split_and!; [done..|]. exists w. split; [by left | done].
    + right. split_and!; [done..|]. exists w'. split; [by right | done].
Qed.
End PassProofs.

Lemma imap_pair_snd {A B} (f : nat -> A) (l : list B) : (imap (fun i x => (f i, x)) l).*2 = l.
Proof.
  revert f. induction l as [|x l IH]; intros f; [done|]. cbn. f_equal. apply (IH (fun i => f (S i))).
Qed.

(** A pass over pending wakes drains the event queue of every session that
    had a wake, and no other queue, whether or not the agent's turns succeed;
    afterwards the only pending wakes are retries, of the lowest priority, for
    targets of the wakes just run; and a disabled loop touches nothing. *)
Theorem heartbeat_pass_outcome parse c values envs enabled s s' acts :
  (forall w, values w ≡ₚ (map_to_list w).*2) ->
  heartbeat_pass parse c values envs enabled s = Some (s', acts) ->
  if enabled : bool then
    lp_wakes s <> ∅ ->
    (forall k, lp_queues s' !! k
       = if decide (k ∈ wake_session <$> (map_to_list (lp_wakes s)).*2) then None else lp_queues s !! k) /\
    (forall k x, lp_wakes s' !! k = Some x -> is_retry_of (map_to_list (lp_wakes s)).*2 x)
  else s' = s /\ acts = [].
Proof.
  intros Hv. unfold heartbeat_pass. destruct enabled; simpl negb; cbv iota; [|by intros [= <- <-]].
  unfold take_pending_heartbeat_wakes. set (pending := sort_by wake_cmp (values (lp_wakes s))).
  assert (pending ≡ₚ (map_to_list (lp_wakes s)).*2) as Hp
    by (unfold pending; rewrite (sort_by_perm wake_cmp _); apply Hv).
  clearbody pending. destruct pending as [|w0 rest]; cbv beta iota zeta.
  { intros _ Hne. destruct Hne. apply map_to_list_empty_iff, Permutation_nil_r.
    destruct (map_to_list (lp_wakes s)); [done|]. by apply Permutation_nil_l in Hp. }
  intros H _. apply run_wakes_spec in H as [Hq Hw]. rewrite imap_pair_snd in Hq, Hw.
  cbn [lp_queues lp_wakes] in Hq, Hw. split.
  - intros k. rewrite Hq.
    destruct (decide (k ∈ wake_session <$> (w0 :: rest))) as [H|H], (decide (k ∈ _)) as [H'|H']; try done;
      exfalso; rewrite Hp in H; done.
  - intros k x [H|(Hr & Hpr & w & Hin & Ht)]%Hw; [by rewrite lookup_empty in H|].
    split_and!; [done..|]. exists w. rewrite <- Hp. done.
Qed.

Definition down_env (now : Z) : TickEnv := {|
  te_now_ms := now; te_time_of_day := 0; te_file := Ok None;
  te_turn := fun _ => Err "provider down"; te_alert := fun _ _ => Ok tt |}.

(** A scheduled reminder is waiting for its wake. *)
Definition reminder_state : LoopState := {|
  lp_queues := enqueue_system_event_entry "main" "pay rent" None 1 ∅;
  lp_wakes := queue_pending_heartbeat_wake (Some "cron:rent") None (Some "main") 1 ∅;
  lp_last_run_ms := 0 |}.

Definition values_of (w : Wakes) : list PendingHeartbeatWake := (map_to_list w).*2.
Definition reminder_pass (env : nat -> TickEnv) : option (LoopState * list HbAction) :=
  heartbeat_pass (fun _ => None) HeartbeatConfig_default values_of env true reminder_state.

Lemma heartbeat_pass_outcome_witness :
  match reminder_pass (fun _ => quiet_env 10) with
  | Some (s', _) => forall k x, lp_wakes s' !! k = Some x -> wk_reason x = "retry"
  | None => False
  end.
Proof.
  assert (is_Some (reminder_pass (fun _ => quiet_env 10))) as [[s' acts] E]
    by (apply (bool_decide_eq_true_1 _); vm_compute; reflexivity).
  rewrite E. intros k x Hx.
  apply (heartbeat_pass_outcome _ _ values_of (fun _ => quiet_env 10) true reminder_state s' acts
           (fun _ => Permutation_refl _) E) with (k := k); [|exact Hx].
  intros H. apply (f_equal (fun m => bool_decide (m = ∅))) in H. vm_compute in H. discriminate H.
Defined.

(** When the turn fails the drained events are gone: the retry of the reminder
    finds an empty queue, and its prompt is the general one. *)
Example reminder_lost :
  match reminder_pass (fun _ => down_env 10) with
  | Some (s', acts) =>
      acts = [ATurn (build_cron_event_prompt ["pay rent"])] /\
      queue_of "main" (lp_queues s') = [] /\
      match heartbeat_pass (fun _ => None) HeartbeatConfig_default values_of (fun _ => quiet_env 20) true s' with
      | Some (_, acts') => head acts' = Some (ATurn (effective_prompt HeartbeatConfig_default))
      | None => False
      end
  | None => False
  end.
Proof. vm_compute. split_and!; reflexivity. Qed.

(** The events of a command that finished never reach the agent: the prompt says
    they are "in the system messages above", and is all the agent gets. *)
Example exec_output_not_sent :
  tick_prompt HeartbeatConfig_default (Some "exec-event") ["exec finished: 3 tests failed"]
  = EXEC_EVENT_PROMPT.
Proof. reflexivity. Qed.

(** A failing turn leaves [last_run_ms] alone: the next pass tries again at once. *)
Example failing_turn_retries :
  run_ticks (fun _ => None) HeartbeatConfig_default
    [{| tc_env := down_env 2000000; tc_force := false; tc_reason := None; tc_events := [] |}] 0 = Some 0%Z.
Proof. reflexivity. Qed.

(** With a window no larger than the reserves every turn is flushed, once per
    compaction round. *)
Lemma flush_small_window total window c last round :
  (0 <= total)%Z -> mf_enabled c = true ->
  (0 <= reserve_tokens_floor c)%Z -> (0 <= soft_threshold_tokens c)%Z ->
  (window <= reserve_tokens_floor c + soft_threshold_tokens c)%Z ->
  should_run_memory_flush total window c last round = negb (last =? round)%Z.
Proof.
  intros Ht He Hr Hs Hw. unfold should_run_memory_flush. rewrite He. cbn [negb].
  replace (sat_sub (sat_sub window (reserve_tokens_floor c)) (soft_threshold_tokens c)) with 0%Z
    by (unfold sat_sub; lia).
  by rewrite (proj2 (Z.leb_le 0 total)).
Qed.

(** Evolution counters: the last trigger is never ahead of the count, so the
    distance does not wrap, and after an evolution at the current count the next
    one comes after exactly [trigger_every_n_messages] counted messages. *)
Lemma evolution_distance s c n :
  ec_enabled c = true -> min_tokens_to_count c = 0%Z -> (0 < trigger_every_n_messages c)%Z ->
  last_evolved_at_message s = message_count s ->
  (0 <= message_count s)%Z -> (message_count s + Z.of_nat n <= u64_max)%Z -> n <> 0 ->
  should_run_evolution (Nat.iter n (evolution_tick 0 c) s) c
  = (trigger_every_n_messages c <=? Z.of_nat n)%Z.
Proof.
  intros He Hm Ht Hl Hc Hmax Hn.
  assert (message_count (Nat.iter n (evolution_tick 0 c) s) = (message_count s + Z.of_nat n)%Z /\
          last_evolved_at_message (Nat.iter n (evolution_tick 0 c) s) = message_count s) as [H1 H2].
  { clear Hn. induction n as [|n IH]; simpl; [rewrite Hl; lia|].
    destruct IH as [IH1 IH2]; [lia|]. unfold evolution_tick at 1 3. rewrite Hm. simpl.
    rewrite IH1, IH2. split; [|done]. rewrite wadd_exact by lia. lia. }
  unfold should_run_evolution. rewrite He, H1, H2. simpl.
  rewrite (proj2 (Z.ltb_lt 0 _)) by lia. simpl. f_equal. rewrite wsub_exact by lia. lia.
Qed.
