(* ===== verification/NodePairing.v ===== *)
(** Pairing of nodes ([crates/pairing/src], and the node RPCs of
    [crates/gateway-core/src/http.rs]): setup codes, the pending-request store, the
    request, approve, reject, verify and rename handlers, node invocations and the
    choice of the node that serves the browser.

    Every lock of the handlers is a critical section of its own here; a handler is
    the composition of its sections, and [NodeStep] lets the sections of different
    calls interleave.  Clocks, UUIDs, tokens and random numbers are arguments. *)

From Stdlib Require Import Strings.String.
From S2P Require Import Prelude RustStr Json Sorting ConfigStore.
#[local] Open Scope string_scope.
#[local] Open Scope nat_scope.
#[local] Open Scope list_scope.

(** * Setup codes *)

Definition CHARSET : list ascii := list_ascii_of_string "ABCDEFGHJKLMNPQRSTUVWXYZ23456789".
Definition CODE_LEN : nat := 8.

(** [draw i] is the [i]-th random number below the size of the set. *)
Definition generate_setup_code (draw : nat -> nat) : string :=
  string_of_list_ascii ((fun i => nth (draw i) CHARSET zero) <$> seq 0 CODE_LEN).

(** The scalar value of a character from its UTF-8 bytes. *)
Definition char_value (c : string) : N :=
  match N_of_ascii <$> list_ascii_of_string c with
  | [a] => a
  | [a; b] => ((a - 192) * 64 + (b - 128))%N
  | [a; b; d] => ((a - 224) * 4096 + (b - 128) * 64 + (d - 128))%N
  | [a; b; d; e] => ((a - 240) * 262144 + (b - 128) * 4096 + (d - 128) * 64 + (e - 128))%N
  | _ => 0%N
  end.

(** [c as u8] keeps the low byte. *)
Definition char_as_u8 (c : string) : ascii := ascii_of_N (char_value c mod 256)%N.

Definition validate_setup_code (code : string) : bool :=
  (len code =? CODE_LEN) && forallb (fun c => existsb (Ascii.eqb (char_as_u8 c)) CHARSET) (chars code).

(** * The store of requests *)

Record PairingRequest := {
  pq_id : string;
  pq_code : string;
  pq_created_at : Z;
  pq_last_seen_at : Z;
  pq_meta : gmap string string;
  pq_approved : bool;
}.

Inductive PairingError :=
| TooManyPending (max : nat)
| NotFound (id : string)
| Expired (id : string).

Definition PairingError_message (e : PairingError) : string :=
  match e with
  | TooManyPending n => "too many pending requests (max " +:+ pretty (N.of_nat n) +:+ ")"
  | NotFound id => "request not found: " +:+ id
  | Expired id => "request expired: " +:+ id
  end.

Record PairingStore := {
  ps_requests : list PairingRequest;
  ps_max_pending : nat;
  ps_ttl_ms : Z;
}.

Definition PairingStore_new (max_pending : nat) (ttl_ms : Z) : PairingStore := {|
  ps_requests := []; ps_max_pending := max_pending; ps_ttl_ms := ttl_ms |}.
Definition PairingStore_default : PairingStore := PairingStore_new 3 3600000.

Definition with_requests (rs : list PairingRequest) (s : PairingStore) : PairingStore := {|
  ps_requests := rs; ps_max_pending := ps_max_pending s; ps_ttl_ms := ps_ttl_ms s |}.

(** [(now - created_at) < ttl_ms]: a wrapping difference. *)
Definition in_ttl (now : Z) (s : PairingStore) (r : PairingRequest) : bool :=
  (wsub now (pq_created_at r) <? ps_ttl_ms s)%Z.

Definition cleanup_expired (now : Z) (s : PairingStore) : PairingStore :=
  with_requests (retain (fun r => pq_approved r || in_ttl now s r) (ps_requests s)) s.

Definition list_pending (s : PairingStore) : list PairingRequest :=
  retain (fun r => negb (pq_approved r)) (ps_requests s).
Definition list_approved (s : PairingStore) : list PairingRequest := retain pq_approved (ps_requests s).

Definition create_request (now : Z) (id code : string) (s : PairingStore)
  : result PairingRequest PairingError * PairingStore :=
  let s := cleanup_expired now s in
  if ps_max_pending s <=? length (list_pending s) then (Err (TooManyPending (ps_max_pending s)), s)
  else
    let req := {| pq_id := id; pq_code := code; pq_created_at := now; pq_last_seen_at := now;
                  pq_meta := ∅; pq_approved := false |} in
    (Ok req, with_requests (ps_requests s ++ [req]) s).

Definition verify_code (now : Z) (code : string) (s : PairingStore) : option PairingRequest :=
  find_first (fun r => String.eqb (pq_code r) code && negb (pq_approved r) && in_ttl now s r)
    (ps_requests s).

Definition mark_approved (now : Z) (r : PairingRequest) : PairingRequest := {|
  pq_id := pq_id r; pq_code := pq_code r; pq_created_at := pq_created_at r; pq_last_seen_at := now;
  pq_meta := pq_meta r; pq_approved := true |}.

Definition approve (now : Z) (id : string) (s : PairingStore) : result unit PairingError * PairingStore :=
  let is_it r := String.eqb (pq_id r) id in
  match find_first is_it (ps_requests s) with
  | None => (Err (NotFound id), s)
  | Some _ => (Ok tt, with_requests (update_first is_it (mark_approved now) (ps_requests s)) s)
  end.

Definition reject (id : string) (s : PairingStore) : result unit PairingError * PairingStore :=
  match position (fun r => String.eqb (pq_id r) id) (ps_requests s) with
  | None => (Err (NotFound id), s)
  | Some idx => (Ok tt, with_requests (delete idx (ps_requests s)) s)
  end.

(** * The allowlist *)

Definition Allowlist_add (id : string) (l : gset string) : gset string := {[id]} ∪ l.
Definition Allowlist_remove (id : string) (l : gset string) : bool * gset string :=
  (bool_decide (id ∈ l), l ∖ {[id]}).
Definition Allowlist_contains (id : string) (l : gset string) : bool := bool_decide (id ∈ l).

(** * Node records and their handlers *)

Record NodePairRecord := {
  nr_request_id : string;
  nr_node_id : string;
  nr_display_name : option string;
  nr_platform : option string;
  nr_version : option string;
  nr_core_version : option string;
  nr_ui_version : option string;
  nr_remote_ip : option string;
  nr_caps : option (list string);
  nr_commands : option (list string);
  nr_is_repair : bool;
  nr_ts : Z;
  nr_approved : bool;
  nr_token : option string;
  nr_approved_at_ms : option Z;
  nr_last_connected_at_ms : option Z;
}.

Record NodeInvokeRecord := {
  iv_id : string;
  iv_node_id : string;
  iv_command : string;
  iv_params : json;
  iv_created_at_ms : Z;
  iv_status : string;
  iv_result : option json;
  iv_error : option json;
}.

Record NodeState := {
  ns_store : PairingStore;
  ns_pairs : gmap string NodePairRecord;
  ns_index : gmap string string;
  ns_connected : gset string;
  ns_invocations : gmap string NodeInvokeRecord;
}.

Definition NodeState_new : NodeState := {|
  ns_store := PairingStore_default; ns_pairs := ∅; ns_index := ∅; ns_connected := ∅;
  ns_invocations := ∅ |}.

Definition set_store (x : PairingStore) (s : NodeState) : NodeState := {|
  ns_store := x; ns_pairs := ns_pairs s; ns_index := ns_index s; ns_connected := ns_connected s;
  ns_invocations := ns_invocations s |}.
Definition set_pairs (x : gmap string NodePairRecord) (s : NodeState) : NodeState := {|
  ns_store := ns_store s; ns_pairs := x; ns_index := ns_index s; ns_connected := ns_connected s;
  ns_invocations := ns_invocations s |}.
Definition set_index (x : gmap string string) (s : NodeState) : NodeState := {|
  ns_store := ns_store s; ns_pairs := ns_pairs s; ns_index := x; ns_connected := ns_connected s;
  ns_invocations := ns_invocations s |}.
Definition set_connected (x : gset string) (s : NodeState) : NodeState := {|
  ns_store := ns_store s; ns_pairs := ns_pairs s; ns_index := ns_index s; ns_connected := x;
  ns_invocations := ns_invocations s |}.
Definition set_invocations (x : gmap string NodeInvokeRecord) (s : NodeState) : NodeState := {|
  ns_store := ns_store s; ns_pairs := ns_pairs s; ns_index := ns_index s;
  ns_connected := ns_connected s; ns_invocations := x |}.

Definition normalize_node_id (raw : string) : result string RpcError :=
  let node_id := trim raw in
  if String.eqb node_id "" then Err (rpc_error "INVALID_PARAMS" "nodeId cannot be empty")
  else if contains node_id ".." || contains node_id "/" || contains node_id "\"
  then Err (rpc_error "INVALID_PARAMS" "Invalid nodeId")
  else Ok node_id.

Definition ok_or {A} (o : option A) (e : RpcError) : result A RpcError :=
  match o with Some x => Ok x | None => Err e end.

Definition require_node_id (p : json) : result string RpcError :=
  rbind (ok_or (or_else (get "nodeId" p) (get "id" p) ≫= as_str)
           (rpc_error "INVALID_PARAMS" "Missing 'nodeId'")) normalize_node_id.

Definition require_request_id (p : json) : result string RpcError :=
  rbind (ok_or (or_else (get "requestId" p) (get "id" p) ≫= as_str)
           (rpc_error "INVALID_PARAMS" "Missing 'requestId'"))
    (fun raw => ok_or (trimmed (Some raw)) (rpc_error "INVALID_PARAMS" "requestId cannot be empty")).

Definition node_default_caps : list string := ["system"; "canvas"; "camera"; "location"; "notify"].
Definition node_default_commands : list string :=
  ["system.run"; "system.notify"; "canvas.present"; "canvas.hide"; "canvas.navigate";
   "camera.capture"; "location.get"].

Definition parse_node_string_list (value : option json) : option (list string) :=
  arr ← value ≫= as_array;
  match to_set (trimmed_strings arr) with [] => None | l => Some l end.

Definition node_pair_pending_payload (rec : NodePairRecord) : json :=
  jobject [("requestId", JStr (nr_request_id rec)); ("nodeId", JStr (nr_node_id rec));
           ("displayName", jopt JStr (nr_display_name rec)); ("platform", jopt JStr (nr_platform rec));
           ("version", jopt JStr (nr_version rec)); ("coreVersion", jopt JStr (nr_core_version rec));
           ("uiVersion", jopt JStr (nr_ui_version rec)); ("remoteIp", jopt JStr (nr_remote_ip rec));
           ("caps", jopt jstrs (nr_caps rec)); ("commands", jopt jstrs (nr_commands rec));
           ("isRepair", JBool (nr_is_repair rec)); ("ts", JInt (nr_ts rec))].

Definition node_pair_paired_payload (include_secrets : bool) (rec : NodePairRecord) : json :=
  jobject [("nodeId", JStr (nr_node_id rec));
           ("token", jopt JStr (if include_secrets then nr_token rec else None));
           ("displayName", jopt JStr (nr_display_name rec)); ("platform", jopt JStr (nr_platform rec));
           ("version", jopt JStr (nr_version rec)); ("coreVersion", jopt JStr (nr_core_version rec));
           ("uiVersion", jopt JStr (nr_ui_version rec)); ("remoteIp", jopt JStr (nr_remote_ip rec));
           ("caps", jopt jstrs (nr_caps rec)); ("commands", jopt jstrs (nr_commands rec));
           ("createdAtMs", JInt (nr_ts rec)); ("approvedAtMs", jopt JInt (nr_approved_at_ms rec));
           ("lastConnectedAtMs", jopt JInt (nr_last_connected_at_ms rec))].

(** ** Requesting *)

(** The record of a request. *)
Definition new_node_record (p : json) (now : Z) (request_id node_id : string) : NodePairRecord := {|
  nr_request_id := request_id; nr_node_id := node_id;
  nr_display_name := trimmed (or_else (get "displayName" p) (get "name" p) ≫= as_str);
  nr_platform := trimmed (get_str "platform" p); nr_version := trimmed (get_str "version" p);
  nr_core_version := trimmed (get_str "coreVersion" p); nr_ui_version := trimmed (get_str "uiVersion" p);
  nr_remote_ip := trimmed (get_str "remoteIp" p);
  nr_caps := parse_node_string_list (get "caps" p);
  nr_commands := parse_node_string_list (get "commands" p);
  nr_is_repair := default false (get_bool "isRepair" p);
  nr_ts := now; nr_approved := false; nr_token := None; nr_approved_at_ms := None;
  nr_last_connected_at_ms := None |}.

(** The pending request of a node, if it has one. *)
Definition pending_request (node_id : string) (s : NodeState) : option NodePairRecord :=
  existing_request ← ns_index s !! node_id;
  rec ← ns_pairs s !! existing_request;
  if nr_approved rec then None else Some rec.

Definition insert_pair (rec : NodePairRecord) (s : NodeState) : NodeState :=
  set_pairs (<[nr_request_id rec := rec]> (ns_pairs s)) s.
Definition insert_index (node_id request_id : string) (s : NodeState) : NodeState :=
  set_index (<[node_id := request_id]> (ns_index s)) s.

Definition rpc_node_pair_request (p : json) (now : Z) (id code : string) (s : NodeState)
  : RpcResult * NodeState :=
  match require_node_id p with
  | Err e => (Err e, s)
  | Ok node_id =>
      match pending_request node_id s with
      | Some rec =>
          (Ok (jobject [("status", JStr "pending"); ("created", JBool false);
                        ("request", node_pair_pending_payload rec)]), s)
      | None =>
          match create_request now id code (ns_store s) with
          | (Err e, st) => (Err (rpc_error "UNAVAILABLE" (PairingError_message e)), set_store st s)
          | (Ok req, st) =>
              let rec := new_node_record p now (pq_id req) node_id in
              let s := insert_index node_id (pq_id req) (insert_pair rec (set_store st s)) in
              (Ok (jobject [("status", JStr "pending"); ("created", JBool true);
                            ("request", node_pair_pending_payload rec); ("code", JStr (pq_code req))]), s)
          end
      end
  end.

(** Most recent first; [records] is the table in its iteration order. *)
Definition rpc_node_pair_list (p : json) (records : list NodePairRecord) : RpcResult :=
  let include_secrets := default false (get_bool "includeSecrets" p) in
  let records := sort_by (cmp_rev (by_Z nr_ts)) records in
  Ok (jobject
    [("pending", JArr (node_pair_pending_payload <$> retain (fun r => negb (nr_approved r)) records));
     ("paired", JArr (node_pair_paired_payload include_secrets <$> retain nr_approved records))]).

(** ** Approving and rejecting *)

Definition approve_record (now : Z) (token : string) (rec : NodePairRecord) : NodePairRecord := {|
  nr_request_id := nr_request_id rec; nr_node_id := nr_node_id rec;
  nr_display_name := nr_display_name rec; nr_platform := nr_platform rec; nr_version := nr_version rec;
  nr_core_version := nr_core_version rec; nr_ui_version := nr_ui_version rec;
  nr_remote_ip := nr_remote_ip rec; nr_caps := nr_caps rec; nr_commands := nr_commands rec;
  nr_is_repair := nr_is_repair rec; nr_ts := nr_ts rec; nr_approved := true; nr_token := Some token;
  nr_approved_at_ms := Some now; nr_last_connected_at_ms := nr_last_connected_at_ms rec |}.

Definition approve_pair (now : Z) (token request_id : string) (s : NodeState)
  : result NodePairRecord RpcError * NodeState :=
  match ns_pairs s !! request_id with
  | None => (Err (rpc_error "INVALID_REQUEST" "unknown requestId"), s)
  | Some rec =>
      let rec := approve_record now token rec in
      (Ok rec, set_pairs (<[request_id := rec]> (ns_pairs s)) s)
  end.

Definition rpc_node_pair_approve (p : json) (now : Z) (token : string) (s : NodeState)
  : RpcResult * NodeState :=
  match require_request_id p with
  | Err e => (Err e, s)
  | Ok request_id =>
      match approve now request_id (ns_store s) with
      | (Err e, st) => (Err (rpc_error "INVALID_REQUEST" (PairingError_message e)), set_store st s)
      | (Ok _, st) =>
          match approve_pair now token request_id (set_store st s) with
          | (Err e, s) => (Err e, s)
          | (Ok rec, s) =>
              (Ok (jobject [("requestId", JStr (nr_request_id rec));
                            ("node", jobject [("nodeId", JStr (nr_node_id rec));
                                              ("displayName", jopt JStr (nr_display_name rec));
                                              ("platform", jopt JStr (nr_platform rec))]);
                            ("token", JStr token)]), s)
          end
      end
  end.

Definition remove_pair (request_id : string) (s : NodeState) : option NodePairRecord * NodeState :=
  (ns_pairs s !! request_id, set_pairs (delete request_id (ns_pairs s)) s).
Definition remove_index (node_id : string) (s : NodeState) : NodeState :=
  set_index (delete node_id (ns_index s)) s.
Definition disconnect (node_id : string) (s : NodeState) : NodeState :=
  set_connected (ns_connected s ∖ {[node_id]}) s.

Definition rpc_node_pair_reject (p : json) (s : NodeState) : RpcResult * NodeState :=
  match require_request_id p with
  | Err e => (Err e, s)
  | Ok request_id =>
      match reject request_id (ns_store s) with
      | (Err e, st) => (Err (rpc_error "INVALID_REQUEST" (PairingError_message e)), set_store st s)
      | (Ok _, st) =>
          match remove_pair request_id (set_store st s) with
          | (Some removed, s) =>
              (Ok (jobject [("requestId", JStr request_id); ("nodeId", JStr (nr_node_id removed));
                            ("rejected", JBool true)]),
               disconnect (nr_node_id removed) (remove_index (nr_node_id removed) s))
          | (None, s) => (Ok (jobject [("requestId", JStr request_id); ("rejected", JBool true)]), s)
          end
      end
  end.

(** ** Connecting *)

Definition see_connected (now : Z) (rec : NodePairRecord) : NodePairRecord := {|
  nr_request_id := nr_request_id rec; nr_node_id := nr_node_id rec;
  nr_display_name := nr_display_name rec; nr_platform := nr_platform rec; nr_version := nr_version rec;
  nr_core_version := nr_core_version rec; nr_ui_version := nr_ui_version rec;
  nr_remote_ip := nr_remote_ip rec; nr_caps := nr_caps rec; nr_commands := nr_commands rec;
  nr_is_repair := nr_is_repair rec; nr_ts := nr_ts rec; nr_approved := nr_approved rec;
  nr_token := nr_token rec; nr_approved_at_ms := nr_approved_at_ms rec;
  nr_last_connected_at_ms := Some now |}.

(** The section under the pairs lock, which is held while the node is marked
    connected; [request_id] was read from the index before. *)
Definition connect_section (now : Z) (node_id token request_id : string) (s : NodeState)
  : result unit RpcError * NodeState :=
  let bad m := (Err (rpc_error "INVALID_REQUEST" m), s) in
  match ns_pairs s !! request_id with
  | None => bad "unknown nodeId"
  | Some rec =>
      if negb (nr_approved rec) then bad "node not approved"
      else if negb (bool_decide (nr_token rec = Some token)) then bad "invalid token"
      else (Ok tt, set_connected ({[node_id]} ∪ ns_connected s)
                     (set_pairs (<[request_id := see_connected now rec]> (ns_pairs s)) s))
  end.

Definition rpc_node_pair_verify (p : json) (now : Z) (s : NodeState) : RpcResult * NodeState :=
  match require_node_id p with
  | Err e => (Err e, s)
  | Ok node_id =>
      match get_str "token" p with
      | None => (Err (rpc_error "INVALID_PARAMS" "Missing 'token'"), s)
      | Some raw =>
          let token := trim raw in
          if String.eqb token "" then (Err (rpc_error "INVALID_PARAMS" "token cannot be empty"), s)
          else match ns_index s !! node_id with
               | None => (Err (rpc_error "INVALID_REQUEST" "unknown nodeId"), s)
               | Some request_id =>
                   match connect_section now node_id token request_id s with
                   | (Err e, s) => (Err e, s)
                   | (Ok _, s) =>
                       (Ok (jobject [("ok", JBool true); ("nodeId", JStr node_id);
                                     ("verified", JBool true); ("ts", JInt now)]), s)
                   end
               end
      end
  end.

Definition rename_record (name : string) (rec : NodePairRecord) : NodePairRecord := {|
  nr_request_id := nr_request_id rec; nr_node_id := nr_node_id rec;
  nr_display_name := Some name; nr_platform := nr_platform rec; nr_version := nr_version rec;
  nr_core_version := nr_core_version rec; nr_ui_version := nr_ui_version rec;
  nr_remote_ip := nr_remote_ip rec; nr_caps := nr_caps rec; nr_commands := nr_commands rec;
  nr_is_repair := nr_is_repair rec; nr_ts := nr_ts rec; nr_approved := nr_approved rec;
  nr_token := nr_token rec; nr_approved_at_ms := nr_approved_at_ms rec;
  nr_last_connected_at_ms := nr_last_connected_at_ms rec |}.

Definition rename_section (name request_id : string) (s : NodeState) : result unit RpcError * NodeState :=
  match ns_pairs s !! request_id with
  | None => (Err (rpc_error "INVALID_REQUEST" "unknown nodeId"), s)
  | Some rec => (Ok tt, set_pairs (<[request_id := rename_record name rec]> (ns_pairs s)) s)
  end.

Definition rpc_node_rename (p : json) (s : NodeState) : RpcResult * NodeState :=
  match require_node_id p with
  | Err e => (Err e, s)
  | Ok node_id =>
      match or_else (get "displayName" p) (get "name" p) ≫= as_str with
      | None => (Err (rpc_error "INVALID_PARAMS" "Missing 'displayName'"), s)
      | Some raw =>
          let display_name := trim raw in
          if String.eqb display_name "" then
            (Err (rpc_error "INVALID_PARAMS" "displayName cannot be empty"), s)
          else match ns_index s !! node_id with
               | None => (Err (rpc_error "INVALID_REQUEST" "unknown nodeId"), s)
               | Some request_id =>
                   match rename_section display_name request_id s with
                   | (Err e, s) => (Err e, s)
                   | (Ok _, s) =>
                       (Ok (jobject [("nodeId", JStr node_id); ("displayName", JStr display_name)]), s)
                   end
               end
      end
  end.

(** ** Invocations *)

(** The checks and the record of [rpc_node_invoke]: the new invocation's id, its
    time limit. *)
Definition rpc_node_invoke_start (p : json) (now : Z) (id : string) (s : NodeState)
  : result Z RpcError * NodeState :=
  match require_node_id p with
  | Err e => (Err e, s)
  | Ok node_id =>
      match or_else (get "command" p) (get "method" p) ≫= as_str with
      | None => (Err (rpc_error "INVALID_PARAMS" "Missing 'command'"), s)
      | Some raw =>
          let command := trim raw in
          if String.eqb command "" then (Err (rpc_error "INVALID_PARAMS" "command cannot be empty"), s)
          else if String.eqb command "system.execApprovals.get"
                  || String.eqb command "system.execApprovals.set"
          then (Err (rpc_error "INVALID_REQUEST"
                  "node.invoke does not allow system.execApprovals.*; use exec.approvals.node.*"), s)
          else if negb (bool_decide (node_id ∈ ns_connected s))
          then (Err (rpc_error "UNAVAILABLE" "node not connected"), s)
          else
            let record := {|
              iv_id := id; iv_node_id := node_id; iv_command := command;
              iv_params := default JNull (get "params" p); iv_created_at_ms := now;
              iv_status := "pending"; iv_result := None; iv_error := None |} in
            (Ok (Z.min (default 120000%Z (get_u64 "timeoutMs" p)) 600000),
             set_invocations (<[id := record]> (ns_invocations s)) s)
      end
  end.

(** One round of its loop; [None]: sleep and look again. *)
Definition invoke_poll (id : string) (timeout_ms : Z) (expired : bool) (s : NodeState)
  : option RpcResult :=
  match ns_invocations s !! id with
  | None => Some (Err (rpc_error "UNAVAILABLE" "invoke state lost"))
  | Some current =>
      if String.eqb (iv_status current) "ok" then
        Some (Ok (jobject [("ok", JBool true); ("id", JStr (iv_id current));
                           ("nodeId", JStr (iv_node_id current)); ("command", JStr (iv_command current));
                           ("payload", jopt (fun v => v) (iv_result current))]))
      else if String.eqb (iv_status current) "error" then
        Some (Err (rpc_error "UNAVAILABLE"
          (default "node invocation failed" (iv_error current ≫= get_str "message"))))
      else if expired then
        Some (Err (rpc_error "UNAVAILABLE"
          ("node.invoke timed out (id=" +:+ id +:+ ", timeoutMs=" +:+ pretty timeout_ms +:+ ")")))
      else None
  end.

Definition settle (ok : bool) (payload error : option json) (r : NodeInvokeRecord) : NodeInvokeRecord := {|
  iv_id := iv_id r; iv_node_id := iv_node_id r; iv_command := iv_command r; iv_params := iv_params r;
  iv_created_at_ms := iv_created_at_ms r;
  iv_status := if ok then "ok" else "error";
  iv_result := if ok then payload else iv_result r;
  iv_error := if ok then None
              else or_else error (Some (jobject [("message", JStr "node invoke failed")])) |}.

Definition rpc_node_invoke_result (p : json) (s : NodeState) : RpcResult * NodeState :=
  match get_str "id" p with
  | None => (Err (rpc_error "INVALID_PARAMS" "Missing 'id'"), s)
  | Some raw =>
      let invoke_id := trim raw in
      if String.eqb invoke_id "" then (Err (rpc_error "INVALID_PARAMS" "id cannot be empty"), s)
      else match require_node_id p with
           | Err e => (Err e, s)
           | Ok node_id =>
               let ok := default true (get_bool "ok" p) in
               let payload := or_else (get "payload" p) (get "result" p) in
               match ns_invocations s !! invoke_id with
               | None => (Ok (jobject [("ok", JBool true); ("ignored", JBool true)]), s)
               | Some record =>
                   if negb (String.eqb (iv_node_id record) node_id) then
                     (Err (rpc_error "INVALID_REQUEST" "nodeId mismatch"), s)
                   else
                     (Ok (jobject [("ok", JBool true)]),
                      set_invocations (<[invoke_id := settle ok payload (get "error" p) record]>
                                         (ns_invocations s)) s)
               end
           end
  end.

(** ** The listing of nodes

    One record per node id: the latest approved one, or the first met in the
    table's iteration order. *)
Definition prefer (existing rec : NodePairRecord) : NodePairRecord :=
  if nr_approved rec && (negb (nr_approved existing) || (nr_ts existing <? nr_ts rec)%Z)
  then rec else existing.

Definition by_node (records : list NodePairRecord) : gmap string NodePairRecord :=
  foldl (fun m rec => <[nr_node_id rec := match m !! nr_node_id rec with
                                          | Some existing => prefer existing rec
                                          | None => rec
                                          end]> m) ∅ records.

(** * The node that serves the browser *)

Record BrowserNodeDescriptor := {
  bn_node_id : string;
  bn_display_name : option string;
  bn_remote_ip : option string;
  bn_platform : option string;
  bn_caps : list string;
  bn_commands : list string;
}.

Definition or_default_list (o : option (list string)) (d : list string) : list string :=
  match o with Some (x :: l) => x :: l | _ => d end.
Definition node_caps_for_browser (rec : option NodePairRecord) : list string :=
  or_default_list (rec ≫= nr_caps) node_default_caps.
Definition node_commands_for_browser (rec : option NodePairRecord) : list string :=
  or_default_list (rec ≫= nr_commands) node_default_commands.

(** [connected] is the set in its iteration order. *)
Definition browser_connected_nodes (records : list NodePairRecord) (connected : list string)
  : list BrowserNodeDescriptor :=
  let m := by_node records in
  sort_by (by_str bn_node_id)
    ((fun node_id =>
        let rec := m !! node_id in {|
          bn_node_id := node_id;
          bn_display_name := rec ≫= nr_display_name; bn_remote_ip := rec ≫= nr_remote_ip;
          bn_platform := rec ≫= nr_platform;
          bn_caps := node_caps_for_browser rec; bn_commands := node_commands_for_browser rec |})
     <$> connected).

Definition browser_node_is_capable (n : BrowserNodeDescriptor) : bool :=
  existsb (fun cap => String.eqb cap "browser") (bn_caps n)
  || existsb (fun cmd => String.eqb cmd "browser.proxy") (bn_commands n).

Definition is_ascii_alnum (c : ascii) : bool :=
  let n := nat_of_ascii c in
  ((48 <=? n) && (n <=? 57)) || ((65 <=? n) && (n <=? 90)) || ((97 <=? n) && (n <=? 122)).

Definition normalize_node_key (value : string) : string :=
  string_of_list_ascii (retain is_ascii_alnum (list_ascii_of_string (to_ascii_lowercase (trim value)))).

Definition node_matches (q : string) (n : BrowserNodeDescriptor) : bool :=
  String.eqb (bn_node_id n) q
  || bool_decide (bn_remote_ip n = Some q)
  || match bn_display_name n with
     | Some name => String.eqb (normalize_node_key name) (normalize_node_key q)
     | None => false
     end
  || ((6 <=? len q) && starts_with (bn_node_id n) q).

Definition browser_resolve_named_node (nodes : list BrowserNodeDescriptor) (query : string)
  : result (option BrowserNodeDescriptor) RpcError :=
  let q := trim query in
  if String.eqb q "" then Ok None
  else match retain (node_matches q) nodes with
       | [] => Ok None
       | [n] => Ok (Some n)
       | matches =>
           let names := join ", " ((fun n => default (bn_node_id n)
             (or_else (bn_display_name n) (bn_remote_ip n))) <$> matches) in
           Err (rpc_error "UNAVAILABLE" ("ambiguous node: " +:+ q +:+ " (matches: " +:+ names +:+ ")"))
       end.

(** The policy of [browser_gateway_node_policy]: a mode and a configured node. *)
Definition browser_resolve_node_target (nodes : list BrowserNodeDescriptor)
    (policy : string * option string) (explicit_node : option string)
  : result (option BrowserNodeDescriptor) RpcError :=
  let not_connected q :=
    rpc_error "UNAVAILABLE" ("Configured browser node not connected: " +:+ q) in
  let named ns q :=
    match browser_resolve_named_node ns q with
    | Err e => Err e
    | Ok (Some n) => Ok (Some n)
    | Ok None => Err (not_connected q)
    end in
  let browser_nodes := retain browser_node_is_capable nodes in
  match explicit_node with
  | Some q => named nodes q
  | None =>
      let '(mode, configured_node) := policy in
      if String.eqb mode "off" then Ok None
      else match browser_nodes with
           | [] =>
               match configured_node with
               | Some _ => Err (rpc_error "UNAVAILABLE" "No connected browser-capable nodes.")
               | None => Ok None
               end
           | n :: rest =>
               match configured_node with
               | Some q => named browser_nodes q
               | None =>
                   if String.eqb mode "manual" then Ok None
                   else match rest with [] => Ok (Some n) | _ => Ok None end
               end
           end
  end.

(** ** The commands a node may serve *)

Inductive PlatformId := PIos | PAndroid | PMacos | PWindows | PLinux | PUnknown.
#[export] Instance PlatformId_eq_dec : EqDecision PlatformId.
Proof. solve_decision. Defined.

Definition normalize_platform_id (platform : option string) : PlatformId :=
  let raw := to_ascii_lowercase (trim (default "" platform)) in
  if starts_with raw "ios" then PIos
  else if starts_with raw "android" then PAndroid
  else if starts_with raw "mac" || starts_with raw "darwin" then PMacos
  else if starts_with raw "win" then PWindows
  else if starts_with raw "linux" then PLinux
  else PUnknown.

Definition CANVAS : list string :=
  ["canvas.present"; "canvas.hide"; "canvas.navigate"; "canvas.eval"; "canvas.snapshot";
   "canvas.a2ui.push"; "canvas.a2ui.pushJSONL"; "canvas.a2ui.reset"].
Definition SYSTEM : list string := ["system.run"; "system.which"; "system.notify"; "browser.proxy"].
Definition PERSONAL : list string :=
  CANVAS ++ ["camera.list"] ++ ["location.get"] ++ ["device.info"; "device.status"]
  ++ ["contacts.search"] ++ ["calendar.events"] ++ ["reminders.list"] ++ ["photos.latest"]
  ++ ["motion.activity"; "motion.pedometer"].

Definition platform_default_allowlist (platform : PlatformId) : list string :=
  match platform with
  | PIos => PERSONAL ++ ["system.notify"]
  | PAndroid => PERSONAL
  | PMacos => PERSONAL ++ SYSTEM
  | PLinux | PWindows => SYSTEM
  | PUnknown => CANVAS ++ ["camera.list"] ++ ["location.get"] ++ SYSTEM
  end.

Definition trimmed_names (l : list string) : list string :=
  retain (fun s => negb (String.eqb s "")) (trim <$> l).

(** [gateway.nodes.allowCommands] and [denyCommands], where configured. *)
Definition browser_resolve_node_command_allowlist (allow_commands deny_commands : option (list string))
    (platform : option string) : gset string :=
  (list_to_set (platform_default_allowlist (normalize_platform_id platform))
   ∪ list_to_set (trimmed_names (default [] allow_commands)))
  ∖ list_to_set (trimmed_names (default [] deny_commands)).

Definition browser_validate_node_command_allowed (command : string) (declared : list string)
    (allowlist : gset string) : result unit RpcError :=
  let bad m := Err (rpc_error "INVALID_PARAMS" ("node command not allowed: " +:+ m)) in
  if negb (bool_decide (command ∈ allowlist)) then bad "command not allowlisted"
  else match declared with
       | [] => bad "node did not declare commands"
       | _ => if existsb (String.eqb command) declared then Ok tt
              else bad "command not declared by node"
       end.

(** * Setup codes: proofs *)

Lemma nth_charset i : existsb (Ascii.eqb (nth i CHARSET zero)) CHARSET = true \/ nth i CHARSET zero = zero.
Proof.
  destruct (nth_in_or_default i CHARSET zero) as [Hin|]; [|by right]. left.
  apply existsb_exists. eexists. split; [exact Hin | apply Ascii.eqb_refl].
Qed.

Definition charset_ok (c : ascii) : bool :=
  (nat_of_ascii c <? 128) && Ascii.eqb (char_as_u8 (String c "")) c && existsb (Ascii.eqb c) CHARSET.

Lemma charset_all : forallb charset_ok CHARSET = true.
Proof. vm_compute. reflexivity. Qed.

Lemma chars_ascii l :
  forallb (fun c => nat_of_ascii c <? 128) l = true ->
  chars (string_of_list_ascii l) = (fun c => String c "") <$> l.
Proof.
  induction l as [|c l IH]; [done|]. simpl. intros [Hc Hl]%andb_true_iff.
  rewrite (IH Hl). destruct l as [|d l]; [done|]. simpl. simpl in Hl. apply andb_true_iff in Hl as [Hd _].
  apply Nat.ltb_lt in Hd. unfold is_utf8_cont. destruct (128 <=? nat_of_ascii d) eqn:E; [|done].
  apply Nat.leb_le in E. lia.
Qed.

Lemma len_of_list l : len (string_of_list_ascii l) = length l.
Proof. induction l as [|c l IH]; simpl; [done|]. by rewrite IH. Qed.

(** Every generated code is valid. *)
Lemma generate_validate draw :
  (forall i, draw i < length CHARSET) -> validate_setup_code (generate_setup_code draw) = true.
Proof.
  intros Hd. unfold generate_setup_code, validate_setup_code.
  set (l := (fun i => nth (draw i) CHARSET zero) <$> seq 0 CODE_LEN).
  assert (Forall (fun c => charset_ok c = true) l) as Hl.
  { apply Forall_forall. intros c (i & -> & _)%list_elem_of_fmap.
    pose proof charset_all as H. rewrite forallb_forall in H. by apply H, nth_In. }
  rewrite len_of_list. unfold l at 1. rewrite length_fmap, length_seq, Nat.eqb_refl. cbn [andb].
  clearbody l. rewrite chars_ascii.
  - induction Hl as [|c l Hc _ IH]; [done|]. cbn [fmap list_fmap forallb]. apply andb_true_iff.
    split; [|exact IH]. unfold charset_ok in Hc. apply andb_true_iff in Hc as [[_ Hc]%andb_true_iff Hs].
    apply Ascii.eqb_eq in Hc. by rewrite Hc.
  - induction Hl as [|c l Hc _ IH]; [done|]. simpl. unfold charset_ok in Hc.
    apply andb_true_iff in Hc as [[Hc _]%andb_true_iff _]. by rewrite Hc.
Qed.

(** Four characters that are not of the set pass: only their low byte is looked at. *)
Example foreign_code_accepted : validate_setup_code (str_repeat (chr2 197 129) 4) = true.
Proof. vm_compute. reflexivity. Qed.

(** * The store: proofs *)

Inductive StoreOp :=
| SCreate (now : Z) (id code : string)
| SApprove (now : Z) (id : string)
| SReject (id : string)
| SCleanup (now : Z).

Definition store_op (s : PairingStore) (op : StoreOp) : PairingStore :=
  match op with
  | SCreate now id code => (create_request now id code s).2
  | SApprove now id => (approve now id s).2
  | SReject id => (reject id s).2
  | SCleanup now => cleanup_expired now s
  end.

Lemma retain_app {A} (p : A -> bool) l1 l2 : retain p (l1 ++ l2) = retain p l1 ++ retain p l2.
Proof. unfold retain. apply List.filter_app. Qed.

Lemma pending_retain p s : length (list_pending (with_requests (retain p (ps_requests s)) s)) <= length (list_pending s).
Proof.
  unfold list_pending. simpl. induction (ps_requests s) as [|r l IH]; simpl; [lia|].
  destruct (p r); simpl; destruct (negb (pq_approved r)); simpl; lia.
Qed.

Lemma pending_delete i s :
  length (list_pending (with_requests (delete i (ps_requests s)) s)) <= length (list_pending s).
Proof.
  unfold list_pending. simpl. revert i. induction (ps_requests s) as [|r l IH]; intros [|i]; simpl; try lia.
  - destruct (negb (pq_approved r)); simpl; lia.
  - specialize (IH i). change (list_delete i l) with (delete i l). destruct (negb (pq_approved r)); simpl; lia.
Qed.

Lemma pending_approve p now s :
  length (list_pending (with_requests (update_first p (mark_approved now) (ps_requests s)) s))
  <= length (list_pending s).
Proof.
  unfold list_pending. simpl. induction (ps_requests s) as [|r l IH]; simpl; [lia|].
  destruct (p r); simpl; destruct (negb (pq_approved r)); simpl; lia.
Qed.

Lemma store_op_params s op :
  ps_max_pending (store_op s op) = ps_max_pending s /\ ps_ttl_ms (store_op s op) = ps_ttl_ms s.
Proof.
  destruct op; simpl; [| | |done].
  - unfold create_request. cbv zeta. by destruct (_ <=? _).
  - unfold approve. by destruct (find_first _ _).
  - unfold reject. by destruct (position _ _).
Qed.

Lemma store_op_pending s op :
  length (list_pending s) <= ps_max_pending s ->
  length (list_pending (store_op s op)) <= ps_max_pending s.
Proof.
  intros H. destruct op as [now id code|now id|id|now]; simpl.
  - unfold create_request. cbv zeta. pose proof (pending_retain (fun r => pq_approved r || in_ttl now s r) s) as Hc.
    fold (cleanup_expired now s) in Hc.
    destruct (_ <=? _) eqn:E; simpl in *; [lia|]. apply Nat.leb_gt in E. simpl in E.
    unfold list_pending in *. simpl. rewrite retain_app, length_app. simpl in *. lia.
  - unfold approve. destruct (find_first _ _); simpl; [|done].
    etrans; [apply pending_approve | done].
  - unfold reject. destruct (position _ _); simpl; [|done]. etrans; [apply pending_delete | done].
  - etrans; [apply pending_retain | done].
Qed.

(** The pending requests that have not expired. *)
Definition live_requests (now : Z) (s : PairingStore) : list PairingRequest :=
  retain (fun r => negb (pq_approved r) && in_ttl now s r) (ps_requests s).

Lemma pending_cleanup now s : list_pending (cleanup_expired now s) = live_requests now s.
Proof.
  unfold list_pending, live_requests, cleanup_expired. simpl.
  induction (ps_requests s) as [|r l IH]; simpl; [done|].
  destruct (pq_approved r) eqn:E; simpl; rewrite ?E; simpl; [done|].
  destruct (in_ttl now s r); simpl; rewrite ?E; simpl; by rewrite ?IH.
Qed.

(** The code of a fresh request is found last among the live ones. *)
Lemma find_new_request now s req l :
  pq_approved req = false -> in_ttl now s req = true ->
  Forall (fun r => pq_code r <> pq_code req) (retain (fun r => negb (pq_approved r) && in_ttl now s r) l) ->
  find_first (fun r => String.eqb (pq_code r) (pq_code req) && negb (pq_approved r) && in_ttl now s r)
    (retain (fun r => pq_approved r || in_ttl now s r) l ++ [req]) = Some req.
Proof.
  intros Ha Hi. induction l as [|r l IH]; simpl; intros HF; [by rewrite String.eqb_refl, Ha, Hi|].
  destruct (pq_approved r) eqn:Er; simpl in *; [rewrite Er, andb_false_r; by apply IH|].
  destruct (in_ttl now s r); simpl in *; [|by apply IH].
  apply Forall_cons in HF as [Hr HF].
  destruct (String.eqb_spec (pq_code r) (pq_code req)); [done|]. by apply IH.
Qed.

(** However requests are created, approved, rejected and cleaned up, the
    store never holds more than its maximum of pending requests; a request is
    refused exactly when that many unexpired ones are pending, and then the only
    change is that expired ones are gone; an accepted request is pending with the
    code and id drawn, and its code can be verified until the request expires, is
    approved or rejected, unless an older pending request has the same code. *)
Theorem pairing_store_bounded max ttl ops now id code :
  (0 < ttl)%Z ->
  let s := foldl store_op (PairingStore_new max ttl) ops in
  length (list_pending s) <= max /\
  let live := live_requests now s in
  match create_request now id code s with
  | (Err e, s') => e = TooManyPending max /\ max <= length live /\ s' = cleanup_expired now s
  | (Ok req, s') =>
      length live < max /\ pq_id req = id /\ pq_code req = code /\ list_pending s' = live ++ [req] /\
      (Forall (fun r => pq_code r <> code) live -> verify_code now code s' = Some req)
  end.
Proof.
  intros Httl s.
  assert (length (list_pending s) <= max /\ ps_max_pending s = max /\ ps_ttl_ms s = ttl) as (Hb & Hmax & Ht).
  { unfold s. clear s. induction ops as [|op ops IH] using rev_ind; [simpl; split_and!; [lia|done..]|].
    rewrite foldl_app. simpl. destruct IH as (IH & Hm & Ht).
    destruct (store_op_params (foldl store_op (PairingStore_new max ttl) ops) op) as [-> ->].
    split_and!; [|done..]. pose proof (store_op_pending (foldl store_op (PairingStore_new max ttl) ops) op) as H.
    rewrite Hm in H. by apply H. }
  split; [done|]. clearbody s. intros live.
  unfold create_request. cbv zeta. rewrite pending_cleanup.
  change (ps_max_pending (cleanup_expired now s)) with (ps_max_pending s). rewrite Hmax. fold live.
  destruct (max <=? length live) eqn:E; [apply Nat.leb_le in E; done | apply Nat.leb_gt in E].
  set (req := {| pq_id := id; pq_code := code; pq_created_at := now; pq_last_seen_at := now;
                 pq_meta := ∅; pq_approved := false |}).
  split_and!; [done..| |].
  - pose proof (pending_cleanup now s) as Hp. unfold list_pending in *. simpl in *.
    by rewrite retain_app, Hp.
  - intros HF. apply (find_new_request now s req); [done | | exact HF].
    unfold in_ttl. simpl. rewrite Ht. unfold wsub, wrap_u64. rewrite Z.sub_diag. by apply Z.ltb_lt.
Qed.

Lemma pairing_store_bounded_witness :
  let s := foldl store_op (PairingStore_new 1 100) [SCreate 5 "a" "AAAABBBB"] in
  (0 < 100)%Z /\ (create_request 50 "b" "CCCCDDDD" s).1 = Err (TooManyPending 1) /\
  (create_request 200 "b" "CCCCDDDD" s).1 <> Err (TooManyPending 1).
Proof.
  split; [lia|]. split.
  - pose proof (pairing_store_bounded 1 100 [SCreate 5 "a" "AAAABBBB"] 50 "b" "CCCCDDDD" ltac:(lia)) as [_ H].
    destruct (create_request 50 _ _ _) as [[req|e] s'] eqn:E; [vm_compute in E; discriminate|].
    by destruct H as [-> _].
  - vm_compute. discriminate.
Defined.

(** An approval does not look at the clock: a request that has expired but is not
    yet cleaned up can still be approved. *)
Example expired_request_approved :
  let s := foldl store_op (PairingStore_new 3 100) [SCreate 5 "a" "AAAABBBB"] in
  verify_code 5000 "AAAABBBB" s = None /\ (approve 5000 "a" s).1 = Ok tt.
Proof. split; reflexivity. Qed.

(** * Node pairing: safety

    A configuration is a state with three ghosts: the requests ever created (node
    and request id), and the nodes whose rejection is under way: the record is
    gone, the node not yet disconnected. *)

Record NodeConf := {
  nc_state : NodeState;
  nc_created : gset (string * string);
  nc_rejecting : gset string;
}.

Definition NodeConf_new : NodeConf := {|
  nc_state := NodeState_new; nc_created := ∅; nc_rejecting := ∅ |}.

Definition conf (s : NodeState) (c : NodeConf) : NodeConf := {|
  nc_state := s; nc_created := nc_created c; nc_rejecting := nc_rejecting c |}.

(** One critical section of one call; request ids are fresh UUIDs. *)
Inductive NodeStep : NodeConf -> NodeConf -> Prop :=
| NsStore st c : NodeStep c (conf (set_store st (nc_state c)) c)
| NsInsertPair p now rid node c :
    (forall n, (n, rid) ∉ nc_created c) ->
    NodeStep c {| nc_state := insert_pair (new_node_record p now rid node) (nc_state c);
                  nc_created := {[(node, rid)]} ∪ nc_created c; nc_rejecting := nc_rejecting c |}
| NsInsertIndex node rid c :
    (node, rid) ∈ nc_created c -> NodeStep c (conf (insert_index node rid (nc_state c)) c)
| NsApprove now token rid c : NodeStep c (conf (approve_pair now token rid (nc_state c)).2 c)
| NsRemovePair rid rec c :
    ns_pairs (nc_state c) !! rid = Some rec ->
    NodeStep c {| nc_state := (remove_pair rid (nc_state c)).2; nc_created := nc_created c;
                  nc_rejecting := {[nr_node_id rec]} ∪ nc_rejecting c |}
| NsRemoveIndex node c : NodeStep c (conf (remove_index node (nc_state c)) c)
| NsDisconnect node c :
    NodeStep c {| nc_state := disconnect node (nc_state c); nc_created := nc_created c;
                  nc_rejecting := nc_rejecting c ∖ {[node]} |}
| NsConnect now node token rid c :
    (node, rid) ∈ nc_created c ->
    NodeStep c (conf (connect_section now node token rid (nc_state c)).2 c)
| NsRename name rid c : NodeStep c (conf (rename_section name rid (nc_state c)).2 c)
| NsInvocations iv c : NodeStep c (conf (set_invocations iv (nc_state c)) c).

(** A record that lets its node be connected. *)
Definition admitted_by (rec : NodePairRecord) (node : string) : Prop :=
  nr_node_id rec = node /\ nr_approved rec = true /\ is_Some (nr_token rec) /\
  is_Some (nr_last_connected_at_ms rec).

Record NodeInv (c : NodeConf) : Prop := {
  ni_created : forall n1 n2 rid, (n1, rid) ∈ nc_created c -> (n2, rid) ∈ nc_created c -> n1 = n2;
  ni_pairs : forall rid rec, ns_pairs (nc_state c) !! rid = Some rec ->
    nr_request_id rec = rid /\ (nr_node_id rec, rid) ∈ nc_created c /\
    (nr_approved rec = true <-> is_Some (nr_token rec)) /\
    (is_Some (nr_last_connected_at_ms rec) -> nr_approved rec = true);
  ni_index : forall n rid, ns_index (nc_state c) !! n = Some rid -> (n, rid) ∈ nc_created c;
  ni_connected : forall n, n ∈ ns_connected (nc_state c) ->
    n ∈ nc_rejecting c \/ exists rid rec, ns_pairs (nc_state c) !! rid = Some rec /\ admitted_by rec n;
}.

(** An update of one record that keeps what the invariant says of it. *)
Lemma update_record_inv c rid rec rec' :
  NodeInv c -> ns_pairs (nc_state c) !! rid = Some rec ->
  nr_request_id rec' = nr_request_id rec -> nr_node_id rec' = nr_node_id rec ->
  (nr_approved rec' = true <-> is_Some (nr_token rec')) ->
  (is_Some (nr_last_connected_at_ms rec') -> nr_approved rec' = true) ->
  (nr_approved rec = true -> nr_approved rec' = true) ->
  (is_Some (nr_last_connected_at_ms rec) -> is_Some (nr_last_connected_at_ms rec')) ->
  NodeInv (conf (set_pairs (<[rid := rec']> (ns_pairs (nc_state c))) (nc_state c)) c).
Proof.
  intros [Hc Hp Hi Hn] Hrec Hid Hnode Ht Hl Ha Hlast. constructor; simpl; [done | | done |].
  - intros rid' x [[<- <-]|[_ Hx]]%lookup_insert_Some; [|by apply Hp].
    destruct (Hp rid rec Hrec) as (? & ? & _). rewrite Hid, Hnode. done.
  - intros n [?|(rid' & x & Hx & Hn1 & Ha1 & Ht1 & Hl1)]%Hn; [by left|]. right.
    destruct (decide (rid' = rid)) as [->|Hne].
    + rewrite Hrec in Hx. simplify_eq. exists rid, rec'. rewrite lookup_insert_eq. split; [done|].
      split_and!; [done | by apply Ha | by apply Ht, Ha | by apply Hlast].
    + exists rid', x. by rewrite lookup_insert_ne.
Qed.

Lemma node_step_inv c c' : NodeStep c c' -> NodeInv c -> NodeInv c'.
Proof.
  intros Hstep Hinv.
  destruct Hstep as [st c|p now rid node c Hfresh|node rid c Hcr|now token rid c|rid rec c Hrec
                    |node c|node c|now node token rid c Hcr|name rid c|iv c].
  - by destruct Hinv.
  - destruct Hinv as [Hc Hp Hi Hn]. constructor; simpl.
    + intros n1 n2 r. rewrite !elem_of_union, !elem_of_singleton.
      intros [[= -> ->]|H1] [[= ->]|H2]; try done; [by destruct (Hfresh n2)| |by apply (Hc _ _ r)].
      simplify_eq. by destruct (Hfresh n1).
    + intros r x [[<- <-]|[_ Hx]]%lookup_insert_Some; simpl.
      * split; [done|]. split; [set_solver|]. split; [|by intros [? ?]]. by split; [|intros [? ?]].
      * destruct (Hp r x Hx) as (? & ? & ?). split; [done|]. split; [set_solver | done].
    + intros n r H%Hi. set_solver.
    + intros n [?|(r & x & Hx & Had)]%Hn; [by left|]. right. exists r, x.
      rewrite lookup_insert_ne; [done|]. intros <-. destruct (Hp _ _ Hx) as (_ & H & _).
      by apply Hfresh in H.
  - destruct Hinv as [Hc Hp Hi Hn]. constructor; simpl; [done..| |done].
    intros n r [[<- <-]|[_ H]]%lookup_insert_Some; [done | by apply Hi].
  - unfold approve_pair. destruct (ns_pairs (nc_state c) !! rid) as [rec|] eqn:E; simpl; [|by destruct c].
    by apply (update_record_inv c rid rec).
  - destruct Hinv as [Hc Hp Hi Hn]. constructor; simpl; [done | | done |].
    + intros r x [_ Hx]%lookup_delete_Some. by apply Hp.
    + intros n [?|(r & x & Hx & Had)]%Hn; [left; set_solver|].
      destruct (decide (r = rid)) as [->|Hne]; [|right; exists r, x; by rewrite lookup_delete_ne].
      left. rewrite Hrec in Hx. simplify_eq. destruct Had as [<- _]. set_solver.
  - destruct Hinv as [Hc Hp Hi Hn]. constructor; simpl; [done..| |done].
    intros n r [_ H]%lookup_delete_Some. by apply Hi.
  - destruct Hinv as [Hc Hp Hi Hn]. constructor; simpl; [done..|].
    intros n [Hin Hne]%elem_of_difference. destruct (Hn n Hin) as [?|?]; [left; set_solver | by right].
  - unfold connect_section. destruct (ns_pairs (nc_state c) !! rid) as [rec|] eqn:E; simpl; [|by destruct c].
    destruct (nr_approved rec) eqn:Ea; simpl; [|by destruct c].
    destruct (bool_decide (nr_token rec = Some token)) eqn:Et; simpl; [|by destruct c].
    apply bool_decide_eq_true in Et. destruct (ni_pairs c Hinv rid rec E) as (Hid & Hn & Hap & _).
    pose proof (update_record_inv c rid rec (see_connected now rec) Hinv E eq_refl eq_refl Hap
      (fun _ => Ea) (fun H => H) (fun _ => ltac:(by eexists))) as [Hc' Hp' Hi' Hn'].
    constructor; [exact Hc' | exact Hp' | exact Hi' |]. simpl in *.
    intros n [->%elem_of_singleton|Hin]%elem_of_union; [|by apply Hn']. right.
    exists rid, (see_connected now rec). rewrite lookup_insert_eq. split; [done|].
    unfold admitted_by. simpl. rewrite Et. split_and!; [by apply (ni_created c Hinv _ _ rid)| done | by eexists..].
  - unfold rename_section. destruct (ns_pairs (nc_state c) !! rid) as [rec|] eqn:E; simpl; [|by destruct c].
    destruct (ni_pairs c Hinv rid rec E) as (_ & _ & Hap & Hl).
    by apply (update_record_inv c rid rec).
  - by destruct Hinv.
Qed.

Lemma NodeInv_new : NodeInv NodeConf_new.
Proof. constructor; simpl; [set_solver | by intros ?? | by intros ?? | set_solver]. Qed.

Lemma node_reachable_inv c : rtc NodeStep NodeConf_new c -> NodeInv c.
Proof.
  assert (forall c1 c2, rtc NodeStep c1 c2 -> NodeInv c1 -> NodeInv c2) as H.
  { induction 1 as [|c1 c2 c3 Hstep _ IH]; [done|]. intros Hinv. by eapply IH, node_step_inv. }
  intros Hr. by apply (H _ _ Hr), NodeInv_new.
Qed.

(** C23. In every interleaving of the critical sections of any number of node
    calls, a node is marked connected only while an approved record of that node
    exists that has a token and has been connected through; the one exception is a node
    whose rejection is under way between its two locks.  A token exists exactly on
    approved records, and the index only names requests made for the node. *)
Theorem node_connected_safe c :
  rtc NodeStep NodeConf_new c ->
  let s := nc_state c in
  (forall n, n ∈ ns_connected s ->
     n ∈ nc_rejecting c \/
     exists rid rec, ns_pairs s !! rid = Some rec /\ nr_node_id rec = n /\ nr_approved rec = true /\
                     is_Some (nr_token rec) /\ is_Some (nr_last_connected_at_ms rec)) /\
  (forall rid rec, ns_pairs s !! rid = Some rec ->
     nr_request_id rec = rid /\ (nr_approved rec = true <-> is_Some (nr_token rec))) /\
  (forall n rid rec, ns_index s !! n = Some rid -> ns_pairs s !! rid = Some rec -> nr_node_id rec = n).
Proof.
  intros Hinv%node_reachable_inv s. split_and!.
  - intros n [?|(rid & rec & H & Had)]%(ni_connected c Hinv); [by left|]. right. eauto.
  - intros rid rec H. by destruct (ni_pairs c Hinv rid rec H) as (? & _ & ? & _).
  - intros n rid rec Hi Hp. destruct (ni_pairs c Hinv rid rec Hp) as (_ & Hn & _).
    by apply (ni_created c Hinv _ _ rid Hn), (ni_index c Hinv).
Qed.

(** ** The handlers are sequences of sections *)

Lemma rtc_one c c' : NodeStep c c' -> rtc NodeStep c c'.
Proof. apply rtc_once. Qed.

(** A configuration reached by sections, whatever its ghosts. *)
Definition reaches (c : NodeConf) (s : NodeState) : Prop :=
  exists c', rtc NodeStep c c' /\ nc_state c' = s.

Lemma conf_self c : conf (nc_state c) c = c.
Proof. by destruct c. Qed.

Lemma reaches_refl c : reaches c (nc_state c).
Proof. by exists c. Qed.

Lemma request_reaches p now id code c :
  (forall n, (n, id) ∉ nc_created c) ->
  reaches c (rpc_node_pair_request p now id code (nc_state c)).2.
Proof.
  intros Hf. unfold rpc_node_pair_request.
  destruct (require_node_id p) as [node|]; [|apply reaches_refl].
  destruct (pending_request node (nc_state c)); [apply reaches_refl|].
  destruct (create_request now id code (ns_store (nc_state c))) as [[req|e] st] eqn:E; simpl.
  - assert (pq_id req = id) as Hid.
    { unfold create_request in E. cbv zeta in E. destruct (_ <=? _); by simplify_eq/=. }
    rewrite Hid. eexists. split.
    + eapply rtc_l; [apply (NsStore st)|]. eapply rtc_l; [by apply (NsInsertPair p now id node)|].
      apply rtc_once, (NsInsertIndex node id). simpl. set_solver.
    + done.
  - eexists. split; [apply rtc_once, (NsStore st) | done].
Qed.

Lemma approve_reaches p now token c : reaches c (rpc_node_pair_approve p now token (nc_state c)).2.
Proof.
  unfold rpc_node_pair_approve. destruct (require_request_id p) as [rid|]; [|apply reaches_refl].
  destruct (approve now rid (ns_store (nc_state c))) as [[[]|e] st]; simpl.
  - exists (conf (approve_pair now token rid (set_store st (nc_state c))).2 c). split.
    + eapply rtc_l; [apply (NsStore st)|]. apply rtc_once.
      exact (NsApprove now token rid (conf (set_store st (nc_state c)) c)).
    + simpl. by destruct (approve_pair _ _ _ _) as [[|] ?].
  - eexists. split; [apply rtc_once, (NsStore st) | done].
Qed.

Lemma reject_reaches p c : reaches c (rpc_node_pair_reject p (nc_state c)).2.
Proof.
  unfold rpc_node_pair_reject. destruct (require_request_id p) as [rid|]; [|apply reaches_refl].
  destruct (reject rid (ns_store (nc_state c))) as [[[]|e] st]; simpl.
  - destruct (ns_pairs (nc_state c) !! rid) as [rec|] eqn:E; simpl.
    + eexists. split.
      * eapply rtc_l; [apply (NsStore st)|]. eapply rtc_l; [by apply (NsRemovePair rid rec)|].
        eapply rtc_l; [apply (NsRemoveIndex (nr_node_id rec))|].
        apply rtc_once, (NsDisconnect (nr_node_id rec)).
      * done.
    + exists (conf (set_store st (nc_state c)) c). split; [apply rtc_once, NsStore|].
      simpl. unfold set_pairs, set_store. simpl. by rewrite delete_id.
  - eexists. split; [apply rtc_once, (NsStore st) | done].
Qed.

Lemma verify_reaches p now c : NodeInv c -> reaches c (rpc_node_pair_verify p now (nc_state c)).2.
Proof.
  intros Hinv. unfold rpc_node_pair_verify. destruct (require_node_id p) as [node|]; [|apply reaches_refl].
  destruct (get_str "token" p) as [raw|]; [|apply reaches_refl].
  destruct (String.eqb (trim raw) ""); [apply reaches_refl|].
  destruct (ns_index (nc_state c) !! node) as [rid|] eqn:E; [|apply reaches_refl].
  exists (conf (connect_section now node (trim raw) rid (nc_state c)).2 c). split.
  - apply rtc_once, NsConnect. by apply (ni_index c Hinv).
  - simpl. by destruct (connect_section _ _ _ _ _) as [[|] ?].
Qed.

Lemma rename_reaches p c : reaches c (rpc_node_rename p (nc_state c)).2.
Proof.
  unfold rpc_node_rename. destruct (require_node_id p) as [node|]; [|apply reaches_refl].
  destruct (or_else _ _ ≫= as_str) as [raw|]; [|apply reaches_refl].
  destruct (String.eqb (trim raw) ""); [apply reaches_refl|].
  destruct (ns_index (nc_state c) !! node) as [rid|]; [|apply reaches_refl].
  exists (conf (rename_section (trim raw) rid (nc_state c)).2 c). split.
  - apply rtc_once, NsRename.
  - simpl. by destruct (rename_section _ _ _) as [[|] ?].
Qed.

(** ** A run of the protocol *)

Definition node_p : json := jobject [("nodeId", JStr "n1"); ("token", JStr "tok")].
Definition req_p (id : string) : json := jobject [("requestId", JStr id)].

Definition paired_state : NodeState :=
  let s := (rpc_node_pair_request node_p 1 "r1" "AAAABBBB" NodeState_new).2 in
  let s := (rpc_node_pair_approve (req_p "r1") 2 "tok" s).2 in
  (rpc_node_pair_verify node_p 3 s).2.

Lemma node_connected_safe_witness :
  exists c, rtc NodeStep NodeConf_new c /\ "n1" ∈ ns_connected (nc_state c) /\
    exists rid rec, ns_pairs (nc_state c) !! rid = Some rec /\ nr_approved rec = true.
Proof.
  assert (exists c, rtc NodeStep NodeConf_new c /\ bool_decide ("n1" ∈ ns_connected (nc_state c)) = true /\
            nc_rejecting c = ∅) as (c & Hr & Hin & Hj).
  { eexists. split; [|split].
    - eapply rtc_l; [apply (NsStore (create_request 1 "r1" "AAAABBBB" PairingStore_default).2)|].
      eapply rtc_l; [apply (NsInsertPair node_p 1 "r1" "n1"); set_solver|].
      eapply rtc_l; [apply (NsInsertIndex "n1" "r1"); simpl; set_solver|].
      eapply rtc_l; [apply (NsStore (approve 2 "r1"
        (create_request 1 "r1" "AAAABBBB" PairingStore_default).2).2)|].
      eapply rtc_l; [apply (NsApprove 2 "tok" "r1")|].
      apply rtc_once, (NsConnect 3 "n1" "tok" "r1"). simpl. set_solver.
    - vm_compute. reflexivity.
    - reflexivity. }
  exists c. split; [exact Hr|]. apply bool_decide_eq_true_1 in Hin.
  split; [exact Hin|].
  destruct (proj1 (node_connected_safe c Hr) "n1" Hin) as [H|(rid & rec & H1 & _ & H2 & _)].
  - rewrite Hj in H. set_solver.
  - exists rid, rec. split; [exact H1 | exact H2].
Defined.

(** Any caller who knows a node's id can put its pairing on hold: a new request
    takes over the index, and the node's token is refused until that request too
    is approved. *)
Example request_displaces_pairing :
  let s := (rpc_node_pair_request node_p 4 "r2" "CCCCDDDD" paired_state).2 in
  (rpc_node_pair_verify node_p 5 s).1 = Err (rpc_error "INVALID_REQUEST" "node not approved").
Proof. vm_compute. reflexivity. Qed.

(** Rejecting an old request of a node removes the index entry of the new one: it
    can be approved and never connect. *)
Example stale_reject_unindexes :
  let s := (rpc_node_pair_request node_p 4 "r2" "CCCCDDDD" paired_state).2 in
  let s := (rpc_node_pair_reject (req_p "r1") s).2 in
  let s := (rpc_node_pair_approve (req_p "r2") 6 "tok" s).2 in
  (rpc_node_pair_verify node_p 7 s).1 = Err (rpc_error "INVALID_REQUEST" "unknown nodeId").
Proof. vm_compute. reflexivity. Qed.
