(* ===== verification/DeviceScopes.v ===== *)
(** Device pairing over the gateway's RPCs ([crates/gateway-core/src/http.rs],
    [device.pair.*] and [device.token.*], and the [device.pair.requested] event of
    [rpc_node_event]): pending requests, paired devices with one token per role,
    and the scopes of the tokens.

    The handlers persist a snapshot at the end; the outcome of the write is an
    argument.  Tokens, times and generated ids are arguments. *)

From Stdlib Require Import Strings.String.
From S2P Require Import Prelude RustStr Json Sorting ConfigStore NodePairing.
#[local] Open Scope string_scope.
#[local] Open Scope nat_scope.
#[local] Open Scope list_scope.

Record DevicePairPendingRecord := {
  dp_request_id : string;
  dp_device_id : string;
  dp_public_key : option string;
  dp_display_name : option string;
  dp_platform : option string;
  dp_client_id : option string;
  dp_client_mode : option string;
  dp_role : option string;
  dp_roles : option (list string);
  dp_scopes : option (list string);
  dp_remote_ip : option string;
  dp_silent : bool;
  dp_is_repair : bool;
  dp_ts : Z;
}.

Record DeviceAuthTokenRecord := {
  tk_role : string;
  tk_token : string;
  tk_scopes : list string;
  tk_created_at_ms : Z;
  tk_rotated_at_ms : option Z;
  tk_revoked_at_ms : option Z;
  tk_last_used_at_ms : option Z;
}.

Record DevicePairedRecord := {
  dd_device_id : string;
  dd_public_key : option string;
  dd_display_name : option string;
  dd_platform : option string;
  dd_client_id : option string;
  dd_client_mode : option string;
  dd_role : option string;
  dd_roles : option (list string);
  dd_scopes : option (list string);
  dd_approved_scopes : option (list string);
  dd_remote_ip : option string;
  dd_tokens : gmap string DeviceAuthTokenRecord;
  dd_created_at_ms : Z;
  dd_approved_at_ms : Z;
}.

Record DeviceState := {
  ds_pending : gmap string DevicePairPendingRecord;
  ds_pending_index : gmap string string;
  ds_paired : gmap string DevicePairedRecord;
  (** The snapshot file. *)
  ds_file : option (gmap string DevicePairPendingRecord * gmap string DevicePairedRecord);
}.

Definition DeviceState_new : DeviceState := {|
  ds_pending := ∅; ds_pending_index := ∅; ds_paired := ∅; ds_file := None |}.

Definition set_pending (p : gmap string DevicePairPendingRecord) (ix : gmap string string)
    (s : DeviceState) : DeviceState := {|
  ds_pending := p; ds_pending_index := ix; ds_paired := ds_paired s; ds_file := ds_file s |}.
Definition set_paired (d : gmap string DevicePairedRecord) (s : DeviceState) : DeviceState := {|
  ds_pending := ds_pending s; ds_pending_index := ds_pending_index s; ds_paired := d;
  ds_file := ds_file s |}.

Definition build_device_pending_index (pending : list (string * DevicePairPendingRecord))
  : gmap string string :=
  foldl (fun ix kv => <[dp_device_id kv.2 := kv.1]> ix) ∅ pending.

Definition normalize_role (raw : option string) : option string := trimmed raw.

Definition normalize_scopes (raw : option json) : list string :=
  default [] ((fun l => to_set (trimmed_strings l)) <$> (raw ≫= as_array)).

Definition non_blank_names (o : option (list string)) : list string := trimmed_names (default [] o).

Definition merge_optional_string_lists (a b : option (list string)) : option (list string) :=
  match to_set (non_blank_names a ++ non_blank_names b) with [] => None | l => Some l end.

Definition persist_device_pairing_state (write : result unit string) (s : DeviceState)
  : result unit RpcError * DeviceState :=
  match write with
  | Ok tt => (Ok tt, {| ds_pending := ds_pending s; ds_pending_index := ds_pending_index s;
                        ds_paired := ds_paired s; ds_file := Some (ds_pending s, ds_paired s) |})
  | Err e => (Err (rpc_error "INTERNAL" ("persist device pairing failed: " +:+ e)), s)
  end.

(** ** Requests *)

(** The record of a [device.pair.requested] event. *)
Definition pending_of_event (payload : json) (request_id device_id : string) (now : Z)
  : DevicePairPendingRecord := {|
  dp_request_id := request_id; dp_device_id := device_id;
  dp_public_key := get_str "publicKey" payload; dp_display_name := get_str "displayName" payload;
  dp_platform := get_str "platform" payload; dp_client_id := get_str "clientId" payload;
  dp_client_mode := get_str "clientMode" payload; dp_role := get_str "role" payload;
  dp_roles := parse_node_string_list (get "roles" payload);
  dp_scopes := parse_node_string_list (get "scopes" payload);
  dp_remote_ip := get_str "remoteIp" payload;
  dp_silent := default false (get_bool "silent" payload);
  dp_is_repair := default false (get_bool "isRepair" payload);
  dp_ts := default now (get_u64 "ts" payload) |}.

(** The handling of the event, for a connected node; [uuid] is used when the
    payload has no request id. *)
Definition device_pair_requested (payload : json) (uuid : string) (now : Z) (write : result unit string)
    (s : DeviceState) : result string RpcError * DeviceState :=
  let request_id := default uuid (trimmed (get_str "requestId" payload)) in
  match trimmed (get_str "deviceId" payload) with
  | None => (Err (rpc_error "INVALID_PARAMS" "device.pair.requested requires payload.deviceId"), s)
  | Some device_id =>
      let rec := pending_of_event payload request_id device_id now in
      let s := set_pending (<[request_id := rec]> (ds_pending s))
                           (<[device_id := request_id]> (ds_pending_index s)) s in
      match persist_device_pairing_state write s with
      | (Ok _, s) => (Ok request_id, s)
      | (Err e, s) => (Err e, s)
      end
  end.

(** Removes a pending request and its device's index entry. *)
Definition take_pending (request_id : string) (s : DeviceState)
  : option DevicePairPendingRecord * DeviceState :=
  match ds_pending s !! request_id with
  | Some rec => (Some rec, set_pending (delete request_id (ds_pending s))
                             (delete (dp_device_id rec) (ds_pending_index s)) s)
  | None => (None, s)
  end.

(** ** Approval *)

Definition approved_or_scopes (d : DevicePairedRecord) : option (list string) :=
  or_else (dd_approved_scopes d) (dd_scopes d).

(** The tokens after an approval: a new one for the role asked for. *)
Definition approve_tokens (pending : DevicePairPendingRecord) (existing : option DevicePairedRecord)
    (now : Z) (token : string) : gmap string DeviceAuthTokenRecord :=
  let tokens := default ∅ (dd_tokens <$> existing) in
  match normalize_role (dp_role pending) with
  | None => tokens
  | Some role =>
      let existing_token := tokens !! role in
      let scopes := match dp_scopes pending, existing_token with
        | Some scopes, _ => scopes
        | None, Some t => tk_scopes t
        | None, None => default [] (existing ≫= approved_or_scopes)
        end in
      <[role := {| tk_role := role; tk_token := token; tk_scopes := scopes;
                   tk_created_at_ms := default now (tk_created_at_ms <$> existing_token);
                   tk_rotated_at_ms := (fun _ => now) <$> existing_token;
                   tk_revoked_at_ms := None;
                   tk_last_used_at_ms := existing_token ≫= tk_last_used_at_ms |}]> tokens
  end.

Definition approve_device (pending : DevicePairPendingRecord) (existing : option DevicePairedRecord)
    (now : Z) (token : string) : DevicePairedRecord :=
  let role := normalize_role (dp_role pending) in
  let pending_roles := or_else (dp_roles pending) ((fun r => [r]) <$> role) in
  let merged_scopes := merge_optional_string_lists (existing ≫= dd_scopes) (dp_scopes pending) in
  let merged_approved := merge_optional_string_lists (existing ≫= approved_or_scopes) (dp_scopes pending) in {|
  dd_device_id := dp_device_id pending; dd_public_key := dp_public_key pending;
  dd_display_name := dp_display_name pending; dd_platform := dp_platform pending;
  dd_client_id := dp_client_id pending; dd_client_mode := dp_client_mode pending;
  dd_role := role;
  dd_roles := merge_optional_string_lists (existing ≫= dd_roles) pending_roles;
  dd_scopes := merged_scopes;
  dd_approved_scopes := or_else merged_approved merged_scopes;
  dd_remote_ip := dp_remote_ip pending;
  dd_tokens := approve_tokens pending existing now token;
  dd_created_at_ms := default now (dd_created_at_ms <$> existing);
  dd_approved_at_ms := now |}.

Definition summarize_device_tokens (values : list DeviceAuthTokenRecord) : list json :=
  (fun v => jobject [("role", JStr (tk_role v)); ("scopes", jstrs (tk_scopes v));
                     ("createdAtMs", JInt (tk_created_at_ms v));
                     ("rotatedAtMs", jopt JInt (tk_rotated_at_ms v));
                     ("revokedAtMs", jopt JInt (tk_revoked_at_ms v));
                     ("lastUsedAtMs", jopt JInt (tk_last_used_at_ms v))])
  <$> sort_by (by_str tk_role) values.

(** [values] is the token table in its iteration order. *)
Definition redact_paired_device (values : list DeviceAuthTokenRecord) (d : DevicePairedRecord) : json :=
  jobject [("deviceId", JStr (dd_device_id d)); ("publicKey", jopt JStr (dd_public_key d));
           ("displayName", jopt JStr (dd_display_name d)); ("platform", jopt JStr (dd_platform d));
           ("clientId", jopt JStr (dd_client_id d)); ("clientMode", jopt JStr (dd_client_mode d));
           ("role", jopt JStr (dd_role d)); ("roles", jopt jstrs (dd_roles d));
           ("scopes", jopt jstrs (dd_scopes d)); ("approvedScopes", jopt jstrs (dd_approved_scopes d));
           ("remoteIp", jopt JStr (dd_remote_ip d)); ("tokens", JArr (summarize_device_tokens values));
           ("createdAtMs", JInt (dd_created_at_ms d)); ("approvedAtMs", JInt (dd_approved_at_ms d))].

Definition tokens_in_order (order : gmap string DeviceAuthTokenRecord -> list DeviceAuthTokenRecord)
    (d : DevicePairedRecord) : json := redact_paired_device (order (dd_tokens d)) d.

Section Handlers.
Variable order : gmap string DeviceAuthTokenRecord -> list DeviceAuthTokenRecord.

Definition required (p : json) (key : string) : result string RpcError :=
  ok_or (trimmed (get_str key p)) (rpc_error "INVALID_PARAMS" ("Missing '" +:+ key +:+ "'")).

Definition rpc_device_pair_approve (p : json) (now : Z) (token : string) (write : result unit string)
    (s : DeviceState) : RpcResult * DeviceState :=
  match required p "requestId" with
  | Err e => (Err e, s)
  | Ok request_id =>
      match take_pending request_id s with
      | (None, s) => (Err (rpc_error "INVALID_REQUEST" "unknown requestId"), s)
      | (Some pending, s) =>
          let rec := approve_device pending (ds_paired s !! dp_device_id pending) now token in
          let s := set_paired (<[dd_device_id rec := rec]> (ds_paired s)) s in
          match persist_device_pairing_state write s with
          | (Err e, s) => (Err e, s)
          | (Ok _, s) =>
              (Ok (jobject [("requestId", JStr request_id); ("device", tokens_in_order order rec)]), s)
          end
      end
  end.

Definition rpc_device_pair_reject (p : json) (write : result unit string) (s : DeviceState)
  : RpcResult * DeviceState :=
  match required p "requestId" with
  | Err e => (Err e, s)
  | Ok request_id =>
      match take_pending request_id s with
      | (None, s) => (Err (rpc_error "INVALID_REQUEST" "unknown requestId"), s)
      | (Some rec, s) =>
          match persist_device_pairing_state write s with
          | (Err e, s) => (Err e, s)
          | (Ok _, s) =>
              (Ok (jobject [("requestId", JStr request_id); ("deviceId", JStr (dp_device_id rec));
                            ("rejected", JBool true)]), s)
          end
      end
  end.

Definition rpc_device_pair_remove (p : json) (write : result unit string) (s : DeviceState)
  : RpcResult * DeviceState :=
  match required p "deviceId" with
  | Err e => (Err e, s)
  | Ok device_id =>
      match ds_paired s !! device_id with
      | None => (Err (rpc_error "INVALID_REQUEST" "unknown deviceId"), s)
      | Some _ =>
          match persist_device_pairing_state write (set_paired (delete device_id (ds_paired s)) s) with
          | (Err e, s) => (Err e, s)
          | (Ok _, s) => (Ok (jobject [("deviceId", JStr device_id); ("removed", JBool true)]), s)
          end
      end
  end.

Definition with_token (role : string) (t : DeviceAuthTokenRecord) (d : DevicePairedRecord)
  : DevicePairedRecord := {|
  dd_device_id := dd_device_id d; dd_public_key := dd_public_key d;
  dd_display_name := dd_display_name d; dd_platform := dd_platform d; dd_client_id := dd_client_id d;
  dd_client_mode := dd_client_mode d; dd_role := dd_role d; dd_roles := dd_roles d;
  dd_scopes := dd_scopes d; dd_approved_scopes := dd_approved_scopes d; dd_remote_ip := dd_remote_ip d;
  dd_tokens := <[role := t]> (dd_tokens d); dd_created_at_ms := dd_created_at_ms d;
  dd_approved_at_ms := dd_approved_at_ms d |}.

(** The scopes of a rotated token: the ones asked for, or the old token's, or the
    device's. *)
Definition next_scopes (requested : list string) (role : string) (d : DevicePairedRecord) : list string :=
  match requested, dd_tokens d !! role with
  | _ :: _, _ => requested
  | [], Some t => tk_scopes t
  | [], None => default [] (approved_or_scopes d)
  end.

(** An empty list of approved scopes restricts nothing. *)
Definition exceeds_approved (scopes : list string) (d : DevicePairedRecord) : bool :=
  match default [] (approved_or_scopes d) with
  | [] => false
  | approved => existsb (fun s => negb (bool_decide (s ∈ approved))) scopes
  end.

Definition rotated (now : Z) (role token : string) (scopes : list string) (d : DevicePairedRecord)
  : DevicePairedRecord :=
  let existing := dd_tokens d !! role in
  with_token role
    {| tk_role := role; tk_token := token; tk_scopes := scopes;
       tk_created_at_ms := default now (tk_created_at_ms <$> existing);
       tk_rotated_at_ms := Some now; tk_revoked_at_ms := None;
       tk_last_used_at_ms := existing ≫= tk_last_used_at_ms |} d.

Definition rpc_device_token_rotate (p : json) (now : Z) (token : string) (write : result unit string)
    (s : DeviceState) : RpcResult * DeviceState :=
  match required p "deviceId" with
  | Err e => (Err e, s)
  | Ok device_id =>
      match required p "role" with
      | Err e => (Err e, s)
      | Ok role =>
          match ds_paired s !! device_id with
          | None => (Err (rpc_error "INVALID_REQUEST" "unknown deviceId"), s)
          | Some rec =>
              let scopes := next_scopes (normalize_scopes (get "scopes" p)) role rec in
              if exceeds_approved scopes rec then
                (Err (rpc_error "INVALID_REQUEST" "requested scopes exceed approved scopes"), s)
              else
                let s := set_paired (<[device_id := rotated now role token scopes rec]> (ds_paired s)) s in
                match persist_device_pairing_state write s with
                | (Err e, s) => (Err e, s)
                | (Ok _, s) =>
                    (Ok (jobject [("deviceId", JStr device_id); ("role", JStr role); ("token", JStr token);
                                  ("scopes", jstrs scopes); ("rotatedAtMs", JInt now)]), s)
                end
          end
      end
  end.

Definition revoke (now : Z) (t : DeviceAuthTokenRecord) : DeviceAuthTokenRecord := {|
  tk_role := tk_role t; tk_token := tk_token t; tk_scopes := tk_scopes t;
  tk_created_at_ms := tk_created_at_ms t; tk_rotated_at_ms := tk_rotated_at_ms t;
  tk_revoked_at_ms := Some now; tk_last_used_at_ms := tk_last_used_at_ms t |}.

Definition rpc_device_token_revoke (p : json) (now : Z) (write : result unit string) (s : DeviceState)
  : RpcResult * DeviceState :=
  match required p "deviceId" with
  | Err e => (Err e, s)
  | Ok device_id =>
      match required p "role" with
      | Err e => (Err e, s)
      | Ok role =>
          match ds_paired s !! device_id with
          | None => (Err (rpc_error "INVALID_REQUEST" "unknown deviceId"), s)
          | Some rec =>
              match dd_tokens rec !! role with
              | None => (Err (rpc_error "INVALID_REQUEST" "unknown deviceId/role"), s)
              | Some t =>
                  let s := set_paired (<[device_id := with_token role (revoke now t) rec]> (ds_paired s)) s in
                  match persist_device_pairing_state write s with
                  | (Err e, s) => (Err e, s)
                  | (Ok _, s) =>
                      (Ok (jobject [("deviceId", JStr device_id); ("role", JStr role);
                                    ("revokedAtMs", JInt now)]), s)
                  end
              end
          end
      end
  end.

Definition rpc_device_pair_list (pending : list DevicePairPendingRecord) (paired : list DevicePairedRecord)
  : list DevicePairPendingRecord * list json :=
  (sort_by (cmp_rev (by_Z dp_ts)) pending,
   tokens_in_order order <$> sort_by (cmp_rev (by_Z dd_approved_at_ms)) paired).
End Handlers.

(** * Scopes *)

(** The scopes a device was approved for. *)
Definition approved_list (d : DevicePairedRecord) : list string := default [] (approved_or_scopes d).

Definition clean (l : list string) : Prop := Forall (fun x => trim x = x /\ x <> "") l.

Lemma trimmed_names_elem l x : x ∈ trimmed_names l <-> x <> "" /\ exists y, y ∈ l /\ x = trim y.
Proof.
  unfold trimmed_names. rewrite elem_of_retain, list_elem_of_fmap, negb_true_iff, String.eqb_neq.
  split.
  - intros [(y & -> & Hy) Hne]. eauto.
  - intros (Hne & y & Hy & ->). eauto.
Qed.

Lemma trimmed_names_clean l : clean (trimmed_names l).
Proof.
  apply Forall_forall. intros x (Hne & y & _ & ->)%trimmed_names_elem. split; [apply trim_idem | done].
Qed.

Lemma clean_trimmed l x : clean l -> x ∈ l -> x ∈ trimmed_names l.
Proof.
  intros Hc Hx. apply trimmed_names_elem. unfold clean in Hc. rewrite Forall_forall in Hc.
  destruct (Hc x Hx) as [Ht Hne]. split; [done|]. exists x. done.
Qed.

Lemma trimmed_strings_clean l : clean (trimmed_strings l).
Proof.
  apply Forall_forall. intros x Hx. unfold trimmed_strings in Hx.
  apply list_elem_of_omap in Hx as (v & _ & Hv).
  apply trimmed_Some in Hv as [Hne (r & _ & ->)]. split; [apply trim_idem | done].
Qed.

Lemma to_set_clean l : clean l -> clean (to_set l).
Proof. unfold clean. rewrite !Forall_forall. intros H x Hx. apply H. by apply elem_of_to_set. Qed.

Lemma parse_list_clean v l : parse_node_string_list v = Some l -> clean l.
Proof.
  unfold parse_node_string_list. destruct (v ≫= as_array) as [arr|]; simpl; [|done].
  destruct (to_set (trimmed_strings arr)) eqn:E; [done|]. intros [= <-]. rewrite <- E.
  apply to_set_clean, trimmed_strings_clean.
Qed.

Lemma merge_lists_elem a b x :
  x ∈ default [] (merge_optional_string_lists a b)
  <-> x ∈ trimmed_names (default [] a) \/ x ∈ trimmed_names (default [] b).
Proof.
  unfold merge_optional_string_lists, non_blank_names. rewrite <- elem_of_app.
  rewrite <- (elem_of_to_set (_ ++ _)). by destruct (to_set _).
Qed.

Lemma merge_lists_clean a b : clean (default [] (merge_optional_string_lists a b)).
Proof.
  unfold clean. apply Forall_forall. intros x [Hx|Hx]%merge_lists_elem;
    pose proof (trimmed_names_clean (default [] a)) as Ha; pose proof (trimmed_names_clean (default [] b)) as Hb;
    unfold clean in *; rewrite Forall_forall in Ha, Hb; auto.
Qed.

(** What holds of a paired device. *)
Record DeviceOk (k : string) (d : DevicePairedRecord) : Prop := {
  do_id : dd_device_id d = k;
  do_clean : clean (approved_list d);
  do_tokens : forall role t, dd_tokens d !! role = Some t ->
    tk_role t = role /\ forall x, x ∈ tk_scopes t -> x ∈ approved_list d;
}.

Record DeviceInv (s : DeviceState) : Prop := {
  di_pending : forall rid rec l, ds_pending s !! rid = Some rec -> dp_scopes rec = Some l -> clean l;
  di_paired : forall k d, ds_paired s !! k = Some d -> DeviceOk k d;
}.

Lemma or_else_default {A} (o p : option (list A)) x :
  x ∈ default [] o -> x ∈ default [] (or_else o p).
Proof. destruct o; simpl; [done | by intros ?%elem_of_nil]. Qed.

(** The approved scopes after an approval: the old ones and the ones asked for. *)
Lemma approve_device_scopes pending existing now token x :
  (forall d, existing = Some d -> clean (approved_list d)) ->
  (forall l, dp_scopes pending = Some l -> clean l) ->
  x ∈ default [] (existing ≫= approved_or_scopes) \/ x ∈ default [] (dp_scopes pending) ->
  x ∈ approved_list (approve_device pending existing now token).
Proof.
  intros He Hp H. unfold approved_list, approved_or_scopes at 1, approve_device. cbn [dd_approved_scopes].
  apply or_else_default, or_else_default, merge_lists_elem. destruct H as [H|H].
  - left. destruct existing as [d|]; simpl in *; [|by apply elem_of_nil in H].
    by apply clean_trimmed; [apply He|].
  - right. destruct (dp_scopes pending) as [l|]; simpl in *; [|by apply elem_of_nil in H].
    by apply clean_trimmed; [apply Hp|].
Qed.

Lemma approve_device_ok pending existing now token :
  (forall d, existing = Some d -> DeviceOk (dp_device_id pending) d) ->
  (forall l, dp_scopes pending = Some l -> clean l) ->
  DeviceOk (dp_device_id pending) (approve_device pending existing now token).
Proof.
  intros He Hp.
  assert (forall x, x ∈ default [] (existing ≫= approved_or_scopes) \/ x ∈ default [] (dp_scopes pending) ->
            x ∈ approved_list (approve_device pending existing now token)) as Hsub.
  { intros x. apply approve_device_scopes; [|done]. intros d Hd. apply (do_clean _ _ (He d Hd)). }
  constructor; [done | |].
  - unfold approved_list, approved_or_scopes, approve_device. cbn [dd_approved_scopes dd_scopes].
    set (m := merge_optional_string_lists _ (dp_scopes pending)).
    set (m' := merge_optional_string_lists (existing ≫= dd_scopes) (dp_scopes pending)).
    pose proof (merge_lists_clean (existing ≫= approved_or_scopes) (dp_scopes pending)) as H1.
    pose proof (merge_lists_clean (existing ≫= dd_scopes) (dp_scopes pending)) as H2.
    fold m m' in H1, H2. destruct m; simpl in *; [done|]. by destruct m'.
  - intros role t. cbn [dd_tokens approve_device]. unfold approve_tokens.
    assert (forall role t, default ∅ (dd_tokens <$> existing) !! role = Some t ->
              tk_role t = role /\ forall x, x ∈ tk_scopes t ->
                x ∈ approved_list (approve_device pending existing now token)) as Hold.
    { intros r y. destruct existing as [d|]; simpl; [|by rewrite lookup_empty]. intros Hy.
      destruct (do_tokens _ _ (He d eq_refl) r y Hy) as [? Hs]. split; [done|].
      intros x Hx. apply Hsub. left. by apply Hs. }
    destruct (normalize_role (dp_role pending)) as [r|]; [|by apply Hold].
    intros [[<- <-]|[_ H]]%lookup_insert_Some; [|by apply Hold]. cbn [tk_role tk_scopes]. split; [done|].
    intros x Hx. destruct (dp_scopes pending) as [l|] eqn:El; [apply Hsub; by right|].
    destruct (default ∅ (dd_tokens <$> existing) !! r) as [t0|] eqn:E0; [by apply (Hold r t0 E0)|].
    apply Hsub. left. by destruct existing.
Qed.

(** ** Calls *)

Inductive DevOp :=
| ORequested (payload : json) (uuid : string) (now : Z) (write : result unit string)
| OApprove (p : json) (now : Z) (token : string) (write : result unit string)
| OReject (p : json) (write : result unit string)
| ORemove (p : json) (write : result unit string)
| ORotate (p : json) (now : Z) (token : string) (write : result unit string)
| ORevoke (p : json) (now : Z) (write : result unit string).

Section Ops.
Variable order : gmap string DeviceAuthTokenRecord -> list DeviceAuthTokenRecord.

Definition dev_op (s : DeviceState) (op : DevOp) : DeviceState :=
  match op with
  | ORequested payload uuid now write => (device_pair_requested payload uuid now write s).2
  | OApprove p now token write => (rpc_device_pair_approve order p now token write s).2
  | OReject p write => (rpc_device_pair_reject p write s).2
  | ORemove p write => (rpc_device_pair_remove p write s).2
  | ORotate p now token write => (rpc_device_token_rotate p now token write s).2
  | ORevoke p now write => (rpc_device_token_revoke p now write s).2
  end.

(** A rotation that asks for scopes of its own is of a device with approved ones. *)
Definition guarded (s : DeviceState) (op : DevOp) : Prop :=
  match op with
  | ORotate p _ _ _ =>
      normalize_scopes (get "scopes" p) = [] \/
      forall k d, required p "deviceId" = Ok k -> ds_paired s !! k = Some d -> approved_list d <> []
  | _ => True
  end.

Fixpoint guarded_run (s : DeviceState) (ops : list DevOp) : Prop :=
  match ops with [] => True | op :: ops => guarded s op /\ guarded_run (dev_op s op) ops end.

Lemma persist_same write s :
  ds_pending (persist_device_pairing_state write s).2 = ds_pending s /\
  ds_paired (persist_device_pairing_state write s).2 = ds_paired s.
Proof. by destruct write as [[]|]. Qed.

Lemma inv_persist write s : DeviceInv s -> DeviceInv (persist_device_pairing_state write s).2.
Proof. destruct (persist_same write s) as [H1 H2]. intros [Hp Hd]. constructor; rewrite ?H1, ?H2; done. Qed.

Lemma inv_take rid s : DeviceInv s -> DeviceInv (take_pending rid s).2.
Proof.
  intros [Hp Hd]. unfold take_pending. destruct (ds_pending s !! rid) as [rec|]; [|done].
  constructor; simpl; [|done]. intros r x l [_ H]%lookup_delete_Some. by apply (Hp r).
Qed.

Lemma inv_set_paired k d s :
  DeviceInv s -> DeviceOk k d -> DeviceInv (set_paired (<[k := d]> (ds_paired s)) s).
Proof.
  intros [Hp Hd] Hok. constructor; simpl; [done|].
  intros k' d' [[<- <-]|[_ H]]%lookup_insert_Some; [done | by apply Hd].
Qed.

(** A token change that keeps the scopes within the approved ones. *)
Lemma with_token_ok k d role t :
  DeviceOk k d -> tk_role t = role -> (forall x, x ∈ tk_scopes t -> x ∈ approved_list d) ->
  DeviceOk k (with_token role t d).
Proof.
  intros [Hi Hc Ht] Hr Hs. constructor; [done | done |]. cbn [dd_tokens with_token].
  intros r y [[<- <-]|[_ H]]%lookup_insert_Some; [done | by apply Ht].
Qed.

Lemma next_scopes_ok k d requested role :
  DeviceOk k d -> requested = [] \/ approved_list d <> [] ->
  exceeds_approved (next_scopes requested role d) d = false ->
  forall x, x ∈ next_scopes requested role d -> x ∈ approved_list d.
Proof.
  intros Hok Hg He x Hx. unfold exceeds_approved in He. fold (approved_list d) in He.
  destruct (approved_list d) as [|a l] eqn:E.
  - destruct Hg as [->|]; [|done]. unfold next_scopes in Hx. destruct (dd_tokens d !! role) as [t|] eqn:Et.
    + rewrite <- E. by apply (do_tokens k d Hok role t Et).
    + fold (approved_list d) in Hx. by rewrite E in Hx.
  - destruct (decide (x ∈ a :: l)) as [|Hn]; [done|]. exfalso.
    assert (existsb (fun s => negb (bool_decide (s ∈ a :: l))) (next_scopes requested role d) = true) as H.
    { apply existsb_exists. exists x. split; [by apply list_elem_of_In|]. by rewrite bool_decide_false. }
    by rewrite He in H.
Qed.

Lemma inv_requested payload uuid now write s :
  DeviceInv s -> DeviceInv (device_pair_requested payload uuid now write s).2.
Proof.
  intros Hinv. unfold device_pair_requested. destruct (trimmed (get_str "deviceId" payload)) as [k|]; [|done].
  set (s' := set_pending _ _ s). assert (DeviceInv s') as Hs'.
  { destruct Hinv as [Hp Hd]. constructor; simpl; [|done].
    intros r x l [[<- <-]|[_ H]]%lookup_insert_Some; [|by apply (Hp r)]. apply parse_list_clean. }
  pose proof (inv_persist write s' Hs') as H. cbv zeta. by destruct (persist_device_pairing_state write s') as [[|] ?].
Qed.

Lemma inv_approve p now token write s :
  DeviceInv s -> DeviceInv (rpc_device_pair_approve order p now token write s).2.
Proof.
  intros Hinv. unfold rpc_device_pair_approve. destruct (required p "requestId") as [rid|]; [|done].
  pose proof (inv_take rid s Hinv) as Ht. destruct (take_pending rid s) as [[pending|] s1] eqn:E; [|done].
  assert (forall l, dp_scopes pending = Some l -> clean l) as Hc.
  { unfold take_pending in E. destruct (ds_pending s !! rid) as [rec|] eqn:Er; simplify_eq.
    intros l. by apply (di_pending s Hinv rid). }
  simpl in Ht. cbv zeta. set (d := approve_device _ _ now token).
  assert (DeviceOk (dp_device_id pending) d) as Hd.
  { apply approve_device_ok; [|done]. intros x Hx. by apply (di_paired s1 Ht). }
  rewrite <- (do_id _ _ Hd) in Hd. pose proof (inv_persist write _ (inv_set_paired _ _ _ Ht Hd)) as H.
  by destruct (persist_device_pairing_state write _) as [[|] ?].
Qed.

Lemma inv_rotate p now token write s :
  DeviceInv s -> guarded s (ORotate p now token write) ->
  DeviceInv (rpc_device_token_rotate p now token write s).2.
Proof.
  intros Hinv Hg. unfold rpc_device_token_rotate. simpl in Hg.
  destruct (required p "deviceId") as [k|]; [|done]. destruct (required p "role") as [role|]; [|done].
  destruct (ds_paired s !! k) as [d|] eqn:E; [|done]. cbv zeta.
  destruct (exceeds_approved _ d) eqn:Ex; [done|].
  pose proof (di_paired s Hinv k d E) as Hok.
  assert (DeviceOk k (rotated now role token (next_scopes (normalize_scopes (get "scopes" p)) role d) d)) as Hd.
  { apply with_token_ok; [done | done |]. simpl. apply (next_scopes_ok k); [done | | done].
    destruct Hg as [|Hg]; [by left | right; by apply (Hg k)]. }
  pose proof (inv_persist write _ (inv_set_paired _ _ _ Hinv Hd)) as H.
  by destruct (persist_device_pairing_state write _) as [[|] ?].
Qed.

Lemma dev_op_inv s op : DeviceInv s -> guarded s op -> DeviceInv (dev_op s op).
Proof.
  intros Hinv Hg. destruct op as [payload uuid now write|p now token write|p write|p write|p now token write|p now write];
    cbn [dev_op].
  - by apply inv_requested.
  - by apply inv_approve.
  - unfold rpc_device_pair_reject. destruct (required p "requestId") as [rid|]; [|done].
    pose proof (inv_take rid s Hinv) as Ht. destruct (take_pending rid s) as [[rec|] s1]; [|done].
    pose proof (inv_persist write s1 Ht) as H. by destruct (persist_device_pairing_state write s1) as [[|] ?].
  - unfold rpc_device_pair_remove. destruct (required p "deviceId") as [k|]; [|done].
    destruct (ds_paired s !! k) as [d|]; [|done].
    assert (DeviceInv (set_paired (delete k (ds_paired s)) s)) as Hd.
    { destruct Hinv as [Hp Hd]. constructor; simpl; [done|]. intros k' d' [_ H]%lookup_delete_Some. by apply Hd. }
    pose proof (inv_persist write _ Hd) as H. by destruct (persist_device_pairing_state write _) as [[|] ?].
  - by apply inv_rotate.
  - unfold rpc_device_token_revoke. destruct (required p "deviceId") as [k|]; [|done].
    destruct (required p "role") as [role|]; [|done]. destruct (ds_paired s !! k) as [d|] eqn:E; [|done].
    destruct (dd_tokens d !! role) as [t|] eqn:Et; [|done]. cbv zeta.
    pose proof (di_paired s Hinv k d E) as Hok. destruct (do_tokens _ _ Hok role t Et) as [Hr Hs].
    pose proof (inv_persist write _ (inv_set_paired k (with_token role (revoke now t) d) s Hinv
      (with_token_ok k d role (revoke now t) Hok Hr Hs))) as H.
    by destruct (persist_device_pairing_state write _) as [[|] ?].
Qed.
End Ops.

(** C22. No token ever carries a scope its device was not approved for.  After any
    sequence of pairing requests, approvals, rejections, removals, rotations and
    revocations (writes of the snapshot may fail), every token's scopes are among
    its device's approved scopes and its role is its key, provided no rotation
    asked for scopes on a device whose approved list was empty. *)
Theorem device_scopes_bounded order ops k d role t x :
  guarded_run order DeviceState_new ops ->
  ds_paired (foldl (dev_op order) DeviceState_new ops) !! k = Some d ->
  dd_tokens d !! role = Some t ->
  dd_device_id d = k /\ tk_role t = role /\
  (x ∈ tk_scopes t -> x ∈ default [] (approved_or_scopes d)).
Proof.
  intros Hg Hk Ht.
  assert (forall s, DeviceInv s -> guarded_run order s ops -> DeviceInv (foldl (dev_op order) s ops)) as Hrun.
  { clear. induction ops as [|op ops IH]; intros s Hs Hg; [done|]. destruct Hg as [Hg Hgs].
    simpl. apply IH; [by apply dev_op_inv | done]. }
  assert (DeviceInv DeviceState_new) as Hnew by (constructor; simpl; by intros).
  pose proof (di_paired _ (Hrun _ Hnew Hg) k d Hk) as Hok.
  destruct (do_tokens _ _ Hok role t Ht) as [Hr Hs].
  split; [apply (do_id _ _ Hok)|]. split; [done|]. apply Hs.
Qed.

Definition phone_request (scopes : list string) : json :=
  jobject [("requestId", JStr "q1"); ("deviceId", JStr "phone"); ("role", JStr "node");
           ("scopes", jstrs scopes)].
Definition rotate_p (scope : string) : json :=
  jobject [("deviceId", JStr "phone"); ("role", JStr "node"); ("scopes", jstrs [scope])].
Definition tokens_of (m : gmap string DeviceAuthTokenRecord) : list DeviceAuthTokenRecord :=
  (map_to_list m).*2.
Definition sample_ops : list DevOp :=
  [ORequested (phone_request ["node.read"]) "u" 1 (Ok tt); OApprove (phone_request []) 2 "t1" (Ok tt)].
Definition phone_scopes (s : DeviceState) : option (list string) :=
  d ← ds_paired s !! "phone"; t ← dd_tokens d !! "node"; Some (tk_scopes t).

Lemma device_scopes_bounded_witness :
  let s := foldl (dev_op tokens_of) DeviceState_new sample_ops in
  phone_scopes s = Some ["node.read"] /\
  (rpc_device_token_rotate (rotate_p "operator.admin") 3 "t2" (Ok tt) s).1
  = Err (rpc_error "INVALID_REQUEST" "requested scopes exceed approved scopes") /\
  forall d t, ds_paired s !! "phone" = Some d -> dd_tokens d !! "node" = Some t ->
    "operator.admin" ∈ tk_scopes t -> "operator.admin" ∈ default [] (approved_or_scopes d).
Proof.
  split; [vm_compute; reflexivity|]. split; [vm_compute; reflexivity|].
  intros d t Hd Ht. assert (guarded_run tokens_of DeviceState_new sample_ops) as Hg by (repeat split).
  apply (device_scopes_bounded tokens_of sample_ops "phone" d "node" t "operator.admin" Hg Hd Ht).
Defined.

(** A device paired without scopes can be rotated into any scope: the empty list
    of approved scopes passes every request. *)
Example unscoped_device_escalates :
  let s := foldl (dev_op tokens_of) DeviceState_new
    [ORequested (phone_request []) "u" 1 (Ok tt); OApprove (phone_request []) 2 "t1" (Ok tt);
     ORotate (rotate_p "operator.admin") 3 "t2" (Ok tt)] in
  phone_scopes s = Some ["operator.admin"].
Proof. vm_compute. reflexivity. Qed.
