(* ===== verification/Attachments.v ===== *)
(** What a chat request carries ([crates/gateway-core/src/http.rs], the helpers of
    [chat.send] and [agent]): commands, control characters, attachments with
    their base64 and type checks, staging for media understanding, and the notes
    added to a message.

    The base64 codec and the image type sniffer are third-party code: parameters. *)

From Stdlib Require Import Strings.String.
From S2P Require Import Prelude RustStr Json ConfigStore.
#[local] Open Scope string_scope.
#[local] Open Scope nat_scope.
#[local] Open Scope list_scope.
#[local] Open Scope rust_scope.

(** * Commands *)

(** [s.splitn(2, char::is_whitespace)]: the first part and the rest, if there is
    white space. *)
Fixpoint split_ws_go (l : list string) : list string * option (list string) :=
  match l with
  | [] => ([], None)
  | c :: l' => if is_whitespace c then ([], Some l')
               else let '(a, b) := split_ws_go l' in (c :: a, b)
  end.
Definition splitn2_ws (s : string) : string * option string :=
  let '(a, b) := split_ws_go (chars s) in (str_concat a, str_concat <$> b).

Definition parse_session_reset_command (message : string) : option (string * option string) :=
  let t := trim message in
  if negb (starts_with t "/") then None
  else
    let '(first, rest) := splitn2_ws (str_drop 1 t) in
    let cmd := to_ascii_lowercase (trim first) in
    if negb (String.eqb cmd "new") && negb (String.eqb cmd "reset") then None
    else Some (cmd, trimmed rest).

Definition BARE_SESSION_RESET_PROMPT : string := "A new session was started via /new or /reset. Execute your Session Startup sequence now - read the required files before responding to the user. Then greet the user in your configured persona, if one is provided. Be yourself - use your defined voice, mannerisms, and mood. Keep it to 1-3 sentences and ask what they want to do. If the runtime model differs from default_model in the system prompt, mention the default model. Do not mention internal steps, files, tools, or reasoning.".
Definition CHAT_ATTACHMENT_MAX_BYTES : nat := 5 * 1000 * 1000.

Definition session_send_policy_denied (metadata : gmap string string) : bool :=
  let value := or_else (metadata !! "sendPolicy")
                 (or_else (metadata !! "send_policy") (metadata !! "policy.send")) in
  match (fun v => to_ascii_lowercase (trim v)) <$> value with
  | Some v => String.eqb v "deny" || String.eqb v "blocked" || String.eqb v "disabled"
  | None => false
  end.

(** Tab, line feed, carriage return and everything from the space on but DEL. *)
Definition allowed_char (ch : string) : bool :=
  match ch with
  | String c EmptyString =>
      let code := nat_of_ascii c in
      (code =? 9) || (code =? 10) || (code =? 13) || ((32 <=? code) && negb (code =? 127))
  | _ => true
  end.

Definition strip_disallowed_chat_control_chars (message : string) : string :=
  str_concat (retain allowed_char (chars message)).

Definition sanitize_chat_send_message_input (message : string) : result string RpcError :=
  if contains message (chr1 0)
  then Err (rpc_error "INVALID_PARAMS" "message must not contain null bytes")
  else Ok (strip_disallowed_chat_control_chars message).

Definition is_chat_stop_command_text (text : string) : bool :=
  let t := trim text in
  eq_ignore_ascii_case t "/stop" || eq_ignore_ascii_case t "/abort"
  || eq_ignore_ascii_case t "/cancel".

Definition parse_skill_invocation_for_chat (text : string) : option (string * string) :=
  let t := trim text in
  if negb (starts_with t "/") then None
  else
    let body := trim (trim_start_char "/"%char t) in
    if String.eqb body "" then None
    else
      let '(first, rest) := splitn2_ws body in
      let head := trim first in
      let tail := trim (default "" rest) in
      if eq_ignore_ascii_case head "skill" then
        if String.eqb tail "" then Some ("", "")
        else
          let '(id, args) := splitn2_ws tail in
          Some (trim id, trim (default "" args))
      else Some (head, tail).

(** * Attachments *)

Record NormalizedRpcAttachment := {
  na_label : string;
  na_kind : option string;
  na_mime_type : option string;
  na_content_base64 : string;
}.

Record ParsedImageAttachment := { pi_label : string; pi_mime_type : string; pi_data : string }.

Record ParsedRpcAttachmentSet := {
  pa_normalized_count : nat;
  pa_normalized : list NormalizedRpcAttachment;
  pa_images : list ParsedImageAttachment;
}.
Definition ParsedRpcAttachmentSet_default : ParsedRpcAttachmentSet := {|
  pa_normalized_count := 0; pa_normalized := []; pa_images := [] |}.

Definition separator (message : string) : string :=
  if String.eqb (trim message) "" then "" else nl +:+ nl.

Definition image_block (image : ParsedImageAttachment) : string :=
  let safe_label := if String.eqb (trim (pi_label image)) "" then pi_mime_type image
                    else str_concat ((fun c => if is_whitespace c then "_" else c)
                                       <$> chars (pi_label image)) in
  "![" +:+ safe_label +:+ "](data:" +:+ pi_mime_type image +:+ ";base64," +:+ pi_data image +:+ ")".

Definition build_message_with_image_attachments (message : string)
    (images : list ParsedImageAttachment) : string :=
  match images with
  | [] => message
  | _ => message +:+ separator message +:+ join (nl +:+ nl) (image_block <$> images)
  end.

Definition normalize_chat_attachment_mime (mime : option string) : option string :=
  mime ≫= fun m =>
  let raw := trim m in
  if String.eqb raw "" then None
  else
    let first := default raw (head (split_char ";"%char raw)) in
    non_empty (Some (to_ascii_lowercase (trim first))).

Definition is_image_mime (mime : option string) : bool :=
  match mime with Some m => starts_with m "image/" | None => false end.

Definition extract_data_url_base64 (content : string) : string * option string :=
  let t := trim content in
  if negb (starts_with (to_ascii_lowercase t) "data:") then (t, None)
  else
    match split_once ","%char t with
    | None => (t, None)
    | Some (meta, payload) =>
        if negb (contains (to_ascii_lowercase meta) ";base64") then (t, None)
        else (payload,
              strip_prefix meta "data:" ≫= fun v =>
              head (split_char ";"%char v) ≫= fun v => normalize_chat_attachment_mime (Some v))
    end.

(** ** Base64 *)

Definition b64_alpha (c : ascii) : bool :=
  let n := nat_of_ascii c in
  ((65 <=? n) && (n <=? 90)) || ((97 <=? n) && (n <=? 122)) || ((48 <=? n) && (n <=? 57))
  || (n =? 43) || (n =? 47).

Definition b64_pad : ascii := "="%char.

(** The loop of [is_valid_base64_payload] over the bytes from index [idx] on, of
    [n] in all. *)
Fixpoint b64_scan (n idx : nat) (seen_padding : bool) (padding_count : nat) (s : string) : bool :=
  match s with
  | EmptyString => padding_count <=? 2
  | String ch s' =>
      if b64_alpha ch then
        if seen_padding then false else b64_scan n (S idx) seen_padding padding_count s'
      else if Ascii.eqb ch b64_pad then
        if idx + 2 <? n then false else b64_scan n (S idx) true (S padding_count) s'
      else false
  end.

Definition is_valid_base64_payload (value : string) : bool :=
  if String.eqb value "" || negb (len value mod 4 =? 0) then false
  else b64_scan (len value) 0 false 0 value.

Definition estimate_base64_decoded_bytes (value : string) : option nat :=
  if String.eqb value "" || negb (len value mod 4 =? 0) then None
  else
    let padding := if ends_with value "==" then 2 else if ends_with value "=" then 1 else 0 in
    let bytes := len value / 4 * 3 in
    if bytes <? padding then None else Some (bytes - padding).

(** ** Types *)

Definition bytes_of (l : list nat) : string := str_concat (chr1 <$> l).

Definition sniff_known_non_image_mime (bytes : string) : option string :=
  if starts_with bytes "%PDF-" then Some "application/pdf"
  else if starts_with bytes (bytes_of [80; 75; 3; 4]) then Some "application/zip"
  else if starts_with bytes (bytes_of [31; 139]) then Some "application/gzip"
  else if starts_with bytes "ID3" then Some "audio/mpeg"
  else None.

Definition infer_mime_from_attachment_kind (kind : option string) : option string :=
  kind ≫= fun k =>
  let normalized := to_ascii_lowercase (trim k) in
  if String.eqb normalized "image" then Some "image/unknown"
  else if String.eqb normalized "audio" then Some "audio/unknown"
  else if String.eqb normalized "video" then Some "video/unknown"
  else None.

(** [bytes[a..b]] of a text at least [b] bytes long. *)
Definition sub_bytes (bytes : string) (a b : nat) : string := str_take (b - a) (str_drop a bytes).

Definition sniff_additional_media_mime (bytes : string) : option string :=
  if starts_with bytes "OggS" then Some "audio/ogg"
  else if starts_with bytes "fLaC" then Some "audio/flac"
  else if (12 <=? len bytes) && starts_with bytes "RIFF" && String.eqb (sub_bytes bytes 8 12) "WAVE"
       then Some "audio/wav"
  else if starts_with bytes (bytes_of [26; 69; 223; 163]) then Some "video/webm"
  else if (12 <=? len bytes) && String.eqb (sub_bytes bytes 4 8) "ftyp" then
    let brand := sub_bytes bytes 8 12 in
    if String.eqb brand "M4A " || String.eqb brand "M4B " || String.eqb brand "M4P "
    then Some "audio/mp4" else Some "video/mp4"
  else None.

Definition media_temp_file_extension (mime : string) : string :=
  if String.eqb mime "image/jpeg" then "jpg"
  else if String.eqb mime "image/png" then "png"
  else if String.eqb mime "image/webp" then "webp"
  else if String.eqb mime "image/gif" then "gif"
  else if String.eqb mime "image/bmp" then "bmp"
  else if String.eqb mime "audio/mpeg" || String.eqb mime "audio/mp3" then "mp3"
  else if String.eqb mime "audio/wav" then "wav"
  else if String.eqb mime "audio/ogg" then "ogg"
  else if String.eqb mime "audio/flac" then "flac"
  else if String.eqb mime "audio/mp4" then "m4a"
  else if String.eqb mime "video/mp4" then "mp4"
  else if String.eqb mime "video/webm" then "webm"
  else if starts_with mime "image/" then "img"
  else if starts_with mime "audio/" then "aud"
  else if starts_with mime "video/" then "vid"
  else "bin".

Section codec.
(** [STANDARD.encode], [STANDARD.decode] and [image::guess_format] with the type
    of the format it finds. *)
Variable b64_encode : string -> string.
Variable b64_decode : string -> option string.
Variable guess_format : string -> option string.

(** [value.as_u64().and_then(|n| u8::try_from(n).ok())] for each element. *)
Fixpoint json_bytes (l : list json) : option string :=
  match l with
  | [] => Some ""
  | v :: l' =>
      as_u64 v ≫= fun n => if (255 <? n)%Z then None
      else (fun s => String (ascii_of_nat (Z.to_nat n)) s) <$> json_bytes l'
  end.

Definition normalize_rpc_attachment_content (content : json) : option string :=
  match content with
  | JStr text => non_empty (Some (trim text))
  | JArr [] => None
  | JArr arr => b64_encode <$> json_bytes arr
  | _ => None
  end.

(** One element of the attachment list. *)
Definition normalize_one (idx : nat) (value : json) : option NormalizedRpcAttachment :=
  get "content" value ≫= fun content =>
  normalize_rpc_attachment_content content ≫= fun content_base64 =>
  let file_name := trim <$> get_str "fileName" value in
  let kind := trim <$> get_str "type" value in
  Some {|
    na_label := default ("attachment-" +:+ pretty (N.of_nat (S idx)))
                  (or_else (non_empty file_name) (non_empty kind));
    na_kind := non_empty kind;
    na_mime_type := get_str "mimeType" value ≫= fun v => normalize_chat_attachment_mime (Some v);
    na_content_base64 := content_base64 |}.

Definition normalize_rpc_attachments_to_chat_inputs (raw : option json)
  : list NormalizedRpcAttachment :=
  match raw ≫= as_array with
  | None => []
  | Some arr => omap id (imap normalize_one arr)
  end.

(** The checks both users of the attachments make: the payload, its size and its
    bytes, with the type the request gives. *)
Definition checked_bytes (max_bytes : nat) (a : NormalizedRpcAttachment)
  : result (string * nat * string * option string) RpcError :=
  let invalid := rpc_error "INVALID_PARAMS"
                   ("attachment " +:+ na_label a +:+ ": invalid base64 content") in
  let '(payload, url_mime) := extract_data_url_base64 (na_content_base64 a) in
  if negb (is_valid_base64_payload payload) then Err invalid
  else match estimate_base64_decoded_bytes payload with
  | None => Err invalid
  | Some size_bytes =>
      if (size_bytes =? 0) || (max_bytes <? size_bytes)
      then Err (rpc_error "INVALID_PARAMS"
                  ("attachment " +:+ na_label a +:+ ": exceeds size limit ("
                   +:+ pretty (N.of_nat size_bytes) +:+ " > " +:+ pretty (N.of_nat max_bytes)
                   +:+ " bytes)"))
      else match b64_decode payload with
      | None => Err invalid
      | Some decoded => Ok (payload, size_bytes, decoded, or_else (na_mime_type a) url_mime)
      end
  end.

(** One round of the loop: an error, an image, or nothing for other content. *)
Definition screen_attachment (max_bytes : nat) (a : NormalizedRpcAttachment)
  : result (option ParsedImageAttachment) RpcError :=
  let? checked := checked_bytes max_bytes a in
  let '(payload, _, decoded, provided_mime) := checked in
  let sniffed_mime := or_else (guess_format decoded) (sniff_known_non_image_mime decoded) in
  if bool_decide (is_Some sniffed_mime) && negb (is_image_mime sniffed_mime) then Ok None
  else if bool_decide (sniffed_mime = None) && negb (is_image_mime provided_mime) then Ok None
  else Ok (Some {|
    pi_label := na_label a;
    pi_mime_type := default (default "image/unknown" provided_mime) sniffed_mime;
    pi_data := payload |}).

Fixpoint screen_all (max_bytes : nat) (l : list NormalizedRpcAttachment)
  : result (list ParsedImageAttachment) RpcError :=
  match l with
  | [] => Ok []
  | a :: l' =>
      let? o := screen_attachment max_bytes a in
      let? images := screen_all max_bytes l' in
      Ok (match o with Some i => i :: images | None => images end)
  end.

Definition parse_rpc_attachments_for_chat (raw : option json) (max_bytes : nat)
  : result ParsedRpcAttachmentSet RpcError :=
  match normalize_rpc_attachments_to_chat_inputs raw with
  | [] => Ok ParsedRpcAttachmentSet_default
  | normalized =>
      let? images := screen_all max_bytes normalized in
      Ok {| pa_normalized_count := length normalized; pa_normalized := normalized;
            pa_images := images |}
  end.

Definition sniff_media_mime (bytes : string) : option string :=
  or_else (guess_format bytes)
    (or_else (sniff_known_non_image_mime bytes) (sniff_additional_media_mime bytes)).

(** ** Staging for media understanding *)

(** [MediaAttachment] of media-understanding/src/types.rs. *)
Record MediaAttachment := {
  ma_path : string;
  ma_mime_type : string;
  ma_size_bytes : nat;
  ma_original_name : option string;
}.

Definition is_media_mime (m : string) : bool :=
  starts_with m "image/" || starts_with m "audio/" || starts_with m "video/".

(** The loop of [prepare_media_attachments_for_understanding].  [path idx ext] is
    the fresh name of the file, [write] the outcome of writing it; the files on
    disk are the second component. *)
Fixpoint stage_all (path : nat -> string -> string) (write : string -> result unit string)
    (max_bytes idx : nat) (l : list NormalizedRpcAttachment) (files : gset string)
  : result (list MediaAttachment) RpcError * gset string :=
  match l with
  | [] => (Ok [], files)
  | a :: l' =>
      match checked_bytes max_bytes a with
      | Err e => (Err e, files)
      | Ok (_, size_bytes, decoded, provided_mime) =>
          let final := or_else (sniff_media_mime decoded)
                         (or_else provided_mime (infer_mime_from_attachment_kind (na_kind a))) in
          match final with
          | Some mime =>
              if is_media_mime mime then
                let p := path idx (media_temp_file_extension mime) in
                match write p with
                | Err e => (Err (rpc_error "INTERNAL_ERROR"
                                   ("failed to stage attachment " +:+ na_label a +:+ ": " +:+ e)),
                            files)
                | Ok _ =>
                    match stage_all path write max_bytes (S idx) l' ({[p]} ∪ files) with
                    | (Ok staged, files') =>
                        (Ok ({| ma_path := p; ma_mime_type := mime; ma_size_bytes := size_bytes;
                                ma_original_name := Some (na_label a) |} :: staged), files')
                    | (Err e, files') => (Err e, files')
                    end
                end
              else stage_all path write max_bytes (S idx) l' files
          | None => stage_all path write max_bytes (S idx) l' files
          end
      end
  end.

Definition prepare_media_attachments_for_understanding path write (normalized : list NormalizedRpcAttachment)
    (max_bytes : nat) (files : gset string) : result (list MediaAttachment) RpcError * gset string :=
  stage_all path write max_bytes 0 normalized files.

(** [process] stands for the media pipeline with its time limit: the payload it
    leads to. *)
Definition collect_media_understanding_debug_payload path write
    (process : list MediaAttachment -> json) (normalized : list NormalizedRpcAttachment)
    (max_bytes : nat) (files : gset string) : option json * gset string :=
  match normalized with
  | [] => (None, files)
  | _ =>
      match prepare_media_attachments_for_understanding path write normalized max_bytes files with
      | (Err e, files') =>
          (Some (jobject [("decisions", JArr []); ("outputs", JArr []);
                          ("errors", JArr [JStr (re_message e)])]), files')
      | (Ok staged, files') =>
          (Some (process staged), files' ∖ list_to_set (ma_path <$> staged))
      end
  end.
End codec.

(** * Notes on a message *)

Definition media_note (item : json) : option string :=
  trimmed (get_str "text" item) ≫= fun text =>
  Some ("[Media " +:+ default "media.output" (get_str "kind" item) +:+ " #"
        +:+ pretty (default 0%Z (get_u64 "attachmentIndex" item)) +:+ "]" +:+ nl +:+ text).

Definition augment_message_with_media_outputs (message : string) (media_debug : option json)
  : string :=
  match media_debug ≫= fun media => get "outputs" media ≫= as_array with
  | None => message
  | Some outputs =>
      match omap media_note outputs with
      | [] => message
      | notes => message +:+ separator message +:+ join (nl +:+ nl) notes
      end
  end.

(** [attach_media_debug_to_payload]. *)
Definition attach_media_debug_to_payload (payload : json) (media_debug : option json) : json :=
  match media_debug, payload with
  | Some media, JObj m => JObj (bt_insert "media" media m)
  | _, _ => payload
  end.

(** * The base64 check is the grammar *)

(** Groups of four characters of the alphabet, the last with up to two ["="]. *)
Definition base64_text (s : string) : Prop :=
  s <> "" /\ len s mod 4 = 0 /\
  exists body pads, s = body +:+ pads /\ str_all b64_alpha body = true
                    /\ (pads = "" \/ pads = "=" \/ pads = "==").

Lemma pads_spec pads :
  str_all (Ascii.eqb b64_pad) pads = true /\ len pads <= 2 <->
  pads = "" \/ pads = "=" \/ pads = "==".
Proof.
  split.
  - intros [Ha Hl]. destruct pads as [|c1 pads]; [by left|right].
    cbn [str_all] in Ha. apply andb_true_iff in Ha as [<-%Ascii.eqb_eq Ha].
    destruct pads as [|c2 pads]; [by left|right].
    cbn [str_all] in Ha. apply andb_true_iff in Ha as [<-%Ascii.eqb_eq Ha].
    destruct pads; [done|]. simpl in Hl. lia.
  - intros [->|[->| ->]]; simpl; split; (reflexivity || lia).
Qed.

Lemma b64_scan_spec n idx seen pad s :
  len s + idx = n ->
  b64_scan n idx seen pad s = true <->
  exists body pads, s = body +:+ pads /\ str_all b64_alpha body = true
    /\ str_all (Ascii.eqb b64_pad) pads = true /\ (seen = true -> body = "")
    /\ len pads <= 2 /\ pad + len pads <= 2.
Proof.
  revert idx seen pad. induction s as [|c s IH]; intros idx seen pad Hn; simpl in Hn |- *.
  - rewrite Nat.leb_le. split.
    + intros H. exists "", "". simpl. repeat split; lia.
    + intros (body & pads & E & _ & _ & _ & _ & H).
      destruct body, pads; simpl in *; try done; lia.
  - destruct (b64_alpha c) eqn:Ec.
    + destruct seen.
      * split; [done|]. intros (body & pads & E & Ha & Hp & Hs & _).
        rewrite (Hs eq_refl) in E. destruct pads as [|c' pads]; [done|]. injection E as <- ->.
        cbn [str_all] in Hp. apply andb_true_iff in Hp as [<-%Ascii.eqb_eq _]. done.
      * rewrite IH by lia. split.
        -- intros (body & pads & -> & Ha & Hp & Hs & H1 & H2). exists (String c body), pads.
           simpl. rewrite Ec. repeat split; done.
        -- intros (body & pads & E & Ha & Hp & Hs & H1 & H2). destruct body as [|c' body].
           ++ destruct pads as [|c' pads]; [done|]. injection E as <- ->. cbn [str_all] in Hp.
              apply andb_true_iff in Hp as [<-%Ascii.eqb_eq _]. done.
           ++ injection E as <- ->. cbn [str_all] in Ha. apply andb_true_iff in Ha as [_ Ha].
              exists body, pads. repeat split; done.
    + destruct (Ascii.eqb_spec c b64_pad) as [->|Hne].
      * destruct (Nat.ltb_spec (idx + 2) n).
        -- split; [done|]. intros (body & pads & E & Ha & Hp & Hs & H1 & H2).
           destruct body as [|c' body]; [|by injection E as <- _; cbn [str_all] in Ha; rewrite Ec in Ha].
           assert (len (String b64_pad s) = len pads) as Hl by (by rewrite E). simpl in Hl. lia.
        -- rewrite IH by lia. split.
           ++ intros (body & pads & -> & Ha & Hp & Hs & H1 & H2). rewrite (Hs eq_refl) in *.
              exists "", (String b64_pad pads). cbn [str_all String.length] in *.
              rewrite Ascii.eqb_refl. repeat split; try done; lia.
           ++ intros (body & pads & E & Ha & Hp & Hs & H1 & H2).
              destruct body as [|c' body]; [|by injection E as <- _; cbn [str_all] in Ha; rewrite Ec in Ha].
              destruct pads as [|c' pads]; [done|]. injection E as <- ->.
              cbn [str_all String.length] in *. apply andb_true_iff in Hp as [_ Hp].
              exists "", pads. repeat split; try done; lia.
      * split; [done|]. intros (body & pads & E & Ha & Hp & Hs & H1 & H2).
        destruct body as [|c' body].
        -- destruct pads as [|c' pads]; [done|]. injection E as <- ->. cbn [str_all] in Hp.
           apply andb_true_iff in Hp as [E%Ascii.eqb_eq _]. by rewrite E in Hne.
        -- injection E as <- _. cbn [str_all] in Ha. by rewrite Ec in Ha.
Qed.

Lemma base64_valid_iff s : is_valid_base64_payload s = true <-> base64_text s.
Proof.
  unfold is_valid_base64_payload, base64_text.
  destruct (String.eqb_spec s "") as [->|Hne]; cbn [orb]; [by split; [|intros [? _]]|].
  destruct (Nat.eqb_spec (len s mod 4) 0) as [Hm|Hm]; cbn [negb].
  - rewrite b64_scan_spec by lia. split.
    + intros (body & pads & -> & Ha & Hp & _ & H1 & _). repeat split; [done..|].
      exists body, pads. repeat split; [done..|]. by apply pads_spec.
    + intros (_ & _ & body & pads & -> & Ha & [H1 H2]%pads_spec). exists body, pads.
      repeat split; try done; lia.
  - split; [done|]. by intros (_ & ? & _).
Qed.

(** The size estimate of a valid payload exists and is positive. *)
Lemma estimate_pos s : base64_text s -> exists n, estimate_base64_decoded_bytes s = Some n /\ 0 < n.
Proof.
  intros (Hne & Hm & _). unfold estimate_base64_decoded_bytes.
  destruct (String.eqb_spec s ""); [done|]. rewrite (proj2 (Nat.eqb_eq _ _) Hm). cbn [negb orb].
  assert (1 <= len s / 4).
  { assert (len s <> 0) by (by intros ?%len_zero). pose proof (Nat.div_mod_eq (len s) 4). lia. }
  set (p := if ends_with s "==" then 2 else if ends_with s "=" then 1 else 0).
  assert (p <= 2) by (unfold p; break; lia).
  destruct (Nat.ltb_spec (len s / 4 * 3) p); [lia|]. eexists. split; [reflexivity|lia].
Qed.

(** * Control characters *)

Lemma chunks_retain p l : chunks l -> chunks (retain p l).
Proof.
  assert (forall l, Forall lead l -> Forall lead (retain p l)) as Hr.
  { intros l0 H. apply Forall_forall. intros x [Hx _]%elem_of_retain.
    rewrite Forall_forall in H. by apply H. }
  intros [Hc Hl]. split.
  - apply Forall_forall. intros x [Hx _]%elem_of_retain. rewrite Forall_forall in Hc. by apply Hc.
  - destruct l as [|c l]; simpl in *; [constructor|]. destruct (p c); simpl; [by apply Hr|].
    apply Hr in Hl. destruct (retain p l); simpl; [constructor|]. by inversion Hl.
Qed.

Lemma chars_strip m :
  chars (strip_disallowed_chat_control_chars m) = retain allowed_char (chars m).
Proof.
  unfold strip_disallowed_chat_control_chars. apply chars_of_chunks, chunks_retain, chars_chunks.
Qed.

(** A sanitized message has allowed characters only, keeps the allowed ones in
    order, and passes unchanged a second time. *)
Lemma sanitize_clean m m' :
  sanitize_chat_send_message_input m = Ok m' ->
  chars m' = retain allowed_char (chars m)
  /\ Forall (fun c => allowed_char c = true) (chars m')
  /\ strip_disallowed_chat_control_chars m' = m'.
Proof.
  unfold sanitize_chat_send_message_input. destruct (contains m (chr1 0)); [done|]. intros [= <-].
  assert (Forall (fun c => allowed_char c = true)
            (chars (strip_disallowed_chat_control_chars m))) as HF.
  { rewrite chars_strip. apply Forall_forall. by intros x [_ ?]%elem_of_retain. }
  repeat split; [apply chars_strip|done|].
  unfold strip_disallowed_chat_control_chars at 1. rewrite retain_all by done. apply chars_concat.
Qed.

(** * Screening *)

Section screening.
Variable b64_encode : string -> string.
Variable b64_decode : string -> option string.
Variable guess_format : string -> option string.
(** Decoding a payload gives three bytes for four characters, less the padding. *)
Hypothesis decode_len : forall s bytes,
  b64_decode s = Some bytes -> estimate_base64_decoded_bytes s = Some (len bytes).

Definition payload_of (a : NormalizedRpcAttachment) : string :=
  (extract_data_url_base64 (na_content_base64 a)).1.

(** An attachment the gateway takes: base64 text that decodes to at most
    [max_bytes] bytes. *)
Definition fits (max_bytes : nat) (a : NormalizedRpcAttachment) : Prop :=
  base64_text (payload_of a)
  /\ exists bytes, b64_decode (payload_of a) = Some bytes /\ len bytes <= max_bytes.

(** The image an attachment stands for: the type comes from the bytes, or from
    the request when the bytes are not recognised. *)
Definition image_of (a : NormalizedRpcAttachment) : option ParsedImageAttachment :=
  b64_decode (payload_of a) ≫= fun bytes =>
  let mime := or_else (or_else (guess_format bytes) (sniff_known_non_image_mime bytes))
                (or_else (na_mime_type a) (extract_data_url_base64 (na_content_base64 a)).2) in
  mime ≫= fun m =>
  if starts_with m "image/"
  then Some {| pi_label := na_label a; pi_mime_type := m; pi_data := payload_of a |}
  else None.

Lemma checked_bytes_spec max_bytes a :
  match checked_bytes b64_decode max_bytes a with
  | Ok (payload, n, bytes, mime) =>
      payload = payload_of a /\ base64_text payload /\ b64_decode payload = Some bytes
      /\ n = len bytes /\ 0 < n <= max_bytes
      /\ mime = or_else (na_mime_type a) (extract_data_url_base64 (na_content_base64 a)).2
  | Err e => re_code e = "INVALID_PARAMS" /\ ~ fits max_bytes a
  end.
Proof.
  unfold checked_bytes, fits, payload_of.
  destruct (extract_data_url_base64 (na_content_base64 a)) as [p m]. simpl.
  destruct (is_valid_base64_payload p) eqn:Ev; cbn [negb].
  - apply base64_valid_iff in Ev. destruct (estimate_pos p Ev) as (n & Hn & Hp). rewrite Hn.
    destruct (Nat.eqb_spec n 0); [lia|]. cbn [orb].
    destruct (Nat.ltb_spec max_bytes n).
    + split; [done|]. intros (_ & bytes & Hd & Hl). apply decode_len in Hd. rewrite Hn in Hd.
      injection Hd as ->. lia.
    + destruct (b64_decode p) as [bytes|] eqn:Hd.
      * assert (n = len bytes) as -> by (apply decode_len in Hd; congruence).
        split_and!; try done; lia.
      * split; [done|]. by intros (_ & ? & ? & _).
  - split; [done|]. intros [Hb%base64_valid_iff _]. congruence.
Qed.

(** One attachment: an error exactly when it does not fit, else its image. *)
Lemma screen_attachment_spec max_bytes a :
  match screen_attachment b64_decode guess_format max_bytes a with
  | Ok o => fits max_bytes a /\ o = image_of a
  | Err e => re_code e = "INVALID_PARAMS" /\ ~ fits max_bytes a
  end.
Proof.
  unfold screen_attachment. pose proof (checked_bytes_spec max_bytes a) as H.
  destruct (checked_bytes b64_decode max_bytes a) as [[[[p n] bytes] mime]|e]; simpl; [|done].
  destruct H as (-> & Hb & Hd & -> & Hl & ->).
  assert (fits max_bytes a) as Hf by (split; [done|]; exists bytes; split; [done|lia]).
  unfold image_of. rewrite Hd. simpl.
  destruct (or_else (guess_format bytes) (sniff_known_non_image_mime bytes)) as [s|]; simpl.
  - by destruct (starts_with s "image/").
  - destruct (or_else (na_mime_type a) _) as [m|]; simpl; [|done].
    by destruct (starts_with m "image/").
Qed.

Lemma image_of_ok max_bytes a i :
  fits max_bytes a -> image_of a = Some i ->
  pi_label i = na_label a /\ base64_text (pi_data i) /\ starts_with (pi_mime_type i) "image/" = true
  /\ exists bytes, b64_decode (pi_data i) = Some bytes /\ 0 < len bytes <= max_bytes.
Proof.
  intros (Hb & bytes & Hd & Hl). unfold image_of. rewrite Hd. simpl.
  destruct (or_else (or_else (guess_format bytes) _) _) as [m|]; simpl; [|done].
  destruct (starts_with m "image/") eqn:Em; [|done]. intros [= <-]. simpl. split_and!; try done.
  exists bytes. split; [done|]. apply decode_len in Hd.
  destruct (estimate_pos _ Hb) as (n & Hn & ?). rewrite Hn in Hd. injection Hd as ->. lia.
Qed.

Lemma screen_all_spec max_bytes l :
  match screen_all b64_decode guess_format max_bytes l with
  | Ok images => Forall (fits max_bytes) l /\ images = omap image_of l
  | Err e => re_code e = "INVALID_PARAMS" /\
      exists l1 a l2, l = l1 ++ a :: l2 /\ Forall (fits max_bytes) l1 /\ ~ fits max_bytes a
  end.
Proof.
  induction l as [|a l IH]; simpl; [done|].
  pose proof (screen_attachment_spec max_bytes a) as Ha.
  destruct (screen_attachment b64_decode guess_format max_bytes a) as [o|e]; simpl.
  - destruct Ha as [Hf ->].
    destruct (screen_all b64_decode guess_format max_bytes l) as [images|e]; simpl.
    + destruct IH as [HF ->]. split; [by constructor|]. by destruct (image_of a).
    + destruct IH as (He & l1 & b & l2 & -> & HF & Hb). split; [done|].
      exists (a :: l1), b, l2. split_and!; [done|by constructor|done].
  - destruct Ha as [He Hf]. split; [done|]. exists [], a, l. by split_and!.
Qed.

End screening.

(** A decoder that knows two payloads: the bytes of a PNG signature and a text. *)
Definition sample_decode (s : string) : option string :=
  if String.eqb s "iVBORw==" then Some (bytes_of [137; 80; 78; 71])
  else if String.eqb s "aGk=" then Some "hi" else None.
Definition sample_guess (s : string) : option string :=
  if String.eqb s (bytes_of [137; 80; 78; 71]) then Some "image/png" else None.
Definition sample_attachments : json := JArr [
  jobject [("content", JStr "data:image/jpeg;base64,iVBORw=="); ("fileName", JStr "a b.png")];
  jobject [("content", JStr "aGk="); ("mimeType", JStr "text/plain")]].


(** * Staged files *)

Section staging.
Variable b64_decode : string -> option string.
Variable guess_format : string -> option string.
Variable path : nat -> string -> string.
Variable write : string -> result unit string.

(** Staging only adds files, named by indices from [idx] on; when it succeeds
    they are the paths handed to the pipeline. *)
Lemma stage_all_files max_bytes idx l files :
  match stage_all b64_decode guess_format path write max_bytes idx l files with
  | (Ok staged, files') =>
      files' = list_to_set (ma_path <$> staged) ∪ files
      /\ Forall (fun m => (exists j e, idx <= j /\ ma_path m = path j e)
                          /\ is_media_mime (ma_mime_type m) = true
                          /\ 0 < ma_size_bytes m <= max_bytes) staged
  | (Err _, files') => files ⊆ files'
  end.
Proof.
  revert idx files. induction l as [|a l IH]; intros idx files; simpl.
  { split; [set_solver|constructor]. }
  assert (forall files, match stage_all b64_decode guess_format path write max_bytes (S idx) l files with
    | (Ok staged, files') =>
        files' = list_to_set (ma_path <$> staged) ∪ files
        /\ Forall (fun m => (exists j e, idx <= j /\ ma_path m = path j e)
                            /\ is_media_mime (ma_mime_type m) = true
                            /\ 0 < ma_size_bytes m <= max_bytes) staged
    | (Err _, files') => files ⊆ files' end) as Hskip.
  { intros fs. specialize (IH (S idx) fs).
    destruct (stage_all b64_decode guess_format path write max_bytes (S idx) l fs) as [[staged|e] fs'];
      [|done].
    destruct IH as [-> HF]. split; [done|]. eapply Forall_impl; [exact HF|]. simpl.
    intros m [(j & x & ? & ?) ?]. split; [|done]. exists j, x. split; [lia|done]. }
  destruct (checked_bytes b64_decode max_bytes a) as [[[[p n] bytes] mime]|e] eqn:Ec; [|done].
  assert (0 < n <= max_bytes) as Hn.
  { unfold checked_bytes in Ec. destruct (extract_data_url_base64 _).
    repeat case_match; simplify_eq.
    match goal with H : (_ || _)%bool = false |- _ => apply orb_false_iff in H as [?%Nat.eqb_neq ?%Nat.ltb_ge] end.
    lia. }
  destruct (or_else (sniff_media_mime guess_format bytes) _) as [m|]; [|apply Hskip].
  destruct (is_media_mime m) eqn:Em; [|apply Hskip].
  destruct (write (path idx (media_temp_file_extension m))) as [[]|e]; [|done].
  specialize (Hskip ({[path idx (media_temp_file_extension m)]} ∪ files)).
  destruct (stage_all b64_decode guess_format path write max_bytes (S idx) l _) as [[staged|e] fs'].
  - destruct Hskip as [-> HF]. split; [set_solver|]. constructor; [|done]. simpl.
    split; [eauto|]. by split.
  - set_solver.
Qed.

(** When every attachment can be staged, no file is left behind, whatever the
    pipeline answers. *)
Lemma staged_files_removed process normalized max_bytes files staged files' :
  (forall j e, path j e ∉ files) ->
  prepare_media_attachments_for_understanding b64_decode guess_format path write normalized max_bytes files
    = (Ok staged, files') ->
  (collect_media_understanding_debug_payload b64_decode guess_format path write process
     normalized max_bytes files).2 = files.
Proof.
  intros Hfresh Hp. unfold collect_media_understanding_debug_payload.
  destruct normalized as [|a l]; [done|]. rewrite Hp. simpl.
  pose proof (stage_all_files max_bytes 0 (a :: l) files) as H.
  unfold prepare_media_attachments_for_understanding in Hp. rewrite Hp in H.
  destruct H as [-> HF]. apply set_eq. intros x. rewrite elem_of_difference, elem_of_union.
  rewrite elem_of_list_to_set, list_elem_of_fmap.
  split; [intros [[?|?] ?]; done|]. intros Hx. split; [by right|].
  intros (m & -> & Hm). rewrite Forall_forall in HF.
  destruct (HF m Hm) as [(j & e & _ & Hj) _]. rewrite Hj in Hx. by apply (Hfresh j e).
Qed.
End staging.

(** An image that is staged before an attachment that cannot be decoded stays on
    disk: the error path forgets it. *)
Example staged_file_leaks :
  let good := {| na_label := "a"; na_kind := None; na_mime_type := None;
                 na_content_base64 := "iVBORw==" |} in
  let bad := {| na_label := "b"; na_kind := None; na_mime_type := None;
                na_content_base64 := "!" |} in
  let '(payload, files) := collect_media_understanding_debug_payload sample_decode sample_guess
    (fun i e => pretty (N.of_nat i) +:+ "." +:+ e) (fun _ => Ok tt) (fun _ => JNull) [good; bad]
    100 ∅ in
  payload <> Some JNull /\ files = {["0.png"]}.
Proof. vm_compute. split; [discriminate|reflexivity]. Qed.

(** * Examples *)

Example reset_with_text :
  parse_session_reset_command "  /New  hello there " = Some ("new", Some "hello there").
Proof. reflexivity. Qed.

Example reset_needs_the_word : parse_session_reset_command "/newer" = None.
Proof. reflexivity. Qed.

Example skill_with_arguments :
  parse_skill_invocation_for_chat "/skill weather  Paris now" = Some ("weather", "Paris now").
Proof. reflexivity. Qed.

(** The scheme of a data URL is recognised in any case, its type only in lower
    case. *)
Example upper_case_scheme_loses_type :
  extract_data_url_base64 "DATA:image/png;base64,iVBORw==" = ("iVBORw==", None).
Proof. reflexivity. Qed.
