(* ===== verification/AgentDirs.v ===== *)
(** Agents' directories and files ([crates/gateway-core/src/http.rs]: agent
    identifiers, workspace resolution and the [agents.files] RPCs).

    A path is the text of a Unix path; [resolve] is what the operating system
    makes of it without symbolic links. *)

From Stdlib Require Import Strings.String.
From S2P Require Import Prelude RustStr Json ConfigStore.
#[local] Open Scope string_scope.
#[local] Open Scope nat_scope.
#[local] Open Scope list_scope.
#[local] Open Scope rust_scope.

(** * Paths *)

(** [base.join(p)]: an absolute [p] replaces [base]. *)
Definition path_join (base p : string) : string :=
  if starts_with p "/" then p
  else if String.eqb base "" || ends_with base "/" then base +:+ p
  else base +:+ "/" +:+ p.

Definition path_step (acc : list string) (c : string) : list string :=
  if String.eqb c "" || String.eqb c "." then acc
  else if String.eqb c ".." then removelast acc
  else acc ++ [c].

(** The directories from the root down to what an absolute path names. *)
Definition resolve (p : string) : list string := foldl path_step [] (split_char "/"%char p).

(** * Agent identifiers *)

Definition valid_id_byte (c : ascii) : bool :=
  let n := nat_of_ascii c in
  ((97 <=? n) && (n <=? 122)) || ((48 <=? n) && (n <=? 57)) || (n =? 95) || (n =? 45).
Definition valid_id_char (ch : string) : bool :=
  match ch with String c EmptyString => valid_id_byte c | _ => false end.

(** Runs of other characters become one dash. *)
Fixpoint dash_go (prev_dash : bool) (l : list string) : string :=
  match l with
  | [] => ""
  | ch :: l' =>
      if valid_id_char ch then ch +:+ dash_go false l'
      else if prev_dash then dash_go true l' else "-" +:+ dash_go true l'
  end.

Definition normalize_agent_id (raw : string) : string :=
  let t := to_ascii_lowercase (trim raw) in
  if String.eqb t "" then "main"
  else
    let out := trim_char "-"%char (dash_go false (chars t)) in
    if String.eqb out "" then "main" else str_concat (take 64 (chars out)).

(** * Workspaces *)

(** What the environment gives: the home directory, the working directory and
    the variables of the state directory and the profile, trimmed and not
    empty. *)
Record DirEnv := {
  home_dir : option string;
  current_dir : option string;
  state_dir_var : option string;
  profile_var : option string;
}.

Definition home_or_dot (e : DirEnv) : string := default "." (home_dir e).

Definition resolve_user_path (e : DirEnv) (input : string) : string :=
  let t := trim input in
  if String.eqb t "" then ""
  else
    let candidate :=
      if String.eqb t "~" then default "~" (home_dir e)
      else match strip_prefix t "~/" with
      | Some rest => path_join (home_or_dot e) rest
      | None => match strip_prefix t "~\" with
                | Some rest => path_join (home_or_dot e) rest
                | None => t
                end
      end in
    if starts_with candidate "/" then candidate
    else match current_dir e with Some cwd => path_join cwd candidate | None => candidate end.

Definition resolve_state_dir_from_env (e : DirEnv) : string :=
  match state_dir_var e with
  | Some dir => resolve_user_path e dir
  | None => path_join (home_or_dot e) ".oclaw"
  end.

Definition resolve_default_agent_workspace_dir_from_env (e : DirEnv) : string :=
  let base := path_join (home_or_dot e) ".oclaw" in
  match profile_var e with
  | Some profile => if eq_ignore_ascii_case profile "default" then path_join base "workspace"
                    else path_join base ("workspace-" +:+ profile)
  | None => path_join base "workspace"
  end.

(** [cfg.agents], and its [list]. *)
Definition agent_list (agents : option json) : option (list json) :=
  agents ≫= fun a => get "list" a ≫= as_array.

(** An entry of the list with its identifier; blank identifiers are skipped. *)
Definition entry_id (entry : json) : option string :=
  as_object entry ≫= fun _ =>
  let raw_id := default "" (get_str "id" entry) in
  let id := normalize_agent_id raw_id in
  if String.eqb id "main" && String.eqb (trim raw_id) "" then None else Some id.

Fixpoint default_agent_go (first : option string) (l : list json) : string :=
  match l with
  | [] => default "main" first
  | entry :: l' =>
      match entry_id entry with
      | None => default_agent_go first l'
      | Some id =>
          if default false (get_bool "default" entry) then id
          else default_agent_go (or_else first (Some id)) l'
      end
  end.

Definition resolve_default_agent_id_from_config (agents : option json) : string :=
  match agent_list agents with
  | None => "main"
  | Some l => default_agent_go None l
  end.

Definition configured_workspace (normalized_id : string) (l : list json) : option string :=
  head (omap (fun entry =>
    as_object entry ≫= fun _ =>
    if String.eqb (normalize_agent_id (default "" (get_str "id" entry))) normalized_id
    then trimmed (get_str "workspace" entry) else None) l).

Definition resolve_agent_workspace_dir_from_config (e : DirEnv) (agents : option json)
    (agent_id : string) (workspace_hint : option string) : string :=
  let normalized_id := normalize_agent_id agent_id in
  match agent_list agents ≫= configured_workspace normalized_id with
  | Some workspace => resolve_user_path e workspace
  | None =>
      if String.eqb normalized_id (resolve_default_agent_id_from_config agents) then
        match trimmed (agents ≫= fun a => get "defaults" a ≫= get_str "workspace") with
        | Some fallback => resolve_user_path e fallback
        | None => match workspace_hint with
                  | Some root => root
                  | None => resolve_default_agent_workspace_dir_from_env e
                  end
        end
      else path_join (resolve_state_dir_from_env e) ("workspace-" +:+ normalized_id)
  end.

(** Identifiers named anywhere in the configuration, in ascending order. *)
Definition reserved_agent_keys : list string := ["list"; "defaults"; "entries"].

Definition collect_agent_ids_from_config (agents : option json) : list string :=
  let listed := omap (fun entry => normalize_agent_id <$> get_str "id" entry)
                  (default [] (agent_list agents)) in
  let obj := default [] (agents ≫= as_object) in
  let keyed := omap (fun kv : string * json =>
                 let t := trim kv.1 in
                 if String.eqb t "" || existsb (fun r => eq_ignore_ascii_case r t) reserved_agent_keys
                 then None
                 else if is_object kv.2 then Some (normalize_agent_id t) else None) obj in
  let entries := omap (fun kv : string * json =>
                   let t := trim kv.1 in
                   if String.eqb t "" then None else Some (normalize_agent_id t))
                   (default [] (bt_get "entries" obj ≫= as_object)) in
  to_set ("main" :: resolve_default_agent_id_from_config agents :: listed ++ keyed ++ entries).

(** * Agent files *)

Definition agent_files_root (e : DirEnv) (agent_id : string) : string :=
  path_join (path_join (path_join (path_join (home_or_dot e) ".oclaw") "agents") agent_id) "files".

Definition sanitize_agent_file_name (name : string) : result string RpcError :=
  let t := trim name in
  if String.eqb t "" then Err (rpc_error "INVALID_PARAMS" "File name is empty")
  else if starts_with t "/" || contains t ".." || contains t "\"
  then Err (rpc_error "INVALID_PARAMS" "Unsafe file path")
  else Ok t.

Section files.
Variable b64_encode : string -> string.
Variable b64_decode : string -> result string string.
(** [String::from_utf8] succeeds. *)
Variable valid_utf8 : string -> bool.
(** Paths that are directories: they exist, and reading one gives an error. *)
Variable is_dir : list string -> option string.

(** The files of the machine, by what their path resolves to. *)
Abbreviation Files := (gmap (list string) string).

Definition str_param (p : json) (key : string) : result string RpcError :=
  match as_str (index key p) with
  | Some s => Ok s
  | None => Err (rpc_error "INVALID_PARAMS" ("Missing '" +:+ key +:+ "'"))
  end.

Definition file_payload (id name encoding content : string) : json :=
  jobject [("agentId", JStr id); ("name", JStr name); ("encoding", JStr encoding);
           ("content", JStr content)].

Definition rpc_agents_files_get (e : DirEnv) (p : json) (fs : Files) : RpcResult :=
  let? id := str_param p "id" in
  let? name := str_param p "name" in
  let? safe_name := sanitize_agent_file_name name in
  let path := resolve (path_join (agent_files_root e id) safe_name) in
  match fs !! path with
  | None =>
      match is_dir path with
      | Some e => Err (rpc_error "INTERNAL" ("Failed to read file: " +:+ e))
      | None => Err (rpc_error "NOT_FOUND" ("Agent file not found: " +:+ id +:+ "/" +:+ safe_name))
      end
  | Some bytes =>
      let encoding := default "utf8" (as_str (index "encoding" p)) in
      if eq_ignore_ascii_case encoding "base64" || negb (valid_utf8 bytes)
      then Ok (file_payload id safe_name "base64" (b64_encode bytes))
      else Ok (file_payload id safe_name "utf8" bytes)
  end.

(** [mkdir] and [write] are the outcomes of the two system calls. *)
Definition rpc_agents_files_set (e : DirEnv) (mkdir write : result unit string) (p : json)
    (fs : Files) : RpcResult * Files :=
  match (let? id := str_param p "id" in
         let? name := str_param p "name" in
         let? content := str_param p "content" in
         let? safe_name := sanitize_agent_file_name name in
         Ok (id, content, safe_name)) with
  | Err err => (Err err, fs)
  | Ok (id, content, safe_name) =>
      let encoding := default "utf8" (as_str (index "encoding" p)) in
      let overwrite := default true (as_bool (index "overwrite" p)) in
      let path := resolve (path_join (agent_files_root e id) safe_name) in
      if negb overwrite && (bool_decide (is_Some (fs !! path)) || bool_decide (is_Some (is_dir path)))
      then (Err (rpc_error "CONFLICT" "File already exists and overwrite=false"), fs)
      else match mkdir with
      | Err m => (Err (rpc_error "INTERNAL" ("Create dir failed: " +:+ m)), fs)
      | Ok _ =>
          let data := if eq_ignore_ascii_case encoding "base64" then b64_decode content
                      else Ok content in
          match data with
          | Err m => (Err (rpc_error "INVALID_PARAMS" ("Invalid base64 content: " +:+ m)), fs)
          | Ok bytes =>
              match write with
              | Err m => (Err (rpc_error "INTERNAL" ("Failed to write file: " +:+ m)), fs)
              | Ok _ => (Ok (jobject [("ok", JBool true); ("agentId", JStr id);
                                      ("name", JStr safe_name); ("bytes", JInt (Z.of_nat (len bytes)))]),
                         <[path := bytes]> fs)
              end
          end
      end
  end.
End files.

(** * Confinement *)

Lemma split_char_app_sep c a b :
  split_char c (a +:+ String c b) = split_char c a ++ split_char c b.
Proof.
  induction a as [|d a IH].
  - change ("" +:+ String c b) with (String c b). simpl. by rewrite Ascii.eqb_refl.
  - change (String d a +:+ String c b) with (String d (a +:+ String c b)). simpl. rewrite IH.
    destruct (Ascii.eqb d c); [done|]. pose proof (split_char_ne c a).
    by destruct (split_char c a).
Qed.

Lemma split_char_elem c s x : x ∈ split_char c s -> exists a b, s = a +:+ x +:+ b.
Proof.
  revert x. induction s as [|d s IH]; intros x; simpl.
  { intros ->%list_elem_of_singleton. by exists "", "". }
  destruct (Ascii.eqb d c).
  - intros [->|Hx]%elem_of_cons; [by exists "", (String d s)|].
    destruct (IH x Hx) as (a & b & ->). by exists (String d a), b.
  - pose proof (split_char_ne c s) as Hne. destruct (split_char c s) as [|w ws] eqn:E; [done|].
    intros [->|Hx]%elem_of_cons.
    + pose proof (split_char_join c s) as Hj. rewrite E in Hj. exists "".
      destruct ws as [|w2 ws]; simpl in Hj; [exists ""|exists (String c (join (String c "") (w2 :: ws)))].
      * by rewrite str_app_nil_r, Hj.
      * by rewrite <- Hj.
    + destruct (IH x ltac:(by right)) as (a & b & ->). by exists (String d a), b.
Qed.

Definition plain (c : string) : Prop := c <> "" /\ c <> "." /\ c <> "..".

Lemma path_steps_below acc l :
  ".." ∉ l -> exists rel, foldl path_step acc l = acc ++ rel /\ Forall plain rel.
Proof.
  revert acc. induction l as [|c l IH]; intros acc Hl; simpl.
  { exists []. by rewrite app_nil_r. }
  apply not_elem_of_cons in Hl as [Hc Hl]. unfold path_step at 2.
  destruct (String.eqb_spec c ""), (String.eqb_spec c "."), (String.eqb_spec c "..");
    try done; simpl; try (by apply IH).
  destruct (IH (acc ++ [c]) Hl) as (rel & -> & HF). exists (c :: rel).
  rewrite <- app_assoc. split; [done|]. by constructor.
Qed.

Lemma resolve_plain base c :
  plain c -> contains c "/" = false ->
  resolve (path_join base c) = resolve base ++ [c].
Proof.
  intros (H1 & H2 & H3) Hs. unfold path_join.
  assert (split_char "/"%char c = [c]) as Hsp.
  { clear H1 H2 H3. induction c as [|d c IH]; [done|]. simpl in Hs |- *.
    destruct (Ascii.eqb_spec d "/"%char) as [->|Hd]; [by destruct c|].
    rewrite IH; [done|]. by apply orb_false_iff in Hs as [_ ?]. }
  assert (path_step (resolve base) c = resolve base ++ [c]) as Hstep.
  { unfold path_step. destruct (String.eqb_spec c ""), (String.eqb_spec c "."),
      (String.eqb_spec c ".."); done. }
  destruct (starts_with c "/") eqn:Est.
  { apply prefix_spec in Est as [r ->]. simpl in Hs. by destruct r. }
  destruct (String.eqb_spec base "") as [->|Hb]; simpl.
  - unfold resolve. rewrite Hsp. simpl. exact Hstep.
  - destruct (ends_with base "/") eqn:Ee.
    + apply ends_with_spec in Ee as [r ->]. unfold resolve in *.
      rewrite (str_app_assoc r "/" c). change ("/" +:+ c) with (String "/"%char c).
      rewrite split_char_app_sep, Hsp, foldl_app. simpl.
      change (r +:+ "/") with (r +:+ String "/"%char "") in Hstep |- *.
      rewrite split_char_app_sep, foldl_app in Hstep |- *. exact Hstep.
    + unfold resolve in *. change ("/" +:+ c) with (String "/"%char c).
      rewrite split_char_app_sep, Hsp, foldl_app. exact Hstep.
Qed.

(** An identifier that is a single path component. *)
Definition good_id (id : string) : Prop := plain id /\ contains id "/" = false.

Lemma agent_files_root_resolve e id :
  good_id id ->
  resolve (agent_files_root e id) = resolve (home_or_dot e) ++ [".oclaw"; "agents"; id; "files"].
Proof.
  intros [Hp Hs]. unfold agent_files_root.
  rewrite !resolve_plain by (done || (split_and!; discriminate)). by rewrite <- !app_assoc.
Qed.

(** An accepted name leads nowhere above the directory it is joined to. *)
Lemma safe_name_below base name safe :
  sanitize_agent_file_name name = Ok safe ->
  exists rel, resolve (path_join base safe) = resolve base ++ rel /\ Forall plain rel.
Proof.
  unfold sanitize_agent_file_name. destruct (String.eqb_spec (trim name) "") as [|Hne]; [done|].
  destruct (starts_with (trim name) "/") eqn:E1; [done|].
  destruct (contains (trim name) "..") eqn:E2; [done|].
  destruct (contains (trim name) "\"); [done|]. intros [= <-].
  assert (".." ∉ split_char "/"%char (trim name)) as Hdd.
  { intros (a & b & Hx)%split_char_elem. assert (contains (trim name) ".." = true) as Hc; [|congruence].
    apply contains_spec. eauto. }
  unfold path_join. rewrite E1. unfold resolve.
  destruct (String.eqb_spec base "") as [->|Hb]; simpl; [by apply path_steps_below|].
  destruct (ends_with base "/") eqn:E3.
  - apply ends_with_spec in E3 as [r ->]. rewrite (str_app_assoc r "/").
    change ("/" +:+ trim name) with (String "/"%char (trim name)).
    change (r +:+ "/") with (r +:+ String "/"%char "").
    rewrite !split_char_app_sep, !foldl_app. simpl. by apply path_steps_below.
  - change ("/" +:+ trim name) with (String "/"%char (trim name)).
    rewrite split_char_app_sep, foldl_app. by apply path_steps_below.
Qed.

Section confinement.
Variable b64_encode : string -> string.
Variable b64_decode : string -> result string string.
Variable valid_utf8 : string -> bool.
Variable is_dir : list string -> option string.

End confinement.

(** * Normalised identifiers *)

Lemma valid_id_not_cont c : valid_id_byte c = true -> negb (is_utf8_cont c) = true.
Proof. destruct c as [[] [] [] [] [] [] [] []]; vm_compute; congruence. Qed.

Lemma dash_go_valid prev l : str_all valid_id_byte (dash_go prev l) = true.
Proof.
  revert prev. induction l as [|ch l IH]; intros prev; simpl; [done|].
  destruct (valid_id_char ch) eqn:E.
  - rewrite str_all_app, IH, andb_true_r. destruct ch as [|c []]; simpl in *; try done. by rewrite E.
  - destruct prev; [apply IH|]. simpl. by rewrite IH.
Qed.

Lemma normalize_agent_id_shape raw :
  let id := normalize_agent_id raw in
  id <> "" /\ len id <= 64 /\ str_all valid_id_byte id = true.
Proof.
  simpl. unfold normalize_agent_id.
  assert ("main" <> "" /\ len "main" <= 64 /\ str_all valid_id_byte "main" = true) as Hmain.
  { split_and!; [discriminate|simpl; lia|reflexivity]. }
  destruct (String.eqb _ ""); [exact Hmain|].
  set (out := trim_char _ _).
  assert (str_all valid_id_byte out = true) as Hv by apply str_all_trim_char, dash_go_valid.
  clearbody out. destruct (String.eqb_spec out ""); [exact Hmain|].
  assert (chars out = singles out) as Hc.
  { apply chars_single. eapply str_all_impl; [|exact Hv]. apply valid_id_not_cont. }
  rewrite Hc. split_and!.
  - intros H. apply (f_equal String.length) in H. rewrite len_take_singles in H.
    destruct out; [done|]. simpl in H. lia.
  - rewrite len_take_singles. lia.
  - apply str_all_take. rewrite <- Hc. by rewrite chars_concat.
Qed.

(** A normalised identifier is a plain path component. *)
Lemma normalized_id_good raw : good_id (normalize_agent_id raw).
Proof.
  destruct (normalize_agent_id_shape raw) as (Hne & _ & Hv).
  assert (forall c, valid_id_byte c = false ->
    contains (normalize_agent_id raw) (String c "") = false) as H.
  { intros c Hc. destruct (contains _ _) eqn:E; [|done].
    apply (str_all_contains _ _ c Hv) in E. congruence. }
  assert (contains (normalize_agent_id raw) "." = false) as Hdot by (by apply H).
  split; [|by apply H]. split_and!; [done|intros E; by rewrite E in Hdot..].
Qed.

(** Different agents of the state directory have different workspaces. *)
Lemma default_workspaces_distinct e a b :
  let dir id := path_join (resolve_state_dir_from_env e) ("workspace-" +:+ normalize_agent_id id) in
  normalize_agent_id a <> normalize_agent_id b -> resolve (dir a) <> resolve (dir b).
Proof.
  simpl. intros Hne.
  assert (forall r, plain ("workspace-" +:+ normalize_agent_id r)
                    /\ contains ("workspace-" +:+ normalize_agent_id r) "/" = false) as Hw.
  { intros r. split; [split_and!; discriminate|].
    destruct (normalize_agent_id_shape r) as (_ & _ & Hv).
    destruct (contains _ _) eqn:E; [|done]. exfalso.
    assert (str_all valid_id_byte ("workspace-" +:+ normalize_agent_id r) = true) as Hv2
      by (by rewrite str_all_app, Hv).
    by apply (str_all_contains _ _ _ Hv2) in E. }
  rewrite !resolve_plain by apply Hw. intros [_ E]%app_inj_tail.
  apply Hne. by apply (str_app_cancel_l "workspace-").
Qed.

(** Cutting at 64 characters can leave a trailing dash, which normalising again
    removes: the two forms name different workspaces. *)
Example long_id_not_stable :
  let id := normalize_agent_id (str_repeat "a" 63 +:+ " b") in
  id = str_repeat "a" 63 +:+ "-" /\ normalize_agent_id id = str_repeat "a" 63.
Proof. vm_compute. by split. Qed.

(** * Examples *)

Definition sample_env : DirEnv := {|
  home_dir := Some "/home/u"; current_dir := Some "/srv"; state_dir_var := None;
  profile_var := None |}.
Definition set_params (id name : string) : json :=
  jobject [("id", JStr id); ("name", JStr name); ("content", JStr "hi")].
Definition write_file (p : json) : RpcResult * gmap (list string) string :=
  rpc_agents_files_set (fun s => Ok s) (fun _ => None) sample_env (Ok tt) (Ok tt) p ∅.


(** The identifier itself is not checked: one with parent directories, or an
    absolute one, writes anywhere. *)
Example agent_id_escapes :
  (write_file (set_params "../../../../etc" "passwd")).2 !! ["etc"; "files"; "passwd"] = Some "hi"
  /\ (write_file (set_params "/etc/cron.d" "job")).2 !! ["etc"; "cron.d"; "files"; "job"] = Some "hi".
Proof. vm_compute. by split. Qed.

Example default_agent_first :
  resolve_default_agent_id_from_config (Some (jobject [("list", JArr [
    jobject [("id", JStr " ")]; jobject [("id", JStr "Ops Bot")];
    jobject [("id", JStr "dev")]])])) = "ops-bot".
Proof. reflexivity. Qed.
