(* ===== verification/SessionStore.v ===== *)
(** The session store ([crates/gateway-core/src/message.rs]) and what the gateway
    does with it ([http.rs]: the session, agent and history RPCs, the delivery
    context of a session, the per-session counters).

    The store is a SQLite database.  A table is a map by its primary key, or a
    list in the order of its row identifiers; [st n] is the outcome of the n-th
    statement an operation runs, an error text or none.  Reads succeed.  [fk]
    says whether the connection enforces foreign keys, which the bundled SQLite
    does by default. *)

From Stdlib Require Import Strings.String.
From S2P Require Import Prelude RustStr Json Sorting ConfigStore.
#[local] Open Scope string_scope.
#[local] Open Scope nat_scope.
#[local] Open Scope list_scope.
#[local] Open Scope rust_scope.

(** * Rows *)

Record SessionInfo := {
  si_key : string;
  si_agent_id : string;
  si_created_at : Z;
  si_updated_at : Z;
  si_message_count : Z;
}.

Record SessionMessage := { sm_role : string; sm_content : string; sm_timestamp : Z }.

Record AgentInfo := {
  ai_id : string;
  ai_name : string;
  ai_model : string;
  ai_system_prompt : string;
  ai_created_at : Z;
  ai_updated_at : Z;
}.

(** The tables of the third schema version; messages in ascending row order. *)
Record Db := {
  db_sessions : gmap string SessionInfo;
  db_messages : list (string * SessionMessage);
  db_metadata : gmap string (gmap string string);
  db_agents : gmap string AgentInfo;
}.

Definition Db_empty : Db := {|
  db_sessions := ∅; db_messages := []; db_metadata := ∅; db_agents := ∅ |}.

Definition set_sessions (x : gmap string SessionInfo) (db : Db) : Db := {|
  db_sessions := x; db_messages := db_messages db; db_metadata := db_metadata db;
  db_agents := db_agents db |}.
Definition set_messages (x : list (string * SessionMessage)) (db : Db) : Db := {|
  db_sessions := db_sessions db; db_messages := x; db_metadata := db_metadata db;
  db_agents := db_agents db |}.
Definition set_metadata (x : gmap string (gmap string string)) (db : Db) : Db := {|
  db_sessions := db_sessions db; db_messages := db_messages db; db_metadata := x;
  db_agents := db_agents db |}.
Definition set_agents (x : gmap string AgentInfo) (db : Db) : Db := {|
  db_sessions := db_sessions db; db_messages := db_messages db; db_metadata := db_metadata db;
  db_agents := x |}.

Definition with_agent_id (agent_id : string) (now : Z) (s : SessionInfo) : SessionInfo := {|
  si_key := si_key s; si_agent_id := agent_id; si_created_at := si_created_at s;
  si_updated_at := now; si_message_count := si_message_count s |}.
Definition with_count (count now : Z) (s : SessionInfo) : SessionInfo := {|
  si_key := si_key s; si_agent_id := si_agent_id s; si_created_at := si_created_at s;
  si_updated_at := now; si_message_count := count |}.
Definition with_updated (now : Z) (s : SessionInfo) : SessionInfo := {|
  si_key := si_key s; si_agent_id := si_agent_id s; si_created_at := si_created_at s;
  si_updated_at := now; si_message_count := si_message_count s |}.

(** [UPDATE sessions SET .. WHERE key = ?]. *)
Definition update_session (f : SessionInfo -> SessionInfo) (key : string) (db : Db) : Db :=
  set_sessions (alter f key (db_sessions db)) db.

(** The messages of a session, oldest first. *)
Definition rows_of (key : string) (l : list (string * SessionMessage)) : list SessionMessage :=
  (retain (fun m => String.eqb m.1 key) l).*2.
Definition messages_of (key : string) (db : Db) : list SessionMessage := rows_of key (db_messages db).
Definition count_of (key : string) (db : Db) : Z := Z.of_nat (length (messages_of key db)).

(** The first [n] rows of a session, removed. *)
Fixpoint drop_rows (key : string) (n : nat) (l : list (string * SessionMessage))
  : list (string * SessionMessage) :=
  match n, l with
  | 0, _ | _, [] => l
  | S n', m :: l' => if String.eqb m.1 key then drop_rows key n' l' else m :: drop_rows key n l'
  end.

(** * The session manager *)

Section manager.
Variable fk : bool.
Abbreviation Stmts := (nat -> option string).

(** [db.execute(..).map_err(|e| format!("{pre}{e}"))?], then [k]. *)
Definition exec {T} (st : Stmts) (n : nat) (pre : string) (next db : Db)
    (k : Db -> result T string * Db) : result T string * Db :=
  match st n with
  | Some e => (Err (pre +:+ e), db)
  | None => k next
  end.

(** [DELETE FROM sessions WHERE p]: foreign keys cascade to messages and
    metadata. *)
Definition delete_sessions (p : SessionInfo -> bool) (db : Db) : Db :=
  let gone k := match db_sessions db !! k with Some s => p s | None => false end in
  {| db_sessions := filter (fun kv => p kv.2 = false) (db_sessions db);
     db_messages := if fk then retain (fun m => negb (gone m.1)) (db_messages db)
                    else db_messages db;
     db_metadata := if fk then filter (fun kv => gone kv.1 = false) (db_metadata db)
                    else db_metadata db;
     db_agents := db_agents db |}.

Definition create_session (st : Stmts) (key agent_id : string) (now : Z) (db : Db)
  : result SessionInfo string * Db :=
  let fresh := {| si_key := key; si_agent_id := agent_id; si_created_at := now;
                  si_updated_at := now; si_message_count := 0 |} in
  let inserted := match db_sessions db !! key with
                  | Some _ => db
                  | None => set_sessions (<[key := fresh]> (db_sessions db)) db
                  end in
  exec st 0 "Failed to create session: " inserted db (fun db1 =>
  exec st 1 "Failed to update session: " (update_session (with_agent_id agent_id now) key db1) db1
  (fun db2 =>
    match db_sessions db2 !! key with
    | Some s => (Ok s, db2)
    | None => (Err "Session created but not found", db2)
    end)).

Definition get_session (key : string) (db : Db) : option SessionInfo := db_sessions db !! key.

(** [rows] is the order the table scan yields the rows in. *)
Definition list_sessions (rows : gmap string SessionInfo -> list SessionInfo) (db : Db)
  : list SessionInfo := sort_by (cmp_rev (by_Z si_updated_at)) (rows (db_sessions db)).

(** The outcome of the deletion is dropped ([.ok()]). *)
Definition remove_session (st : Stmts) (key : string) (db : Db) : option SessionInfo * Db :=
  match get_session key db with
  | None => (None, db)
  | Some s => (Some s, match st 0 with
                       | Some _ => db
                       | None => delete_sessions (fun x => String.eqb (si_key x) key) db
                       end)
  end.

Definition update_message_count (st : Stmts) (key : string) (count now : Z) (db : Db) : Db :=
  match st 0 with Some _ => db | None => update_session (with_count count now) key db end.

Definition update_agent_id (st : Stmts) (key agent_id : string) (now : Z) (db : Db)
  : result unit string * Db :=
  exec st 0 "Failed to update agent_id: " (update_session (with_agent_id agent_id now) key db) db
    (fun db1 => (Ok tt, db1)).

Definition get_session_metadata (key : string) (db : Db) : gmap string string :=
  default ∅ (db_metadata db !! key).

(** [INSERT OR REPLACE INTO session_metadata]. *)
Definition put_field (key field value : string) (db : Db) : Db :=
  set_metadata (<[key := <[field := value]> (get_session_metadata key db)]> (db_metadata db)) db.

Definition fk_error : string := "FOREIGN KEY constraint failed".
Definition fk_violated (key : string) (db : Db) : bool :=
  fk && bool_decide (db_sessions db !! key = None).

Definition set_session_metadata_field (st : Stmts) (key field value : string) (db : Db)
  : result unit string * Db :=
  let f := trim field in
  if String.eqb f "" then (Err "metadata key cannot be empty", db)
  else if fk_violated key db then (Err fk_error, db)
  else exec st 0 "" (put_field key f value db) db (fun db1 => (Ok tt, db1)).

(** One transaction: all the fields or none.  [fields] in the map's order. *)
Fixpoint put_fields (st : Stmts) (n : nat) (key : string) (fields : list (string * string))
    (db : Db) : result Db string :=
  match fields with
  | [] => match st n with Some e => Err e | None => Ok db end
  | (field, value) :: rest =>
      let f := trim field in
      if String.eqb f "" then put_fields st n key rest db
      else if fk_violated key db then Err fk_error
      else match st n with
           | Some e => Err e
           | None => put_fields st (S n) key rest (put_field key f value db)
           end
  end.

Definition set_session_metadata_fields (st : Stmts) (key : string) (fields : list (string * string))
    (db : Db) : result unit string * Db :=
  match fields with
  | [] => (Ok tt, db)
  | _ => match put_fields st 0 key fields db with
         | Ok db' => (Ok tt, db')
         | Err e => (Err e, db)
         end
  end.

Definition touch_session (st : Stmts) (key : string) (now : Z) (db : Db) : result unit string * Db :=
  exec st 0 "Failed to touch session: " (update_session (with_updated now) key db) db
    (fun db1 => (Ok tt, db1)).

(** ** Agents *)

Definition create_agent (st : Stmts) (id name model system_prompt : string) (now : Z) (db : Db)
  : result AgentInfo string * Db :=
  let a := {| ai_id := id; ai_name := name; ai_model := model; ai_system_prompt := system_prompt;
              ai_created_at := now; ai_updated_at := now |} in
  match db_agents db !! id with
  | Some _ => (Err "Failed to create agent: UNIQUE constraint failed: agents.id", db)
  | None => exec st 0 "Failed to create agent: " (set_agents (<[id := a]> (db_agents db)) db) db
              (fun db1 => (Ok a, db1))
  end.

Definition list_agents (rows : gmap string AgentInfo -> list AgentInfo) (db : Db) : list AgentInfo :=
  sort_by (by_Z ai_created_at) (rows (db_agents db)).

Definition alter_agent (f : AgentInfo -> AgentInfo) (id : string) (db : Db) : Db :=
  set_agents (alter f id (db_agents db)) db.

(** Each field of the patch is a statement of its own. *)
Definition update_agent (st : Stmts) (id : string) (patch : json) (now : Z) (db : Db)
  : result unit string * Db :=
  let upd n key (f : string -> AgentInfo -> AgentInfo) (k : nat -> Db -> result unit string * Db) db :=
    match as_str (index key patch) with
    | Some v => exec st n "" (alter_agent (f v) id db) db (k (S n))
    | None => k n db
    end in
  upd 0 "name" (fun v a => {| ai_id := ai_id a; ai_name := v; ai_model := ai_model a;
      ai_system_prompt := ai_system_prompt a; ai_created_at := ai_created_at a; ai_updated_at := now |})
    (fun n1 => upd n1 "model" (fun v a => {| ai_id := ai_id a; ai_name := ai_name a; ai_model := v;
        ai_system_prompt := ai_system_prompt a; ai_created_at := ai_created_at a; ai_updated_at := now |})
      (fun n2 => upd n2 "systemPrompt" (fun v a => {| ai_id := ai_id a; ai_name := ai_name a;
          ai_model := ai_model a; ai_system_prompt := v; ai_created_at := ai_created_at a;
          ai_updated_at := now |})
        (fun _ db3 => (Ok tt, db3)))) db.

Definition delete_agent (st : Stmts) (id : string) (db : Db) : result unit string * Db :=
  exec st 0 "Failed to delete agent: " (set_agents (delete id (db_agents db)) db) db
    (fun db1 => (Ok tt, db1)).

(** ** Messages *)

Definition add_message (st : Stmts) (session_key role content : string) (now : Z) (db : Db)
  : result unit string * Db :=
  let row := (session_key, {| sm_role := role; sm_content := content; sm_timestamp := now |}) in
  if fk_violated session_key db then (Err ("Failed to add message: " +:+ fk_error), db)
  else
    exec st 0 "Failed to add message: " (set_messages (db_messages db ++ [row]) db) db (fun db1 =>
    exec st 1 "Failed to update message count: "
      (update_session (with_count (count_of session_key db1) now) session_key db1) db1
      (fun db2 => (Ok tt, db2))).

(** [limit as i64]: a limit past [i64::MAX] is negative, which SQLite takes as no
    limit. *)
Definition get_messages (session_key : string) (limit : Z) (db : Db) : list SessionMessage :=
  let newest_first := rev (messages_of session_key db) in
  if (i64_max <? limit)%Z then newest_first else take (Z.to_nat limit) newest_first.

Definition clear_messages (st : Stmts) (session_key : string) (now : Z) (db : Db)
  : result unit string * Db :=
  exec st 0 "Failed to clear messages: "
    (set_messages (retain (fun m => negb (String.eqb m.1 session_key)) (db_messages db)) db) db
    (fun db1 =>
  exec st 1 "Failed to update session: " (update_session (with_count 0 now) session_key db1) db1
    (fun db2 => (Ok tt, db2))).

Definition compact_messages (st : Stmts) (session_key : string) (max_messages now : Z) (db : Db)
  : result (Z * Z) string * Db :=
  let total := count_of session_key db in
  if (max_messages <? total)%Z then
    let to_delete := (total - max_messages)%Z in
    exec st 0 "" (set_messages (drop_rows session_key (Z.to_nat to_delete) (db_messages db)) db) db
      (fun db1 =>
    exec st 1 "" (update_session (with_count (total - to_delete) now) session_key db1) db1
      (fun db2 => (Ok (total, (total - to_delete)%Z), db2)))
  else (Ok (total, total), db).

(** The outcome of the deletion is dropped ([.unwrap_or(0)]). *)
Definition cleanup_stale (st : Stmts) (max_age_ms now : Z) (db : Db) : nat * Db :=
  match st 0 with
  | Some _ => (0, db)
  | None =>
      let stale s := (si_updated_at s <? now - max_age_ms)%Z in
      (size (filter (fun kv => stale kv.2 = true) (db_sessions db)), delete_sessions stale db)
  end.

(** * The session RPCs *)

Definition session_error {T} (r : result T string) : result T RpcError :=
  match r with Ok x => Ok x | Err e => Err (rpc_error "SESSION_ERROR" e) end.
Definition agent_error {T} (r : result T string) : result T RpcError :=
  match r with Ok x => Ok x | Err e => Err (rpc_error "AGENT_ERROR" e) end.

(** The derived serialisations. *)
Definition SessionInfo_json (s : SessionInfo) : json := jobject [
  ("key", JStr (si_key s)); ("agentId", JStr (si_agent_id s)); ("createdAt", JInt (si_created_at s));
  ("updatedAt", JInt (si_updated_at s)); ("messageCount", JInt (si_message_count s))].
Definition SessionMessage_json (m : SessionMessage) : json := jobject [
  ("role", JStr (sm_role m)); ("content", JStr (sm_content m)); ("timestamp", JInt (sm_timestamp m))].

Definition missing_param (key : string) : RpcError :=
  rpc_error "INVALID_PARAMS" ("Missing '" +:+ key +:+ "' parameter").
Definition missing (key : string) : RpcError :=
  rpc_error "INVALID_PARAMS" ("Missing '" +:+ key +:+ "'").
Definition not_found : RpcError := rpc_error "NOT_FOUND" "Session not found".

Definition need (e : RpcError) (p : json) (key : string) : result string RpcError :=
  match as_str (index key p) with Some s => Ok s | None => Err e end.

(** The handler's body when its parameters are right and the session exists. *)
Definition with_session {T} (p : json) (db : Db) (k : string -> SessionInfo -> result T RpcError * Db)
  : result T RpcError * Db :=
  match need (missing "key") p "key" with
  | Err e => (Err e, db)
  | Ok key => match get_session key db with
              | None => (Err not_found, db)
              | Some s => k key s
              end
  end.

(** Per-session counters of the gateway's state; [auto_capture] counts captures. *)
Record Counters := {
  flush_tracker : gmap string Z;
  session_usage_tokens : gmap string Z;
  session_turn_counts : gmap string Z;
  auto_capture_counts : gmap string Z;
}.

Definition last_flush_compaction_count (c : Counters) (session_id : string) : Z :=
  default u64_max (flush_tracker c !! session_id).

Definition set_last_flush_compaction_count (session_id : string) (compaction_count : Z)
    (c : Counters) : Counters := {|
  flush_tracker := <[session_id := compaction_count]> (flush_tracker c);
  session_usage_tokens := session_usage_tokens c; session_turn_counts := session_turn_counts c;
  auto_capture_counts := auto_capture_counts c |}.

Definition add_session_usage_tokens (session_id : string) (tokens : Z) (c : Counters) : Z * Counters :=
  let next := sat_add (default 0%Z (session_usage_tokens c !! session_id)) tokens in
  (next, {| flush_tracker := flush_tracker c;
            session_usage_tokens := <[session_id := next]> (session_usage_tokens c);
            session_turn_counts := session_turn_counts c;
            auto_capture_counts := auto_capture_counts c |}).

Definition bump_session_turn_count (session_id : string) (c : Counters) : Z * Counters :=
  let next := sat_add (default 0%Z (session_turn_counts c !! session_id)) 1 in
  (next, {| flush_tracker := flush_tracker c; session_usage_tokens := session_usage_tokens c;
            session_turn_counts := <[session_id := next]> (session_turn_counts c);
            auto_capture_counts := auto_capture_counts c |}).

Definition bump_auto_capture_count (session_id : string) (c : Counters) : Z * Counters :=
  let next := sat_add (default 0%Z (auto_capture_counts c !! session_id)) 1 in
  (next, {| flush_tracker := flush_tracker c; session_usage_tokens := session_usage_tokens c;
            session_turn_counts := session_turn_counts c;
            auto_capture_counts := <[session_id := next]> (auto_capture_counts c) |}).

Definition clear_session_counters (session_id : string) (c : Counters) : Counters := {|
  flush_tracker := delete session_id (flush_tracker c);
  session_usage_tokens := delete session_id (session_usage_tokens c);
  session_turn_counts := delete session_id (session_turn_counts c);
  auto_capture_counts := delete session_id (auto_capture_counts c) |}.

Definition rpc_session_create (st : Stmts) (now : Z) (p : json) (db : Db) : RpcResult * Db :=
  let key := default "default" (as_str (index "key" p)) in
  let agent_id := default "default" (as_str (index "agentId" p)) in
  let '(r, db') := create_session st key agent_id now db in
  (let? s := session_error r in Ok (SessionInfo_json s), db').

Definition rpc_session_list (rows : gmap string SessionInfo -> list SessionInfo) (db : Db) : RpcResult :=
  Ok (JArr (SessionInfo_json <$> list_sessions rows db)).

Definition rpc_session_get (p : json) (db : Db) : RpcResult :=
  let? key := need (missing_param "key") p "key" in
  Ok (jopt SessionInfo_json (get_session key db)).

Definition rpc_session_delete (st : Stmts) (p : json) (db : Db) (c : Counters)
  : RpcResult * Db * Counters :=
  match need (missing_param "key") p "key" with
  | Err e => (Err e, db, c)
  | Ok key => (Ok (jobject [("deleted", JBool true)]), (remove_session st key db).2,
               clear_session_counters key c)
  end.

Definition rpc_session_preview (rows : gmap string SessionInfo -> list SessionInfo) (p : json) (db : Db)
  : RpcResult :=
  let limit := default 20%Z (as_u64 (index "limit" p)) in
  Ok (jobject [("sessions", JArr ((fun s => jobject [
    ("key", JStr (si_key s)); ("agent_id", JStr (si_agent_id s));
    ("created_at", JInt (si_created_at s)); ("updated_at", JInt (si_updated_at s));
    ("message_count", JInt (si_message_count s))])
    <$> take (Z.to_nat limit) (list_sessions rows db)))]).

Definition rpc_session_resolve (p : json) (db : Db) : RpcResult :=
  let? key := need (missing "key") p "key" in
  Ok (match get_session key db with
      | Some s => jobject [("found", JBool true); ("session", SessionInfo_json s)]
      | None => jobject [("found", JBool false); ("session", JNull)]
      end).

Definition rpc_session_patch (st : Stmts) (now : Z) (p : json) (db : Db) : RpcResult * Db :=
  with_session p db (fun key _ =>
    let '(r, db') := match as_str (index "agentId" p) with
                     | Some agent_id => update_agent_id st key agent_id now db
                     | None => touch_session st key now db
                     end in
    (let? _ := session_error r in Ok (jobject [("patched", JBool true)]), db')).

Definition rpc_session_reset (st : Stmts) (now : Z) (p : json) (db : Db) : RpcResult * Db :=
  with_session p db (fun key _ =>
    let '(r, db') := clear_messages st key now db in
    (let? _ := session_error r in Ok (jobject [("reset", JBool true)]), db')).

Definition rpc_session_compact (st : Stmts) (now : Z) (p : json) (db : Db) : RpcResult * Db :=
  let max_messages := default 50%Z (as_u64 (index "maxMessages" p)) in
  with_session p db (fun key _ =>
    let '(r, db') := compact_messages st key max_messages now db in
    (let? counts := session_error r in
     Ok (jobject [("compacted", JBool true); ("original_count", JInt counts.1);
                  ("new_count", JInt counts.2)]), db')).

Definition rpc_session_history (p : json) (db : Db) : RpcResult :=
  let limit := default 50%Z (as_u64 (index "limit" p)) in
  (with_session p db (fun key s =>
    (Ok (jobject [("messages", JArr (SessionMessage_json <$> get_messages key limit db));
                  ("total", JInt (si_message_count s))]), db))).1.

Definition rpc_session_send (st : Stmts) (now : Z) (p : json) (db : Db) : RpcResult * Db :=
  match need (missing "key") p "key" with
  | Err e => (Err e, db)
  | Ok key =>
  match need (missing "text") p "text" with
  | Err e => (Err e, db)
  | Ok text =>
      let role := default "user" (as_str (index "role" p)) in
      match get_session key db with
      | None => (Err not_found, db)
      | Some _ =>
          let '(r, db') := add_message st key role text now db in
          (let? _ := session_error r in
           match get_session key db' with
           | Some s => Ok (jobject [("sent", JBool true); ("message_count", JInt (si_message_count s))])
           | None => Err not_found
           end, db')
      end
  end end.

Definition rpc_agents_create (st : Stmts) (now : Z) (p : json) (db : Db) : RpcResult * Db :=
  match need (missing "id") p "id" with
  | Err e => (Err e, db)
  | Ok id =>
      let name := default id (as_str (index "name" p)) in
      let model := default "default" (as_str (index "model" p)) in
      let system_prompt := default "" (as_str (index "systemPrompt" p)) in
      let '(r, db') := create_agent st id name model system_prompt now db in
      (let? _ := agent_error r in Ok (jobject [("created", JBool true); ("id", JStr id)]), db')
  end.

Definition rpc_agents_update (st : Stmts) (now : Z) (p : json) (db : Db) : RpcResult * Db :=
  match need (missing "id") p "id" with
  | Err e => (Err e, db)
  | Ok id =>
      let '(r, db') := update_agent st id p now db in
      (let? _ := agent_error r in Ok (jobject [("updated", JBool true); ("id", JStr id)]), db')
  end.

Definition rpc_agents_delete (st : Stmts) (p : json) (db : Db) : RpcResult * Db :=
  match need (missing "id") p "id" with
  | Err e => (Err e, db)
  | Ok id =>
      let '(r, db') := delete_agent st id db in
      (let? _ := agent_error r in Ok (jobject [("deleted", JBool true); ("id", JStr id)]), db')
  end.

(** ** Chat history within a size budget *)

Definition CHAT_HISTORY_OVERSIZED_PLACEHOLDER : string := "[chat.history omitted: message too large]".
Definition CHAT_HISTORY_TRUNCATED_PLACEHOLDER : string :=
  "[chat.history omitted: history truncated by size budget]".
Definition CHAT_HISTORY_MAX_TOTAL_BYTES : Z := 1000000.
Definition CHAT_HISTORY_MAX_SINGLE_MESSAGE_BYTES : Z := 128000.

Definition oversized (m : SessionMessage) : bool :=
  (CHAT_HISTORY_MAX_SINGLE_MESSAGE_BYTES <? Z.of_nat (len (sm_content m)))%Z.
Definition mask_oversized (m : SessionMessage) : SessionMessage :=
  if oversized m
  then {| sm_role := sm_role m; sm_content := CHAT_HISTORY_OVERSIZED_PLACEHOLDER;
          sm_timestamp := sm_timestamp m |}
  else m.

(** [json_len] is the length of the serialised list. *)
Fixpoint drop_oldest (json_len : list SessionMessage -> Z) (l : list SessionMessage)
  : list SessionMessage * bool :=
  match l with
  | [] => ([], false)
  | m :: l' => if (CHAT_HISTORY_MAX_TOTAL_BYTES <? json_len l)%Z
               then ((drop_oldest json_len l').1, true) else (l, false)
  end.

(** The messages sent, oldest first, and the number of placeholders. *)
Definition budget_history (json_len : list SessionMessage -> Z) (now : Z)
    (newest_first : list SessionMessage) : list SessionMessage * nat :=
  let messages := rev newest_first in
  let masked := mask_oversized <$> messages in
  let '(kept, truncated) := drop_oldest json_len masked in
  let placeholders := length (retain oversized messages) in
  if truncated then
    ({| sm_role := "system"; sm_content := CHAT_HISTORY_TRUNCATED_PLACEHOLDER; sm_timestamp := now |}
       :: kept, S placeholders)
  else (kept, placeholders).

Definition pick3 (m : gmap string string) (a b c : string) : option string :=
  or_else (m !! a) (or_else (m !! b) (m !! c)).

Definition rpc_chat_history (json_len : list SessionMessage -> Z) (now : Z) (p : json) (db : Db)
  : RpcResult :=
  match trimmed (or_else (get "sessionKey" p) (get "sessionId" p) ≫= as_str) with
  | None => Err (rpc_error "INVALID_PARAMS" "Missing 'sessionKey' parameter")
  | Some session_id =>
      let limit := Z.max 1 (Z.min 1000 (default 200%Z (get_u64 "limit" p))) in
      match get_session session_id db with
      | None => Err not_found
      | Some session =>
          let metadata := get_session_metadata session_id db in
          let '(messages, placeholders) :=
            budget_history json_len now (get_messages session_id limit db) in
          Ok (jobject [
            ("sessionKey", JStr session_id); ("sessionId", JStr (si_key session));
            ("session", SessionInfo_json session);
            ("messages", JArr (SessionMessage_json <$> messages));
            ("total", JInt (si_message_count session));
            ("thinkingLevel", jopt JStr (pick3 metadata "thinkingLevel" "thinking_level" "thinking"));
            ("verboseLevel", jopt JStr (pick3 metadata "verboseLevel" "verbose_level" "verbose"));
            ("omittedPlaceholders", JInt (Z.of_nat placeholders))])
      end
  end.

(** ** The delivery context of a session *)

Record SessionDeliveryContext := {
  sd_channel : option string;
  sd_to : option string;
  sd_account_id : option string;
  sd_thread_id : option string;
}.

Fixpoint session_metadata_pick (m : gmap string string) (keys : list string) : option string :=
  match keys with
  | [] => None
  | key :: keys' => match trimmed (m !! key) with
                    | Some v => Some v
                    | None => session_metadata_pick m keys'
                    end
  end.

Definition load_session_delivery_context (session_key : string) (db : Db) : SessionDeliveryContext :=
  let m := get_session_metadata session_key db in
  {| sd_channel := session_metadata_pick m ["delivery.channel"; "lastChannel"; "last_channel"];
     sd_to := session_metadata_pick m ["delivery.to"; "lastTo"; "last_to"];
     sd_account_id := session_metadata_pick m ["delivery.accountId"; "lastAccountId"; "last_account_id"];
     sd_thread_id := session_metadata_pick m ["delivery.threadId"; "lastThreadId"; "last_thread_id"] |}.

Definition field_pair (o : option string) (k1 k2 : string) : list (string * string) :=
  match trimmed o with Some v => [(k1, v); (k2, v)] | None => [] end.

Definition build_session_delivery_fields (channel to account_id thread_id : option string)
  : list (string * string) :=
  field_pair channel "delivery.channel" "lastChannel" ++ field_pair to "delivery.to" "lastTo"
  ++ field_pair account_id "delivery.accountId" "lastAccountId"
  ++ field_pair thread_id "delivery.threadId" "lastThreadId".

(** [order] is the iteration order of the hash map of fields. *)
Definition persist_session_delivery_context (order : list (string * string) -> list (string * string))
    (st : Stmts) (session_key : string) (channel to account_id thread_id : option string) (db : Db)
  : result unit RpcError * Db :=
  match build_session_delivery_fields channel to account_id thread_id with
  | [] => (Ok tt, db)
  | fields =>
      let '(r, db') := set_session_metadata_fields st session_key (order fields) db in
      (session_error r, db')
  end.
End manager.

(** * The store as conversations

    What the store promises: a map from session keys to the time of the last
    activity and the messages, oldest first. *)

Abbreviation Conversations := (gmap string (Z * list SessionMessage)).

Definition view (db : Db) : Conversations :=
  map_imap (fun k s => Some (si_updated_at s, messages_of k db)) (db_sessions db).

(** The count of a session is the number of its messages; messages and metadata
    belong to sessions. *)
Record Consistent (db : Db) : Prop := {
  c_rows : forall k s, db_sessions db !! k = Some s ->
             si_key s = k /\ si_message_count s = count_of k db;
  c_msgs : forall m, m ∈ db_messages db -> is_Some (db_sessions db !! m.1);
  c_meta : forall k, is_Some (db_metadata db !! k) -> is_Some (db_sessions db !! k);
}.

Inductive StoreOp :=
| SCreate (key agent_id : string) (now : Z)
| SRemove (key : string)
| SAgent (key agent_id : string) (now : Z)
| STouch (key : string) (now : Z)
| SField (key field value : string)
| SFields (key : string) (fields : list (string * string))
| SAdd (key role content : string) (now : Z)
| SClear (key : string) (now : Z)
| SCompact (key : string) (max now : Z)
| SCleanup (max_age now : Z).

(** One call of the store: whether it reports success, and the store after it. *)
Definition store_op (fk : bool) (st : nat -> option string) (op : StoreOp) (db : Db) : bool * Db :=
  let ok {T} (r : result T string * Db) := (match r.1 with Ok _ => true | Err _ => false end, r.2) in
  match op with
  | SCreate key agent_id now => ok (create_session st key agent_id now db)
  | SRemove key => (true, (remove_session fk st key db).2)
  | SAgent key agent_id now => ok (update_agent_id st key agent_id now db)
  | STouch key now => ok (touch_session st key now db)
  | SField key field value => ok (set_session_metadata_field fk st key field value db)
  | SFields key fields => ok (set_session_metadata_fields fk st key fields db)
  | SAdd key role content now => ok (add_message fk st key role content now db)
  | SClear key now => ok (clear_messages st key now db)
  | SCompact key max now => ok (compact_messages st key max now db)
  | SCleanup max_age now => (true, (cleanup_stale fk st max_age now db).2)
  end.

Definition spec_op (op : StoreOp) (c : Conversations) : Conversations :=
  match op with
  | SCreate key _ now => <[key := (now, default [] (snd <$> c !! key))]> c
  | SRemove key => delete key c
  | SAgent key _ now | STouch key now => alter (fun x => (now, x.2)) key c
  | SField _ _ _ | SFields _ _ => c
  | SAdd key role content now =>
      alter (fun x => (now, x.2 ++ [{| sm_role := role; sm_content := content; sm_timestamp := now |}]))
        key c
  | SClear key now => alter (fun _ => (now, [])) key c
  | SCompact key max now =>
      alter (fun x => if (max <? Z.of_nat (length x.2))%Z then (now, lastn (Z.to_nat max) x.2) else x)
        key c
  | SCleanup max_age now => filter (fun kv => (now - max_age <= kv.2.1)%Z) c
  end.

(** Statements fail from the first on or not at all; the two deletions whose
    outcome is dropped do not fail; a count is unsigned. *)
Definition settled (st : nat -> option string) (op : StoreOp) : Prop :=
  (st 0 = None -> forall n, st n = None)
  /\ match op with SRemove _ | SCleanup _ _ => st 0 = None
                 | SCompact _ max _ => (0 <= max)%Z | _ => True end.

Lemma view_lookup db k :
  view db !! k = (fun s => (si_updated_at s, messages_of k db)) <$> db_sessions db !! k.
Proof. unfold view. rewrite map_lookup_imap. by destruct (db_sessions db !! k). Qed.

Lemma rows_of_cons k m l :
  rows_of k (m :: l) = (if String.eqb m.1 k then [m.2] else []) ++ rows_of k l.
Proof. unfold rows_of. simpl. by destruct (String.eqb m.1 k). Qed.

Lemma rows_of_app k l1 l2 : rows_of k (l1 ++ l2) = rows_of k l1 ++ rows_of k l2.
Proof.
  induction l1 as [|m l1 IH]; [done|]. simpl app. by rewrite !rows_of_cons, IH, app_assoc.
Qed.

Lemma rows_of_drop key n l k :
  rows_of k (drop_rows key n l) = if String.eqb key k then drop n (rows_of k l) else rows_of k l.
Proof.
  revert n. induction l as [|m l IH]; intros [|n]; simpl drop_rows; try by destruct (String.eqb key k).
  destruct (String.eqb_spec m.1 key) as [E|Hne].
  - rewrite IH, rows_of_cons, E. by destruct (String.eqb key k).
  - rewrite !rows_of_cons, IH. destruct (String.eqb_spec m.1 k) as [E|]; [|done].
    destruct (String.eqb_spec key k); [congruence|done].
Qed.

Lemma drop_rows_elem key n l m : m ∈ drop_rows key n l -> m ∈ l.
Proof.
  revert n. induction l as [|x l IH]; intros [|n]; simpl; try done.
  destruct (String.eqb x.1 key); [intros H; right; eauto|].
  rewrite !elem_of_cons. intros [->|H]; eauto.
Qed.

Lemma rows_of_retain (p : string -> bool) k l :
  rows_of k (retain (fun m => p m.1) l) = if p k then rows_of k l else [].
Proof.
  induction l as [|m l IH]; [by destruct (p k)|]. rewrite (rows_of_cons k m l). simpl.
  destruct (p m.1) eqn:E.
  - rewrite rows_of_cons, IH. destruct (String.eqb_spec m.1 k) as [<-|]; [by rewrite E|].
    by destruct (p k).
  - rewrite IH. destruct (String.eqb_spec m.1 k) as [<-|]; [by rewrite E|]. by destruct (p k).
Qed.

Lemma lookup_update_session f key db k :
  db_sessions (update_session f key db) !! k
  = if String.eqb key k then f <$> db_sessions db !! k else db_sessions db !! k.
Proof.
  simpl. destruct (String.eqb_spec key k) as [->|Hne];
    [by rewrite lookup_alter_eq|by rewrite lookup_alter_ne].
Qed.

Lemma is_Some_update_session f key db k :
  is_Some (db_sessions (update_session f key db) !! k) <-> is_Some (db_sessions db !! k).
Proof. rewrite lookup_update_session. destruct (String.eqb key k); by rewrite ?fmap_is_Some. Qed.

(** Rewriting the messages of one session and then its row. *)
Lemma rewrite_session key l now db :
  Consistent db ->
  (forall k, k <> key -> rows_of k l = messages_of k db) ->
  (forall m, m ∈ l -> is_Some (db_sessions db !! m.1)) ->
  let db1 := set_messages l db in
  let db2 := update_session (with_count (Z.of_nat (length (rows_of key l))) now) key db1 in
  Consistent db2 /\ view db2 = alter (fun _ => (now, rows_of key l)) key (view db).
Proof.
  intros Hc Hl Hm db1 db2. split.
  - constructor.
    + intros k s. unfold db2. rewrite lookup_update_session. simpl.
      destruct (String.eqb_spec key k) as [->|Hne].
      * intros (s0 & Hs0 & ->)%fmap_Some. by destruct (c_rows db Hc k s0 Hs0).
      * intros Hs. destruct (c_rows db Hc k s Hs) as [? Hk]. split; [done|].
        rewrite Hk. unfold count_of. do 2 f_equal. symmetry. apply Hl. congruence.
    + intros m Hin. unfold db2. rewrite is_Some_update_session. by apply Hm.
    + intros k Hk. unfold db2. rewrite is_Some_update_session. by apply (c_meta db Hc).
  - apply map_eq. intros k. rewrite view_lookup. unfold db2. rewrite lookup_update_session. simpl.
    destruct (String.eqb_spec key k) as [->|Hne].
    + rewrite lookup_alter_eq, view_lookup. by destruct (db_sessions db !! k).
    + rewrite lookup_alter_ne, view_lookup by done.
      destruct (db_sessions db !! k); simpl; [|done]. do 2 f_equal. apply Hl. congruence.
Qed.

(** Rewriting only its row, but for the key and the count. *)
Lemma retouch f key now db :
  (forall s, si_key (f s) = si_key s /\ si_message_count (f s) = si_message_count s
             /\ si_updated_at (f s) = now) ->
  Consistent db ->
  Consistent (update_session f key db)
  /\ view (update_session f key db) = alter (fun x => (now, x.2)) key (view db).
Proof.
  intros Hf Hc. split.
  - constructor.
    + intros k s. rewrite lookup_update_session. destruct (String.eqb_spec key k) as [->|Hne].
      * intros (s0 & Hs0 & ->)%fmap_Some. destruct (Hf s0) as (-> & -> & _).
        by apply (c_rows db Hc).
      * by apply (c_rows db Hc).
    + intros m Hin. rewrite is_Some_update_session. by apply (c_msgs db Hc).
    + intros k Hk. rewrite is_Some_update_session. by apply (c_meta db Hc).
  - apply map_eq. intros k. rewrite view_lookup, lookup_update_session.
    destruct (String.eqb_spec key k) as [->|Hne].
    + rewrite lookup_alter_eq, view_lookup. destruct (db_sessions db !! k) as [s|]; simpl; [|done].
      by destruct (Hf s) as (_ & _ & ->).
    + rewrite lookup_alter_ne, view_lookup by done. done.
Qed.

Lemma put_field_view key f v db : view (put_field key f v db) = view db.
Proof. apply map_eq. intros k. by rewrite !view_lookup. Qed.

Lemma put_field_consistent key f v db :
  is_Some (db_sessions db !! key) -> Consistent db -> Consistent (put_field key f v db).
Proof.
  intros Hk Hc. constructor; simpl; [apply (c_rows db Hc)|apply (c_msgs db Hc)|].
  intros k. destruct (decide (k = key)) as [->|]; [done|]. rewrite lookup_insert_ne by done.
  apply (c_meta db Hc).
Qed.

Lemma fk_not_violated key db : fk_violated true key db = false -> is_Some (db_sessions db !! key).
Proof.
  unfold fk_violated. simpl. intros H%bool_decide_eq_false. by destruct (db_sessions db !! key).
Qed.

Lemma put_fields_spec st n key fields db db' :
  put_fields true st n key fields db = Ok db' -> Consistent db ->
  Consistent db' /\ view db' = view db.
Proof.
  revert n db. induction fields as [|[f v] fields IH]; intros n db; cbn [put_fields].
  { destruct (st n); [done|]. intros [= <-] ?. by split. }
  destruct (String.eqb (trim f) ""); [by apply IH|].
  destruct (fk_violated true key db) eqn:E; [done|]. destruct (st n); [done|].
  intros H Hc. apply fk_not_violated in E.
  destruct (IH _ _ H (put_field_consistent _ _ _ _ E Hc)) as [? ->].
  split; [done|]. apply put_field_view.
Qed.

(** Deleting sessions with their rows. *)
Lemma delete_sessions_spec p db :
  Consistent db ->
  Consistent (delete_sessions true p db)
  /\ forall k, view (delete_sessions true p db) !! k
       = db_sessions db !! k ≫= fun s => if p s then None else view db !! k.
Proof.
  intros Hc. set (gone k := match db_sessions db !! k with Some s => p s | None => false end).
  assert (forall k, db_sessions (delete_sessions true p db) !! k
            = db_sessions db !! k ≫= fun s => if p s then None else Some s) as Hs.
  { intros k. simpl. rewrite map_lookup_filter. destruct (db_sessions db !! k) as [s|]; simpl; [|done].
    by destruct (p s). }
  assert (forall k, messages_of k (delete_sessions true p db)
                    = if gone k then [] else messages_of k db) as Hm.
  { intros k. etransitivity; [exact (rows_of_retain (fun k => negb (gone k)) k (db_messages db))|].
    by destruct (gone k). }
  assert (forall k, is_Some (db_sessions db !! k) -> gone k = false ->
            is_Some (db_sessions (delete_sessions true p db) !! k)) as Hkeep.
  { intros k [s Hk] Hg. rewrite Hs, Hk. simpl. unfold gone in Hg. rewrite Hk in Hg. by rewrite Hg. }
  split; [constructor|].
  - intros k s. rewrite Hs. intros (s0 & Hs0 & Hp)%bind_Some.
    destruct (p s0) eqn:E; [done|]. injection Hp as <-. destruct (c_rows db Hc k s0 Hs0) as [? ->].
    split; [done|]. unfold count_of. rewrite Hm. unfold gone. by rewrite Hs0, E.
  - intros m [Hin Hg%negb_true_iff]%elem_of_retain. apply Hkeep; [by apply (c_msgs db Hc)|exact Hg].
  - intros k [x Hx]. simpl in Hx. apply map_lookup_filter_Some in Hx as [Hx Hg].
    apply Hkeep; [|exact Hg]. apply (c_meta db Hc). eauto.
  - intros k. rewrite view_lookup, Hs, Hm, view_lookup. unfold gone.
    destruct (db_sessions db !! k) as [s|]; simpl; [|done]. by destruct (p s).
Qed.

Lemma consistent_empty : Consistent Db_empty /\ view Db_empty = ∅.
Proof.
  split; [constructor; simpl|done].
  - intros k s. by rewrite lookup_empty.
  - intros m. by rewrite elem_of_nil.
  - intros k. rewrite lookup_empty. by intros [].
Qed.

(** A new session, or an existing one, marked as just used. *)
Lemma create_refines st key agent_id now db :
  Consistent db -> (st 0 = None -> forall n, st n = None) ->
  let r := store_op true st (SCreate key agent_id now) db in
  Consistent r.2 /\ view r.2 = if r.1 then spec_op (SCreate key agent_id now) (view db) else view db.
Proof.
  intros Hc Hst. simpl. unfold create_session, exec. destruct (st 0) eqn:E0; [done|].
  rewrite (Hst eq_refl 1). destruct (db_sessions db !! key) as [s|] eqn:Hk.
  - destruct (retouch (with_agent_id agent_id now) key now db) as [H1 H2]; [done..|].
    pose proof (lookup_update_session (with_agent_id agent_id now) key db key) as Hl.
    rewrite String.eqb_refl, Hk in Hl. rewrite Hl. simpl. split; [exact H1|]. rewrite H2.
    rewrite view_lookup, Hk. simpl.
    apply map_eq. intros k. destruct (decide (k = key)) as [->|];
      [|by rewrite lookup_alter_ne, lookup_insert_ne].
    by rewrite lookup_alter_eq, lookup_insert_eq, view_lookup, Hk.
  - set (fresh := Build_SessionInfo key agent_id now now 0).
    set (db1 := set_sessions (<[key := fresh]> (db_sessions db)) db).
    assert (messages_of key db = []) as Hempty.
    { destruct (messages_of key db) as [|m l] eqn:E; [done|]. exfalso.
      assert (m ∈ messages_of key db) as Hin by (rewrite E; left).
      apply list_elem_of_fmap in Hin as ([k m'] & -> & [Hin Hkey]%elem_of_retain).
      apply String.eqb_eq in Hkey. simpl in Hkey. subst k.
      destruct (c_msgs db Hc _ Hin) as [s Hs]. simpl in Hs. congruence. }
    assert (Consistent db1) as Hc1.
    { constructor; simpl.
      - intros k s. destruct (decide (k = key)) as [->|].
        + rewrite lookup_insert_eq. intros [= <-]. split; [done|]. unfold count_of.
          change (messages_of key db1) with (messages_of key db). by rewrite Hempty.
        + rewrite lookup_insert_ne by done. apply (c_rows db Hc).
      - intros m Hin. apply lookup_insert_is_Some'. right. by apply (c_msgs db Hc).
      - intros k Hk'. apply lookup_insert_is_Some'. right. by apply (c_meta db Hc). }
    destruct (retouch (with_agent_id agent_id now) key now db1) as [H1 H2]; [done..|].
    pose proof (lookup_update_session (with_agent_id agent_id now) key db1 key) as Hl.
    rewrite String.eqb_refl in Hl. simpl db_sessions in Hl at 2.
    rewrite lookup_insert_eq in Hl. rewrite Hl. simpl. split; [exact H1|]. rewrite H2.
    rewrite view_lookup, Hk. simpl. apply map_eq. intros k.
    destruct (decide (k = key)) as [->|].
    + rewrite lookup_alter_eq, lookup_insert_eq, view_lookup. simpl. rewrite lookup_insert_eq. simpl.
      change (messages_of key db1) with (messages_of key db). by rewrite Hempty.
    + rewrite lookup_alter_ne, lookup_insert_ne, !view_lookup by done. simpl.
      by rewrite lookup_insert_ne.
Qed.

(** The simulation step of one call. *)
Definition refines_at (st : nat -> option string) (op : StoreOp) (db : Db) : Prop :=
  let r := store_op true st op db in
  Consistent r.2 /\ view r.2 = if r.1 then spec_op op (view db) else view db.

Lemma remove_refines st key db :
  Consistent db -> settled st (SRemove key) -> refines_at st (SRemove key) db.
Proof.
  intros Hc [Hst Hdel]. unfold refines_at. simpl in *.
  unfold remove_session, get_session. rewrite Hdel.
  destruct (db_sessions db !! key) as [s|] eqn:Hk; simpl.
  + destruct (delete_sessions_spec (fun x => String.eqb (si_key x) key) db Hc) as [H1 H2].
    split; [done|]. apply map_eq. intros k. rewrite H2.
    destruct (decide (k = key)) as [->|Hne].
    * rewrite Hk, lookup_delete_eq. simpl. destruct (c_rows db Hc key s Hk) as [-> _].
      by rewrite String.eqb_refl.
    * rewrite lookup_delete_ne, view_lookup by done.
      destruct (db_sessions db !! k) as [s0|] eqn:Hs0; simpl; [|done].
      destruct (c_rows db Hc k s0 Hs0) as [-> _].
      by rewrite (proj2 (String.eqb_neq k key)).
  + split; [done|]. symmetry. apply delete_id. by rewrite view_lookup, Hk.
Qed.

Lemma agent_refines st key agent_id now db :
  Consistent db -> settled st (SAgent key agent_id now) -> refines_at st (SAgent key agent_id now) db.
Proof.
  intros Hc [Hst Hdel]. unfold refines_at. simpl in *.
  unfold update_agent_id, exec. destruct (st 0); [done|]. by apply retouch.
Qed.

Lemma touch_refines st key now db :
  Consistent db -> settled st (STouch key now) -> refines_at st (STouch key now) db.
Proof.
  intros Hc [Hst Hdel]. unfold refines_at. simpl in *.
  unfold touch_session, exec. destruct (st 0); [done|]. by apply retouch.
Qed.

Lemma field_refines st key field value db :
  Consistent db -> settled st (SField key field value) -> refines_at st (SField key field value) db.
Proof.
  intros Hc [Hst Hdel]. unfold refines_at. simpl in *.
  unfold set_session_metadata_field. destruct (String.eqb (trim field) ""); [done|].
  destruct (fk_violated true key db) eqn:E; [done|]. unfold exec. destruct (st 0); [done|].
  simpl. apply fk_not_violated in E. split; [by apply put_field_consistent|apply put_field_view].
Qed.

Lemma fields_refines st key fields db :
  Consistent db -> settled st (SFields key fields) -> refines_at st (SFields key fields) db.
Proof.
  intros Hc [Hst Hdel]. unfold refines_at. simpl in *.
  unfold set_session_metadata_fields. destruct fields as [|f fields]; [done|].
  destruct (put_fields true st 0 key (f :: fields) db) as [db'|] eqn:E; [|done].
  by apply (put_fields_spec _ _ _ _ _ _ E).
Qed.

Lemma add_refines st key role content now db :
  Consistent db -> settled st (SAdd key role content now) -> refines_at st (SAdd key role content now) db.
Proof.
  intros Hc [Hst Hdel]. unfold refines_at. simpl in *.
  unfold add_message. destruct (fk_violated true key db) eqn:E; [done|].
  unfold exec. destruct (st 0) eqn:E0; [done|]. rewrite (Hst eq_refl 1). simpl.
  apply fk_not_violated in E. set (m := Build_SessionMessage role content now).
  destruct (rewrite_session key (db_messages db ++ [(key, m)]) now db Hc) as [H1 H2].
  + intros k Hk. rewrite rows_of_app, rows_of_cons. simpl.
    rewrite (proj2 (String.eqb_neq key k)) by congruence. by rewrite app_nil_r.
  + intros x [Hx| ->%list_elem_of_singleton]%elem_of_app; [by apply (c_msgs db Hc)|done].
  + split; [exact H1|]. etransitivity; [exact H2|]. apply map_eq. intros k.
    destruct (decide (k = key)) as [->|]; [|by rewrite !lookup_alter_ne].
    rewrite !lookup_alter_eq, view_lookup. destruct (db_sessions db !! key); simpl; [|done].
    by rewrite rows_of_app, rows_of_cons, String.eqb_refl.
Qed.

Lemma clear_refines st key now db :
  Consistent db -> settled st (SClear key now) -> refines_at st (SClear key now) db.
Proof.
  intros Hc [Hst Hdel]. unfold refines_at. simpl in *.
  unfold clear_messages, exec. destruct (st 0) eqn:E0; [done|]. rewrite (Hst eq_refl 1). simpl.
  pose proof (fun k => rows_of_retain (fun k => negb (String.eqb k key)) k (db_messages db)) as Hr.
  destruct (rewrite_session key (retain (fun m => negb (String.eqb m.1 key)) (db_messages db)) now db Hc)
    as [H1 H2].
  + intros k Hk. etransitivity; [apply (Hr k)|]. by rewrite (proj2 (String.eqb_neq k key)).
  + intros m [Hm _]%elem_of_retain. by apply (c_msgs db Hc).
  + assert (rows_of key (retain (fun m => negb (String.eqb m.1 key)) (db_messages db)) = []) as Hz
      by (etransitivity; [apply (Hr key)|by rewrite String.eqb_refl]).
    rewrite Hz in H1, H2. by split.
Qed.

Lemma compact_refines st key max now db :
  Consistent db -> settled st (SCompact key max now) -> refines_at st (SCompact key max now) db.
Proof.
  intros Hc [Hst Hdel]. unfold refines_at. simpl in *.
  unfold compact_messages. destruct (Z.ltb_spec max (count_of key db)) as [Hlt|Hge].
  + unfold exec. destruct (st 0) eqn:E0; [done|]. rewrite (Hst eq_refl 1). simpl.
    unfold count_of in *. set (n := length (messages_of key db)) in *.
    set (d := Z.to_nat (Z.of_nat n - max)).
    pose proof (fun k => rows_of_drop key d (db_messages db) k) as Hr.
    destruct (rewrite_session key (drop_rows key d (db_messages db)) now db Hc) as [H1 H2].
    * intros k Hk. rewrite Hr. by rewrite (proj2 (String.eqb_neq key k)).
    * intros m Hm%drop_rows_elem. by apply (c_msgs db Hc).
    * rewrite Hr, String.eqb_refl in H1, H2.
      assert (Z.of_nat (length (drop d (rows_of key (db_messages db))))
              = (Z.of_nat n - (Z.of_nat n - max))%Z) as Hlen.
      { rewrite length_drop. fold (messages_of key db). fold n. unfold d. lia. }
      rewrite Hlen in H1, H2. split; [exact H1|]. etransitivity; [exact H2|].
      apply map_eq. intros k. destruct (decide (k = key)) as [->|]; [|by rewrite !lookup_alter_ne].
      rewrite !lookup_alter_eq, view_lookup. destruct (db_sessions db !! key); simpl; [|done].
      fold n. rewrite (proj2 (Z.ltb_lt _ _) Hlt). unfold lastn. fold n.
      do 4 f_equal. unfold d. lia.
  + split; [done|]. simpl. apply map_eq. intros k.
    destruct (decide (k = key)) as [->|]; [|by rewrite lookup_alter_ne].
    rewrite lookup_alter_eq, view_lookup. destruct (db_sessions db !! key); simpl; [|done].
    unfold count_of in Hge. by rewrite (proj2 (Z.ltb_ge _ _) Hge).
Qed.

Lemma cleanup_refines st max_age now db :
  Consistent db -> settled st (SCleanup max_age now) -> refines_at st (SCleanup max_age now) db.
Proof.
  intros Hc [Hst Hdel]. unfold refines_at. simpl in *.
  unfold cleanup_stale. rewrite Hdel. simpl.
  destruct (delete_sessions_spec (fun s => (si_updated_at s <? now - max_age)%Z) db Hc) as [H1 H2].
  split; [exact H1|]. apply map_eq. intros k. rewrite H2, map_lookup_filter, view_lookup.
  destruct (db_sessions db !! k) as [s|]; simpl; [|done].
  destruct (Z.ltb_spec (si_updated_at s) (now - max_age)).
  + by rewrite option_guard_False by (simpl; lia).
  + by rewrite option_guard_True by (simpl; lia).
Qed.


Definition all_ok : nat -> option string := fun _ => None.
Definition run_store (ops : list StoreOp) (db : Db) : Db :=
  foldl (fun db op => (store_op true all_ok op db).2) db ops.
Definition two_messages : Db :=
  run_store [SCreate "main" "default" 1; SAdd "main" "user" "hi" 2; SAdd "main" "assistant" "yo" 3]
    Db_empty.

Lemma consistent_run ops db :
  Forall (settled all_ok) ops -> Consistent db -> Consistent (run_store ops db).
Proof.
  revert db. induction ops as [|op ops IH]; intros db HF Hc; [done|].
  apply Forall_cons in HF as [Ho HF]. apply (IH (store_op true all_ok op db).2 HF). simpl.
  destruct op; [by apply create_refines; destruct Ho|by apply remove_refines|by apply agent_refines
    |by apply touch_refines|by apply field_refines|by apply fields_refines|by apply add_refines
    |by apply clear_refines|by apply compact_refines|by apply cleanup_refines].
Qed.


(** ** Where the store falls short *)

(** Without foreign keys a deleted session leaves its messages, and a new session
    of the same key shows them with a count of zero. *)
Example deleted_history_returns :
  let db := (remove_session false all_ok "main" two_messages).2 in
  let db' := (create_session all_ok "main" "default" 9 db).2 in
  si_message_count <$> get_session "main" db' = Some 0%Z
  /\ sm_content <$> get_messages "main" 10 db' = ["yo"; "hi"].
Proof. vm_compute. by split. Qed.

(** A message whose row is written and whose count is not: the two statements are
    no transaction. *)
Example count_left_behind :
  let st n := match n with 1 => Some "disk I/O error" | _ => None end in
  let db := (add_message true st "main" "user" "again" 4 two_messages).2 in
  si_message_count <$> get_session "main" db = Some 2%Z /\ count_of "main" db = 3%Z.
Proof. vm_compute. by split. Qed.

(** [session.delete] answers [deleted] although the deletion failed, and clears
    the counters. *)
Example failed_delete_reported :
  let st _ := Some "database is locked" in
  let '(r, db, _) := rpc_session_delete true st (jobject [("key", JStr "main")]) two_messages
                       (Build_Counters ∅ ∅ ∅ ∅) in
  r = Ok (jobject [("deleted", JBool true)]) /\ is_Some (get_session "main" db).
Proof. vm_compute. split; [done|eauto]. Qed.

(** * History within the budget *)

Lemma drop_oldest_spec json_len l :
  exists k, (drop_oldest json_len l).1 = drop k l /\ (drop_oldest json_len l).2 = (0 <? k) /\ k <= length l
    /\ (drop k l = [] \/ (json_len (drop k l) <= CHAT_HISTORY_MAX_TOTAL_BYTES)%Z)
    /\ forall j, j < k -> (CHAT_HISTORY_MAX_TOTAL_BYTES < json_len (drop j l))%Z.
Proof.
  induction l as [|m l IH].
  { exists 0. simpl. split_and!; [done..|by left|lia]. }
  cbn [drop_oldest]. destruct (Z.ltb_spec CHAT_HISTORY_MAX_TOTAL_BYTES (json_len (m :: l))) as [H|H].
  - destruct IH as (k & H1 & _ & H2 & H3 & H4). exists (S k). simpl. split_and!; [done|done|lia|done|].
    intros [|j] Hj; [done|]. apply H4. lia.
  - exists 0. simpl. split_and!; [done|done|lia|by right|lia].
Qed.

(** The history sent is the longest recent part of the masked messages that fits
    the budget, after a placeholder if something was dropped. *)
Lemma budget_history_spec json_len now newest_first :
  let masked := mask_oversized <$> rev newest_first in
  let '(sent, placeholders) := budget_history json_len now newest_first in
  exists k, k <= length masked
    /\ sent = (if k =? 0 then []
               else [{| sm_role := "system"; sm_content := CHAT_HISTORY_TRUNCATED_PLACEHOLDER;
                        sm_timestamp := now |}]) ++ drop k masked
    /\ (drop k masked = [] \/ (json_len (drop k masked) <= CHAT_HISTORY_MAX_TOTAL_BYTES)%Z)
    /\ (forall j, j < k -> (CHAT_HISTORY_MAX_TOTAL_BYTES < json_len (drop j masked))%Z)
    /\ placeholders = length (retain oversized newest_first) + (if k =? 0 then 0 else 1).
Proof.
  cbv zeta. unfold budget_history.
  destruct (drop_oldest_spec json_len (mask_oversized <$> rev newest_first)) as (k & H1 & H2 & H3 & H4 & H5).
  destruct (drop_oldest json_len (mask_oversized <$> rev newest_first)) as [kept truncated].
  simpl in H1, H2. subst kept truncated.
  assert (length (retain oversized (rev newest_first)) = length (retain oversized newest_first)) as Hl.
  { unfold retain. rewrite List.filter_rev. apply length_rev. }
  destruct k as [|k]; simpl; [exists 0|exists (S k)]; rewrite Hl; simpl; split_and!; try done; lia.
Qed.

(** * The delivery context round trip *)

Lemma put_fields_meta st n key fields db db' k :
  put_fields true st n key fields db = Ok db' -> NoDup (trim <$> fields.*1) ->
  Forall (fun f => trim f.1 <> "") fields ->
  get_session_metadata key db' !! k
  = match find_first (fun f => String.eqb (trim f.1) k) fields with
    | Some f => Some f.2
    | None => get_session_metadata key db !! k
    end.
Proof.
  revert n db. induction fields as [|[f v] fields IH]; intros n db; cbn [put_fields].
  { destruct (st n); [done|]. by intros [= <-]. }
  intros H Hnd Hne. simpl in Hnd. apply NoDup_cons in Hnd as [Hf Hnd].
  apply Forall_cons in Hne as [Hne0 Hne]. simpl in Hne0.
  rewrite (proj2 (String.eqb_neq _ _) Hne0) in H.
  destruct (fk_violated true key db); [done|]. destruct (st n); [done|].
  rewrite (IH _ _ H Hnd Hne). simpl.
  assert (forall g, get_session_metadata key (put_field key g v db) !! k
    = if String.eqb g k then Some v else get_session_metadata key db !! k) as Hput.
  { intros g. unfold put_field, get_session_metadata at 1. simpl. rewrite lookup_insert_eq. simpl.
    destruct (String.eqb_spec g k) as [->|]; [by rewrite lookup_insert_eq|by rewrite lookup_insert_ne]. }
  rewrite Hput. destruct (String.eqb_spec (trim f) k) as [Hk|]; [|done].
  destruct (find_first _ fields) as [g|] eqn:E; [|done]. exfalso.
  apply find_first_Some in E as [Hg Hgk%String.eqb_eq]. apply Hf. rewrite Hk, <- Hgk.
  apply list_elem_of_fmap. exists g.1. split; [done|]. apply list_elem_of_fmap. by exists g.
Qed.

Lemma find_first_unique {A} (p : A -> bool) l1 l2 x :
  l1 ≡ₚ l2 -> x ∈ l2 -> p x = true -> (forall y, y ∈ l2 -> p y = true -> y = x) ->
  find_first p l1 = Some x.
Proof.
  intros Hp Hx Hpx Hu. destruct (find_first_is_Some p l1 x) as [y Hy]; [by rewrite Hp|done|].
  destruct (find_first_Some p l1 y Hy) as [Hin Hpy]. rewrite Hy. f_equal. apply Hu; [|done].
  by rewrite <- Hp.
Qed.

Lemma field_pair_elem o a b y :
  y ∈ field_pair o a b -> exists w, trimmed o = Some w /\ (y = (a, w) \/ y = (b, w)).
Proof.
  unfold field_pair. destruct (trimmed o) as [w|]; [|by intros ?%elem_of_nil].
  intros H. exists w. split; [done|]. set_solver.
Qed.

(** What the fields say of a key: [k1] and [k2] are one pair of keys, [k] any
    key outside it. *)
Lemma fields_NoDup channel to account thread :
  NoDup (trim <$> (build_session_delivery_fields channel to account thread).*1).
Proof.
  unfold build_session_delivery_fields, field_pair.
  destruct (trimmed channel), (trimmed to), (trimmed account), (trimmed thread);
    apply (bool_decide_unpack _); vm_compute; exact I.
Qed.

Lemma fields_plain channel to account thread :
  Forall (fun f => trim f.1 <> "") (build_session_delivery_fields channel to account thread).
Proof.
  unfold build_session_delivery_fields, field_pair.
  destruct (trimmed channel), (trimmed to), (trimmed account), (trimmed thread);
    repeat constructor; vm_compute; discriminate.
Qed.

Lemma trimmed_again o v : trimmed o = Some v -> trimmed (Some v) = Some v.
Proof.
  intros (Hne & r & _ & ->)%trimmed_Some. unfold trimmed, non_empty. simpl.
  rewrite trim_idem. by rewrite (proj2 (String.eqb_neq _ _) Hne).
Qed.

Lemma put_fields_perm st n key fields db db' channel to account thread k :
  let all := build_session_delivery_fields channel to account thread in
  fields ≡ₚ all -> put_fields true st n key fields db = Ok db' ->
  (forall v, (k, v) ∈ all -> trim k = k ->
     get_session_metadata key db' !! k = Some v)
  /\ (Forall (fun f => trim f.1 <> k) all ->
        get_session_metadata key db' !! k = get_session_metadata key db !! k).
Proof.
  intros all Hp H.
  assert (NoDup (trim <$> fields.*1)) as Hnd by (rewrite Hp; apply fields_NoDup).
  assert (Forall (fun f => trim f.1 <> "") fields) as Hpl by (rewrite Hp; apply fields_plain).
  rewrite (put_fields_meta _ _ _ _ _ _ k H Hnd Hpl). split.
  - intros v Hin Hk.
    assert (find_first (fun f => String.eqb (trim f.1) k) fields = Some (k, v)) as ->; [|done].
    apply (find_first_unique _ _ all); [done|done|simpl; by rewrite Hk, String.eqb_refl|].
    intros [k' v'] Hy Hk'%String.eqb_eq. simpl in Hk'.
    assert (forall l : list (string * string), NoDup (trim <$> l.*1) -> (k, v) ∈ l -> (k', v') ∈ l ->
      trim k' = trim k -> (k', v') = (k, v)) as Huniq.
    { clear. induction l as [|[a b] l IH]; [by intros _ ?%elem_of_nil|]. simpl.
      intros [Ha Hnd]%NoDup_cons H1 H2 Heq.
      assert (forall x y, (x, y) ∈ l -> trim x ∈ trim <$> l.*1) as Hmem.
      { intros x y Hx. apply list_elem_of_fmap. exists x. split; [done|].
        apply list_elem_of_fmap. by exists (x, y). }
      apply elem_of_cons in H1 as [[= -> ->]|H1]; apply elem_of_cons in H2 as [[= -> ->]|H2];
        [done| | |by apply IH].
      - exfalso. apply Ha. rewrite <- Heq. by apply (Hmem _ v').
      - exfalso. apply Ha. rewrite Heq. by apply (Hmem _ v). }
    apply (Huniq all); [apply fields_NoDup|done|done|congruence].
  - intros HF. assert (find_first (fun f => String.eqb (trim f.1) k) fields = None) as ->; [|done].
    apply find_first_None. rewrite Hp. eapply Forall_impl; [exact HF|].
    intros f Hf. by apply String.eqb_neq.
Qed.

(** A delivery context that was stored is loaded back; a part that was not given
    keeps its value. *)
Lemma delivery_roundtrip order st key channel to account thread db db' :
  (forall l, order l ≡ₚ l) ->
  persist_session_delivery_context true order st key channel to account thread db = (Ok tt, db') ->
  let old := load_session_delivery_context key db in
  load_session_delivery_context key db' = {|
    sd_channel := or_else (trimmed channel) (sd_channel old);
    sd_to := or_else (trimmed to) (sd_to old);
    sd_account_id := or_else (trimmed account) (sd_account_id old);
    sd_thread_id := or_else (trimmed thread) (sd_thread_id old) |}.
Proof.
  intros Ho H old. unfold persist_session_delivery_context in H.
  set (all := build_session_delivery_fields channel to account thread) in H.
  assert (db' = db /\ all = [] \/ put_fields true st 0 key (order all) db = Ok db') as Hput.
  { destruct all as [|f l] eqn:E; [by left; injection H|right].
    unfold set_session_metadata_fields in H.
    destruct (order (f :: l)) as [|g l'] eqn:E2.
    - pose proof (Ho (f :: l)) as Hn. rewrite E2 in Hn. by apply Permutation_nil_cons in Hn.
    - destruct (put_fields true st 0 key (g :: l') db); [|done]. by injection H as ->. }
  assert (forall k, (forall v, (k, v) ∈ all -> trim k = k -> get_session_metadata key db' !! k = Some v)
    /\ (Forall (fun f => trim f.1 <> k) all ->
          get_session_metadata key db' !! k = get_session_metadata key db !! k)) as Hk.
  { intros k. destruct Hput as [[-> ->]|Hput].
    - split; [by intros v ?%elem_of_nil|done].
    - by apply (put_fields_perm st 0 key (order all) db db'). }
  clear Hput H.
  assert (forall o k1 k2 k3, trim k1 = k1 ->
    (forall v, trimmed o = Some v -> (k1, v) ∈ all) ->
    (trimmed o = None -> Forall (fun f => trim f.1 <> k1 /\ trim f.1 <> k2 /\ trim f.1 <> k3) all) ->
    session_metadata_pick (get_session_metadata key db') [k1; k2; k3]
    = or_else (trimmed o) (session_metadata_pick (get_session_metadata key db) [k1; k2; k3])) as Hpick.
  { intros o k1 k2 k3 Ht Hin Hout. destruct (trimmed o) as [v|] eqn:E.
    - cbn [session_metadata_pick]. rewrite (proj1 (Hk k1) v (Hin v eq_refl) Ht).
      by rewrite (trimmed_again o v E).
    - specialize (Hout eq_refl). cbn [session_metadata_pick or_else].
      rewrite !(fun k => proj2 (Hk k)); [done|..];
        (eapply Forall_impl; [exact Hout|]; simpl; tauto). }
  unfold load_session_delivery_context, old.
  rewrite (Hpick channel), (Hpick to), (Hpick account), (Hpick thread); [done|..]; try reflexivity.
  all: try (intros v Hv; unfold all, build_session_delivery_fields, field_pair; rewrite Hv; set_solver).
  all: intros Hv; apply Forall_forall; intros y Hy;
    unfold all, build_session_delivery_fields in Hy; rewrite !elem_of_app in Hy;
    repeat match goal with H : _ \/ _ |- _ => destruct H as [H|H] end;
    apply field_pair_elem in Hy as (w & Hw & [-> | ->]); try congruence;
    split_and!; vm_compute; discriminate.
Qed.
