(* ===== verification/Gate.v ===== *)
(** Idempotency gates ([get_or_create_chat_idempotency_gate] and its companions in
    [crates/gateway-core/src/http.rs]): one semaphore with one permit per key.

    Threads are entries of a map; [key] is the key a thread asks for, [past] says
    that it has been through its gate.  A thread takes the permit when it passes
    and gives it back when it ends, so at most one thread per key is past. *)

From Stdlib Require Import Strings.String.
From S2P Require Import Prelude RustStr Json.
#[local] Open Scope string_scope.
#[local] Open Scope list_scope.

Definition idempotency_key (p : json) : option string := trimmed (get_str "idempotencyKey" p).

Definition left_of {A B} (x : A + B) : option A := match x with inl a => Some a | inr _ => None end.

(** A thread's next state, or its end. *)
Definition put {A} (i : nat) (o : option A) (m : gmap nat A) : gmap nat A :=
  match o with Some x => <[i := x]> m | None => delete i m end.

Lemma lookup_put {A} i (o : option A) m x y :
  put i o m !! x = Some y <-> x = i /\ o = Some y \/ x <> i /\ m !! x = Some y.
Proof.
  unfold put. destruct (decide (x = i)) as [->|Hne].
  - destruct o; rewrite ?lookup_insert_eq, ?lookup_delete_eq; naive_solver.
  - destruct o; rewrite ?lookup_insert_ne, ?lookup_delete_ne by done; naive_solver.
Qed.

Section gate.
Context {T : Type}.
Variable key : T -> option string.
Variable past : T -> bool.

Record GateInv (ts : gmap nat T) (g : gset string) : Prop := {
  g_in : forall i t k, ts !! i = Some t -> key t = Some k -> past t = true -> k ∈ g;
  g_one : forall i j t u k, ts !! i = Some t -> ts !! j = Some u ->
    key t = Some k -> key u = Some k -> past t = true -> past u = true -> i = j;
  g_held : forall k, k ∈ g -> exists i t, ts !! i = Some t /\ key t = Some k /\ past t = true;
}.

(** Does a thread that becomes [o] pass the gate, or stay past it? *)
Definition holds (o : option T) : bool := match o with Some u => past u | None => false end.

(** The permits after a step of thread [t] to [o]. *)
Definition gates_after (t : T) (o : option T) (g : gset string) : gset string :=
  match key t with
  | None => g
  | Some k => if past t then (if holds o then g else g ∖ {[k]})
              else if holds o then {[k]} ∪ g else g
  end.

(** A step keeps the key and does not go back; passing the gate needs the permit. *)
Record GateStep (t : T) (o : option T) (g : gset string) : Prop := {
  st_next : forall u, o = Some u -> key u = key t /\ (past t = true -> past u = true);
  st_pass : past t = false -> holds o = true -> forall k, key t = Some k -> k ∉ g;
}.

Lemma gate_init : GateInv ∅ ∅.
Proof. constructor; intros *; rewrite ?lookup_empty; try done. Qed.

Lemma gate_new i t ts g :
  GateInv ts g -> ts !! i = None -> past t = false -> GateInv (<[i := t]> ts) g.
Proof.
  intros Hi Hn Hp.
  assert (forall j u, <[i := t]> ts !! j = Some u -> past u = true -> ts !! j = Some u) as Hold.
  { intros j u [[<- <-]|[_ ?]]%lookup_insert_Some; congruence. }
  constructor.
  - intros j u k Hj Hk Hu. by apply (g_in _ _ Hi j u); eauto.
  - intros j1 j2 u1 u2 k H1 H2 K1 K2 P1 P2. by apply (g_one _ _ Hi j1 j2 u1 u2 k); eauto.
  - intros k Hk. destruct (g_held _ _ Hi k Hk) as (j & u & Hj & ? & ?). exists j, u.
    split; [|done]. rewrite lookup_insert_ne; [done|]. congruence.
Qed.

Section step.
Variables (i : nat) (t : T) (o : option T) (ts : gmap nat T) (g : gset string).
Hypothesis Hi : GateInv ts g.
Hypothesis Ht : ts !! i = Some t.
Hypothesis Hs : GateStep t o g.

(** No other thread with the key of the stepping one is past its gate once it is. *)
Lemma gate_other x u k : ts !! x = Some u -> x <> i -> key u = Some k -> past u = true ->
  key t = Some k -> past t = true \/ holds o = true -> False.
Proof.
  intros Hx Hne Hk Hu Hkt Hp. destruct (past t) eqn:Ep.
  - apply Hne. by apply (g_one _ _ Hi x i u t k).
  - destruct Hp as [?|Ho]; [done|]. apply (st_pass _ _ _ Hs Ep Ho k Hkt).
    by apply (g_in _ _ Hi x u k).
Qed.

Lemma gate_step_in x u k : put i o ts !! x = Some u -> key u = Some k -> past u = true ->
  k ∈ gates_after t o g.
Proof.
  intros [[-> Ho]|[Hne Hx]]%lookup_put Hk Hu.
  - destruct (st_next _ _ _ Hs u Ho) as [Hkey _]. unfold gates_after. rewrite <- Hkey, Hk, Ho.
    simpl. rewrite Hu. destruct (past t) eqn:Ep; [|by apply elem_of_union_l, elem_of_singleton].
    apply (g_in _ _ Hi i t k Ht); [congruence|done].
  - pose proof (g_in _ _ Hi x u k Hx Hk Hu) as Hin. unfold gates_after.
    destruct (key t) as [k0|] eqn:Ek; [|done].
    destruct (past t) eqn:Ep, (holds o) eqn:Eh; [done| |by apply elem_of_union_r|done].
    assert (k0 <> k) by (intros ->; apply (gate_other x u k); auto).
    apply elem_of_difference. split; [done|]. by apply not_elem_of_singleton.
Qed.

Lemma gate_step_held k : k ∈ gates_after t o g ->
  exists x u, put i o ts !! x = Some u /\ key u = Some k /\ past u = true.
Proof.
  intros Hk.
  assert (holds o = true -> key t = Some k -> exists x u,
    put i o ts !! x = Some u /\ key u = Some k /\ past u = true) as Hown.
  { intros Hh Hkt. destruct o as [v|]; [|done]. exists i, v.
    destruct (st_next _ _ _ Hs v eq_refl) as [Hkey Hp].
    split_and!; [apply lookup_put; by left|congruence|done]. }
  assert (k ∈ g -> (key t = Some k -> past t = true -> holds o = true) -> exists x u,
    put i o ts !! x = Some u /\ key u = Some k /\ past u = true) as Hold.
  { intros Hin Hself. destruct (g_held _ _ Hi k Hin) as (x & u & Hx & Hkx & Hpx).
    destruct (decide (x = i)) as [->|Hne]; [|exists x, u; split; [apply lookup_put; by right|done]].
    rewrite Ht in Hx. injection Hx as <-. by apply Hown; [apply Hself|]. }
  unfold gates_after in Hk. destruct (key t) as [k0|] eqn:Ek; [|by apply Hold].
  destruct (past t) eqn:Ep, (holds o) eqn:Eh.
  - by apply Hold.
  - apply elem_of_difference in Hk as [Hk Hne%not_elem_of_singleton].
    apply Hold; [done|]. by intros [= ->].
  - apply elem_of_union in Hk as [->%elem_of_singleton|Hk]; [by apply Hown|by apply Hold].
  - apply Hold; [done|]. by intros _ ?.
Qed.

Lemma gate_step : GateInv (put i o ts) (gates_after t o g).
Proof.
  constructor; [by apply gate_step_in| |by apply gate_step_held].
  assert (forall v, o = Some v -> past v = true -> holds o = true) as Hh by (by intros v ->).
  intros x y u1 u2 k [[-> O1]|[Hx H1]]%lookup_put [[-> O2]|[Hy H2]]%lookup_put K1 K2 P1 P2; [done| | |].
  - exfalso. destruct (st_next _ _ _ Hs u1 O1) as [E _]. rewrite E in K1.
    apply (gate_other y u2 k); eauto.
  - exfalso. destruct (st_next _ _ _ Hs u2 O2) as [E _]. rewrite E in K2.
    apply (gate_other x u1 k); eauto.
  - by apply (g_one _ _ Hi x y u1 u2 k).
Qed.
End step.

(** A permit is held exactly by one thread past the gate. *)
Lemma gate_exact ts g k :
  GateInv ts g ->
  k ∈ g <-> exists! i, exists t, ts !! i = Some t /\ key t = Some k /\ past t = true.
Proof.
  intros Hi. split.
  - intros (i & t & Ht & Hk & Hp)%(g_held _ _ Hi). exists i. split; [by eauto|].
    intros j (u & Hu & Hk' & Hp'). by apply (g_one _ _ Hi i j t u k).
  - intros (i & (t & Ht & Hk & Hp) & _). by apply (g_in _ _ Hi i t).
Qed.
End gate.
