(* ===== verification/ChatRuns.v ===== *)
(** Chat runs ([crates/gateway-core/src/http.rs]: [chat.send], [chat.abort] and
    the background task of a run).

    A request, an abort and a run's task are threads over the gateway's shared
    maps.  A step of a thread is one critical section, or a group of calls to the
    session store; steps of different threads interleave.  [Env] holds what a step gets from
    outside: the clock, fresh identifiers, statement outcomes, the skill
    registry's and the model's answers. *)

From Stdlib Require Import Strings.String.
From S2P Require Import Prelude RustStr Json ConfigStore Attachments SessionStore Gate.
#[local] Open Scope string_scope.
#[local] Open Scope nat_scope.
#[local] Open Scope list_scope.
#[local] Open Scope rust_scope.

(** * State *)

Record ChatRunRecord := {
  cr_run_id : string;
  cr_session_key : string;
  cr_status : string;
  cr_started_at_ms : Z;
  cr_ended_at_ms : option Z;
  cr_error : option string;
  cr_result : option json;
}.

(** The maps of [HttpState] a chat run uses.  [ch_gates] are the idempotency keys
    whose permit is taken, [ch_handles] the abort handle of a run's task,
    [ch_aborted] the tasks [abort] was called on. *)
Record ChatState := {
  ch_runs : gmap string ChatRunRecord;
  ch_handles : gmap string nat;
  ch_dedupe : gmap string json;
  ch_gates : gset string;
  ch_aborted : gset nat;
  ch_db : Db;
  ch_counters : Counters;
}.

Definition set_runs (x : gmap string ChatRunRecord) (s : ChatState) : ChatState := {|
  ch_runs := x; ch_handles := ch_handles s; ch_dedupe := ch_dedupe s; ch_gates := ch_gates s;
  ch_aborted := ch_aborted s; ch_db := ch_db s; ch_counters := ch_counters s |}.
Definition set_handles (x : gmap string nat) (a : gset nat) (s : ChatState) : ChatState := {|
  ch_runs := ch_runs s; ch_handles := x; ch_dedupe := ch_dedupe s; ch_gates := ch_gates s;
  ch_aborted := a; ch_db := ch_db s; ch_counters := ch_counters s |}.
Definition set_dedupe (x : gmap string json) (s : ChatState) : ChatState := {|
  ch_runs := ch_runs s; ch_handles := ch_handles s; ch_dedupe := x; ch_gates := ch_gates s;
  ch_aborted := ch_aborted s; ch_db := ch_db s; ch_counters := ch_counters s |}.
Definition set_gates (x : gset string) (s : ChatState) : ChatState := {|
  ch_runs := ch_runs s; ch_handles := ch_handles s; ch_dedupe := ch_dedupe s; ch_gates := x;
  ch_aborted := ch_aborted s; ch_db := ch_db s; ch_counters := ch_counters s |}.
Definition set_store (x : Db) (c : Counters) (s : ChatState) : ChatState := {|
  ch_runs := ch_runs s; ch_handles := ch_handles s; ch_dedupe := ch_dedupe s; ch_gates := ch_gates s;
  ch_aborted := ch_aborted s; ch_db := x; ch_counters := c |}.
Definition set_db (x : Db) (s : ChatState) : ChatState := set_store x (ch_counters s) s.

(** How a model run ends. *)
Inductive Outcome :=
| Replied (reply : string)
| Failed (error : string)
| Cancelled
| Panicked (error : string)
| TimedOut.

Record Env := {
  e_now : Z;
  e_uuid : string;
  e_st : nat -> option string;
  e_provider : bool;
  e_skill : result (option string) RpcError;
  e_media : option json;
  e_outcome : Outcome;
  e_values : gmap string ChatRunRecord -> list (string * ChatRunRecord);
}.

Definition ended (status : string) (error : option string) (result : option json) (now : Z)
    (run : ChatRunRecord) : ChatRunRecord := {|
  cr_run_id := cr_run_id run; cr_session_key := cr_session_key run; cr_status := status;
  cr_started_at_ms := cr_started_at_ms run; cr_ended_at_ms := Some now; cr_error := error;
  cr_result := result |}.

(** [set_chat_run_state_in_map]: nothing when the run is not listed. *)
Definition set_chat_run_state (run_id status : string) (error : option string) (result : option json)
    (now : Z) (s : ChatState) : ChatState :=
  set_runs (alter (ended status error result now) run_id (ch_runs s)) s.

(** * Abort *)

Inductive AbortPc :=
| ApRead (run_id : string) (session_key : option string)
| ApHandle (run_id session_key : string)
| ApMark (run_id session_key : string)
| ApCollect (session_key : string)
| ApHandles (todo aborted : list string) (session_key : string)
| ApMarks (todo aborted : list string) (session_key : string).

Definition abort_answer (aborted : list string) : json := jobject [
  ("ok", JBool true); ("aborted", JBool (negb (bool_decide (aborted = [])))); ("runIds", jstrs aborted)].

Definition mark_aborted (run_id session_key : string) (now : Z) (s : ChatState) : ChatState :=
  set_chat_run_state run_id "aborted" (Some "chat run aborted by rpc")
    (Some (jobject [("runId", JStr run_id); ("status", JStr "aborted");
                    ("sessionKey", JStr session_key)])) now s.

(** [chat_abort_handles.remove(run_id)] and [handle.abort()]. *)
Definition take_handle (run_id : string) (s : ChatState) : option ChatState :=
  (fun t => set_handles (delete run_id (ch_handles s)) ({[t]} ∪ ch_aborted s) s)
  <$> ch_handles s !! run_id.

(** The parameters of [chat.abort]: the first step, or an error. *)
Definition abort_start (p : json) : result AbortPc RpcError :=
  let session_key := or_else (get "sessionKey" p) (get "sessionId" p) ≫= as_str in
  match trimmed (get_str "runId" p) with
  | Some run_id => Ok (ApRead run_id (trimmed session_key))
  | None => match trimmed session_key with
            | Some k => Ok (ApCollect k)
            | None => Err (rpc_error "INVALID_PARAMS" "Missing 'sessionKey'")
            end
  end.

Definition abort_step (env : Env) (pc : AbortPc) (s : ChatState) : (AbortPc + RpcResult) * ChatState :=
  match pc with
  | ApRead run_id session_key =>
      match ch_runs s !! run_id with
      | None => (inr (Ok (abort_answer [])), s)
      | Some run =>
          match session_key with
          | Some k =>
              if negb (eq_ignore_ascii_case (cr_session_key run) k)
              then (inr (Err (rpc_error "INVALID_PARAMS" "runId does not match sessionKey")), s)
              else if String.eqb (cr_status run) "running"
                   then (inl (ApHandle run_id (cr_session_key run)), s)
                   else (inr (Ok (abort_answer [])), s)
          | None => if String.eqb (cr_status run) "running"
                    then (inl (ApHandle run_id (cr_session_key run)), s)
                    else (inr (Ok (abort_answer [])), s)
          end
      end
  | ApHandle run_id session_key =>
      match take_handle run_id s with
      | Some s' => (inl (ApMark run_id session_key), s')
      | None => (inr (Ok (abort_answer [])), s)
      end
  | ApMark run_id session_key =>
      (inr (Ok (abort_answer [run_id])), mark_aborted run_id session_key (e_now env) s)
  | ApCollect session_key =>
      let run_ids := omap (fun kv : string * ChatRunRecord =>
        if String.eqb (cr_status kv.2) "running"
           && eq_ignore_ascii_case (cr_session_key kv.2) session_key
        then Some kv.1 else None) (e_values env (ch_runs s)) in
      match run_ids with
      | [] => (inr (Ok (abort_answer [])), s)
      | _ => (inl (ApHandles run_ids [] session_key), s)
      end
  | ApHandles [] aborted session_key => (inl (ApMarks aborted aborted session_key), s)
  | ApHandles (run_id :: todo) aborted session_key =>
      match take_handle run_id s with
      | Some s' => (inl (ApHandles todo (aborted ++ [run_id]) session_key), s')
      | None => (inl (ApHandles todo aborted session_key), s)
      end
  | ApMarks [] aborted session_key => (inr (Ok (abort_answer aborted)), s)
  | ApMarks (run_id :: todo) aborted session_key =>
      (inl (ApMarks todo aborted session_key), mark_aborted run_id session_key (e_now env) s)
  end.

(** * Send *)

Inductive SendPc :=
| SpGate
| SpDedupe
| SpStop (pc : AbortPc)
| SpSession (session message : string)
| SpReset (session message : string)
| SpLookup (session message : string)
| SpAppend (session message run_id : string)
| SpCommand (session message run_id : string)
| SpReply (session run_id reply : string)
| SpStart (session message run_id : string)
| SpCache (payload : json).

(** A run's task: the steps left, the outcome once known. *)
Inductive TaskPc :=
| TkSpawned
| TkWaiting
| TkFinal (payload : json)
| TkClean (payload : json)
| TkCache (payload : json).
Record Task := {
  tk_run_id : string;
  tk_session : string;
  tk_message : string;
  tk_idem : option string;
  tk_timeout_ms : Z;
  tk_pc : TaskPc;
}.
Definition with_pc (pc : TaskPc) (t : Task) : Task := {|
  tk_run_id := tk_run_id t; tk_session := tk_session t; tk_message := tk_message t;
  tk_idem := tk_idem t; tk_timeout_ms := tk_timeout_ms t; tk_pc := pc |}.

Definition clamp (lo hi z : Z) : Z := Z.max lo (Z.min hi z).
Definition send_timeout_ms (p : json) : Z :=
  clamp 1000 900000 (default 300000%Z (or_else (get "timeoutMs" p) (get "timeout" p) ≫= as_u64)).

Section send.
Variable b64_encode : string -> string.
Variable b64_decode : string -> option string.
Variable guess_format : string -> option string.
Variable fk : bool.

(** From the parameters to the next step: an abort for a stop command, else the
    message with its images. *)
Definition send_input (p : json) : result SendPc RpcError :=
  let session_key := default "main" (trimmed (or_else (get "sessionKey" p) (get "sessionId" p) ≫= as_str)) in
  let? message := sanitize_chat_send_message_input (default "" (get_str "message" p)) in
  if is_chat_stop_command_text message then Ok (SpStop (ApCollect session_key))
  else
    let? parsed := parse_rpc_attachments_for_chat b64_encode b64_decode guess_format
                     (get "attachments" p) CHAT_ATTACHMENT_MAX_BYTES in
    if String.eqb (trim message) "" && (pa_normalized_count parsed =? 0)
    then Err (rpc_error "INVALID_PARAMS" "invalid chat.send params: text or media is required")
    else Ok (SpSession session_key (build_message_with_image_attachments message (pa_images parsed))).

(** The session exists, and its policy does not deny sending. *)
Definition ensure_session (env : Env) (session : string) (s : ChatState)
  : result unit RpcError * ChatState :=
  let '(r, db) := match get_session session (ch_db s) with
                  | Some _ => (Ok tt, ch_db s)
                  | None =>
                      let '(r, db) := create_session (e_st env) session "default" (e_now env) (ch_db s) in
                      (let? _ := session_error r in Ok tt, db)
                  end in
  match r with
  | Err e => (Err e, set_db db s)
  | Ok _ => if session_send_policy_denied (get_session_metadata session db)
            then (Err (rpc_error "INVALID_PARAMS" "send blocked by session policy"), set_db db s)
            else (Ok tt, set_db db s)
  end.

(** [/new] and [/reset] clear the session and replace the message. *)
Definition reset_session (env : Env) (session message : string) (s : ChatState)
  : result string RpcError * ChatState :=
  match parse_session_reset_command message with
  | None => (Ok message, s)
  | Some (_, followup) =>
      let '(r, db) := clear_messages (e_st env) session (e_now env) (ch_db s) in
      match session_error r with
      | Err e => (Err e, set_db db s)
      | Ok _ => (Ok (default BARE_SESSION_RESET_PROMPT followup),
                 set_store db (clear_session_counters session (ch_counters s)) s)
      end
  end.

Definition append_message (env : Env) (session role content : string) (s : ChatState)
  : result unit RpcError * ChatState :=
  let '(r, db) := add_message fk (e_st env) session role content (e_now env) (ch_db s) in
  (session_error r, set_db db s).

Definition in_flight (run_id : string) (s : ChatState) : bool :=
  match ch_runs s !! run_id with
  | Some run => String.eqb (cr_status run) "running"
  | None => false
  end.

Definition new_run (run_id session : string) (now : Z) : ChatRunRecord := {|
  cr_run_id := run_id; cr_session_key := session; cr_status := "running"; cr_started_at_ms := now;
  cr_ended_at_ms := None; cr_error := None; cr_result := None |}.

(** The permit of a request is given back. *)
Definition release (p : json) (s : ChatState) : ChatState :=
  match idempotency_key p with Some k => set_gates (ch_gates s ∖ {[k]}) s | None => s end.

(** One step of [chat.send]: the next step or the answer, the state, and the task
    it spawns.  An answer gives the permit back. *)
Definition send_step (env : Env) (p : json) (pc : SendPc) (s : ChatState)
  : option ((SendPc + RpcResult) * ChatState * option Task) :=
  let idem := idempotency_key p in
  let answer (r : RpcResult) s := Some (inr r, release p s, None) in
  let next pc s := Some (inl pc, s, None) in
  let cache pc payload s := match idem with Some k => set_dedupe (<[k := payload]> (ch_dedupe s)) s
                                          | None => s end in
  match pc with
  | SpGate =>
      match idem with
      | Some k => if bool_decide (k ∈ ch_gates s) then None
                  else next SpDedupe (set_gates ({[k]} ∪ ch_gates s) s)
      | None => next SpDedupe s
      end
  | SpDedupe =>
      match idem ≫= fun k => ch_dedupe s !! k with
      | Some cached => answer (Ok cached) s
      | None => match send_input p with
                | Ok pc' => next pc' s
                | Err e => answer (Err e) s
                end
      end
  | SpStop apc =>
      match abort_step env apc s with
      | (inl apc', s') => next (SpStop apc') s'
      | (inr (Ok payload), s') => next (SpCache payload) s'
      | (inr (Err e), s') => answer (Err e) s'
      end
  | SpSession session message =>
      match ensure_session env session s with
      | (Ok _, s') => next (SpReset session message) s'
      | (Err e, s') => answer (Err e) s'
      end
  | SpReset session message =>
      match reset_session env session message s with
      | (Ok message', s') => next (SpLookup session message') s'
      | (Err e, s') => answer (Err e) s'
      end
  | SpLookup session message =>
      let run_id := default (e_uuid env) idem in
      if in_flight run_id s
      then answer (Ok (jobject [("runId", JStr run_id); ("status", JStr "in_flight");
                                ("sessionKey", JStr session)])) s
      else next (SpAppend session message run_id) s
  | SpAppend session message run_id =>
      match append_message env session "user" message s with
      | (Ok _, s') => next (if starts_with (trim message) "/" then SpCommand session message run_id
                            else SpStart session message run_id) s'
      | (Err e, s') => answer (Err e) s'
      end
  | SpCommand session message run_id =>
      match e_skill env with
      | Err e => answer (Err e) s
      | Ok None => next (SpStart session message run_id) s
      | Ok (Some reply) => next (SpReply session run_id reply) s
      end
  | SpReply session run_id reply =>
      match append_message env session "assistant" reply s with
      | (Err e, s') => answer (Err e) s'
      | (Ok _, s') => next (SpCache (attach_media_debug_to_payload (jobject [
          ("runId", JStr run_id); ("status", JStr "ok"); ("sessionKey", JStr session);
          ("reply", JStr reply); ("command", JBool true)]) (e_media env))) s'
      end
  | SpStart session message run_id =>
      if negb (e_provider env)
      then answer (Err (rpc_error "NO_PROVIDER" "No LLM provider configured")) s
      else
        let s' := set_runs (<[run_id := new_run run_id session (e_now env)]> (ch_runs s)) s in
        Some (inr (Ok (jobject [("runId", JStr run_id); ("status", JStr "started")])), release p s',
              Some {| tk_run_id := run_id; tk_session := session; tk_message := message;
                      tk_idem := idem; tk_timeout_ms := send_timeout_ms p; tk_pc := TkSpawned |})
  | SpCache payload => answer (Ok payload) (cache pc payload s)
  end.

(** * The task of a run *)

Definition run_payload (t : Task) (status : string) (rest : list (string * json)) : json :=
  jobject ([("runId", JStr (tk_run_id t)); ("status", JStr status);
            ("sessionKey", JStr (tk_session t))] ++ rest).

Definition payload_error (payload : json) : option string := get_str "error" payload.

(** What the outcome of the run leads to: the payload and the state after the
    reply is stored. *)
Definition run_outcome (env : Env) (t : Task) (s : ChatState) : json * ChatState :=
  let media := fun payload => attach_media_debug_to_payload payload (e_media env) in
  match e_outcome env with
  | Replied reply =>
      match append_message env (tk_session t) "assistant" reply s with
      | (Ok _, s') => (media (run_payload t "ok" [("reply", JStr reply)]), s')
      | (Err e, s') => (media (run_payload t "error" [("error", JStr (re_message e))]), s')
      end
  | Failed e => (media (run_payload t "error" [("error", JStr e)]), s)
  | Cancelled => (run_payload t "aborted" [("error", JStr "chat run aborted")], s)
  | Panicked e => (run_payload t "error" [("error", JStr e)], s)
  | TimedOut => (run_payload t "timeout"
      [("error", JStr ("chat.send timed out after " +:+ pretty (tk_timeout_ms t) +:+ "ms"))], s)
  end.

Definition payload_status (payload : json) : string := default "error" (get_str "status" payload).

(** One step of the task; no task when it ends. *)
Definition task_step (env : Env) (id : nat) (t : Task) (s : ChatState) : option Task * ChatState :=
  match tk_pc t with
  | TkSpawned =>
      (Some (with_pc TkWaiting t), set_handles (<[tk_run_id t := id]> (ch_handles s)) (ch_aborted s) s)
  | TkWaiting =>
      let '(payload, s1) := run_outcome env t s in
      let s2 := match e_outcome env with
                | TimedOut => set_handles (ch_handles s1) ({[id]} ∪ ch_aborted s1) s1
                | _ => s1
                end in
      (Some (with_pc (TkFinal payload) t),
       set_chat_run_state (tk_run_id t) (payload_status payload) (payload_error payload)
         (Some payload) (e_now env) s2)
  | TkFinal payload =>
      (Some (with_pc (TkClean payload) t),
       set_chat_run_state (tk_run_id t) (payload_status payload) (payload_error payload)
         (Some payload) (e_now env) s)
  | TkClean payload =>
      (Some (with_pc (TkCache payload) t),
       set_handles (delete (tk_run_id t) (ch_handles s)) (ch_aborted s) s)
  | TkCache payload =>
      (None, match tk_idem t with
             | Some k => set_dedupe (<[k := payload]> (ch_dedupe s)) s
             | None => s
             end)
  end.
End send.

(** * Interleavings *)

(** The gateway with its threads; [c_used] are the identifiers drawn so far. *)
Record Conf := {
  c_state : ChatState;
  c_sends : gmap nat (json * SendPc);
  c_aborts : gmap nat AbortPc;
  c_tasks : gmap nat Task;
  c_used : gset string;
}.

Inductive Move :=
| MNewSend (i : nat) (p : json)
| MSend (i j : nat) (env : Env)
| MNewAbort (i : nat) (p : json)
| MAbort (i : nat) (env : Env)
| MTask (i : nat) (env : Env).


Section interleaving.
Variable b64_encode : string -> string.
Variable b64_decode : string -> option string.
Variable guess_format : string -> option string.
Variable fk : bool.

(** One move: a request or an abort arrives, or a thread takes a step; [j] names
    the task a request spawns. *)
Definition conf_step (m : Move) (c : Conf) : option Conf :=
  match m with
  | MNewSend i p =>
      match c_sends c !! i with
      | Some _ => None
      | None => Some {| c_state := c_state c; c_sends := <[i := (p, SpGate)]> (c_sends c);
                        c_aborts := c_aborts c; c_tasks := c_tasks c; c_used := c_used c |}
      end
  | MSend i j env =>
      match c_sends c !! i with
      | None => None
      | Some (p, pc) =>
          match send_step b64_encode b64_decode guess_format fk env p pc (c_state c), c_tasks c !! j with
          | Some (out, s', spawned), None =>
              Some {| c_state := s'; c_sends := put i ((p,.) <$> left_of out) (c_sends c);
                      c_aborts := c_aborts c;
                      c_tasks := match spawned with Some t => <[j := t]> (c_tasks c) | None => c_tasks c end;
                      c_used := {[e_uuid env]} ∪ c_used c |}
          | _, _ => None
          end
      end
  | MNewAbort i p =>
      match c_aborts c !! i, abort_start p with
      | None, Ok pc => Some {| c_state := c_state c; c_sends := c_sends c;
                               c_aborts := <[i := pc]> (c_aborts c); c_tasks := c_tasks c;
                               c_used := c_used c |}
      | _, _ => None
      end
  | MAbort i env =>
      match c_aborts c !! i with
      | None => None
      | Some pc =>
          let '(out, s') := abort_step env pc (c_state c) in
          Some {| c_state := s'; c_sends := c_sends c; c_aborts := put i (left_of out) (c_aborts c);
                  c_tasks := c_tasks c; c_used := c_used c |}
      end
  | MTask i env =>
      match c_tasks c !! i with
      | None => None
      | Some t =>
          let '(next, s') := task_step fk env i t (c_state c) in
          Some {| c_state := s'; c_sends := c_sends c; c_aborts := c_aborts c;
                  c_tasks := put i next (c_tasks c); c_used := c_used c |}
      end
  end.

Fixpoint conf_steps (ms : list Move) (c : Conf) : option Conf :=
  match ms with
  | [] => Some c
  | m :: ms' => conf_step m c ≫= conf_steps ms'
  end.

(** Identifiers the gateway draws are new and are no client's idempotency key. *)
Variable client_key : string -> bool.
Definition allowed (m : Move) (c : Conf) : Prop :=
  match m with
  | MNewSend _ p => forall k, idempotency_key p = Some k -> client_key k = true
  | MSend _ _ env => client_key (e_uuid env) = false /\ e_uuid env ∉ c_used c
  | _ => True
  end.

Definition Conf_init (db : Db) (counters : Counters) : Conf := {|
  c_state := {| ch_runs := ∅; ch_handles := ∅; ch_dedupe := ∅; ch_gates := ∅; ch_aborted := ∅;
                ch_db := db; ch_counters := counters |};
  c_sends := ∅; c_aborts := ∅; c_tasks := ∅; c_used := ∅ |}.

Inductive Reach : Conf -> Prop :=
| reach_init db counters : Reach (Conf_init db counters)
| reach_step m c c' : Reach c -> allowed m c -> conf_step m c = Some c' -> Reach c'.

(** The run a request is about to start. *)
Definition pending (pc : SendPc) : option string :=
  match pc with
  | SpAppend _ _ r | SpCommand _ _ r | SpStart _ _ r => Some r
  | _ => None
  end.

(** ** What the steps do to the maps *)

Lemma set_state_in_flight r id status error result now s :
  status <> "running" -> in_flight r (set_chat_run_state id status error result now s) = true ->
  in_flight r s = true /\ r <> id.
Proof.
  intros Hne. unfold in_flight, set_chat_run_state. simpl.
  destruct (decide (r = id)) as [->|Hr].
  - rewrite lookup_alter_eq. destruct (ch_runs s !! id); simpl; [|done].
    by intros ->%String.eqb_eq.
  - rewrite lookup_alter_ne by done. done.
Qed.

Lemma take_handle_state r s s' :
  take_handle r s = Some s' -> ch_runs s' = ch_runs s /\ ch_gates s' = ch_gates s.
Proof. unfold take_handle. by intros (t & _ & ->)%fmap_Some. Qed.

Lemma abort_shape env pc s out s' :
  abort_step env pc s = (out, s') ->
  ch_gates s' = ch_gates s /\ forall r, in_flight r s' = true -> in_flight r s = true.
Proof.
  assert (forall a b t, ch_gates (mark_aborted a b t s) = ch_gates s
            /\ forall r, in_flight r (mark_aborted a b t s) = true -> in_flight r s = true) as Hm.
  { intros a b t. split; [done|]. intros r H. by apply set_state_in_flight in H as [? _]. }
  assert (forall a s1, take_handle a s = Some s1 -> ch_gates s1 = ch_gates s
            /\ forall r, in_flight r s1 = true -> in_flight r s = true) as Ht.
  { intros a s1 [E1 E2]%take_handle_state. split; [done|]. unfold in_flight. by rewrite E1. }
  destruct pc; simpl; intros H; repeat case_match; simplify_eq; eauto.
Qed.

Lemma append_state env session role content s :
  ch_runs (append_message fk env session role content s).2 = ch_runs s
  /\ ch_gates (append_message fk env session role content s).2 = ch_gates s.
Proof. unfold append_message. by destruct (add_message _ _ _ _ _ _ _). Qed.

Lemma ensure_state env session s :
  ch_runs (ensure_session env session s).2 = ch_runs s
  /\ ch_gates (ensure_session env session s).2 = ch_gates s.
Proof. unfold ensure_session. by repeat case_match; simplify_eq/=. Qed.

Lemma reset_state env session message s :
  ch_runs (reset_session env session message s).2 = ch_runs s
  /\ ch_gates (reset_session env session message s).2 = ch_gates s.
Proof. unfold reset_session. by repeat case_match; simplify_eq/=. Qed.

(** A request as a thread with a gate. *)
Definition send_key (t : json * SendPc) : option string := idempotency_key t.1.
Definition past_gate (t : json * SendPc) : bool := match t.2 with SpGate => false | _ => true end.

Lemma past_gate_spec t : past_gate t = true <-> t.2 <> SpGate.
Proof. destruct t as [p []]; by split. Qed.

(** A request's step: permits, the runs it may start, what it is about to start. *)
Record SendShape (env : Env) (p : json) (pc : SendPc) (s : ChatState) (out : SendPc + RpcResult)
    (s' : ChatState) (spawned : option Task) : Prop := {
  sh_gates : ch_gates s' = gates_after send_key past_gate (p, pc) ((p,.) <$> left_of out) (ch_gates s);
  sh_gate_free : pc = SpGate -> forall k, idempotency_key p = Some k -> k ∉ ch_gates s;
  sh_gate_next : pc = SpGate -> left_of out = Some SpDedupe;
  sh_runs : forall r, in_flight r s' = true ->
              in_flight r s = true \/ exists t, spawned = Some t /\ tk_run_id t = r;
  sh_spawned : forall t, spawned = Some t ->
                 pending pc = Some (tk_run_id t) /\ tk_pc t = TkSpawned /\ left_of out = None;
  sh_next : forall pc', left_of out = Some pc' ->
              pc' <> SpGate /\ forall r, pending pc' = Some r ->
                pending pc = Some r
                \/ r = default (e_uuid env) (idempotency_key p) /\ in_flight r s = false
                   /\ pc <> SpGate;
}.

Lemma send_input_pc p pc : send_input b64_encode b64_decode guess_format p = Ok pc ->
  pc <> SpGate /\ pending pc = None.
Proof. unfold send_input, rbind. intros H. by repeat case_match; simplify_eq/=. Qed.

(** A step that keeps the permits, and at most ends runs. *)
Definition calm (s s' : ChatState) : Prop :=
  ch_gates s' = ch_gates s /\ forall r, in_flight r s' = true -> in_flight r s = true.

Lemma calm_same s s' : ch_gates s' = ch_gates s -> ch_runs s' = ch_runs s -> calm s s'.
Proof. intros H1 H2. split; [done|]. unfold in_flight. by rewrite H2. Qed.

Lemma shape_answer env p pc s r s1 :
  pc <> SpGate -> calm s s1 -> SendShape env p pc s (inr r) (release p s1) None.
Proof.
  intros Hpc [Hg Hr]. constructor; simpl; try done.
  - unfold release, gates_after, send_key. simpl.
    destruct (idempotency_key p); simpl; rewrite Hg; [by destruct pc|done].
  - intros x Hx. left. apply Hr. revert Hx. unfold release. by destruct (idempotency_key p).
Qed.

Lemma shape_next env p pc s pc' s1 :
  pc <> SpGate -> pc' <> SpGate -> calm s s1 ->
  (forall r, pending pc' = Some r -> pending pc = Some r
     \/ r = default (e_uuid env) (idempotency_key p) /\ in_flight r s = false) ->
  SendShape env p pc s (inl pc') s1 None.
Proof.
  intros Hpc Hpc' [Hg Hr] Hp. constructor; simpl; try done.
  - unfold gates_after, send_key. simpl. rewrite Hg.
    destruct (idempotency_key p); [by destruct pc, pc'|done].
  - eauto.
  - intros ? [= <-]. split; [done|]. intros r [?|[? ?]]%Hp; eauto.
Qed.

Lemma calm_refl s : calm s s.
Proof. by apply calm_same. Qed.

Lemma send_shape env p pc s out s' spawned :
  send_step b64_encode b64_decode guess_format fk env p pc s = Some (out, s', spawned) ->
  SendShape env p pc s out s' spawned.
Proof.
  pose proof calm_refl as Hrefl. unfold send_step. destruct pc; intros H.
  - destruct (idempotency_key p) as [k|] eqn:Ek.
    + case_bool_decide as Hk; [done|]. simplify_eq. constructor; simpl; rewrite ?Ek; try done; eauto.
      * unfold gates_after, send_key. simpl. by rewrite Ek.
      * by intros _ ? [= <-].
      * intros ? [= <-]. by split.
    + simplify_eq. constructor; simpl; rewrite ?Ek; try done; eauto.
      * unfold gates_after, send_key. simpl. by rewrite Ek.
      * intros ? [= <-]. by split.
  - destruct (idempotency_key p ≫= _) as [cached|];
      [|destruct (send_input b64_encode b64_decode guess_format p) as [pc'|e] eqn:Ei];
      simplify_eq; [by apply shape_answer| |by apply shape_answer].
    destruct (send_input_pc _ _ Ei) as [? Hp]. apply shape_next; try done. intros r. by rewrite Hp.
  - destruct (abort_step env pc s) as [o s1] eqn:Ea. pose proof (abort_shape _ _ _ _ _ Ea) as Hc.
    destruct o as [apc|[payload|e]]; simplify_eq; [by apply shape_next..|by apply shape_answer].
  - destruct (ensure_state env session s) as [H1 H2].
    destruct (ensure_session env session s) as [[u|e] s1]; simplify_eq;
      [apply shape_next|apply shape_answer]; try done; by apply calm_same.
  - destruct (reset_state env session message s) as [H1 H2].
    destruct (reset_session env session message s) as [[m|e] s1]; simplify_eq;
      [apply shape_next|apply shape_answer]; try done; by apply calm_same.
  - destruct (in_flight _ s) eqn:Ef; simplify_eq; [by apply shape_answer|].
    apply shape_next; try done. intros r [= <-]. by right.
  - destruct (append_state env session "user" message s) as [H1 H2].
    destruct (append_message fk env session "user" message s) as [[u|e] s1]; simplify_eq;
      [apply shape_next|apply shape_answer]; try done; try (by apply calm_same);
      destruct (starts_with (trim message) "/"); try done; by left.
  - destruct (e_skill env) as [[reply|]|e]; simplify_eq;
      [by apply shape_next|apply shape_next; [done..|by left]|by apply shape_answer].
  - destruct (append_state env session "assistant" reply s) as [H1 H2].
    destruct (append_message fk env session "assistant" reply s) as [[u|e] s1]; simplify_eq;
      [apply shape_next|apply shape_answer]; try done; by apply calm_same.
  - destruct (negb (e_provider env)); simplify_eq; [by apply shape_answer|].
    constructor; simpl; try done.
    + unfold release, gates_after, send_key. simpl. by destruct (idempotency_key p).
    + intros r. unfold in_flight, release. destruct (decide (r = run_id)) as [->|Hr]; [eauto|].
      intros Hin. left. revert Hin.
      destruct (idempotency_key p); simpl; by rewrite lookup_insert_ne by done.
    + intros t [= <-]. by split_and!.
  - simplify_eq. apply shape_answer; [done|]. apply calm_same; by destruct (idempotency_key p).
Qed.

(** A task whose model run is not over. *)
Definition live (t : Task) : Prop := tk_pc t = TkSpawned \/ tk_pc t = TkWaiting.
Definition payload_ok (t : Task) : Prop :=
  forall payload, tk_pc t = TkFinal payload -> payload_status payload <> "running".

Lemma run_outcome_state env t s :
  ch_runs (run_outcome fk env t s).2 = ch_runs s /\ ch_gates (run_outcome fk env t s).2 = ch_gates s.
Proof.
  unfold run_outcome. destruct (e_outcome env) as [reply|e| |e|]; try done.
  destruct (append_state env (tk_session t) "assistant" reply s) as [H1 H2].
  by destruct (append_message fk env (tk_session t) "assistant" reply s) as [[u|e] s1].
Qed.

Lemma run_outcome_status env t s : payload_status (run_outcome fk env t s).1 <> "running".
Proof.
  unfold run_outcome. destruct (e_outcome env) as [reply|e| |e|];
    [destruct (append_message fk env (tk_session t) "assistant" reply s) as [[u|e] s1]|..];
    simpl; destruct (e_media env); vm_compute; discriminate.
Qed.

Lemma task_shape env id t s o s' :
  task_step fk env id t s = (o, s') -> payload_ok t ->
  ch_gates s' = ch_gates s
  /\ (forall t', o = Some t' -> tk_run_id t' = tk_run_id t /\ payload_ok t')
  /\ forall r, in_flight r s' = true -> in_flight r s = true
       /\ (live t -> r = tk_run_id t -> exists t', o = Some t' /\ live t').
Proof.
  intros H Hok. unfold task_step in H. destruct (tk_pc t) as [| |pl|pl|pl] eqn:Epc.
  - simplify_eq. split_and!; [done| |].
    + intros ? [= <-]. split; [done|]. intros pl. done.
    + intros r Hr. split; [done|]. intros _ _. eexists. split; [done|]. by right.
  - destruct (run_outcome_state env t s) as [H1 H2].
    pose proof (run_outcome_status env t s) as Hst.
    destruct (run_outcome fk env t s) as [payload s1]. simpl in H1, H2, Hst. simplify_eq.
    split_and!.
    + by destruct (e_outcome env).
    + intros ? [= <-]. split; [done|]. by intros pl [= <-].
    + intros r [Hr Hne]%set_state_in_flight; [|done]. split; [|done].
      unfold in_flight in *. rewrite <- H1. by destruct (e_outcome env).
  - simplify_eq. split_and!; [done| |].
    + intros ? [= <-]. split; [done|]. intros pl'. done.
    + intros r [Hr Hne]%set_state_in_flight; [done|]. by apply Hok.
  - simplify_eq. split_and!; [done| |].
    + intros ? [= <-]. split; [done|]. intros pl'. done.
    + intros r Hr. split; [done|]. unfold live. rewrite Epc. by intros [].
  - simplify_eq. split_and!; [by destruct (tk_idem t)|done|].
    intros r Hr. split; [by destruct (tk_idem t)|]. unfold live. rewrite Epc. by intros [].
Qed.

(** ** The invariant *)

Record ChatInv (c : Conf) : Prop := {
  i_tracked : forall r, in_flight r (c_state c) = true ->
    exists j t, c_tasks c !! j = Some t /\ tk_run_id t = r /\ live t;
  i_payload : forall j t, c_tasks c !! j = Some t -> payload_ok t;
  i_gates : GateInv send_key past_gate (c_sends c) (ch_gates (c_state c));
  i_key : forall i p pc k, c_sends c !! i = Some (p, pc) -> idempotency_key p = Some k ->
    client_key k = true;
  i_pending : forall i p pc r, c_sends c !! i = Some (p, pc) -> pending pc = Some r ->
    in_flight r (c_state c) = false
    /\ match idempotency_key p with
       | Some k => r = k
       | None => client_key r = false /\ r ∈ c_used c
       end;
  i_distinct : forall i j p q pc pc' r, c_sends c !! i = Some (p, pc) -> c_sends c !! j = Some (q, pc') ->
    pending pc = Some r -> pending pc' = Some r -> i = j;
}.

Lemma init_inv db counters : ChatInv (Conf_init db counters).
Proof.
  constructor; simpl; try (intros *; rewrite ?lookup_empty; done); try set_solver.
Qed.

(** A step that keeps permits and requests and at most ends runs. *)
Lemma calm_inv c s' tasks' aborts' :
  ChatInv c -> ch_gates s' = ch_gates (c_state c) ->
  (forall r, in_flight r s' = true -> in_flight r (c_state c) = true) ->
  (forall j t, tasks' !! j = Some t -> payload_ok t) ->
  (forall r, in_flight r s' = true -> exists j t, tasks' !! j = Some t /\ tk_run_id t = r /\ live t) ->
  ChatInv {| c_state := s'; c_sends := c_sends c; c_aborts := aborts'; c_tasks := tasks';
             c_used := c_used c |}.
Proof.
  intros Hi Hg Hr Hp Ht. constructor; simpl; rewrite ?Hg; try by apply Hi; eauto.
  all: eauto using (i_gates c Hi), (i_key c Hi), (i_distinct c Hi).
  intros i p pc r Hs Hpend. destruct (i_pending c Hi i p pc r Hs Hpend) as [Hf Hm].
  split; [|done]. destruct (in_flight r s') eqn:E; [|done]. apply Hr in E. congruence.
Qed.

Lemma new_send_inv i p c c' :
  ChatInv c -> allowed (MNewSend i p) c -> conf_step (MNewSend i p) c = Some c' -> ChatInv c'.
Proof.
  intros Hi Ha. simpl. destruct (c_sends c !! i) eqn:Ei; [done|]. intros [= <-].
  assert (forall j q pc, <[i := (p, SpGate)]> (c_sends c) !! j = Some (q, pc) -> pc <> SpGate ->
    c_sends c !! j = Some (q, pc)) as Hold.
  { intros j q pc [[<- [= <- <-]]|[_ ?]]%lookup_insert_Some; done. }
  constructor; simpl.
  - apply Hi.
  - apply Hi.
  - by apply gate_new; [apply Hi| |].
  - intros j q pc k [[<- [= <- <-]]|[_ Hs]]%lookup_insert_Some Hk; [by apply Ha|].
    by apply (i_key c Hi j q pc).
  - intros j q pc r [[<- [= <- <-]]|[_ Hs]]%lookup_insert_Some Hp; [done|].
    by apply (i_pending c Hi j q pc r).
  - intros j1 j2 q1 q2 pc1 pc2 r H1 H2 P1 P2.
    apply (i_distinct c Hi j1 j2 q1 q2 pc1 pc2 r); [apply Hold|apply Hold|..]; try done;
      by intros ->.
Qed.

Section send_inv.
Variables (c : Conf) (i j : nat) (env : Env) (p : json) (pc : SendPc) (out : SendPc + RpcResult)
  (s' : ChatState) (spawned : option Task).
Hypothesis Hi : ChatInv c.
Hypothesis Hs : c_sends c !! i = Some (p, pc).
Hypothesis Hj : c_tasks c !! j = None.
Hypothesis Hu : client_key (e_uuid env) = false.
Hypothesis Hfresh : e_uuid env ∉ c_used c.
Hypothesis Sh : SendShape env p pc (c_state c) out s' spawned.
Let sends' := put i ((p,.) <$> left_of out) (c_sends c).

Lemma sends_after x q pc' : sends' !! x = Some (q, pc') ->
  x = i /\ q = p /\ left_of out = Some pc' \/ x <> i /\ c_sends c !! x = Some (q, pc').
Proof.
  unfold sends'. intros [[-> H]|[Hne H]]%lookup_put; [left|by right].
  apply fmap_Some in H as (pc0 & H & [= -> ->]). done.
Qed.

Lemma send_gates : GateInv send_key past_gate sends' (ch_gates s').
Proof.
  rewrite (sh_gates _ _ _ _ _ _ _ Sh). apply gate_step; [apply (i_gates c Hi)|done|]. split.
  - intros u (pc' & Ho & ->)%fmap_Some. destruct (sh_next _ _ _ _ _ _ _ Sh pc' Ho) as [Hne _].
    split; [done|]. intros _. by apply past_gate_spec.
  - intros Hp _. assert (pc = SpGate) as -> by (by destruct pc).
    by apply (sh_gate_free _ _ _ _ _ _ _ Sh eq_refl).
Qed.

Lemma send_pending x q pcx r : sends' !! x = Some (q, pcx) -> pending pcx = Some r ->
  in_flight r s' = false /\ match idempotency_key q with
    | Some k => r = k
    | None => client_key r = false /\ r ∈ {[e_uuid env]} ∪ c_used c
    end.
Proof.
  assert (in_flight r (c_state c) = false -> (forall t, spawned = Some t -> tk_run_id t <> r) ->
    in_flight r s' = false) as Hstay.
  { intros Hf Hsp. destruct (in_flight r s') eqn:E; [|done].
    apply (sh_runs _ _ _ _ _ _ _ Sh) in E as [E|(t & Ht & Hr)]; [congruence|]. by destruct (Hsp t Ht). }
  intros [(-> & -> & Ho)|[Hx H]]%sends_after Hp.
  - assert (forall t, spawned = Some t -> tk_run_id t <> r) as Hnone.
    { intros t Ht. destruct (sh_spawned _ _ _ _ _ _ _ Sh t Ht) as (_ & _ & Hn). congruence. }
    destruct (sh_next _ _ _ _ _ _ _ Sh pcx Ho) as [_ Hn]. destruct (Hn r Hp) as [Hold|(-> & Hf & _)].
    + destruct (i_pending c Hi i p pc r Hs Hold) as [Hf Hm]. split; [by apply Hstay|].
      destruct (idempotency_key p); [done|]. destruct Hm. split; [done|by apply elem_of_union_r].
    + split; [by apply Hstay|]. destruct (idempotency_key p); simpl; [done|].
      split; [done|by apply elem_of_union_l, elem_of_singleton].
  - destruct (i_pending c Hi x q pcx r H Hp) as [Hf Hm]. split.
    + apply Hstay; [done|]. intros t Ht <-. apply Hx.
      destruct (sh_spawned _ _ _ _ _ _ _ Sh t Ht) as (Hpc & _ & _).
      by apply (i_distinct c Hi x i q p pcx pc (tk_run_id t)).
    + destruct (idempotency_key q); [done|]. destruct Hm. split; [done|by apply elem_of_union_r].
Qed.

(** What is about to start in another request is not what this one draws. *)
Lemma send_new_distinct x q pcx r :
  c_sends c !! x = Some (q, pcx) -> x <> i -> pending pcx = Some r -> pc <> SpGate ->
  r <> default (e_uuid env) (idempotency_key p).
Proof.
  intros Hx Hne Hp Hpc ->. destruct (i_pending c Hi x q pcx _ Hx Hp) as [_ Hm].
  assert (pcx <> SpGate) as Hpcx by (by intros ->).
  destruct (idempotency_key q) as [k2|] eqn:E2, (idempotency_key p) as [k|] eqn:E1; simpl in Hm.
  - subst k2. apply Hne.
    apply (g_one _ _ _ _ (i_gates c Hi) x i (q, pcx) (p, pc) k); try done; by apply past_gate_spec.
  - rewrite <- Hm in E2. pose proof (i_key c Hi x q pcx _ Hx E2). congruence.
  - pose proof (i_key c Hi i p pc k Hs E1). destruct Hm. congruence.
  - by destruct Hm.
Qed.

Lemma send_distinct x y q1 q2 pc1 pc2 r : sends' !! x = Some (q1, pc1) -> sends' !! y = Some (q2, pc2) ->
  pending pc1 = Some r -> pending pc2 = Some r -> x = y.
Proof.
  assert (forall z q pcz pc', c_sends c !! z = Some (q, pcz) -> z <> i -> pending pcz = Some r ->
    left_of out = Some pc' -> pending pc' = Some r -> False) as Hother.
  { intros z q pcz pc' Hz Hne Hpz Ho Hp'. destruct (sh_next _ _ _ _ _ _ _ Sh pc' Ho) as [_ Hn].
    destruct (Hn r Hp') as [Hold|(Hr & _ & Hpc)].
    - apply Hne. by apply (i_distinct c Hi z i q p pcz pc r).
    - by apply (send_new_distinct z q pcz r). }
  intros [(-> & -> & O1)|[Hx H1]]%sends_after [(-> & -> & O2)|[Hy H2]]%sends_after P1 P2;
    [done|by destruct (Hother y q2 pc2 pc1)|by destruct (Hother x q1 pc1 pc2)|].
  by apply (i_distinct c Hi x y q1 q2 pc1 pc2 r).
Qed.

Lemma send_inv : ChatInv {| c_state := s'; c_sends := sends'; c_aborts := c_aborts c;
  c_tasks := match spawned with Some t => <[j := t]> (c_tasks c) | None => c_tasks c end;
  c_used := {[e_uuid env]} ∪ c_used c |}.
Proof.
  constructor; simpl; eauto using send_gates, send_pending, send_distinct.
  - intros r [Hr|(t & -> & <-)]%(sh_runs _ _ _ _ _ _ _ Sh).
    + destruct (i_tracked c Hi r Hr) as (j' & t & Ht & ? & ?). exists j', t. split; [|done].
      destruct spawned; [|done]. rewrite lookup_insert_ne; [done|]. congruence.
    + exists j, t. rewrite lookup_insert_eq. split_and!; [done..|].
      left. by apply (sh_spawned _ _ _ _ _ _ _ Sh).
  - intros j' t. destruct spawned as [t0|] eqn:E; [|apply (i_payload c Hi)].
    intros [[<- <-]|[_ Ht]]%lookup_insert_Some; [|by apply (i_payload c Hi j')].
    intros pl Hpl. destruct (sh_spawned _ _ _ _ _ _ _ Sh t0 eq_refl) as (_ & Hpc & _). congruence.
  - intros x q pcx k [(-> & -> & _)|[_ Hx]]%sends_after Hk;
      [by apply (i_key c Hi i p pc)|by apply (i_key c Hi x q pcx)].
Qed.
End send_inv.

Lemma abort_inv i env c c' : ChatInv c -> conf_step (MAbort i env) c = Some c' -> ChatInv c'.
Proof.
  intros Hi. simpl. destruct (c_aborts c !! i) as [pc|]; [|done].
  destruct (abort_step env pc (c_state c)) as [out s'] eqn:Ea. intros [= <-].
  destruct (abort_shape _ _ _ _ _ Ea) as [Hg Hr]. apply calm_inv; try done; [apply Hi|].
  intros r Hin. apply (i_tracked c Hi). by apply Hr.
Qed.

Lemma task_inv i env c c' : ChatInv c -> conf_step (MTask i env) c = Some c' -> ChatInv c'.
Proof.
  intros Hi. simpl. destruct (c_tasks c !! i) as [t|] eqn:Ht; [|done].
  destruct (task_step fk env i t (c_state c)) as [o s'] eqn:Es. intros [= <-].
  destruct (task_shape env i t _ o s' Es (i_payload c Hi i t Ht)) as (Hg & Hn & Hr).
  apply calm_inv; try done.
  - intros r Hin. by apply Hr.
  - intros j t' [[-> Ho]|[_ Hj]]%lookup_put; [by apply Hn|by apply (i_payload c Hi j)].
  - intros r Hin. destruct (Hr r Hin) as [Hold Hlive].
    destruct (i_tracked c Hi r Hold) as (j & t' & Hj & Hid & Hl).
    destruct (decide (j = i)) as [->|Hne].
    + rewrite Ht in Hj. injection Hj as <-. destruct (Hlive Hl (eq_sym Hid)) as (t2 & -> & Hl2).
      exists i, t2. split_and!; [by apply lookup_put; left| |done].
      destruct (Hn t2 eq_refl) as [-> _]. done.
    + exists j, t'. split_and!; [by apply lookup_put; right|done|done].
Qed.

Lemma new_abort_inv i p c c' : ChatInv c -> conf_step (MNewAbort i p) c = Some c' -> ChatInv c'.
Proof.
  intros Hi. simpl. destruct (c_aborts c !! i); [done|]. destruct (abort_start p); [|done].
  intros [= <-]. apply calm_inv; try done; apply Hi.
Qed.

Lemma reach_inv c : Reach c -> ChatInv c.
Proof.
  induction 1 as [db counters|m c c' _ Hi Ha Hs]; [apply init_inv|]. destruct m as [i p|i j env|i p|i env|i env].
  - by apply (new_send_inv i p c).
  - simpl in Hs. destruct (c_sends c !! i) as [[p pc]|] eqn:Ei; [|done].
    destruct (send_step b64_encode b64_decode guess_format fk env p pc (c_state c))
      as [[[out s'] spawned]|] eqn:E; [|done].
    destruct (c_tasks c !! j) eqn:Ej; [done|]. injection Hs as <-. destruct Ha as [Hu Hf].
    apply (send_inv c i j env p pc out s' spawned); try done. by apply send_shape.
  - by apply (new_abort_inv i p c).
  - by apply (abort_inv i env c).
  - by apply (task_inv i env c).
Qed.

(** C4. In every interleaving of requests, aborts and run tasks: a run listed as
    running has a task whose model run is not over, so it will be answered; a
    permit is held exactly by one request with that key that is past the gate;
    and a request that is about to start a run does so only while no run of that
    identifier is listed as running. *)
Theorem chat_run_safety c : Reach c ->
  (forall r, in_flight r (c_state c) = true ->
     exists j t, c_tasks c !! j = Some t /\ tk_run_id t = r /\ live t)
  /\ (forall k, k ∈ ch_gates (c_state c) <->
        exists! i, exists p pc, c_sends c !! i = Some (p, pc) /\ idempotency_key p = Some k /\ pc <> SpGate)
  /\ (forall i p pc r, c_sends c !! i = Some (p, pc) -> pending pc = Some r ->
        in_flight r (c_state c) = false).
Proof.
  intros Hi%reach_inv. split_and!.
  - apply Hi.
  - intros k. rewrite (gate_exact _ _ _ _ _ (i_gates c Hi)). unfold send_key. split.
    + intros (i & ([p pc] & Hs & Hk & Hne%past_gate_spec) & Hu). exists i. split; [by eauto|].
      intros j (q & pc' & Hq & Hk' & Hne'). apply Hu. exists (q, pc'). by rewrite past_gate_spec.
    + intros (i & (p & pc & Hs & Hk & Hne) & Hu). exists i. split.
      * exists (p, pc). by rewrite past_gate_spec.
      * intros j ([q pc'] & Hq & Hk' & Hne'%past_gate_spec). apply Hu. by eauto.
  - intros i p pc r Hs Hp. by apply (i_pending c Hi i p pc r).
Qed.

End interleaving.

(** * Schedules *)

Section schedules.
Variable client_key : string -> bool.

Definition allowedb (m : Move) (c : Conf) : bool :=
  match m with
  | MNewSend _ p => match idempotency_key p with Some k => client_key k | None => true end
  | MSend _ _ env => negb (client_key (e_uuid env)) && bool_decide (e_uuid env ∉ c_used c)
  | _ => true
  end.

Lemma allowedb_spec m c : allowedb m c = true -> allowed client_key m c.
Proof.
  destruct m; simpl; try done.
  - intros H k Hk. by rewrite Hk in H.
  - intros [H1%negb_true_iff H2%bool_decide_eq_true]%andb_true_iff. by split.
Qed.

Fixpoint allowed_run (ms : list Move) (c : Conf) : bool :=
  match ms with
  | [] => true
  | m :: ms' => allowedb m c && match conf_step id Some (fun _ => None) true m c with
                                | Some c' => allowed_run ms' c'
                                | None => true
                                end
  end.

Lemma reach_run ms c c' :
  Reach id Some (fun _ => None) true client_key c -> allowed_run ms c = true ->
  conf_steps id Some (fun _ => None) true ms c = Some c' ->
  Reach id Some (fun _ => None) true client_key c'.
Proof.
  revert c. induction ms as [|m ms IH]; intros c Hr Ha Hs; simpl in *; [by injection Hs as <-|].
  apply andb_true_iff in Ha as [Hm Ha]. apply bind_Some in Hs as (c1 & H1 & Hs).
  rewrite H1 in Ha. apply (IH c1); [|done|done].
  apply (reach_step _ _ _ _ _ m c); [done|by apply allowedb_spec|done].
Qed.
End schedules.

(** An environment at time [now] that draws the identifier [u]. *)
Definition env_at (now : Z) (u : string) (o : Outcome) : Env := {|
  e_now := now; e_uuid := u; e_st := fun _ => None; e_provider := true; e_skill := Ok None;
  e_media := None; e_outcome := o; e_values := map_to_list |}.

(** Request [i] with a key, from its arrival to the start of its run as task [j]. *)
Definition keyed (key message : string) : json :=
  jobject [("idempotencyKey", JStr key); ("sessionKey", JStr "main"); ("message", JStr message)].
Definition whole_send (i j : nat) (p : json) (steps : nat) : list Move :=
  MNewSend i p :: ((fun n => MSend i j (env_at 1 ("u" +:+ pretty (N.of_nat i) +:+ pretty (N.of_nat n)) Cancelled))
                     <$> seq 0 steps).
Definition task_steps (i : nat) (o : Outcome) (n : nat) : list Move :=
  replicate n (MTask i (env_at 2 "" o)).

Definition run (ms : list Move) : option Conf :=
  conf_steps id Some (fun _ => None) true ms (Conf_init Db_empty (Build_Counters ∅ ∅ ∅ ∅)).

Definition is_client (s : string) : bool := starts_with s "K".
Definition started : list Move := whole_send 0 0 (keyed "K" "hi") 7.

Lemma chat_run_safety_witness : exists c,
  run started = Some c /\ Reach id Some (fun _ => None) true is_client c
  /\ in_flight "K" (c_state c) = true
  /\ exists j t, c_tasks c !! j = Some t /\ tk_run_id t = "K" /\ live t.
Proof.
  destruct (run started) as [c|] eqn:E; [|exfalso; vm_compute in E; discriminate].
  assert (in_flight "K" (c_state c) = true) as Hf.
  { assert ((fun c => in_flight "K" (c_state c)) <$> run started = Some true) as H
      by (vm_compute; reflexivity). rewrite E in H. by injection H. }
  assert (Reach id Some (fun _ => None) true is_client c) as Hr.
  { apply (reach_run is_client started (Conf_init Db_empty (Build_Counters ∅ ∅ ∅ ∅)));
      [constructor|vm_compute; reflexivity|exact E]. }
  exists c. split; [reflexivity|]. split; [exact Hr|]. split; [exact Hf|].
  exact (proj1 (chat_run_safety id Some (fun _ => None) true is_client c Hr) "K" Hf).
Defined.

(** ** What a key does not rule out *)

(** A retry that arrives after the reply is recorded and before the answer is
    cached runs the request again: two runs of one key, the message stored
    twice. *)
Example retry_before_cache_runs_twice :
  match run (started ++ task_steps 0 (Replied "yo") 2 ++ whole_send 1 1 (keyed "K" "hi") 7) with
  | Some c => tk_run_id <$> c_tasks c !! 0 = Some "K"
              /\ (fun t => (tk_run_id t, tk_pc t)) <$> c_tasks c !! 1 = Some ("K", TkSpawned)
              /\ sm_content <$> messages_of "main" (ch_db (c_state c)) = ["hi"; "yo"; "hi"]
  | None => False
  end.
Proof. vm_compute. by split_and!. Qed.

(** After an abort, the task of the aborted run marks the retry's run as aborted
    when it ends, and drops its abort handle; a further retry then runs beside
    it. *)
Definition abort_key : json := jobject [("runId", JStr "K")].
Definition aborted_once : list Move :=
  started ++ task_steps 0 Cancelled 1 ++ [MNewAbort 0 abort_key] ++ replicate 3 (MAbort 0 (env_at 3 "" Cancelled))
  ++ whole_send 1 1 (keyed "K" "hi") 7 ++ task_steps 1 Cancelled 1 ++ task_steps 0 Cancelled 3.

Example abort_marks_the_retry :
  match run (aborted_once ++ whole_send 2 2 (keyed "K" "hi") 7) with
  | Some c => (tk_pc <$> c_tasks c !! 1 = Some TkWaiting) /\ (tk_pc <$> c_tasks c !! 2 = Some TkSpawned)
              /\ ch_handles (c_state c) !! "K" = None
  | None => False
  end.
Proof. vm_compute. by split_and!. Qed.

(** A retry of [/new] while the first is in flight is answered [in_flight], and
    has cleared the session again. *)
Example retry_clears_again :
  match run (whole_send 0 0 (keyed "K" "/new") 7 ++ whole_send 1 1 (keyed "K" "/new") 4) with
  | Some c => messages_of "main" (ch_db (c_state c)) = [] /\ c_sends c !! 1 = Some (keyed "K" "/new", SpLookup "main" BARE_SESSION_RESET_PROMPT)
              /\ in_flight "K" (c_state c) = true
  | None => False
  end.
Proof. vm_compute. by split_and!. Qed.
