(* ===== verification/Outbound.v ===== *)
(** Outbound messages ([send] and its helpers in
    [crates/gateway-core/src/http.rs]): the channel a message goes to, its text
    and metadata, and the idempotency key of a request.

    Requests are threads; a step is one critical section.  The channels are an
    input: the names registered and what a channel answers. *)

From Stdlib Require Import Strings.String.
From S2P Require Import Prelude RustStr Json ConfigStore Sorting SessionStore Gate.
#[local] Open Scope string_scope.
#[local] Open Scope nat_scope.
#[local] Open Scope list_scope.
#[local] Open Scope rust_scope.

(** * The channel and the message *)

Definition one_of (v : string) (l : list string) : bool := existsb (String.eqb v) l.

Definition normalize_channel_alias (raw : string) : string :=
  let value := to_ascii_lowercase (trim raw) in
  if one_of value ["googlechat"; "google-chat"; "google_chat"] then "google_chat"
  else if one_of value ["nextcloud-talk"; "nextcloud_talk"] then "nextcloud"
  else if one_of value ["synology-chat"; "synology_chat"] then "synology"
  else if one_of value ["ms-teams"; "microsoft-teams"; "teams"] then "msteams"
  else if one_of value ["imessage"; "i-message"; "i_message"] then "bluebubbles"
  else if one_of value ["web-chat"; "web_chat"] then "webchat"
  else if String.eqb value "lark" then "feishu"
  else value.

(** [channels] are the registered names, in the order of the hash map; [None] when
    there is no channel manager. *)
Definition resolve_channel_name_for_send (channels : option (list string)) (requested : option string)
  : result string RpcError :=
  match channels with
  | None => Err (rpc_error "UNAVAILABLE" "No channel manager configured")
  | Some l =>
      let names := sort_by (by_str id) l in
      match names with
      | [] => Err (rpc_error "UNAVAILABLE" "No channels configured")
      | _ =>
          match trimmed requested with
          | Some raw =>
              let normalized := normalize_channel_alias raw in
              if String.eqb normalized "webchat"
              then Err (rpc_error "INVALID_PARAMS" "unsupported channel: webchat (internal-only). Use `chat.send` for WebChat UI messages or choose a deliverable channel.")
              else match find_first (fun name => String.eqb (normalize_channel_alias name) normalized) names with
                   | Some found => Ok found
                   | None => Err (rpc_error "INVALID_PARAMS" ("unsupported channel: " +:+ raw))
                   end
          | None =>
              match find_first (fun name => negb (eq_ignore_ascii_case name "webchat")) names with
              | Some name => Ok name
              | None => Err (rpc_error "INVALID_PARAMS" "No deliverable channels configured (only webchat is available).")
              end
          end
      end
  end.

Definition resolve_outbound_target_metadata (to : string) (thread_id account_id : option string)
  : gmap string string :=
  let m := foldl (fun m k => <[k := to]> m) ∅
    ["to"; "target"; "recipient"; "chat_id"; "channel_id"; "recipient_id"; "channel"] in
  let m := match trimmed thread_id with
           | Some tid => foldl (fun m k => <[k := tid]> m) m ["thread_id"; "thread_ts"; "root_id"]
           | None => m
           end in
  match trimmed account_id with
  | Some account => <["account_id" := account]> m
  | None => m
  end.

Definition session_key_of (p : json) : option string :=
  trimmed (or_else (get "sessionKey" p) (get "sessionId" p) ≫= as_str).

(** A line more of the text. *)
Definition push_line (body url : string) : string :=
  if String.eqb body "" then url else body +:+ nl +:+ url.

(** The recipient and the text. *)
Definition outbound_params (p : json) : result (string * string) RpcError :=
  let? to := match trimmed (get_str "to" p) with Some to => Ok to | None => Err (missing "to") end in
  let message := trim (default "" (get_str "message" p)) in
  let media_url := trimmed (get_str "mediaUrl" p) in
  let media_urls := trimmed_strings (default [] (get "mediaUrls" p ≫= as_array)) in
  if String.eqb message "" && bool_decide (media_url = None) && bool_decide (media_urls = [])
  then Err (rpc_error "INVALID_PARAMS" "send requires message or mediaUrl/mediaUrls")
  else Ok (to, foldl push_line message (option_list media_url ++ media_urls)).

(** * One request *)

Record ChannelMessage := {
  cm_id : string;
  cm_channel : string;
  cm_sender : string;
  cm_content : string;
  cm_timestamp : Z;
  cm_metadata : gmap string string;
}.

(** [out_gates] are the keys whose permit is taken. *)
Record OutState := {
  out_dedupe : gmap string json;
  out_gates : gset string;
  out_db : Db;
}.

(** What a step gets from outside: the channel manager and the answer of the
    channel ([e_sent]). *)
Record Env := {
  e_now : Z;
  e_run_uuid : string;
  e_msg_uuid : string;
  e_st : nat -> option string;
  e_channels : option (list string);
  e_sent : result string string;
}.

Record Target := {
  tg_to : string;
  tg_body : string;
  tg_channel : string;
  tg_run_id : string;
  tg_thread_id : option string;
  tg_account_id : option string;
}.

Inductive OutPc :=
| OpStart
| OpGate (ctx : option SessionDeliveryContext) (to body : string)
| OpDedupe (ctx : option SessionDeliveryContext) (to body : string)
| OpChannel (ctx : option SessionDeliveryContext) (to body : string)
| OpSend (t : Target)
| OpCache (t : Target) (payload : json)
| OpPersist (t : Target) (payload : json).

Definition put_gates (g : gset string) (s : OutState) : OutState := {|
  out_dedupe := out_dedupe s; out_gates := g; out_db := out_db s |}.
Definition put_dedupe (d : gmap string json) (s : OutState) : OutState := {|
  out_dedupe := d; out_gates := out_gates s; out_db := out_db s |}.
Definition put_db (db : Db) (s : OutState) : OutState := {|
  out_dedupe := out_dedupe s; out_gates := out_gates s; out_db := db |}.

Definition requested_channel (p : json) (ctx : option SessionDeliveryContext) : option string :=
  or_else (get_str "channel" p) (ctx ≫= sd_channel).

Definition target_of (env : Env) (p : json) (ctx : option SessionDeliveryContext) (to body channel : string)
  : Target := {|
  tg_to := to; tg_body := body; tg_channel := channel;
  tg_run_id := default (e_run_uuid env) (idempotency_key p);
  tg_thread_id := or_else (trimmed (get_str "threadId" p)) (ctx ≫= sd_thread_id);
  tg_account_id := or_else (trimmed (get_str "accountId" p)) (ctx ≫= sd_account_id) |}.

Definition message_of (env : Env) (t : Target) : ChannelMessage := {|
  cm_id := e_msg_uuid env; cm_channel := tg_channel t; cm_sender := "rpc-send";
  cm_content := tg_body t; cm_timestamp := e_now env;
  cm_metadata := resolve_outbound_target_metadata (tg_to t) (tg_thread_id t) (tg_account_id t) |}.

Definition sent_payload (t : Target) (sent_id : string) : json := jobject [
  ("runId", JStr (tg_run_id t)); ("channel", JStr (tg_channel t)); ("messageId", JStr sent_id);
  ("to", JStr (tg_to t)); ("threadId", jopt JStr (tg_thread_id t));
  ("accountId", jopt JStr (tg_account_id t))].

Section send.
Variable order : list (string * string) -> list (string * string).
Variable fk : bool.

(** The permit is given back. *)
Definition out_release (p : json) (s : OutState) : OutState :=
  match idempotency_key p with Some k => put_gates (out_gates s ∖ {[k]}) s | None => s end.

(** One step of [send]: the next step or the answer, the state, and the message a
    channel took.  [None]: the permit is taken. *)
Definition rpc_send_step (env : Env) (p : json) (pc : OutPc) (s : OutState)
  : option ((OutPc + RpcResult) * OutState * option ChannelMessage) :=
  let idem := idempotency_key p in
  match pc with
  | OpStart =>
      let ctx := (fun key => load_session_delivery_context key (out_db s)) <$> session_key_of p in
      match outbound_params p with
      | Err e => Some (inr (Err e), s, None)
      | Ok (to, body) => Some (inl (OpGate ctx to body), s, None)
      end
  | OpGate ctx to body =>
      match idem with
      | Some k => if bool_decide (k ∈ out_gates s) then None
                  else Some (inl (OpDedupe ctx to body), put_gates ({[k]} ∪ out_gates s) s, None)
      | None => Some (inl (OpDedupe ctx to body), s, None)
      end
  | OpDedupe ctx to body =>
      match idem ≫= fun k => out_dedupe s !! k with
      | Some cached => Some (inr (Ok cached), out_release p s, None)
      | None => Some (inl (OpChannel ctx to body), s, None)
      end
  | OpChannel ctx to body =>
      match resolve_channel_name_for_send (e_channels env) (requested_channel p ctx) with
      | Err e => Some (inr (Err e), out_release p s, None)
      | Ok channel => Some (inl (OpSend (target_of env p ctx to body channel)), s, None)
      end
  | OpSend t =>
      match e_channels env with
      | None => Some (inr (Err (rpc_error "UNAVAILABLE" "No channel manager configured")),
                      out_release p s, None)
      | Some _ =>
          match e_sent env with
          | Err e => Some (inr (Err (rpc_error "UNAVAILABLE" e)), out_release p s, None)
          | Ok sent_id => Some (inl (OpCache t (sent_payload t sent_id)), s, Some (message_of env t))
          end
      end
  | OpCache t payload =>
      Some (inl (OpPersist t payload),
            match idem with Some k => put_dedupe (<[k := payload]> (out_dedupe s)) s | None => s end,
            None)
  | OpPersist t payload =>
      let s' := match session_key_of p with
                | Some key => put_db (persist_session_delivery_context fk order (e_st env) key
                    (Some (tg_channel t)) (Some (tg_to t)) (tg_account_id t) (tg_thread_id t) (out_db s)).2 s
                | None => s
                end in
      Some (inr (Ok payload), out_release p s', None)
  end.
End send.

(** * Interleavings *)

(** The requests under way, the messages channels took and the successful
    answers given, each with the key of its request. *)
Record OutConf := {
  oc_state : OutState;
  oc_sends : gmap nat (json * OutPc);
  oc_sent : list (option string * ChannelMessage);
  oc_answers : list (option string * json);
}.

Inductive OutMove :=
| NewRequest (i : nat) (p : json)
| StepRequest (i : nat) (env : Env).

Definition answer_of (p : json) (out : OutPc + RpcResult) : list (option string * json) :=
  match out with inr (Ok payload) => [(idempotency_key p, payload)] | _ => [] end.

Definition send_key (t : json * OutPc) : option string := idempotency_key t.1.
Definition past_gate (t : json * OutPc) : bool :=
  match t.2 with OpStart | OpGate _ _ _ => false | _ => true end.

Definition sent_with (k : string) (l : list (option string * ChannelMessage)) : nat :=
  length (filter (fun x => x.1 = Some k) l).

Section interleaving.
Variable order : list (string * string) -> list (string * string).
Variable fk : bool.
#[local] Abbreviation rpc_send_step := (rpc_send_step order fk).

Definition out_move (m : OutMove) (c : OutConf) : option OutConf :=
  match m with
  | NewRequest i p =>
      match oc_sends c !! i with
      | Some _ => None
      | None => Some {| oc_state := oc_state c; oc_sends := <[i := (p, OpStart)]> (oc_sends c);
                        oc_sent := oc_sent c; oc_answers := oc_answers c |}
      end
  | StepRequest i env =>
      '(p, pc) ← oc_sends c !! i;
      '(out, s', msg) ← rpc_send_step env p pc (oc_state c);
      Some {| oc_state := s'; oc_sends := put i ((p,.) <$> left_of out) (oc_sends c);
              oc_sent := oc_sent c ++ ((idempotency_key p,.) <$> option_list msg);
              oc_answers := oc_answers c ++ answer_of p out |}
  end.

Definition out_init (db : Db) : OutConf := {|
  oc_state := {| out_dedupe := ∅; out_gates := ∅; out_db := db |};
  oc_sends := ∅; oc_sent := []; oc_answers := [] |}.

Inductive OutReach : OutConf -> Prop :=
| out_reach_init db : OutReach (out_init db)
| out_reach_move m c c' : OutReach c -> out_move m c = Some c' -> OutReach c'.

(** What a request with key [k] knows about the answer kept for [k] and the
    messages sent for it. *)
Definition pc_ok (pc : OutPc) (kept : option json) (sent : nat) : Prop :=
  match pc with
  | OpDedupe _ _ _ => kept = None -> sent = 0
  | OpChannel _ _ _ | OpSend _ => kept = None /\ sent = 0
  | OpCache _ _ => kept = None /\ sent = 1
  | OpPersist _ payload => kept = Some payload
  | _ => True
  end.

Definition at_cache (pc : OutPc) : bool := match pc with OpCache _ _ => true | _ => false end.

Record OutInv (c : OutConf) : Prop := {
  o_gates : GateInv send_key past_gate (oc_sends c) (out_gates (oc_state c));
  o_pc : forall i p pc k, oc_sends c !! i = Some (p, pc) -> idempotency_key p = Some k ->
    pc_ok pc (out_dedupe (oc_state c) !! k) (sent_with k (oc_sent c));
  o_sent : forall k, sent_with k (oc_sent c) <= 1;
  o_kept : forall k, out_dedupe (oc_state c) !! k = None -> sent_with k (oc_sent c) <> 0 ->
    exists i p pc, oc_sends c !! i = Some (p, pc) /\ idempotency_key p = Some k /\ at_cache pc = true;
  o_answers : forall k payload, (Some k, payload) ∈ oc_answers c ->
    out_dedupe (oc_state c) !! k = Some payload;
}.

(** A step seen from its own key: the permit, what is kept, what is sent. *)
Record OutShape (p : json) (pc : OutPc) (s : OutState) (out : OutPc + RpcResult) (s' : OutState)
    (msg : option ChannelMessage) : Prop := {
  os_gates : out_gates s' = gates_after send_key past_gate (p, pc) ((p,.) <$> left_of out) (out_gates s);
  os_step : GateStep send_key past_gate (p, pc) ((p,.) <$> left_of out) (out_gates s);
  os_own : forall k sent, idempotency_key p = Some k -> sent <= 1 ->
    (k ∉ out_gates s -> out_dedupe s !! k = None -> sent = 0) ->
    pc_ok pc (out_dedupe s !! k) sent ->
    let sent' := sent + length (option_list msg) in
    sent' <= 1
    /\ (forall pc', left_of out = Some pc' -> pc_ok pc' (out_dedupe s' !! k) sent')
    /\ (out_dedupe s' !! k = None -> sent' <> 0 -> 
          (exists pc', left_of out = Some pc' /\ at_cache pc' = true) \/ sent <> 0 /\ at_cache pc = false)
    /\ (forall payload, out_dedupe s !! k = Some payload -> out_dedupe s' !! k = Some payload)
    /\ (forall payload, out = inr (Ok payload) -> out_dedupe s' !! k = Some payload);
  os_quiet : past_gate (p, pc) = false -> out_dedupe s' = out_dedupe s /\ msg = None;
  os_other : forall k, idempotency_key p <> Some k -> out_dedupe s' !! k = out_dedupe s !! k;
}.

Lemma out_release_dedupe p s : out_dedupe (out_release p s) = out_dedupe s.
Proof. unfold out_release. by destruct (idempotency_key p). Qed.

Lemma out_release_gates p pc s1 s : past_gate (p, pc) = true -> out_gates s1 = out_gates s ->
  out_gates (out_release p s1) = gates_after send_key past_gate (p, pc) None (out_gates s).
Proof.
  intros Hp Hg. unfold out_release, gates_after, send_key. cbn [fst]. rewrite Hp. simpl.
  by destruct (idempotency_key p); simpl; rewrite Hg.
Qed.

(** An answer given past the gate. *)
Lemma out_shape_answer p pc s r s1 :
  past_gate (p, pc) = true -> at_cache pc = false -> out_gates s1 = out_gates s ->
  out_dedupe s1 = out_dedupe s ->
  (forall k sent payload, idempotency_key p = Some k -> r = Ok payload ->
     pc_ok pc (out_dedupe s !! k) sent -> out_dedupe s !! k = Some payload) ->
  OutShape p pc s (inr r) (out_release p s1) None.
Proof.
  intros Hp Hc Hg Hd Hr. constructor; simpl.
  - by apply out_release_gates.
  - split; [done|]. by rewrite Hp.
  - intros k sent Hk Hs _ Hpc. rewrite out_release_dedupe, Hd, Nat.add_0_r.
    split_and!; [done|done|auto|done|]. intros payload [= ->]. by apply (Hr k sent payload).
  - by rewrite Hp.
  - intros k _. by rewrite out_release_dedupe, Hd.
Qed.

(** A step before the gate, or from one side of it to the same. *)
Lemma out_shape_next p pc pc' s msg :
  past_gate (p, pc) = past_gate (p, pc') ->
  (forall k sent, idempotency_key p = Some k -> pc_ok pc (out_dedupe s !! k) sent ->
     pc_ok pc' (out_dedupe s !! k) (sent + length (option_list msg))) ->
  (is_Some msg -> at_cache pc' = true /\
     forall kept sent, pc_ok pc kept sent -> sent = 0) ->
  (at_cache pc = true -> at_cache pc' = true) ->
  OutShape p pc s (inl pc') s msg.
Proof.
  intros Hp Hok Hm Hc. constructor; simpl.
  - unfold gates_after, send_key. simpl. rewrite <- Hp.
    destruct (idempotency_key p); [|done]. by destruct (past_gate (p, pc)).
  - split; [by intros u [= <-]; rewrite Hp|]. simpl. rewrite <- Hp. intros H1 H2. congruence.
  - intros k sent Hk Hs _ Hpc. split_and!.
    + destruct msg; simpl; [|lia]. destruct Hm as [_ Hz]; [done|]. rewrite (Hz _ _ Hpc). lia.
    + intros ? [= <-]. by apply Hok.
    + intros _ Hn. destruct (at_cache pc') eqn:E; [left; by eauto|right].
      destruct msg; [by destruct Hm|]. simpl in Hn. rewrite Nat.add_0_r in Hn. split; [done|].
      destruct (at_cache pc); [by discriminate Hc|done].
    + done.
    + done.
  - intros Hq. split; [done|]. destruct msg; [|done]. destruct Hm as [Hc' _]; [done|].
    rewrite Hp in Hq. by destruct pc'.
  - done.
Qed.

Lemma rpc_send_shape env p pc s out s' msg :
  rpc_send_step env p pc s = Some (out, s', msg) -> OutShape p pc s out s' msg.
Proof.
  unfold Outbound.rpc_send_step. destruct pc as [|ctx to body|ctx to body|ctx to body|t|t pl|t pl]; intros H.
  - destruct (outbound_params p) as [[to body]|e]; simplify_eq.
    + by apply out_shape_next; try done; intros [].
    + constructor; simpl; try done.
      * unfold gates_after. simpl. by destruct (send_key (p, OpStart)).
      * intros k sent _ Hs _ _. rewrite Nat.add_0_r. split_and!; try done. by right.
  - destruct (idempotency_key p) as [k|] eqn:Ek.
    + case_bool_decide as Hk; [done|]. simplify_eq. constructor; simpl; try done.
      * unfold gates_after, send_key. simpl. by rewrite Ek.
      * split; [by intros u [= <-]|]. intros _ _. unfold send_key. simpl. rewrite Ek. by intros ? [= <-].
      * intros k' sent Hk' Hs Hfree _. rewrite Ek in Hk'. injection Hk' as <-. rewrite Nat.add_0_r.
        split_and!; try done; [intros ? [= <-]; exact (Hfree Hk)|by right].
    + simplify_eq. constructor; simpl; try done.
      * unfold gates_after, send_key. simpl. by rewrite Ek.
      * split; [by intros u [= <-]|]. unfold send_key. simpl. by rewrite Ek.
      * intros k sent. by rewrite Ek.
  - destruct (idempotency_key p ≫= _) as [cached|] eqn:E; simplify_eq.
    + apply out_shape_answer; try done. intros k sent payload Hk [= ->] _. by rewrite Hk in E.
    + apply out_shape_next; try done; try (by intros []). simpl. intros k sent Hk Hz. rewrite Hk in E.
      simpl in E. rewrite Nat.add_0_r. split; [done|]. by apply Hz.
  - destruct (resolve_channel_name_for_send _ _) as [channel|e]; simplify_eq; [|by apply out_shape_answer].
    apply out_shape_next; try done; try (by intros []). simpl. intros k sent _. by rewrite Nat.add_0_r.
  - destruct (e_channels env); simplify_eq; [|by apply out_shape_answer].
    destruct (e_sent env) as [sent_id|e]; simplify_eq; [|by apply out_shape_answer].
    apply out_shape_next; try done; simpl.
    + intros k sent _ [-> ->]. done.
    + intros _. split; [done|]. by intros kept sent [_ ->].
  - simplify_eq. constructor; simpl.
    + unfold gates_after, send_key. simpl. by destruct (idempotency_key p).
    + split; [by intros u [= <-]|done].
    + intros k sent Hk Hs _ [Hn ->]. rewrite Hk. simpl. rewrite lookup_insert_eq, Hn.
      split_and!; try done. by intros ? [= <-].
    + done.
    + intros k Hk. destruct (idempotency_key p) as [k0|]; [|done]. simpl.
      rewrite lookup_insert_ne; [done|]. congruence.
  - simplify_eq. apply out_shape_answer; try done; [by destruct (session_key_of p)..|].
    by intros k sent payload' _ [= <-] H.
Qed.

Lemma sent_with_app k l1 l2 : sent_with k (l1 ++ l2) = sent_with k l1 + sent_with k l2.
Proof. unfold sent_with. by rewrite filter_app, length_app. Qed.

Lemma sent_with_own k (msg : option ChannelMessage) :
  sent_with k ((Some k,.) <$> option_list msg) = length (option_list msg).
Proof. unfold sent_with. destruct msg; simpl; [|done]. by rewrite filter_cons_True. Qed.

Lemma sent_with_other k o (msg : option ChannelMessage) :
  o <> Some k -> sent_with k ((o,.) <$> option_list msg) = 0.
Proof. intros Hne. unfold sent_with. destruct msg; simpl; [|done]. by rewrite filter_cons_False. Qed.

Section step_inv.
Variables (c : OutConf) (i : nat) (p : json) (pc : OutPc) (out : OutPc + RpcResult) (s' : OutState)
  (msg : option ChannelMessage).
Hypothesis Hi : OutInv c.
Hypothesis Hs : oc_sends c !! i = Some (p, pc).
Hypothesis Sh : OutShape p pc (oc_state c) out s' msg.
Let sent' := oc_sent c ++ ((idempotency_key p,.) <$> option_list msg).

(** No message was sent for a key that is free and has no answer. *)
Lemma free_unsent k : k ∉ out_gates (oc_state c) -> out_dedupe (oc_state c) !! k = None ->
  sent_with k (oc_sent c) = 0.
Proof.
  intros Hg Hd. destruct (decide (sent_with k (oc_sent c) = 0)) as [|Hn]; [done|].
  destruct (o_kept c Hi k Hd Hn) as (x & q & pcx & Hx & Hq & Hc). destruct Hg.
  apply (g_in _ _ _ _ (o_gates c Hi) x (q, pcx)); try done. by destruct pcx.
Qed.

Lemma own_step k : idempotency_key p = Some k ->
  sent_with k sent' = sent_with k (oc_sent c) + length (option_list msg)
  /\ sent_with k sent' <= 1
  /\ (forall pc', left_of out = Some pc' -> pc_ok pc' (out_dedupe s' !! k) (sent_with k sent'))
  /\ (out_dedupe s' !! k = None -> sent_with k sent' <> 0 ->
        (exists pc', left_of out = Some pc' /\ at_cache pc' = true)
        \/ sent_with k (oc_sent c) <> 0 /\ at_cache pc = false)
  /\ (forall pl, out_dedupe (oc_state c) !! k = Some pl -> out_dedupe s' !! k = Some pl)
  /\ (forall pl, out = inr (Ok pl) -> out_dedupe s' !! k = Some pl).
Proof.
  intros Hk. assert (sent_with k sent' = sent_with k (oc_sent c) + length (option_list msg)) as E.
  { unfold sent'. by rewrite sent_with_app, Hk, sent_with_own. }
  split; [done|]. rewrite E.
  apply (os_own _ _ _ _ _ _ Sh k (sent_with k (oc_sent c)) Hk);
    [apply (o_sent c Hi)|apply free_unsent|by apply (o_pc c Hi i p pc k)].
Qed.

Lemma other_step k : idempotency_key p <> Some k ->
  sent_with k sent' = sent_with k (oc_sent c) /\ out_dedupe s' !! k = out_dedupe (oc_state c) !! k.
Proof.
  intros Hk. split; [|by apply (os_other _ _ _ _ _ _ Sh)].
  unfold sent'. rewrite sent_with_app, sent_with_other by done. lia.
Qed.

Lemma kept_stays k pl : out_dedupe (oc_state c) !! k = Some pl -> out_dedupe s' !! k = Some pl.
Proof.
  destruct (decide (idempotency_key p = Some k)) as [Hk|Hk].
  - by apply (own_step k Hk).
  - by destruct (other_step k Hk) as [_ ->].
Qed.

Lemma step_pc x q pcx k :
  put i ((p,.) <$> left_of out) (oc_sends c) !! x = Some (q, pcx) -> idempotency_key q = Some k ->
  pc_ok pcx (out_dedupe s' !! k) (sent_with k sent').
Proof.
  intros [[-> (pc0 & Ho & [= -> ->])%fmap_Some]|[Hne Hx]]%lookup_put Hk; [by apply (own_step k Hk)|].
  pose proof (o_pc c Hi x q pcx k Hx Hk) as Hok.
  destruct (decide (idempotency_key p = Some k)) as [Hp|Hp].
  - destruct (past_gate (q, pcx)) eqn:Ex; [|by destruct pcx].
    destruct (past_gate (p, pc)) eqn:Ep.
    + destruct (gate_other send_key past_gate i (p, pc) ((p,.) <$> left_of out) (oc_sends c)
        (out_gates (oc_state c)) (o_gates c Hi) Hs (os_step _ _ _ _ _ _ Sh) x (q, pcx) k); auto.
    + destruct (os_quiet _ _ _ _ _ _ Sh Ep) as [-> Hm]. unfold sent'. rewrite Hm.
      by rewrite app_nil_r.
  - by destruct (other_step k Hp) as [-> ->].
Qed.

Lemma step_sent k : sent_with k sent' <= 1.
Proof.
  destruct (decide (idempotency_key p = Some k)) as [Hk|Hk]; [by apply (own_step k Hk)|].
  destruct (other_step k Hk) as [-> _]. apply (o_sent c Hi).
Qed.

Lemma step_kept k : out_dedupe s' !! k = None -> sent_with k sent' <> 0 ->
  exists x q pcx, put i ((p,.) <$> left_of out) (oc_sends c) !! x = Some (q, pcx)
    /\ idempotency_key q = Some k /\ at_cache pcx = true.
Proof.
  intros Hd Hn.
  assert (sent_with k (oc_sent c) <> 0 -> (idempotency_key p = Some k -> at_cache pc = false) ->
    exists x q pcx, put i ((p,.) <$> left_of out) (oc_sends c) !! x = Some (q, pcx)
      /\ idempotency_key q = Some k /\ at_cache pcx = true) as Hold.
  { intros Hne Hpc. assert (out_dedupe (oc_state c) !! k = None) as Hd0.
    { destruct (out_dedupe (oc_state c) !! k) as [pl|] eqn:E; [|done]. apply kept_stays in E. congruence. }
    destruct (o_kept c Hi k Hd0 Hne) as (x & q & pcx & Hx & Hq & Hc).
    exists x, q, pcx. split; [|done]. apply lookup_put. right. split; [|done].
    intros ->. rewrite Hs in Hx. injection Hx as <- <-. rewrite Hpc in Hc; done. }
  destruct (decide (idempotency_key p = Some k)) as [Hk|Hk].
  - destruct (own_step k Hk) as (_ & _ & _ & Hown & _). destruct (Hown Hd Hn) as [(pc' & Ho & Hc)|[Hne Hc]].
    + exists i, p, pc'. split; [|done]. apply lookup_put. left. by rewrite Ho.
    + by apply Hold.
  - destruct (other_step k Hk) as [E _]. rewrite E in Hn. by apply Hold.
Qed.

Lemma step_inv : OutInv {| oc_state := s'; oc_sends := put i ((p,.) <$> left_of out) (oc_sends c);
  oc_sent := sent'; oc_answers := oc_answers c ++ answer_of p out |}.
Proof.
  constructor; simpl; eauto using step_pc, step_sent, step_kept.
  - rewrite (os_gates _ _ _ _ _ _ Sh).
    apply gate_step; [apply (o_gates c Hi)|done|apply (os_step _ _ _ _ _ _ Sh)].
  - intros k pl [Ha|Ha]%elem_of_app; [by apply kept_stays, (o_answers c Hi)|].
    assert (idempotency_key p = Some k /\ out = inr (Ok pl)) as [Hk Ho].
    { unfold answer_of in Ha. destruct out as [pc'|[pl'|e]];
        [by apply elem_of_nil in Ha| |by apply elem_of_nil in Ha].
      apply list_elem_of_singleton in Ha. by injection Ha as -> ->. }
    by apply (own_step k Hk).
Qed.
End step_inv.

Lemma out_reach_inv c : OutReach c -> OutInv c.
Proof.
  induction 1 as [db|m c c' _ Hi Hm].
  - constructor; simpl; try (intros *; by rewrite ?lookup_empty).
    + intros k. unfold sent_with. simpl. lia.
    + by intros k pl ?%elem_of_nil.
  - destruct m as [i p|i env]; simpl in Hm.
    + destruct (oc_sends c !! i) eqn:Ei; [done|]. injection Hm as <-. destruct Hi as [Hg Hpc Hs Hk Ha].
      constructor; simpl; try done; [by apply gate_new| |].
      * intros x q pcx k [[<- [= <- <-]]|[_ Hx]]%lookup_insert_Some Hq; [done|by apply (Hpc x q pcx k)].
      * intros k Hd Hn. destruct (Hk k Hd Hn) as (x & q & pcx & Hx & Hr). exists x, q, pcx.
        split; [|done]. rewrite lookup_insert_ne; [done|]. congruence.
    + apply bind_Some in Hm as ([p pc] & Ht & Hm). apply bind_Some in Hm as ([[out s'] msg] & Hst & Hm).
      injection Hm as <-. apply rpc_send_shape in Hst. by apply (step_inv c i p pc).
Qed.

(** C8. In every interleaving of [send] requests, a channel takes at most one
    message for each idempotency key, and all the successful answers to requests
    with that key are the same. *)
Theorem keyed_send_once c k : OutReach c ->
  sent_with k (oc_sent c) <= 1
  /\ forall a b, (Some k, a) ∈ oc_answers c -> (Some k, b) ∈ oc_answers c -> a = b.
Proof.
  intros Hi%out_reach_inv. split; [apply (o_sent c Hi)|].
  intros a b Ha%(o_answers c Hi) Hb%(o_answers c Hi). congruence.
Qed.
End interleaving.

(** * The channel chosen *)

(** The channel is a registered one.  A named channel is one that the name is an
    alias of, and [webchat] under any of its names is refused. *)
Lemma resolve_channel_spec channels requested channel :
  resolve_channel_name_for_send channels requested = Ok channel ->
  (exists names, channels = Some names /\ channel ∈ names)
  /\ match trimmed requested with
     | Some raw => normalize_channel_alias channel = normalize_channel_alias raw
                   /\ normalize_channel_alias channel <> "webchat"
     | None => eq_ignore_ascii_case channel "webchat" = false
     end.
Proof.
  unfold resolve_channel_name_for_send. destruct channels as [l|]; [|done].
  assert (forall p x, find_first p (sort_by (by_str id) l) = Some x -> x ∈ l /\ p x = true) as Hf.
  { intros p x [Hx Hp]%find_first_Some. by apply elem_of_sort_by in Hx. }
  destruct (sort_by (by_str id) l) as [|n ns] eqn:En; [done|]. rewrite <- En in Hf |- *.
  destruct (trimmed requested) as [raw|].
  - destruct (String.eqb_spec (normalize_channel_alias raw) "webchat") as [|Hw]; [done|].
    destruct (find_first _ _) as [found|] eqn:E; [|done]. intros [= <-].
    apply Hf in E as [Hin E%String.eqb_eq]. rewrite E. by eauto.
  - destruct (find_first _ _) as [name|] eqn:E; [|done]. intros [= <-].
    apply Hf in E as [Hin E%negb_true_iff]. by eauto.
Qed.

(** ** Aliases of aliases *)

Lemma lower_byte_cont c : is_utf8_cont (lower_byte c) = is_utf8_cont c.
Proof. by destruct c as [[] [] [] [] [] [] [] []]. Qed.

Lemma lower_byte_idem c : lower_byte (lower_byte c) = lower_byte c.
Proof. by destruct c as [[] [] [] [] [] [] [] []]. Qed.

Lemma lower_idem s : to_ascii_lowercase (to_ascii_lowercase s) = to_ascii_lowercase s.
Proof. induction s as [|c s IH]; [done|]. cbn [to_ascii_lowercase]. by rewrite lower_byte_idem, IH. Qed.

Lemma lower_chars s : chars (to_ascii_lowercase s) = map to_ascii_lowercase (chars s).
Proof.
  induction s as [|c s IH]; [done|]. cbn [to_ascii_lowercase chars]. rewrite IH.
  destruct (chars s) as [|[|d w] ws]; [done|done|].
  cbn [map to_ascii_lowercase]. rewrite lower_byte_cont. by destruct (is_utf8_cont d).
Qed.

(** A byte that is no lower-case letter comes from itself only. *)
Lemma lower_byte_fixed c d : lower_byte c = d -> lower_byte d = d -> (97 <=? nat_of_ascii d) && (nat_of_ascii d <=? 122) = false ->
  c = d.
Proof. intros <-. by destruct c as [[] [] [] [] [] [] [] []]. Qed.

Definition no_letter (c : ascii) : bool := negb ((97 <=? nat_of_ascii c) && (nat_of_ascii c <=? 122)).

Lemma lower_no_letter c w : str_all no_letter w = true -> to_ascii_lowercase c = w -> c = w.
Proof.
  revert w. induction c as [|b c IH]; intros [|d w]; try done. cbn [str_all to_ascii_lowercase].
  intros [Hd%negb_true_iff Hw]%andb_true_iff [= Hb Hc].
  rewrite (IH w Hw Hc). f_equal. apply (lower_byte_fixed b d Hb); [|done]. rewrite <- Hb. apply lower_byte_idem.
Qed.

Lemma lower_whitespace c : is_whitespace (to_ascii_lowercase c) = is_whitespace c.
Proof.
  apply eq_iff_eq_true. unfold is_whitespace. rewrite !existsb_exists.
  assert (forallb (fun w => str_all no_letter w && String.eqb (to_ascii_lowercase w) w) whitespace = true)
    as Hall by (vm_compute; reflexivity).
  rewrite forallb_forall in Hall.
  split; intros (w & Hw & E%String.eqb_eq); pose proof (Hall w Hw) as [H1 H2%String.eqb_eq]%andb_true_iff;
    exists w; (split; [done|]); apply String.eqb_eq.
  - by apply lower_no_letter.
  - by rewrite E.
Qed.

Lemma drop_while_map {A} (p : A -> bool) (f : A -> A) l : (forall x, p (f x) = p x) ->
  drop_while p (map f l) = map f (drop_while p l).
Proof.
  intros H. induction l as [|x l IH]; [done|]. cbn [map drop_while]. rewrite H.
  by destruct (p x).
Qed.

Lemma lower_trim s : to_ascii_lowercase (trim s) = trim (to_ascii_lowercase s).
Proof.
  assert (chars (to_ascii_lowercase (trim s)) = chars (trim (to_ascii_lowercase s))) as H.
  { rewrite lower_chars, !chars_trim, lower_chars. unfold trim_list.
    rewrite drop_while_map by apply lower_whitespace. 
    rewrite <- !map_rev, drop_while_map by apply lower_whitespace. by rewrite <- map_rev. }
  rewrite <- (chars_concat (to_ascii_lowercase (trim s))), H. apply chars_concat.
Qed.

(** The name of a channel is its own alias, trimmed and in lower case. *)
Lemma alias_cases raw : let v := to_ascii_lowercase (trim raw) in
  normalize_channel_alias raw = v
  \/ normalize_channel_alias raw ∈
     ["google_chat"; "nextcloud"; "synology"; "msteams"; "bluebubbles"; "webchat"; "feishu"].
Proof.
  cbv zeta. unfold normalize_channel_alias. set (v := to_ascii_lowercase (trim raw)).
  repeat match goal with |- context [if ?b then _ else _] => destruct b end;
    first [by left | right; apply list_elem_of_In; cbn; tauto].
Qed.

Lemma alias_trim raw : trim (normalize_channel_alias raw) = normalize_channel_alias raw.
Proof.
  destruct (alias_cases raw) as [->|H].
  - by rewrite <- lower_trim, trim_idem.
  - revert H. generalize (normalize_channel_alias raw). intros s Hs.
    rewrite !elem_of_cons, elem_of_nil in Hs. by repeat destruct Hs as [->|Hs].
Qed.

Lemma alias_idem raw : normalize_channel_alias (normalize_channel_alias raw) = normalize_channel_alias raw.
Proof.
  pose proof (alias_trim raw) as Ht. destruct (alias_cases raw) as [E|H].
  - rewrite E in Ht |- *. unfold normalize_channel_alias at 1. rewrite Ht, lower_idem.
    exact E.
  - revert H. generalize (normalize_channel_alias raw). intros s Hs.
    rewrite !elem_of_cons, elem_of_nil in Hs. by repeat destruct Hs as [->|Hs].
Qed.

(** A blank name overrides the channel of the session and picks the first one. *)
Example blank_channel_ignores_session :
  let ctx := Some {| sd_channel := Some "telegram"; sd_to := None; sd_account_id := None;
                     sd_thread_id := None |} in
  let resolve p := resolve_channel_name_for_send (Some ["telegram"; "discord"])
                     (requested_channel p ctx) in
  resolve (jobject []) = Ok "telegram" /\ resolve (jobject [("channel", JStr " ")]) = Ok "discord".
Proof. by vm_compute. Qed.

(** Without a name, a web chat registered under one of its aliases is chosen; by
    that name it is refused. *)
Example default_picks_web_chat :
  resolve_channel_name_for_send (Some ["web-chat"]) None = Ok "web-chat"
  /\ match resolve_channel_name_for_send (Some ["web-chat"]) (Some "web-chat") with
     | Ok _ => False
     | Err e => re_code e = "INVALID_PARAMS"
     end.
Proof. by vm_compute. Qed.

(** * A schedule *)

Fixpoint out_run (ms : list OutMove) (c : OutConf) : option OutConf :=
  match ms with
  | [] => Some c
  | m :: ms' => out_move id true m c ≫= out_run ms'
  end.

Lemma out_reach_run ms c c' : OutReach id true c -> out_run ms c = Some c' -> OutReach id true c'.
Proof.
  revert c. induction ms as [|m ms IH]; intros c Hr H; simpl in H; [by injection H as <-|].
  apply bind_Some in H as (c1 & H1 & H). apply (IH c1); [|done]. by apply (out_reach_move _ _ m c).
Qed.

Definition sending (now : Z) : Env := {|
  e_now := now; e_run_uuid := "run"; e_msg_uuid := "msg"; e_st := fun _ => None;
  e_channels := Some ["telegram"; "webchat"]; e_sent := Ok ("sent-" +:+ pretty now) |}.
Definition hello : json :=
  jobject [("idempotencyKey", JStr "K"); ("to", JStr "42"); ("message", JStr "hi")].
(** Two requests with one key: the second waits at its gate while the first sends. *)
Definition two_sends : list OutMove :=
  [NewRequest 0 hello; NewRequest 1 hello; StepRequest 1 (sending 1)]
  ++ replicate 7 (StepRequest 0 (sending 2)) ++ replicate 2 (StepRequest 1 (sending 3)).

Lemma keyed_send_once_witness : exists c,
  out_run two_sends (out_init Db_empty) = Some c
  /\ (exists a, oc_answers c = [(Some "K", a); (Some "K", a)])
  /\ sent_with "K" (oc_sent c) = 1 /\ sent_with "K" (oc_sent c) <= 1.
Proof.
  destruct (out_run two_sends (out_init Db_empty)) as [c|] eqn:E; [|exfalso; vm_compute in E; discriminate].
  assert (OutReach id true c) as Hr.
  { apply (out_reach_run two_sends (out_init Db_empty)); [constructor|exact E]. }
  exists c. split; [reflexivity|]. split; [|split].
  - vm_compute in E. injection E as <-. by eexists.
  - vm_compute in E. by injection E as <-.
  - exact (proj1 (keyed_send_once id true c "K" Hr)).
Defined.
