(* ===== verification/AgentRuns.v ===== *)
(** Agent runs ([agent] and [agent.wait] in [crates/gateway-core/src/http.rs]):
    the request that starts a run, the run's task and the polling of its result.

    Requests and tasks are threads; a step is one critical section or a group of
    calls to the session store.  A request carries the identifier it draws when it
    has no idempotency key.  The model run is an input: its reply and what it does to the
    session store. *)

From Stdlib Require Import Strings.String.
From S2P Require Import Prelude RustStr Json ConfigStore Attachments SessionStore Gate Outbound.
#[local] Open Scope string_scope.
#[local] Open Scope nat_scope.
#[local] Open Scope list_scope.
#[local] Open Scope rust_scope.

(** * State *)

Record AgentRunRecord := {
  ar_run_id : string;
  ar_status : string;
  ar_started_at_ms : Z;
  ar_ended_at_ms : option Z;
  ar_error : option string;
  ar_result : option json;
}.

Definition running (run : AgentRunRecord) : bool := String.eqb (ar_status run) "running".

(** [ag_gates] are the keys whose permit is taken. *)
Record AgState := {
  ag_idem : gmap string string;
  ag_runs : gmap string AgentRunRecord;
  ag_gates : gset string;
  ag_db : Db;
  ag_counters : Counters;
}.

Definition put_idem (x : gmap string string) (s : AgState) : AgState := {|
  ag_idem := x; ag_runs := ag_runs s; ag_gates := ag_gates s; ag_db := ag_db s;
  ag_counters := ag_counters s |}.
Definition put_runs (x : gmap string AgentRunRecord) (s : AgState) : AgState := {|
  ag_idem := ag_idem s; ag_runs := x; ag_gates := ag_gates s; ag_db := ag_db s;
  ag_counters := ag_counters s |}.
Definition put_permits (x : gset string) (s : AgState) : AgState := {|
  ag_idem := ag_idem s; ag_runs := ag_runs s; ag_gates := x; ag_db := ag_db s;
  ag_counters := ag_counters s |}.
Definition put_store (db : Db) (c : Counters) (s : AgState) : AgState := {|
  ag_idem := ag_idem s; ag_runs := ag_runs s; ag_gates := ag_gates s; ag_db := db;
  ag_counters := c |}.

(** What a step gets from outside. *)
Record AgEnv := {
  ae_now : Z;
  ae_msg_uuid : string;
  ae_st : nat -> option string;
  ae_channels : option (list string);
  ae_provider : bool;
  ae_reply : result string string;
  ae_store : Db -> Db;
  ae_media : option json;
  ae_sent : result string string;
}.

(** * The request *)

Inductive AgPc :=
| AgStart
| AgGate (message : string)
| AgDedupe (message : string)
| AgReset (message : string) (images : list ParsedImageAttachment)
| AgPolicy (message : string)
| AgKey (message : string) (ctx : option SessionDeliveryContext)
| AgRecord (message : string) (ctx : option SessionDeliveryContext)
| AgChannel (message : string) (ctx : option SessionDeliveryContext).

(** A run's task: the steps left. *)
Inductive RunPc :=
| RnModel
| RnDeliver (reply : string)
| RnPersist (reply : string) (message_id : string)
| RnRecord (status : string) (error : option string) (result : option json).
Record RunTask := {
  rt_run_id : string;
  rt_session : option string;
  rt_message : string;
  rt_deliver : bool;
  rt_channel : string;
  rt_to : option string;
  rt_thread_id : option string;
  rt_account_id : option string;
  rt_timeout_ms : Z;
  rt_pc : RunPc;
}.
Definition at_pc (pc : RunPc) (t : RunTask) : RunTask := {|
  rt_run_id := rt_run_id t; rt_session := rt_session t; rt_message := rt_message t;
  rt_deliver := rt_deliver t; rt_channel := rt_channel t; rt_to := rt_to t;
  rt_thread_id := rt_thread_id t; rt_account_id := rt_account_id t;
  rt_timeout_ms := rt_timeout_ms t; rt_pc := pc |}.

Definition run_fields (run : AgentRunRecord) : list (string * json) := [
  ("runId", JStr (ar_run_id run)); ("status", JStr (ar_status run));
  ("startedAt", JInt (ar_started_at_ms run)); ("endedAt", jopt JInt (ar_ended_at_ms run));
  ("error", jopt JStr (ar_error run)); ("result", default JNull (ar_result run))].

Definition str_hint (p : json) (k1 k2 : string) : option string :=
  trimmed (or_else (get k1 p) (get k2 p) ≫= as_str).
Definition channel_hint (p : json) (ctx : option SessionDeliveryContext) : option string :=
  or_else (str_hint p "replyChannel" "channel") (ctx ≫= sd_channel).
Definition to_hint (p : json) (ctx : option SessionDeliveryContext) : option string :=
  or_else (str_hint p "replyTo" "to") (ctx ≫= sd_to).
Definition deliver_of (p : json) : bool := default false (get_bool "deliver" p).
Definition run_timeout_ms (p : json) : Z :=
  Z.max 1000 (Z.min 900000 (default 300000%Z (or_else (get "timeoutMs" p) (get "timeout" p) ≫= as_u64))).

Definition validated_channel (channels : option (list string)) (p : json)
    (ctx : option SessionDeliveryContext) : result string RpcError :=
  if deliver_of p then
    let? name := match channel_hint p ctx with
                 | Some name => Ok name
                 | None => resolve_channel_name_for_send channels None
                 end in
    match to_hint p ctx with
    | None => Err (rpc_error "INVALID_PARAMS" "deliver=true requires to/replyTo")
    | Some _ => resolve_channel_name_for_send channels (Some name)
    end
  else match channel_hint p ctx with
       | Some name => resolve_channel_name_for_send channels (Some name)
       | None => Ok ""
       end.

(** The answer to a request whose key has started a run. *)
Definition known_run (now : Z) (run_id : string) (s : AgState) : json :=
  match ag_runs s !! run_id with
  | Some run =>
      if running run
      then jobject [("runId", JStr run_id); ("status", JStr "accepted"); ("acceptedAt", JInt now);
                    ("cached", JBool true)]
      else jobject (run_fields run ++ [("cached", JBool true)])
  | None => jobject [("runId", JStr run_id); ("status", JStr "accepted"); ("acceptedAt", JInt now);
                     ("cached", JBool true)]
  end.

Section agent.
Variable b64_encode : string -> string.
Variable b64_decode : string -> option string.
Variable guess_format : string -> option string.
Variable fk : bool.
Variable order : list (string * string) -> list (string * string).

(** [/new] and [/reset] clear the session, which is created when there is none. *)
Definition agent_reset (env : AgEnv) (p : json) (message : string) (s : AgState)
  : result string RpcError * AgState :=
  match session_key_of p, parse_session_reset_command message with
  | Some key, Some (_, prompt) =>
      let '(r, db) := match get_session key (ag_db s) with
                      | Some _ => (Ok tt, ag_db s)
                      | None =>
                          let '(r, db) := create_session (ae_st env) key "default" (ae_now env) (ag_db s) in
                          (let? _ := session_error r in Ok tt, db)
                      end in
      match r with
      | Err e => (Err e, put_store db (ag_counters s) s)
      | Ok _ =>
          let '(r, db) := clear_messages (ae_st env) key (ae_now env) db in
          match session_error r with
          | Err e => (Err e, put_store db (ag_counters s) s)
          | Ok _ => (Ok (default BARE_SESSION_RESET_PROMPT prompt),
                     put_store db (clear_session_counters key (ag_counters s)) s)
          end
      end
  | _, _ => (Ok message, s)
  end.

Definition permit_back (p : json) (s : AgState) : AgState :=
  match idempotency_key p with Some k => put_permits (ag_gates s ∖ {[k]}) s | None => s end.

Definition run_id_of (p : json) (uuid : string) : string := default uuid (idempotency_key p).

Definition started_run (run_id : string) (now : Z) : AgentRunRecord := {|
  ar_run_id := run_id; ar_status := "running"; ar_started_at_ms := now; ar_ended_at_ms := None;
  ar_error := None; ar_result := None |}.

(** One step of [agent]: the next step or the answer, the state, and the task it
    spawns.  [None]: the permit is taken. *)
Definition rpc_agent_step (env : AgEnv) (p : json) (uuid : string) (pc : AgPc) (s : AgState)
  : option ((AgPc + RpcResult) * AgState * option RunTask) :=
  let idem := idempotency_key p in
  match pc with
  | AgStart =>
      match sanitize_chat_send_message_input (default "" (get_str "message" p)) with
      | Err e => Some (inr (Err e), s, None)
      | Ok message => Some (inl (AgGate message), s, None)
      end
  | AgGate message =>
      match idem with
      | Some k => if bool_decide (k ∈ ag_gates s) then None
                  else Some (inl (AgDedupe message), put_permits ({[k]} ∪ ag_gates s) s, None)
      | None => Some (inl (AgDedupe message), s, None)
      end
  | AgDedupe message =>
      match idem ≫= fun k => ag_idem s !! k with
      | Some run_id => Some (inr (Ok (known_run (ae_now env) run_id s)), permit_back p s, None)
      | None =>
          match parse_rpc_attachments_for_chat b64_encode b64_decode guess_format
                  (get "attachments" p) CHAT_ATTACHMENT_MAX_BYTES with
          | Err e => Some (inr (Err e), permit_back p s, None)
          | Ok parsed =>
              if String.eqb (trim message) "" && (pa_normalized_count parsed =? 0)
              then Some (inr (Err (rpc_error "INVALID_PARAMS"
                           "invalid agent params: message or attachment required")), permit_back p s, None)
              else Some (inl (AgReset message (pa_images parsed)), s, None)
          end
      end
  | AgReset message images =>
      match agent_reset env p message s with
      | (Err e, s') => Some (inr (Err e), permit_back p s', None)
      | (Ok message', s') =>
          Some (inl (AgPolicy (build_message_with_image_attachments message' images)), s', None)
      end
  | AgPolicy message =>
      let denied := match session_key_of p with
                    | Some key => session_send_policy_denied (get_session_metadata key (ag_db s))
                    | None => false
                    end in
      if denied then Some (inr (Err (rpc_error "INVALID_PARAMS" "send blocked by session policy")),
                           permit_back p s, None)
      else if negb (ae_provider env)
           then Some (inr (Err (rpc_error "NO_PROVIDER" "No LLM provider configured")), permit_back p s, None)
           else Some (inl (AgKey message
                  ((fun key => load_session_delivery_context key (ag_db s)) <$> session_key_of p)), s, None)
  | AgKey message ctx =>
      Some (inl (AgRecord message ctx),
            match idem with Some k => put_idem (<[k := run_id_of p uuid]> (ag_idem s)) s | None => s end,
            None)
  | AgRecord message ctx =>
      let run_id := run_id_of p uuid in
      Some (inl (AgChannel message ctx),
            put_runs (<[run_id := started_run run_id (ae_now env)]> (ag_runs s)) s, None)
  | AgChannel message ctx =>
      match validated_channel (ae_channels env) p ctx with
      | Err e => Some (inr (Err e), permit_back p s, None)
      | Ok channel =>
          let run_id := run_id_of p uuid in
          Some (inr (Ok (jobject [("runId", JStr run_id); ("status", JStr "accepted");
                                  ("acceptedAt", JInt (ae_now env))])),
                permit_back p s,
                Some {| rt_run_id := run_id; rt_session := session_key_of p; rt_message := message;
                        rt_deliver := deliver_of p; rt_channel := channel; rt_to := to_hint p ctx;
                        rt_thread_id := or_else (trimmed (get_str "threadId" p)) (ctx ≫= sd_thread_id);
                        rt_account_id := or_else (str_hint p "replyAccountId" "accountId")
                                           (ctx ≫= sd_account_id);
                        rt_timeout_ms := run_timeout_ms p; rt_pc := RnModel |})
      end
  end.

(** * The task of a run *)

Definition run_message (env : AgEnv) (t : RunTask) (reply : string) : ChannelMessage := {|
  cm_id := ae_msg_uuid env; cm_channel := rt_channel t; cm_sender := "rpc-agent"; cm_content := reply;
  cm_timestamp := ae_now env;
  cm_metadata := resolve_outbound_target_metadata (default "" (rt_to t)) (rt_thread_id t) (rt_account_id t) |}.

Definition delivery_ok (t : RunTask) (to message_id : string) : json := jobject [
  ("channel", JStr (rt_channel t)); ("to", JStr to); ("threadId", jopt JStr (rt_thread_id t));
  ("accountId", jopt JStr (rt_account_id t)); ("messageId", JStr message_id)].
Definition delivery_failed (t : RunTask) (to e : string) : json := jobject [
  ("channel", JStr (rt_channel t)); ("to", JStr to); ("error", JStr e)].

(** The result with the media that was understood. *)
Definition with_media (env : AgEnv) (result : option json) : option json :=
  match ae_media env with
  | None => result
  | Some media => match result with
                  | Some payload => Some (attach_media_debug_to_payload payload (Some media))
                  | None => Some (jobject [("media", media)])
                  end
  end.

Definition run_done (env : AgEnv) (status : string) (error : option string) (result : option json)
    (t : RunTask) : RunTask := at_pc (RnRecord status error (with_media env result)) t.

Definition ended_run (status : string) (error : option string) (result : option json) (now : Z)
    (run : AgentRunRecord) : AgentRunRecord := {|
  ar_run_id := ar_run_id run; ar_status := status; ar_started_at_ms := ar_started_at_ms run;
  ar_ended_at_ms := Some now; ar_error := error; ar_result := result |}.

(** One step of the task: what is left, the state, and the message a channel took. *)
Definition run_task_step (env : AgEnv) (t : RunTask) (s : AgState)
  : option RunTask * AgState * option ChannelMessage :=
  match rt_pc t with
  | RnModel =>
      let s' := put_store (ae_store env (ag_db s)) (ag_counters s) s in
      match ae_reply env with
      | Err e => (Some (run_done env "error" (Some e) None t), s', None)
      | Ok reply =>
          if rt_deliver t && bool_decide (is_Some (ae_channels env)) && bool_decide (is_Some (rt_to t))
          then (Some (at_pc (RnDeliver reply) t), s', None)
          else (Some (run_done env "ok" None (Some (jobject [("reply", JStr reply)])) t), s', None)
      end
  | RnDeliver reply =>
      let to := default "" (rt_to t) in
      match ae_sent env with
      | Ok message_id => (Some (at_pc (RnPersist reply message_id) t), s, Some (run_message env t reply))
      | Err e => (Some (run_done env "error" (Some ("delivery failed: " +:+ e))
                    (Some (jobject [("reply", JStr reply); ("delivery", delivery_failed t to e)])) t),
                  s, None)
      end
  | RnPersist reply message_id =>
      let to := default "" (rt_to t) in
      let s' := match rt_session t with
                | Some key => put_store (persist_session_delivery_context fk order (ae_st env) key
                    (Some (rt_channel t)) (Some to) (rt_account_id t) (rt_thread_id t) (ag_db s)).2
                    (ag_counters s) s
                | None => s
                end in
      (Some (run_done env "ok" None
         (Some (jobject [("reply", JStr reply); ("delivery", delivery_ok t to message_id)])) t), s', None)
  | RnRecord status error result =>
      (None, put_runs (alter (ended_run status error result (ae_now env)) (rt_run_id t) (ag_runs s)) s, None)
  end.
End agent.

(** * Waiting for a run *)

Definition wait_timeout_ms (p : json) : Z :=
  Z.min 600000 (default 30000%Z (get_u64 "timeoutMs" p)).

(** One round of the loop at time [now]; [None]: sleep and look again. *)
Definition wait_round (run_id : string) (deadline now : Z) (runs : gmap string AgentRunRecord)
  : option RpcResult :=
  match runs !! run_id with
  | None => Some (Err (rpc_error "NOT_FOUND" ("run not found: " +:+ run_id)))
  | Some run =>
      if negb (running run) then Some (Ok (jobject (run_fields run)))
      else if (deadline <=? now)%Z
           then Some (Ok (jobject [("runId", JStr run_id); ("status", JStr "timeout")]))
           else None
  end.

(** The rounds see the runs at the times of a schedule. *)
Fixpoint wait_loop (run_id : string) (deadline : Z)
    (rounds : list (Z * gmap string AgentRunRecord)) : option RpcResult :=
  match rounds with
  | [] => None
  | (now, runs) :: rest => match wait_round run_id deadline now runs with
                           | Some r => Some r
                           | None => wait_loop run_id deadline rest
                           end
  end.

Definition rpc_agent_wait (start : Z) (p : json) (rounds : list (Z * gmap string AgentRunRecord))
  : option RpcResult :=
  match trimmed (get_str "runId" p) with
  | None => Some (Err (missing "runId"))
  | Some run_id => wait_loop run_id (start + wait_timeout_ms p) rounds
  end.

Lemma wait_loop_spec run_id deadline rounds r :
  wait_loop run_id deadline rounds = Some r ->
  exists now runs, (now, runs) ∈ rounds /\ wait_round run_id deadline now runs = Some r.
Proof.
  induction rounds as [|[now runs] rest IH]; simpl; [done|].
  destruct (wait_round run_id deadline now runs) as [r'|] eqn:E.
  - intros [= <-]. exists now, runs. split; [by left|done].
  - intros (t & m & ? & ?)%IH. exists t, m. split; [by right|done].
Qed.

Lemma wait_loop_ends run_id deadline rounds n now runs :
  rounds !! n = Some (now, runs) -> (deadline <= now)%Z -> is_Some (wait_loop run_id deadline rounds).
Proof.
  revert n. induction rounds as [|[t m] rest IH]; intros n Hn Hd; [done|]. simpl.
  destruct (wait_round run_id deadline t m) as [r|] eqn:E; [by eexists|].
  destruct n as [|n]; [|by apply (IH n)]. injection Hn as -> ->. unfold wait_round in E.
  destruct (runs !! run_id) as [run|]; [|done]. destruct (negb (running run)); [done|].
  apply Z.leb_le in Hd. by rewrite Hd in E.
Qed.

Lemma wait_timeout_le p : (wait_timeout_ms p <= 600000)%Z.
Proof. unfold wait_timeout_ms. lia. Qed.

(** C10. [agent.wait] answers: when every round is at least 100 ms after the one
    before, within 6001 rounds.  The answer is the record of the run when it has
    ended, an error when there is no such run, and a time-out only at or after the
    deadline while the run is listed as running. *)
Theorem agent_wait_answers start p rounds :
  (forall n now runs, rounds !! n = Some (now, runs) -> (start + 100 * Z.of_nat n <= now)%Z) ->
  (6001 <= Z.of_nat (length rounds))%Z ->
  exists r, rpc_agent_wait start p rounds = Some r
  /\ match trimmed (get_str "runId" p) with
     | None => r = Err (missing "runId")
     | Some run_id => exists now runs, (now, runs) ∈ rounds
         /\ match runs !! run_id with
            | None => r = Err (rpc_error "NOT_FOUND" ("run not found: " +:+ run_id))
            | Some run =>
                if running run
                then (start + wait_timeout_ms p <= now)%Z
                     /\ r = Ok (jobject [("runId", JStr run_id); ("status", JStr "timeout")])
                else r = Ok (jobject (run_fields run))
            end
     end.
Proof.
  intros Ht Hl. unfold rpc_agent_wait. destruct (trimmed (get_str "runId" p)) as [run_id|]; [|by eauto].
  destruct (lookup_lt_is_Some_2 rounds (Z.to_nat 6000)) as [[now runs] Hn]; [lia|].
  pose proof (Ht _ _ _ Hn) as Hnow. pose proof (wait_timeout_le p).
  destruct (wait_loop_ends run_id (start + wait_timeout_ms p) rounds (Z.to_nat 6000) now runs Hn) as [r Hr]; [lia|].
  exists r. split; [done|]. apply wait_loop_spec in Hr as (t & m & Hin & Hr). exists t, m. split; [done|].
  unfold wait_round in Hr. destruct (m !! run_id) as [run|]; [|by injection Hr].
  destruct (running run); simpl in Hr; [|by injection Hr].
  destruct (Z.leb_spec (start + wait_timeout_ms p) t); [|done]. injection Hr as <-. done.
Qed.

(** * Interleavings *)

(** The threads, the identifiers drawn and the identifiers runs were started
    with. *)
Record AgConf := {
  gc_state : AgState;
  gc_requests : gmap nat (json * string * AgPc);
  gc_tasks : gmap nat RunTask;
  gc_used : gset string;
  gc_spawned : list string;
}.

Inductive AgMove :=
| AgNew (i : nat) (p : json) (uuid : string)
| AgStep (i j : nat) (env : AgEnv)
| AgTask (j : nat) (env : AgEnv).

Definition req_key (t : json * string * AgPc) : option string := idempotency_key t.1.1.
Definition req_past (t : json * string * AgPc) : bool :=
  match t.2 with AgStart | AgGate _ => false | _ => true end.
Definition req_id (t : json * string * AgPc) : string := run_id_of t.1.1 t.1.2.
Definition keyed (t : json * string * AgPc) : bool := bool_decide (is_Some (req_key t)).

Definition spawned_as (r : string) (l : list string) : nat := length (filter (fun x => x = r) l).

Section interleaving.
Variable b64_encode : string -> string.
Variable b64_decode : string -> option string.
Variable guess_format : string -> option string.
Variable fk : bool.
Variable order : list (string * string) -> list (string * string).
#[local] Abbreviation rpc_agent_step := (rpc_agent_step b64_encode b64_decode guess_format).
#[local] Abbreviation run_task_step := (run_task_step fk order).

(** One move; [j] names the task a request spawns. *)
Definition ag_move (m : AgMove) (c : AgConf) : option AgConf :=
  match m with
  | AgNew i p uuid =>
      match gc_requests c !! i with
      | Some _ => None
      | None => Some {| gc_state := gc_state c; gc_requests := <[i := (p, uuid, AgStart)]> (gc_requests c);
                        gc_tasks := gc_tasks c; gc_used := {[uuid]} ∪ gc_used c; gc_spawned := gc_spawned c |}
      end
  | AgStep i j env =>
      '(p, uuid, pc) ← gc_requests c !! i;
      '(out, s', task) ← rpc_agent_step env p uuid pc (gc_state c);
      match gc_tasks c !! j with
      | Some _ => None
      | None =>
          Some {| gc_state := s'; gc_requests := put i (((p, uuid),.) <$> left_of out) (gc_requests c);
                  gc_tasks := match task with Some t => <[j := t]> (gc_tasks c) | None => gc_tasks c end;
                  gc_used := gc_used c;
                  gc_spawned := gc_spawned c ++ (rt_run_id <$> option_list task) |}
      end
  | AgTask j env =>
      t ← gc_tasks c !! j;
      let '(next, s', _) := run_task_step env t (gc_state c) in
      Some {| gc_state := s'; gc_requests := gc_requests c; gc_tasks := put j next (gc_tasks c);
              gc_used := gc_used c; gc_spawned := gc_spawned c |}
  end.

(** Identifiers the gateway draws are new and are no client's idempotency key. *)
Variable client_key : string -> bool.
Definition ag_allowed (m : AgMove) (c : AgConf) : Prop :=
  match m with
  | AgNew _ p uuid => client_key uuid = false /\ uuid ∉ gc_used c
                      /\ forall k, idempotency_key p = Some k -> client_key k = true
  | _ => True
  end.

Definition ag_init (db : Db) (counters : Counters) : AgConf := {|
  gc_state := {| ag_idem := ∅; ag_runs := ∅; ag_gates := ∅; ag_db := db; ag_counters := counters |};
  gc_requests := ∅; gc_tasks := ∅; gc_used := ∅; gc_spawned := [] |}.

Inductive AgReach : AgConf -> Prop :=
| ag_reach_init db counters : AgReach (ag_init db counters)
| ag_reach_move m c c' : AgReach c -> ag_allowed m c -> ag_move m c = Some c' -> AgReach c'.

(** What a request knows about its run identifier: what its key maps to, the
    record of the run and the runs started. *)
Definition unseen (rec : option AgentRunRecord) (n : nat) : Prop := rec = None /\ n = 0.
Definition req_ok (has_key : bool) (pc : AgPc) (kept : option string) (rec : option AgentRunRecord)
    (n : nat) : Prop :=
  match pc with
  | AgStart | AgGate _ => has_key = false -> unseen rec n
  | AgDedupe _ => (has_key = true -> kept = None) -> unseen rec n
  | AgReset _ _ | AgPolicy _ | AgKey _ _ => unseen rec n
  | AgRecord _ _ => unseen rec n /\ (has_key = true -> is_Some kept)
  | AgChannel _ _ => n = 0 /\ (exists run, rec = Some run /\ running run = true)
                     /\ (has_key = true -> is_Some kept)
  end.

Definition rec_at (s : AgState) (t : json * string * AgPc) := ag_runs s !! req_id t.
Definition kept_at (s : AgState) (t : json * string * AgPc) := ag_idem s !! req_id t.

Record AgInv (c : AgConf) : Prop := {
  v_gates : GateInv req_key req_past (gc_requests c) (ag_gates (gc_state c));
  v_key : forall i t k, gc_requests c !! i = Some t -> req_key t = Some k -> client_key k = true;
  v_uuid : forall i t, gc_requests c !! i = Some t ->
    client_key t.1.2 = false /\ t.1.2 ∈ gc_used c;
  v_distinct : forall i j t u, gc_requests c !! i = Some t -> gc_requests c !! j = Some u ->
    t.1.2 = u.1.2 -> i = j;
  v_req : forall i t, gc_requests c !! i = Some t ->
    req_ok (keyed t) t.2 (kept_at (gc_state c) t) (rec_at (gc_state c) t)
      (spawned_as (req_id t) (gc_spawned c));
  v_free : forall k, client_key k = true -> ag_idem (gc_state c) !! k = None ->
    unseen (ag_runs (gc_state c) !! k) (spawned_as k (gc_spawned c));
  v_fresh : forall r, client_key r = false -> r ∉ gc_used c ->
    unseen (ag_runs (gc_state c) !! r) (spawned_as r (gc_spawned c));
  v_once : forall r, spawned_as r (gc_spawned c) <= 1;
  v_task : forall j t, gc_tasks c !! j = Some t ->
    spawned_as (rt_run_id t) (gc_spawned c) = 1
    /\ exists run, ag_runs (gc_state c) !! rt_run_id t = Some run /\ running run = true;
  v_one : forall j j' t u, gc_tasks c !! j = Some t -> gc_tasks c !! j' = Some u ->
    rt_run_id t = rt_run_id u -> j = j';
}.

(** A step seen from the run identifier of its request. *)
Record AgShape (t : json * string * AgPc) (s : AgState) (out : AgPc + RpcResult) (s' : AgState)
    (task : option RunTask) : Prop := {
  h_gates : ag_gates s' = gates_after req_key req_past t ((t.1,.) <$> left_of out) (ag_gates s);
  h_step : GateStep req_key req_past t ((t.1,.) <$> left_of out) (ag_gates s);
  h_own : forall n, n <= 1 ->
    (forall k, req_key t = Some k -> k ∉ ag_gates s -> kept_at s t = None -> unseen (rec_at s t) n) ->
    req_ok (keyed t) t.2 (kept_at s t) (rec_at s t) n ->
    let n' := n + length (option_list task) in
    n' <= 1
    /\ (forall pc', left_of out = Some pc' -> req_ok (keyed t) pc' (kept_at s' t) (rec_at s' t) n')
    /\ (keyed t = true -> kept_at s' t = None -> kept_at s t = None /\ (unseen (rec_at s t) n -> unseen (rec_at s' t) n'))
    /\ (forall run, rec_at s t = Some run -> rec_at s' t = Some run)
    /\ (forall u, task = Some u -> n = 0 /\ rt_run_id u = req_id t
          /\ exists run, rec_at s' t = Some run /\ running run = true);
  h_other : forall r, r <> req_id t -> ag_runs s' !! r = ag_runs s !! r /\ ag_idem s' !! r = ag_idem s !! r;
  h_quiet : req_past t = false -> ag_runs s' = ag_runs s /\ ag_idem s' = ag_idem s /\ task = None;
}.

Lemma ag_answer t s r s1 task s' :
  req_past t = true -> s' = permit_back t.1.1 s1 ->
  ag_gates s1 = ag_gates s -> ag_runs s1 = ag_runs s -> ag_idem s1 = ag_idem s ->
  (forall u, task = Some u -> rt_run_id u = req_id t /\ exists m c, t.2 = AgChannel m c) ->
  AgShape t s (inr r) s' task.
Proof.
  intros Hp -> Hg Hr Hk Ht.
  assert (ag_runs (permit_back t.1.1 s1) = ag_runs s /\ ag_idem (permit_back t.1.1 s1) = ag_idem s) as [Er Ek].
  { unfold permit_back. by destruct (idempotency_key t.1.1). }
  constructor; simpl; rewrite ?Er, ?Ek; try done.
  - unfold permit_back, gates_after, req_key. rewrite Hp. simpl.
    by destruct (idempotency_key t.1.1); simpl; rewrite Hg.
  - intros n Hn _ Hok. unfold rec_at, kept_at in *. rewrite Er, Ek. destruct task as [u|]; simpl.
    + destruct (Ht u eq_refl) as (Hu & m & c & E). rewrite E in Hok. destruct Hok as (-> & Hrun & Hs).
      split_and!; try done; [|by intros ? [= <-]]. intros H1 H2. destruct (Hs H1). congruence.
    + rewrite Nat.add_0_r. by split_and!.
  - by rewrite Hp.
Qed.

Lemma ag_next t s pc' s' :
  ag_gates s' = gates_after req_key req_past t (Some (t.1, pc')) (ag_gates s) ->
  (req_past t = true -> req_past (t.1, pc') = true) ->
  (req_past t = false -> req_past (t.1, pc') = true -> forall k, req_key t = Some k -> k ∉ ag_gates s) ->
  ag_runs s' = ag_runs s -> ag_idem s' = ag_idem s ->
  (forall kept rec n,
    (forall k, req_key t = Some k -> k ∉ ag_gates s -> kept = None -> unseen rec n) ->
    req_ok (keyed t) t.2 kept rec n -> req_ok (keyed t) pc' kept rec n) ->
  AgShape t s (inl pc') s' None.
Proof.
  intros Hg Hp Hf Hr Hk Hok. constructor; simpl; rewrite ?Hr, ?Hk; try done.
  - split; [|done]. by intros u [= <-].
  - intros n Hn Hfree Ho. unfold rec_at, kept_at in *. rewrite Hr, Hk, Nat.add_0_r.
    split_and!; try done. intros ? [= <-]. by apply Hok.
Qed.

Lemma agent_reset_state env p message s :
  let s' := (agent_reset env p message s).2 in
  ag_gates s' = ag_gates s /\ ag_runs s' = ag_runs s /\ ag_idem s' = ag_idem s.
Proof. unfold agent_reset. by repeat case_match; simplify_eq/=. Qed.

Lemma gates_same t pc' g : req_past (t.1, pc') = req_past t ->
  g = gates_after req_key req_past t (Some (t.1, pc')) g.
Proof.
  intros E. unfold gates_after. simpl. rewrite E. destruct (req_key t); [|done].
  by destruct (req_past t).
Qed.

Lemma rpc_agent_shape env p uuid pc s out s' task :
  rpc_agent_step env p uuid pc s = Some (out, s', task) -> AgShape (p, uuid, pc) s out s' task.
Proof.
  unfold AgentRuns.rpc_agent_step. destruct pc as [|m|m|m im|m|m c|m c|m c]; intros H.
  - destruct (sanitize_chat_send_message_input _) as [m|e]; simplify_eq.
    + apply ag_next; try done. by apply gates_same.
    + constructor; simpl; try done.
      * unfold gates_after. simpl. by destruct (req_key (p, uuid, AgStart)).
      * intros n Hn _ Hok. rewrite Nat.add_0_r. by split_and!.
  - destruct (idempotency_key p) as [k|] eqn:Ek.
    + case_bool_decide as Hk; [done|]. simplify_eq. apply ag_next; try done; simpl.
      * unfold gates_after, req_key. simpl. by rewrite Ek.
      * intros _ _ k'. unfold req_key. simpl. rewrite Ek. by intros [= <-].
      * intros kept rec n Hfree _ Hkept. unfold keyed, req_key in *. simpl in *. rewrite Ek in *.
        apply (Hfree k); try done. apply Hkept. by rewrite bool_decide_true by eauto.
    + simplify_eq. apply ag_next; try done; simpl.
      * unfold gates_after, req_key. simpl. by rewrite Ek.
      * unfold req_key. simpl. by rewrite Ek.
      * intros kept rec n _ Hu _. apply Hu. unfold keyed, req_key. simpl. rewrite Ek.
        apply bool_decide_false. by intros [].
  - destruct (idempotency_key p ≫= _) as [r|] eqn:E; simplify_eq; [by apply (ag_answer _ _ _ s)|].
    destruct (parse_rpc_attachments_for_chat _ _ _ _ _) as [parsed|e]; simplify_eq;
      [|by apply (ag_answer _ _ _ s)].
    destruct (String.eqb (trim m) "" && _); simplify_eq; [by apply (ag_answer _ _ _ s)|].
    constructor; simpl; try done.
    + by apply gates_same.
    + split; [by intros u [= <-]|done].
    + intros n Hn _ Hok. rewrite Nat.add_0_r. split_and!; try done. intros ? [= <-]. apply Hok.
      unfold keyed, kept_at, req_key, req_id, run_id_of. simpl. intros [k Hk]%bool_decide_eq_true.
      rewrite Hk in E |- *. done.
  - destruct (agent_reset_state env p m s) as (Hg & Hr & Hk).
    destruct (agent_reset env p m s) as [[m'|e] s1]; simplify_eq/=.
    + apply ag_next; try done. simpl. rewrite Hg. by apply gates_same.
    + by apply (ag_answer _ _ _ s1).
  - destruct (match session_key_of p with Some _ => _ | None => _ end); simplify_eq;
      [by apply (ag_answer _ _ _ s)|].
    destruct (negb (ae_provider env)); simplify_eq; [by apply (ag_answer _ _ _ s)|].
    apply ag_next; try done. by apply gates_same.
  - simplify_eq. constructor; simpl.
    + by destruct (idempotency_key p); apply gates_same.
    + split; [by intros u [= <-]|done].
    + intros n Hn _ [Hr ->]. unfold rec_at, kept_at, keyed, req_id, req_key, run_id_of in *.
      simpl in *. destruct (idempotency_key p) as [k|] eqn:Ek; simpl in *; rewrite ?lookup_insert_eq.
      * split_and!; try done. intros ? [= <-]. split; [by split|by eauto].
      * split_and!; try done. intros ? [= <-]. split; [by split|done].
    + intros r Hr. unfold req_id, run_id_of in *. simpl in Hr.
      destruct (idempotency_key p) as [k|]; [|done]. simpl in *. by rewrite lookup_insert_ne.
    + done.
  - simplify_eq. constructor; simpl; try done.
    + by apply gates_same.
    + split; [by intros u [= <-]|done].
    + intros n Hn _ [[Hr ->] Hkept]. unfold rec_at, kept_at in *. unfold req_id in *. simpl in *.
      rewrite lookup_insert_eq, Hr. split_and!; try done.
      * intros ? [= <-]. simpl. split_and!; [done| |done]. by eexists.
      * intros H1 H2. destruct (Hkept H1). congruence.
    + intros r Hr. unfold req_id in Hr. simpl in Hr. by rewrite lookup_insert_ne.
  - destruct (validated_channel (ae_channels env) p c) as [channel|e]; simplify_eq;
      [|by apply (ag_answer _ _ _ s)].
    apply (ag_answer _ _ _ s); try done. intros u [= <-]. eauto.
Qed.

Lemma spawned_app r l1 l2 : spawned_as r (l1 ++ l2) = spawned_as r l1 + spawned_as r l2.
Proof. unfold spawned_as. by rewrite filter_app, length_app. Qed.

Lemma spawned_task r (task : option RunTask) :
  (forall u, task = Some u -> rt_run_id u = r) -> spawned_as r (rt_run_id <$> option_list task)
  = length (option_list task).
Proof.
  intros H. unfold spawned_as. destruct task as [u|]; simpl; [|done].
  rewrite filter_cons_True; [done|]. by apply H.
Qed.

Lemma spawned_other r (task : option RunTask) :
  (forall u, task = Some u -> rt_run_id u <> r) -> spawned_as r (rt_run_id <$> option_list task) = 0.
Proof.
  intros H. unfold spawned_as. destruct task as [u|]; simpl; [|done].
  rewrite filter_cons_False; [done|]. by apply H.
Qed.

(** What a step does for the identifier of a request that a run has used. *)
Lemma req_ok_used hk pc kept rec rec' n : n <> 0 -> req_ok hk pc kept rec n -> req_ok hk pc kept rec' n.
Proof. unfold unseen. destruct pc; simpl; unfold unseen; naive_solver. Qed.

Section request_inv.
Variables (c : AgConf) (i j : nat) (t : json * string * AgPc) (out : AgPc + RpcResult) (s' : AgState)
  (task : option RunTask).
Hypothesis Hi : AgInv c.
Hypothesis Ht : gc_requests c !! i = Some t.
Hypothesis Hj : gc_tasks c !! j = None.
Hypothesis Sh : AgShape t (gc_state c) out s' task.
Let spawned' := gc_spawned c ++ (rt_run_id <$> option_list task).
Let requests' := put i ((t.1,.) <$> left_of out) (gc_requests c).
Let tasks' := match task with Some u => <[j := u]> (gc_tasks c) | None => gc_tasks c end.

Lemma free_unseen k : req_key t = Some k -> k ∉ ag_gates (gc_state c) ->
  kept_at (gc_state c) t = None ->
  unseen (rec_at (gc_state c) t) (spawned_as (req_id t) (gc_spawned c)).
Proof.
  intros Hk _ Hn. unfold rec_at, kept_at, req_id, run_id_of in *. unfold req_key in Hk.
  rewrite Hk in Hn |- *. apply (v_free c Hi); [by apply (v_key c Hi i t k)|done].
Qed.

Lemma own_facts : let n := spawned_as (req_id t) (gc_spawned c) in
  let n' := n + length (option_list task) in
  n' <= 1
  /\ (forall pc', left_of out = Some pc' -> req_ok (keyed t) pc' (kept_at s' t) (rec_at s' t) n')
  /\ (keyed t = true -> kept_at s' t = None -> kept_at (gc_state c) t = None
        /\ (unseen (rec_at (gc_state c) t) n -> unseen (rec_at s' t) n'))
  /\ (forall run, rec_at (gc_state c) t = Some run -> rec_at s' t = Some run)
  /\ (forall u, task = Some u -> n = 0 /\ rt_run_id u = req_id t
        /\ exists run, rec_at s' t = Some run /\ running run = true).
Proof.
  apply (h_own _ _ _ _ _ Sh); [apply (v_once c Hi)| |apply (v_req c Hi i t Ht)].
  intros k. apply free_unseen.
Qed.

Lemma task_id u : task = Some u -> rt_run_id u = req_id t.
Proof. intros E. by apply own_facts. Qed.

Lemma count_own : spawned_as (req_id t) spawned'
  = spawned_as (req_id t) (gc_spawned c) + length (option_list task).
Proof. unfold spawned'. by rewrite spawned_app, spawned_task by exact task_id. Qed.

Lemma count_other r : r <> req_id t -> spawned_as r spawned' = spawned_as r (gc_spawned c).
Proof.
  intros Hr. unfold spawned'. rewrite spawned_app, spawned_other; [lia|].
  intros u Hu. rewrite (task_id u Hu). congruence.
Qed.

Lemma count_same : task = None -> spawned' = gc_spawned c.
Proof. intros E. unfold spawned'. rewrite E. apply app_nil_r. Qed.

(** A record that is there stays. *)
Lemma record_stays r run : ag_runs (gc_state c) !! r = Some run -> ag_runs s' !! r = Some run.
Proof.
  intros Hr. destruct (decide (r = req_id t)) as [->|Hne].
  - destruct own_facts as (_ & _ & _ & H & _). by apply H.
  - by destruct (h_other _ _ _ _ _ Sh r Hne) as [-> _].
Qed.

(** Another request with the same identifier waits at the gate, or this one does. *)
Lemma same_id x u : gc_requests c !! x = Some u -> x <> i -> req_id u = req_id t ->
  keyed u = true /\ req_past u = false \/ req_past t = false.
Proof.
  intros Hx Hne He. destruct (v_uuid c Hi x u Hx) as [Hu _], (v_uuid c Hi i t Ht) as [Hu' _].
  unfold req_id, run_id_of in He.
  destruct (idempotency_key u.1.1) as [k|] eqn:K1, (idempotency_key t.1.1) as [k'|] eqn:K2;
    simpl in He.
  - subst k'. destruct (req_past t) eqn:P2; [|by right]. destruct (req_past u) eqn:P1.
    + destruct Hne. by apply (g_one _ _ _ _ (v_gates c Hi) x i u t k).
    + left. split; [|done]. apply bool_decide_true. by exists k.
  - rewrite <- He in Hu'. by rewrite (v_key c Hi x u k Hx K1) in Hu'.
  - rewrite He in Hu. by rewrite (v_key c Hi i t k' Ht K2) in Hu.
  - destruct Hne. by apply (v_distinct c Hi x i u t).
Qed.

Lemma request_ok x u : requests' !! x = Some u ->
  req_ok (keyed u) u.2 (kept_at s' u) (rec_at s' u) (spawned_as (req_id u) spawned').
Proof.
  intros [[-> (pc' & Ho & ->)%fmap_Some]|[Hne Hx]]%lookup_put.
  - change (req_id (t.1, pc')) with (req_id t). rewrite count_own. by apply own_facts.
  - pose proof (v_req c Hi x u Hx) as Hok.
    destruct (decide (req_id u = req_id t)) as [He|He].
    + destruct (same_id x u Hx Hne He) as [[Hk Hp]|Hq].
      * rewrite Hk. by destruct u as [[] []].
      * destruct (h_quiet _ _ _ _ _ Sh Hq) as (Hr & Hd & Hn). rewrite count_same by done.
        unfold kept_at, rec_at. by rewrite Hr, Hd.
    + destruct (h_other _ _ _ _ _ Sh (req_id u) He) as [Hr Hd]. rewrite count_other by done.
      unfold kept_at, rec_at. by rewrite Hr, Hd.
Qed.

Lemma id_client : keyed t = true /\ client_key (req_id t) = true
  \/ keyed t = false /\ client_key (req_id t) = false /\ req_id t ∈ gc_used c.
Proof.
  destruct (v_uuid c Hi i t Ht) as [Hu Hin]. unfold keyed, req_id, run_id_of, req_key.
  destruct (idempotency_key t.1.1) as [k|] eqn:K; simpl; [left|right; done].
  split; [done|]. by apply (v_key c Hi i t).
Qed.

Lemma free_ok k : client_key k = true -> ag_idem s' !! k = None ->
  unseen (ag_runs s' !! k) (spawned_as k spawned').
Proof.
  intros Hk Hn. destruct (decide (k = req_id t)) as [->|Hne].
  - rewrite count_own. destruct id_client as [[Hkey _]|(_ & ? & _)]; [|congruence].
    destruct own_facts as (_ & _ & H & _). destruct (H Hkey Hn) as [Hn0 Hs]. apply Hs.
    by apply (v_free c Hi).
  - destruct (h_other _ _ _ _ _ Sh k Hne) as [-> E]. rewrite E in Hn. rewrite count_other by done.
    by apply (v_free c Hi).
Qed.

Lemma fresh_ok r : client_key r = false -> r ∉ gc_used c ->
  unseen (ag_runs s' !! r) (spawned_as r spawned').
Proof.
  intros Hk Hu. assert (r <> req_id t) as Hne.
  { intros ->. destruct id_client as [[_ ?]|(_ & _ & ?)]; [congruence|done]. }
  destruct (h_other _ _ _ _ _ Sh r Hne) as [-> _]. rewrite count_other by done.
  by apply (v_fresh c Hi).
Qed.

Lemma tasks_after x u : tasks' !! x = Some u ->
  (x = j /\ task = Some u) \/ (x <> j /\ gc_tasks c !! x = Some u).
Proof.
  unfold tasks'. destruct task as [v|].
  - intros [[<- <-]|[? ?]]%lookup_insert_Some; [by left|by right].
  - intros Hx. right. split; [congruence|done].
Qed.

(** No run was started for the identifier a task starts with. *)
Lemma task_new x u v : task = Some u -> gc_tasks c !! x = Some v -> rt_run_id u <> rt_run_id v.
Proof.
  intros Hu Hv E. destruct own_facts as (_ & _ & _ & _ & H). destruct (H u Hu) as (Hn & Hid & _).
  destruct (v_task c Hi x v Hv) as [H1 _]. rewrite <- E, Hid in H1. congruence.
Qed.

Lemma task_ok x u : tasks' !! x = Some u -> spawned_as (rt_run_id u) spawned' = 1
  /\ exists run, ag_runs s' !! rt_run_id u = Some run /\ running run = true.
Proof.
  intros [[-> Hu]|[Hne Hx]]%tasks_after.
  - pose proof count_own as Hc. destruct own_facts as (_ & _ & _ & _ & H).
    destruct (H u Hu) as (Hn & -> & Hr). rewrite Hc, Hn, Hu. by split.
  - destruct (v_task c Hi x u Hx) as (H1 & run & Hr & Hrun). split; [|eauto using record_stays].
    destruct (decide (rt_run_id u = req_id t)) as [E|E]; [|by rewrite count_other].
    assert (task = None \/ exists v, task = Some v) as [Hn|[v Hv]] by (destruct task; eauto).
    + by rewrite count_same.
    + destruct (task_new x v u); try done. rewrite E. by apply task_id.
Qed.

Lemma request_inv : AgInv {| gc_state := s'; gc_requests := requests'; gc_tasks := tasks';
  gc_used := gc_used c; gc_spawned := spawned' |}.
Proof.
  assert (forall x u, requests' !! x = Some u -> exists u0, gc_requests c !! x = Some u0 /\ u.1 = u0.1) as Hold.
  { intros x u [[-> (pc' & Ho & ->)%fmap_Some]|[Hne Hx]]%lookup_put; by eauto. }
  constructor; simpl.
  - rewrite (h_gates _ _ _ _ _ Sh). apply gate_step; [apply Hi|done|apply Sh].
  - intros x u k (u0 & Hx & E)%Hold. unfold req_key. rewrite E. by apply (v_key c Hi x).
  - intros x u (u0 & Hx & E)%Hold. rewrite E. by apply (v_uuid c Hi x).
  - intros x y u v (u0 & Hx & ->)%Hold (v0 & Hy & ->)%Hold. by apply (v_distinct c Hi).
  - apply request_ok.
  - apply free_ok.
  - apply fresh_ok.
  - intros r. destruct (decide (r = req_id t)) as [->|Hne].
    + rewrite count_own. apply own_facts.
    + rewrite count_other by done. apply (v_once c Hi).
  - apply task_ok.
  - intros x y u v [[-> Hu]|[Hx Hu]]%tasks_after [[-> Hv]|[Hy Hv]]%tasks_after E; [done| | |].
    + by destruct (task_new y u v).
    + by destruct (task_new x v u).
    + by apply (v_one c Hi x y u v).
Qed.
End request_inv.

Lemma task_step_state env t s next s' msg : run_task_step env t s = (next, s', msg) ->
  ag_gates s' = ag_gates s /\ ag_idem s' = ag_idem s
  /\ (forall u, next = Some u -> rt_run_id u = rt_run_id t /\ ag_runs s' = ag_runs s)
  /\ (forall r, r <> rt_run_id t -> ag_runs s' !! r = ag_runs s !! r).
Proof.
  unfold AgentRuns.run_task_step. intros H. destruct (rt_pc t) as [|reply|reply mid|st e res].
  - destruct (ae_reply env) as [reply|e]; [destruct (rt_deliver t && _ && _)|]; simplify_eq;
      split_and!; try done; by intros ? [= <-].
  - destruct (ae_sent env); simplify_eq; split_and!; try done; by intros ? [= <-].
  - destruct (rt_session t); simplify_eq; split_and!; try done; by intros ? [= <-].
  - simplify_eq. split_and!; try done. intros r Hr. simpl. by rewrite lookup_alter_ne.
Qed.

Lemma run_task_inv c j t next s' env msg : AgInv c -> gc_tasks c !! j = Some t ->
  run_task_step env t (gc_state c) = (next, s', msg) ->
  AgInv {| gc_state := s'; gc_requests := gc_requests c; gc_tasks := put j next (gc_tasks c);
           gc_used := gc_used c; gc_spawned := gc_spawned c |}.
Proof.
  intros Hi Ht Hst. destruct (task_step_state env t _ next s' msg Hst) as (Hg & Hd & Hn & Ho).
  destruct (v_task c Hi j t Ht) as [H1 Hrun].
  assert (forall x u, put j next (gc_tasks c) !! x = Some u ->
    exists u0, gc_tasks c !! x = Some u0 /\ rt_run_id u = rt_run_id u0
      /\ ag_runs s' !! rt_run_id u = ag_runs (gc_state c) !! rt_run_id u) as Hold.
  { intros x u [[-> Hu]|[Hne Hx]]%lookup_put.
    - destruct (Hn u Hu) as [E ->]. eauto.
    - exists u. split_and!; try done. apply Ho. intros E. apply Hne. by apply (v_one c Hi x j u t). }
  assert (forall r n, n = spawned_as r (gc_spawned c) -> unseen (ag_runs (gc_state c) !! r) n ->
    unseen (ag_runs s' !! r) n) as Hun.
  { intros r n -> [Hr Hz]. split; [|done]. rewrite Ho; [done|]. intros ->. congruence. }
  constructor; simpl; try apply Hi.
  - rewrite Hg. apply Hi.
  - intros i u Hu. unfold kept_at, rec_at. rewrite Hd. pose proof (v_req c Hi i u Hu) as Hok.
    destruct (decide (req_id u = rt_run_id t)) as [E|E].
    + apply (req_ok_used _ _ _ (rec_at (gc_state c) u)); [|done]. rewrite E. lia.
    + by rewrite Ho.
  - intros k Hk Hn0. rewrite Hd in Hn0. apply Hun; [done|]. by apply (v_free c Hi).
  - intros r Hr Hu. apply Hun; [done|]. by apply (v_fresh c Hi).
  - intros x u (u0 & Hx & E & Hr)%Hold. rewrite Hr, E. by apply (v_task c Hi x).
  - intros x y u v (u0 & Hx & E & _)%Hold (v0 & Hy & E' & _)%Hold Huv.
    apply (v_one c Hi x y u0 v0); congruence.
Qed.

Lemma new_inv c i p uuid : AgInv c -> ag_allowed (AgNew i p uuid) c -> gc_requests c !! i = None ->
  AgInv {| gc_state := gc_state c; gc_requests := <[i := (p, uuid, AgStart)]> (gc_requests c);
           gc_tasks := gc_tasks c; gc_used := {[uuid]} ∪ gc_used c; gc_spawned := gc_spawned c |}.
Proof.
  intros Hi (Hu & Hf & Hk) Hn. constructor; simpl; try apply Hi.
  - by apply gate_new; [apply Hi| |].
  - intros x t k [[<- <-]|[_ Hx]]%lookup_insert_Some Hkey; [by apply Hk|by apply (v_key c Hi x t)].
  - intros x t [[<- <-]|[_ Hx]]%lookup_insert_Some; simpl.
    + split; [done|]. by apply elem_of_union_l, elem_of_singleton.
    + destruct (v_uuid c Hi x t Hx) as [? ?]. split; [done|by apply elem_of_union_r].
  - intros x y t u [[<- <-]|[_ Hx]]%lookup_insert_Some [[<- <-]|[_ Hy]]%lookup_insert_Some E;
      [done| | |by apply (v_distinct c Hi x y t u)]; simpl in E.
    + destruct Hf. rewrite E. by apply (v_uuid c Hi y).
    + destruct Hf. rewrite <- E. by apply (v_uuid c Hi x).
  - intros x t [[<- <-]|[_ Hx]]%lookup_insert_Some; [|by apply (v_req c Hi x)].
    intros Hkey. unfold keyed, req_key in Hkey. simpl in Hkey. unfold rec_at, req_id, run_id_of. simpl.
    destruct (idempotency_key p); [by simpl in Hkey|]. by apply (v_fresh c Hi).
  - intros r Hr [_ Hu']%not_elem_of_union. by apply (v_fresh c Hi).
Qed.

Lemma ag_reach_inv c : AgReach c -> AgInv c.
Proof.
  induction 1 as [db counters|m c c' _ Hi Ha Hm].
  - constructor; simpl; try (intros *; by rewrite ?lookup_empty). intros r. unfold spawned_as. simpl. lia.
  - destruct m as [i p uuid|i j env|j env]; simpl in Hm.
    + destruct (gc_requests c !! i) eqn:Ei; [done|]. injection Hm as <-. by apply new_inv.
    + apply bind_Some in Hm as ([[p uuid] pc] & Ht & Hm).
      apply bind_Some in Hm as ([[out s'] task] & Hst & Hm).
      destruct (gc_tasks c !! j) eqn:Ej; [done|]. injection Hm as <-.
      apply rpc_agent_shape in Hst. by apply (request_inv c i j (p, uuid, pc)).
    + apply bind_Some in Hm as (t & Ht & Hm).
      destruct (run_task_step env t (gc_state c)) as [[next s'] msg] eqn:E. injection Hm as <-.
      by apply (run_task_inv c j t next s' env msg).
Qed.

End interleaving.

(** * Schedules *)

Section schedules.
Variable client_key : string -> bool.

Definition ag_allowedb (m : AgMove) (c : AgConf) : bool :=
  match m with
  | AgNew _ p uuid => negb (client_key uuid) && bool_decide (uuid ∉ gc_used c)
      && match idempotency_key p with Some k => client_key k | None => true end
  | _ => true
  end.

Lemma ag_allowedb_spec m c : ag_allowedb m c = true -> ag_allowed client_key m c.
Proof.
  destruct m as [i p uuid| |]; simpl; [|done..].
  intros [[H1%negb_true_iff H2%bool_decide_eq_true]%andb_true_iff H3]%andb_true_iff.
  split_and!; [done..|]. intros k Hk. by rewrite Hk in H3.
Qed.

#[local] Abbreviation move := (ag_move id Some (fun _ => None) true id).

Fixpoint ag_run (ms : list AgMove) (c : AgConf) : option AgConf :=
  match ms with
  | [] => Some c
  | m :: ms' => if ag_allowedb m c then move m c ≫= ag_run ms' else None
  end.

Lemma ag_reach_run ms c c' : AgReach id Some (fun _ => None) true id client_key c ->
  ag_run ms c = Some c' -> AgReach id Some (fun _ => None) true id client_key c'.
Proof.
  revert c. induction ms as [|m ms IH]; intros c Hr H; simpl in H; [by injection H as <-|].
  destruct (ag_allowedb m c) eqn:Ea; [|done]. apply bind_Some in H as (c1 & H1 & H).
  apply (IH c1); [|done]. by apply (ag_reach_move _ _ _ _ _ _ m c); [|apply ag_allowedb_spec|].
Qed.
End schedules.

Definition is_key (s : string) : bool := starts_with s "K".
Definition answering (now : Z) : AgEnv := {|
  ae_now := now; ae_msg_uuid := "msg"; ae_st := fun _ => None; ae_channels := Some ["telegram"];
  ae_provider := true; ae_reply := Ok "yo"; ae_store := id; ae_media := None; ae_sent := Ok "m1" |}.
Definition ask (fields : list (string * json)) : json :=
  jobject ([("idempotencyKey", JStr "K"); ("message", JStr "hi")] ++ fields).
(** Request [i] up to its answer. *)
Definition whole_request (i : nat) (p : json) (steps : nat) : list AgMove :=
  AgNew i p ("u" +:+ pretty (N.of_nat i)) :: replicate steps (AgStep i i (answering 1)).

Definition ag_start (db : Db) : AgConf := ag_init db (Build_Counters ∅ ∅ ∅ ∅).
Definition one_run : list AgMove := whole_request 0 (ask []) 8 ++ [AgTask 0 (answering 2); AgTask 0 (answering 3)].


Definition three_rounds : list (Z * gmap string AgentRunRecord) :=
  (fun n => ((100 * Z.of_nat n)%Z, {["K" := started_run "K" 0]})) <$> seq 0 (Z.to_nat 6001).

Lemma agent_wait_answers_witness :
  exists r, rpc_agent_wait 0 (jobject [("runId", JStr "K"); ("timeoutMs", JInt 200)]) three_rounds = Some r.
Proof.
  destruct (agent_wait_answers 0 (jobject [("runId", JStr "K"); ("timeoutMs", JInt 200)]) three_rounds)
    as (r & Hr & _).
  - intros n now runs H. unfold three_rounds in H. apply list_lookup_fmap_Some in H as (m & E & Hm).
    apply lookup_seq in Hm as [-> _]. injection E as -> _. simpl. lia.
  - unfold three_rounds. rewrite length_fmap, length_seq. lia.
  - exact (ex_intro _ r Hr).
Defined.

(** A request answered with an error about its channel leaves its run listed as
    running, with no task: a retry is told that it was accepted. *)
Example channel_error_leaves_run :
  match ag_run is_key (whole_request 0 (ask [("channel", JStr "signal")]) 8
                       ++ whole_request 1 (ask []) 2) (ag_start Db_empty) with
  | Some c =>
      running <$> ag_runs (gc_state c) !! "K" = Some true /\ gc_tasks c = ∅
      /\ (match rpc_agent_step id Some (fun _ => None) (answering 9) (ask []) "u1"
                 (default AgStart (snd <$> gc_requests c !! 1)) (gc_state c) with
          | Some (inr (Ok v), _, None) => get_str "status" v = Some "accepted"
          | _ => False
          end)
  | None => False
  end.
Proof. vm_compute. by split_and!. Qed.

(** [/new] on a session that denies sending clears it and is then refused. *)
Definition denied_db : Db :=
  run_store [SCreate "main" "default" 0; SAdd "main" "user" "hello" 1;
             SField "main" "sendPolicy" "deny"] Db_empty.
Example denied_reset_clears :
  match ag_run is_key (whole_request 0 (jobject [("idempotencyKey", JStr "K"); ("sessionKey", JStr "main");
                                                 ("message", JStr "/new")]) 5) (ag_start denied_db) with
  | Some c => messages_of "main" denied_db <> [] /\ messages_of "main" (ag_db (gc_state c)) = []
              /\ gc_requests c = ∅ /\ gc_spawned c = []
  | None => False
  end.
Proof. vm_compute. by split_and!. Qed.
