(* ===== verification/DmPairing.v ===== *)
(** Pairing of direct-message users ([crates/security-core/src/pairing.rs]):
    requests with a code, their approval into pairings, expiry, and the locks
    each operation takes.  Identifiers, random numbers and the clock are
    arguments. *)

From Stdlib Require Import Strings.String.
From S2P Require Import Prelude RustStr Locks.
#[local] Open Scope string_scope.
#[local] Open Scope nat_scope.
#[local] Open Scope list_scope.

(** * Data *)

Inductive PairingStatus := Pending | Approved | Rejected | Expired | Revoked.
#[export] Instance pairing_status_eq_dec : EqDecision PairingStatus.
Proof. solve_decision. Defined.

Record PairingRequest := {
  pr_id : string;
  pr_from_user_id : string;
  pr_from_display_name : string;
  pr_to_user_id : option string;
  pr_to_identifier : option string;
  pr_code : string;
  pr_status : PairingStatus;
  pr_created_at : Z;
  pr_expires_at : Z;
  pr_metadata : gmap string string;
}.

Record DMPairing := {
  dp_id : string;
  dp_user_a : string;
  dp_user_b : string;
  dp_created_at : Z;
  dp_last_message_at : Z;
  dp_metadata : gmap string string;
}.

Inductive PairingError := RequestNotFound | PairingNotFound | InvalidCode | RequestExpired | InvalidStatus.

Record PairingManager := {
  pm_requests : gmap string PairingRequest;
  pm_pairings : gmap string DMPairing;
  pm_code_store : gmap string string;
  pm_timeout_secs : Z;
  pm_code_length : nat;
}.

Definition PairingManager_new (timeout_secs : Z) : PairingManager := {|
  pm_requests := ∅; pm_pairings := ∅; pm_code_store := ∅; pm_timeout_secs := timeout_secs;
  pm_code_length := 8 |}.
Definition PairingManager_default : PairingManager := PairingManager_new 300.
Definition with_code_length (length : nat) (m : PairingManager) : PairingManager := {|
  pm_requests := pm_requests m; pm_pairings := pm_pairings m; pm_code_store := pm_code_store m;
  pm_timeout_secs := pm_timeout_secs m; pm_code_length := length |}.

Definition put_requests (r : gmap string PairingRequest) (m : PairingManager) : PairingManager := {|
  pm_requests := r; pm_pairings := pm_pairings m; pm_code_store := pm_code_store m;
  pm_timeout_secs := pm_timeout_secs m; pm_code_length := pm_code_length m |}.
Definition put_pairings (p : gmap string DMPairing) (m : PairingManager) : PairingManager := {|
  pm_requests := pm_requests m; pm_pairings := p; pm_code_store := pm_code_store m;
  pm_timeout_secs := pm_timeout_secs m; pm_code_length := pm_code_length m |}.
Definition put_codes (c : gmap string string) (m : PairingManager) : PairingManager := {|
  pm_requests := pm_requests m; pm_pairings := pm_pairings m; pm_code_store := c;
  pm_timeout_secs := pm_timeout_secs m; pm_code_length := pm_code_length m |}.

Definition with_status (status : PairingStatus) (to_user : option string) (r : PairingRequest)
  : PairingRequest := {|
  pr_id := pr_id r; pr_from_user_id := pr_from_user_id r;
  pr_from_display_name := pr_from_display_name r; pr_to_user_id := to_user;
  pr_to_identifier := pr_to_identifier r; pr_code := pr_code r; pr_status := status;
  pr_created_at := pr_created_at r; pr_expires_at := pr_expires_at r; pr_metadata := pr_metadata r |}.

(** * Operations *)

Definition code_chars : list ascii := list_ascii_of_string "ABCDEFGHJKLMNPQRSTUVWXYZ23456789".

(** [rng] gives the draws, each below the number of characters. *)
Definition generate_code (rng : nat -> nat) (code_length : nat) : string :=
  string_of_list_ascii (omap (fun i => code_chars !! rng i) (seq 0 code_length)).

Definition create_request (now : Z) (id : string) (rng : nat -> nat)
    (from_user_id from_display_name : string) (to_identifier : option string) (m : PairingManager)
  : PairingRequest * PairingManager :=
  let request := {|
    pr_id := id; pr_from_user_id := from_user_id; pr_from_display_name := from_display_name;
    pr_to_user_id := None; pr_to_identifier := to_identifier;
    pr_code := generate_code rng (pm_code_length m); pr_status := Pending; pr_created_at := now;
    pr_expires_at := (now + pm_timeout_secs m)%Z; pr_metadata := ∅ |} in
  (request, put_codes (<[pr_code request := id]> (pm_code_store m))
              (put_requests (<[id := request]> (pm_requests m)) m)).

Definition approve_request (now : Z) (pairing_id request_id to_user_id : string) (m : PairingManager)
  : result DMPairing PairingError * PairingManager :=
  match pm_requests m !! request_id with
  | None => (Err RequestNotFound, m)
  | Some request =>
      if negb (bool_decide (pr_status request = Pending)) then (Err InvalidStatus, m)
      else if (pr_expires_at request <? now)%Z
           then (Err RequestExpired,
                 put_requests (<[request_id := with_status Expired (pr_to_user_id request) request]>
                                 (pm_requests m)) m)
           else
             let pairing := {| dp_id := pairing_id; dp_user_a := pr_from_user_id request;
                               dp_user_b := to_user_id; dp_created_at := now; dp_last_message_at := now;
                               dp_metadata := pr_metadata request |} in
             (Ok pairing,
              put_pairings (<[pairing_id := pairing]> (pm_pairings m))
                (put_requests (<[request_id := with_status Approved (Some to_user_id) request]>
                                 (pm_requests m)) m))
  end.

Definition reject_request (request_id : string) (m : PairingManager)
  : result unit PairingError * PairingManager :=
  match pm_requests m !! request_id with
  | None => (Err RequestNotFound, m)
  | Some request =>
      if negb (bool_decide (pr_status request = Pending)) then (Err InvalidStatus, m)
      else (Ok tt, put_requests (<[request_id := with_status Rejected (pr_to_user_id request) request]>
                                   (pm_requests m)) m)
  end.

Definition verify_code (now : Z) (code : string) (m : PairingManager)
  : result PairingRequest PairingError :=
  match pm_code_store m !! code with
  | None => Err InvalidCode
  | Some request_id =>
      match pm_requests m !! request_id with
      | None => Err RequestNotFound
      | Some request =>
          if (pr_expires_at request <? now)%Z then Err RequestExpired
          else if negb (bool_decide (pr_status request = Pending)) then Err InvalidStatus
          else Ok request
      end
  end.

(** [values] is the iteration order of the map. *)
Definition get_pairing (values : gmap string DMPairing -> list DMPairing) (user_a user_b : string)
    (m : PairingManager) : option DMPairing :=
  find_first (fun p =>
    (String.eqb (dp_user_a p) user_a && String.eqb (dp_user_b p) user_b)
    || (String.eqb (dp_user_a p) user_b && String.eqb (dp_user_b p) user_a)) (values (pm_pairings m)).

Definition list_user_pairings (values : gmap string DMPairing -> list DMPairing) (user_id : string)
    (m : PairingManager) : list DMPairing :=
  retain (fun p => String.eqb (dp_user_a p) user_id || String.eqb (dp_user_b p) user_id)
    (values (pm_pairings m)).

Definition remove_pairing (pairing_id : string) (m : PairingManager)
  : result unit PairingError * PairingManager :=
  match pm_pairings m !! pairing_id with
  | None => (Err PairingNotFound, m)
  | Some _ => (Ok tt, put_pairings (delete pairing_id (pm_pairings m)) m)
  end.

Definition stale (now : Z) (r : PairingRequest) : bool :=
  (pr_expires_at r <? now)%Z || bool_decide (pr_status r = Expired).

(** The loop over the expired identifiers. *)
Fixpoint remove_requests (ids : list string) (m : PairingManager) : PairingManager :=
  match ids with
  | [] => m
  | id :: ids' =>
      remove_requests ids'
        match pm_requests m !! id with
        | Some request => put_codes (delete (pr_code request) (pm_code_store m))
                            (put_requests (delete id (pm_requests m)) m)
        | None => m
        end
  end.

Definition cleanup_expired (entries : gmap string PairingRequest -> list (string * PairingRequest))
    (now : Z) (m : PairingManager) : PairingManager :=
  remove_requests (fst <$> retain (fun kr => stale now kr.2) (entries (pm_requests m))) m.

(** * Runs *)

Inductive DmOp :=
| DmCreate (now : Z) (id : string) (rng : nat -> nat) (from name : string) (to : option string)
| DmApprove (now : Z) (pairing_id request_id to_user : string)
| DmReject (request_id : string)
| DmRemove (pairing_id : string)
| DmCleanup (now : Z).

Section runs.
Variable entries : gmap string PairingRequest -> list (string * PairingRequest).
Hypothesis entries_perm : forall m, entries m ≡ₚ map_to_list m.

Definition dm_op (op : DmOp) (m : PairingManager) : PairingManager :=
  match op with
  | DmCreate now id rng from name to => (create_request now id rng from name to m).2
  | DmApprove now pid rid to_user => (approve_request now pid rid to_user m).2
  | DmReject rid => (reject_request rid m).2
  | DmRemove pid => (remove_pairing pid m).2
  | DmCleanup now => cleanup_expired entries now m
  end.

(** New identifiers, and codes no request has. *)
Definition dm_fresh (op : DmOp) (m : PairingManager) : Prop :=
  match op with
  | DmCreate _ id rng _ _ _ => pm_requests m !! id = None
      /\ forall i r, pm_requests m !! i = Some r -> pr_code r <> generate_code rng (pm_code_length m)
  | DmApprove _ pid _ _ => pm_pairings m !! pid = None
  | _ => True
  end.

Inductive DmReach : PairingManager -> Prop :=
| dm_reach_new timeout length : DmReach (with_code_length length (PairingManager_new timeout))
| dm_reach_op op m : DmReach m -> dm_fresh op m -> DmReach (dm_op op m).

(** The codes are those of the requests, each of one request. *)
Record DmInv (m : PairingManager) : Prop := {
  dm_ids : forall id r, pm_requests m !! id = Some r -> pr_id r = id;
  dm_codes : forall code id, pm_code_store m !! code = Some id <->
    exists r, pm_requests m !! id = Some r /\ pr_code r = code;
}.

(** A change of one request that keeps its identifier and code. *)
Lemma change_inv id r r' m : DmInv m -> pm_requests m !! id = Some r -> pr_id r' = pr_id r ->
  pr_code r' = pr_code r -> DmInv (put_requests (<[id := r']> (pm_requests m)) m).
Proof.
  intros [Hi Hc] Hr E1 E2. constructor; simpl.
  - intros k x [[<- <-]|[_ Hx]]%lookup_insert_Some; [rewrite E1|]; by apply Hi.
  - intros code k. rewrite Hc. destruct (decide (id = k)) as [<-|Hne].
    + rewrite lookup_insert_eq, Hr. naive_solver congruence.
    + by rewrite lookup_insert_ne.
Qed.

Lemma pairings_inv p m : DmInv m -> DmInv (put_pairings p m).
Proof. by intros [Hi Hc]. Qed.

Lemma remove_one_inv id r m : DmInv m -> pm_requests m !! id = Some r ->
  DmInv (put_codes (delete (pr_code r) (pm_code_store m)) (put_requests (delete id (pm_requests m)) m)).
Proof.
  intros [Hi Hc] Hr. constructor; simpl.
  - intros k x [_ Hx]%lookup_delete_Some. by apply Hi.
  - intros code k. rewrite lookup_delete_Some, Hc. split.
    + intros (Hne & x & Hx & <-). exists x. split; [|done]. rewrite lookup_delete_ne; [done|].
      intros <-. congruence.
    + intros (x & [Hne Hx]%lookup_delete_Some & <-). split; [|by eauto]. intros E.
      assert (pm_code_store m !! pr_code r = Some id) as H1 by (apply Hc; eauto).
      assert (pm_code_store m !! pr_code x = Some k) as H2 by (apply Hc; eauto). congruence.
Qed.

Lemma remove_requests_inv ids m : DmInv m -> DmInv (remove_requests ids m).
Proof.
  revert m. induction ids as [|id ids IH]; intros m Hi; simpl; [done|]. apply IH.
  destruct (pm_requests m !! id) as [r|] eqn:E; [by apply remove_one_inv|done].
Qed.

Lemma dm_reach_inv m : DmReach m -> DmInv m.
Proof.
  induction 1 as [timeout length|op m _ Hi Hf].
  - constructor; simpl; [by intros *; rewrite lookup_empty|]. intros code id. rewrite lookup_empty.
    split; [done|]. intros (r & H & _). by rewrite lookup_empty in H.
  - destruct op as [now id rng from name to|now pid rid to_user|rid|pid|now]; simpl.
    + destruct Hi as [Hi Hc], Hf as [Hn Hu]. constructor; simpl.
      * intros k x [[<- <-]|[_ Hx]]%lookup_insert_Some; [done|by apply Hi].
      * intros code k. split.
        -- intros [[<- <-]|[Hne Hk]]%lookup_insert_Some; [rewrite lookup_insert_eq; by eauto|].
           apply Hc in Hk as (x & Hx & <-). exists x. split; [|done].
           rewrite lookup_insert_ne; [done|]. congruence.
        -- intros (x & [[<- <-]|[Hne Hx]]%lookup_insert_Some & <-); [by rewrite lookup_insert_eq|].
           rewrite lookup_insert_ne; [apply Hc; by eauto|]. intros E. by apply (Hu k x).
    + unfold approve_request. destruct (pm_requests m !! rid) as [r|] eqn:E; [|done].
      destruct (negb _); [done|]. destruct (_ <? _)%Z; simpl; [|apply pairings_inv];
        by apply (change_inv rid r).
    + unfold reject_request. destruct (pm_requests m !! rid) as [r|] eqn:E; [|done].
      destruct (negb _); [done|]. by apply (change_inv rid r).
    + unfold remove_pairing. destruct (pm_pairings m !! pid); [by apply pairings_inv|done].
    + by apply remove_requests_inv.
Qed.

(** In every run with new identifiers and codes, a code verifies exactly the
    request that has it, while that request is pending and not expired; otherwise
    the error says why: no request has the code, it expired, or it was answered.
    The error that the request of a known code is missing does not arise. *)
Theorem verify_code_spec m now code : DmReach m ->
  match verify_code now code m with
  | Ok r => pm_requests m !! pr_id r = Some r /\ pr_code r = code /\ pr_status r = Pending
            /\ (now <= pr_expires_at r)%Z
            /\ forall id r', pm_requests m !! id = Some r' -> pr_code r' = code -> r' = r
  | Err InvalidCode => forall id r, pm_requests m !! id = Some r -> pr_code r <> code
  | Err RequestExpired => exists id r, pm_requests m !! id = Some r /\ pr_code r = code
                                       /\ (pr_expires_at r < now)%Z
  | Err InvalidStatus => exists id r, pm_requests m !! id = Some r /\ pr_code r = code
                                      /\ (now <= pr_expires_at r)%Z /\ pr_status r <> Pending
  | Err _ => False
  end.
Proof.
  intros [Hi Hc]%dm_reach_inv. unfold verify_code.
  destruct (pm_code_store m !! code) as [id|] eqn:E.
  - pose proof E as (r & Hr & Hcode)%Hc. rewrite Hr.
    destruct (Z.ltb_spec (pr_expires_at r) now); [by eauto 6|].
    case_bool_decide; simpl; [|by eauto 8]. rewrite (Hi id r Hr). split_and!; try done.
    intros id' r' Hr' E'. assert (pm_code_store m !! code = Some id') as H' by (apply Hc; eauto).
    congruence.
  - intros id r Hr E'. assert (pm_code_store m !! code = Some id) as H' by (apply Hc; eauto). congruence.
Qed.

(** ** Approvals *)

(** A request that has been answered: it keeps its answer while it is there. *)
Definition settled (r : PairingRequest) : bool := negb (bool_decide (pr_status r = Pending)).

Lemma remove_requests_lookup ids m id r :
  pm_requests (remove_requests ids m) !! id = Some r -> pm_requests m !! id = Some r.
Proof.
  revert m. induction ids as [|k ids IH]; intros m H; simpl in H; [done|]. apply IH in H.
  destruct (pm_requests m !! k); [|done]. simpl in H. by apply lookup_delete_Some in H as [_ ?].
Qed.

Lemma remove_requests_pairings ids m : pm_pairings (remove_requests ids m) = pm_pairings m.
Proof.
  revert m. induction ids as [|k ids IH]; intros m; simpl; [done|]. rewrite IH.
  by destruct (pm_requests m !! k).
Qed.

(** An answered request stays as it is until it is removed. *)
Lemma settled_stays op m id r : dm_fresh op m -> pm_requests m !! id = Some r -> settled r = true ->
  pm_requests (dm_op op m) !! id = Some r \/ pm_requests (dm_op op m) !! id = None.
Proof.
  intros Hf Hr Hs.
  assert (forall rid (x : PairingRequest), pm_requests m !! rid = Some x ->
    negb (bool_decide (pr_status x = Pending)) = false ->
    forall y, <[rid := y]> (pm_requests m) !! id = Some r) as Hkeep.
  { intros rid x Hx Hp y. rewrite lookup_insert_ne; [done|]. intros <-. rewrite Hr in Hx.
    injection Hx as <-. unfold settled in Hs. congruence. }
  destruct op as [now k rng from name to|now pid rid to_user|rid|pid|now]; simpl.
  - left. rewrite lookup_insert_ne; [done|]. intros <-. destruct Hf. congruence.
  - left. unfold approve_request. destruct (pm_requests m !! rid) as [x|] eqn:E; [|done].
    destruct (negb (bool_decide (pr_status x = Pending))) eqn:Ep; [done|].
    destruct (_ <? _)%Z; simpl; by eapply Hkeep.
  - left. unfold reject_request. destruct (pm_requests m !! rid) as [x|] eqn:E; [|done].
    destruct (negb (bool_decide (pr_status x = Pending))) eqn:Ep; [done|]. by eapply Hkeep.
  - left. unfold remove_pairing. by destruct (pm_pairings m !! pid).
  - unfold cleanup_expired. destruct (pm_requests (remove_requests _ m) !! id) as [x|] eqn:E; [left|by right].
    apply remove_requests_lookup in E. congruence.
Qed.

(** A pairing appears only by approving a pending request in time, between the
    request's author and the approver, and answers the request. *)
Lemma pairing_created op m pid p : dm_fresh op m ->
  pm_pairings m !! pid = None -> pm_pairings (dm_op op m) !! pid = Some p ->
  exists now rid to_user r, op = DmApprove now pid rid to_user /\ pm_requests m !! rid = Some r
    /\ pr_status r = Pending /\ (now <= pr_expires_at r)%Z /\ dp_user_a p = pr_from_user_id r
    /\ dp_user_b p = to_user /\ pm_requests (dm_op op m) !! rid = Some (with_status Approved (Some to_user) r).
Proof.
  intros Hf Hn Hp. destruct op as [now k rng from name to|now pid' rid to_user|rid|pid'|now]; simpl in *.
  - congruence.
  - unfold approve_request in *. destruct (pm_requests m !! rid) as [r|] eqn:E; simpl in *; [|congruence].
    destruct (bool_decide (pr_status r = Pending)) eqn:Ep; simpl in *; [|congruence].
    destruct (Z.ltb_spec (pr_expires_at r) now); simpl in *; [congruence|].
    apply lookup_insert_Some in Hp as [[-> <-]|[_ Hp]]; [|congruence].
    exists now, rid, to_user, r. apply bool_decide_eq_true in Ep. split_and!; try done.
    by rewrite lookup_insert_eq.
  - unfold reject_request in Hp. destruct (pm_requests m !! rid); simpl in Hp; [|congruence].
    destruct (negb _); simpl in Hp; congruence.
  - unfold remove_pairing in Hp. destruct (pm_pairings m !! pid') eqn:E; simpl in Hp; [|congruence].
    apply lookup_delete_Some in Hp as [_ Hp]. congruence.
  - unfold cleanup_expired in Hp. rewrite remove_requests_pairings in Hp. congruence.
Qed.

(** The expired requests and their codes are gone after a clean-up, the others
    stay. *)
Lemma remove_requests_gone ids m id r : DmInv m -> pm_requests m !! id = Some r ->
  pm_requests (remove_requests ids m) !! id = if bool_decide (id ∈ ids) then None else Some r.
Proof.
  revert m. induction ids as [|k ids IH]; intros m Hi Hr; simpl; [done|].
  destruct (decide (k = id)) as [->|Hne].
  - rewrite Hr, (bool_decide_true (id ∈ id :: ids)) by by left.
    destruct (pm_requests (remove_requests ids _) !! id) as [x|] eqn:E; [|done].
    apply remove_requests_lookup in E. simpl in E. by rewrite lookup_delete_eq in E.
  - rewrite IH with (m := match pm_requests m !! k with Some _ => _ | None => _ end).
    + assert (id ∈ k :: ids <-> id ∈ ids) as Hiff by (rewrite elem_of_cons; naive_solver).
      by rewrite (bool_decide_ext _ _ Hiff).
    + destruct (pm_requests m !! k) eqn:E; [by apply remove_one_inv|done].
    + destruct (pm_requests m !! k); [|done]. simpl. by rewrite lookup_delete_ne.
Qed.

Lemma cleanup_spec m now id r : DmInv m -> pm_requests m !! id = Some r ->
  pm_requests (cleanup_expired entries now m) !! id = if stale now r then None else Some r.
Proof.
  intros Hi Hr. unfold cleanup_expired. rewrite (remove_requests_gone _ m id r Hi Hr).
  assert (id ∈ fst <$> retain (fun kr => stale now kr.2) (entries (pm_requests m)) <-> stale now r = true) as Hiff.
  { rewrite list_elem_of_fmap. split.
    - intros ([k x] & -> & [Hin Hs]%elem_of_retain). rewrite entries_perm in Hin.
      apply elem_of_map_to_list in Hin. simpl in *. congruence.
    - intros Hs. exists (id, r). split; [done|]. apply elem_of_retain. split; [|done].
      rewrite entries_perm. by apply elem_of_map_to_list. }
  rewrite (bool_decide_ext _ _ Hiff). by destruct (stale now r).
Qed.
End runs.

(** * Locks *)

Inductive dm_lock := Requests | Pairings | Codes.
#[export] Instance dm_lock_eq_dec : EqDecision dm_lock.
Proof. solve_decision. Defined.

(** The operations by the path they take: an approval that succeeds, a code that
    is known, the number of requests a clean-up removes. *)
Inductive dm_path :=
| PathCreate | PathApprove (ok : bool) | PathReject | PathVerify (known : bool) | PathRead | PathRemove
| PathCleanup (expired : nat).

Definition dm_once (l : dm_lock) (m : mode) : list (action dm_lock) := [Acquire l m; Release l].

Definition dm_locks (p : dm_path) : list (action dm_lock) :=
  match p with
  | PathCreate => [Acquire Requests Exclusive; Acquire Codes Exclusive; Release Codes; Release Requests]
  | PathApprove ok => [Acquire Requests Exclusive]
      ++ (if ok then dm_once Pairings Exclusive else []) ++ [Release Requests]
  | PathReject => dm_once Requests Exclusive
  | PathVerify known => [Acquire Codes Shared] ++ (if known then dm_once Requests Shared else []) ++ [Release Codes]
  | PathRead => dm_once Pairings Shared
  | PathRemove => dm_once Pairings Exclusive
  | PathCleanup n => [Acquire Requests Exclusive] ++ concat (replicate n (dm_once Codes Exclusive))
      ++ [Release Requests]
  end.

Definition dm_rank (l : dm_lock) : nat := match l with Requests => 0 | Pairings => 1 | Codes => 2 end.

Lemma dm_path_ordered p : p <> PathVerify true -> Locks.ordered dm_rank [] (dm_locks p) = true.
Proof.
  destruct p as [|[]| |[]| | |n]; try done. intros _.
  change (Locks.ordered dm_rank [(Requests, Exclusive)]
    (concat (replicate n (dm_once Codes Exclusive)) ++ [Release Requests]) = true).
  by induction n as [|n IH].
Qed.

(** Concurrent pairing operations never deadlock as long as none verifies a
    known code.  One that does takes the codes and then the requests, a creation
    takes them in the other order, and the two can wait for each other. *)
Theorem dm_locks_order :
  (forall ops ts, Forall (fun p => p <> PathVerify true) ops ->
     rtc lock_step (start <$> (dm_locks <$> ops)) ts -> ~ deadlocked ts)
  /\ exists ts, rtc lock_step (start <$> (dm_locks <$> [PathCreate; PathVerify true])) ts /\ deadlocked ts.
Proof.
  split.
  - intros ops ts Hops. apply (lock_order dm_rank). apply Forall_fmap.
    eapply Forall_impl; [exact Hops|]. apply dm_path_ordered.
  - eexists. split; [apply (run_schedule_rtc [0; 1]); vm_compute; reflexivity|].
    apply deadlocked_bool_sound. vm_compute. reflexivity.
Qed.

(** * Concrete runs *)

Definition draws (n i : nat) : nat := (n + i) mod 32.
Definition one_request : PairingManager :=
  (create_request 10 "r1" (draws 0) "alice" "Alice" None PairingManager_default).2.

Lemma verify_code_spec_witness :
  (exists r, verify_code 20 "ABCDEFGH" one_request = Ok r /\ pm_requests one_request !! pr_id r = Some r)
  /\ verify_code 311 "ABCDEFGH" one_request = Err RequestExpired.
Proof.
  assert (DmReach map_to_list one_request) as Hr.
  { apply (dm_reach_op map_to_list (DmCreate 10 "r1" (draws 0) "alice" "Alice" None) PairingManager_default).
    - exact (dm_reach_new _ 300 8).
    - split; [done|]. intros i r H. discriminate H. }
  split; [|reflexivity].
  pose proof (verify_code_spec map_to_list one_request 20 "ABCDEFGH" Hr) as H.
  destruct (verify_code 20 "ABCDEFGH" one_request) as [r|e] eqn:E; [|discriminate E].
  exists r. split; [reflexivity|]. exact (proj1 H).
Defined.

(** With a code drawn twice the first request loses it, and cleaning up the first
    makes the code of the second invalid. *)
Example code_drawn_twice :
  let m := (create_request 200 "r2" (draws 0) "bob" "Bob" None one_request).2 in
  pr_id <$> match verify_code 201 "ABCDEFGH" m with Ok r => Some r | Err _ => None end = Some "r2"
  /\ let m' := cleanup_expired map_to_list 320 m in
     is_Some (pm_requests m' !! "r2") /\ verify_code 321 "ABCDEFGH" m' = Err InvalidCode.
Proof. vm_compute. split_and!; by try eexists. Qed.
