(* ===== verification/StreamChunker.v ===== *)
(** The soft chunker of streamed replies ([crates/agent-core/src/stream_chunker.rs]):
    break points, code fences, and the loop that drains the buffer. *)

From Stdlib Require Import Strings.String.
From S2P Require Import Prelude RustStr.
#[local] Open Scope string_scope.
#[local] Open Scope nat_scope.
#[local] Open Scope list_scope.

Inductive BreakPreference := Paragraph | Newline | Sentence.

Record ChunkingConfig := {
  min_chars : nat;
  max_chars : nat;
  break_preference : BreakPreference;
  flush_on_paragraph : bool;
}.

Definition ChunkingConfig_default : ChunkingConfig := {|
  min_chars := 200; max_chars := 1500; break_preference := Paragraph; flush_on_paragraph := false |}.

(** * Fences *)

Record FenceSpan := {
  fs_start : nat;
  fs_end : nat;
  fs_open_line : string;
  fs_marker : ascii;
  fs_indent : string;
}.

Record OpenFence := {
  op_start : nat;
  op_marker : ascii;
  op_len : nat;
  op_indent : string;
  op_line : string;
}.

Definition fence_marker (c : ascii) : bool := Ascii.eqb c "`" || Ascii.eqb c "~".

Fixpoint count_lead (c : ascii) (s : string) : nat :=
  match s with String d s' => if Ascii.eqb d c then S (count_lead c s') else 0 | "" => 0 end.

(** The marker, its length and the indent of a fence line. *)
Definition fence_line (line : string) : option (ascii * nat * string) :=
  let trimmed := trim_start line in
  let indent_len := len line - len trimmed in
  if 3 <? indent_len then None
  else match trimmed with
       | "" => None
       | String c _ => if fence_marker c && (3 <=? count_lead c trimmed)
                       then Some (c, count_lead c trimmed, str_take indent_len line) else None
       end.

Definition close_span (o : OpenFence) (fend : nat) : FenceSpan := {|
  fs_start := op_start o; fs_end := fend; fs_open_line := op_line o; fs_marker := op_marker o;
  fs_indent := op_indent o |}.

(** The loop over the lines; [total] is the length of the text. *)
Fixpoint fence_spans (total pos : nat) (open : option OpenFence) (ls : list string) : list FenceSpan :=
  match ls with
  | [] => match open with Some o => [close_span o total] | None => [] end
  | line :: ls' =>
      let next := pos + len line + 1 in
      match fence_line line with
      | None => fence_spans total next open ls'
      | Some (c, n, indent) =>
          match open with
          | Some o => if Ascii.eqb c (op_marker o) && (op_len o <=? n)
                      then close_span o (pos + len line) :: fence_spans total next None ls'
                      else fence_spans total next open ls'
          | None => fence_spans total next
                      (Some {| op_start := pos; op_marker := c; op_len := n; op_indent := indent;
                               op_line := line |}) ls'
          end
      end
  end.

Definition parse_fence_spans (text : string) : list FenceSpan :=
  fence_spans (len text) 0 None (split_char LF text).

Definition is_safe_fence_break (spans : list FenceSpan) (index : nat) : bool :=
  negb (existsb (fun s => (fs_start s <? index) && (index <? fs_end s)) spans).

(** * Break points *)

(** The backward search for [pat]; the fuel bounds the rounds. *)
Fixpoint find_back (fuel : nat) (pat buf : string) (min : nat) (spans : list FenceSpan) (i : nat)
  : option nat :=
  match fuel with
  | 0 => None
  | S fuel' =>
      if i <=? min then None
      else match rfind (str_take i buf) pat with
           | None => None
           | Some pos => if pos <? min then None
                         else if is_safe_fence_break spans pos then Some pos
                         else find_back fuel' pat buf min spans pos
           end
  end.

Definition find_paragraph_break (min : nat) (buf : string) (spans : list FenceSpan) : option nat :=
  find_back (S (len buf)) (nl +:+ nl) buf min spans (len buf).
Definition find_newline_break (min : nat) (buf : string) (spans : list FenceSpan) : option nat :=
  find_back (S (len buf)) nl buf min spans (len buf).

(** The forward scan of the characters from byte [i] on. *)
Fixpoint sentence_scan (min : nat) (spans : list FenceSpan) (i : nat) (cs : list string)
    (last : option nat) : option nat :=
  match cs with
  | [] => last
  | c :: cs' =>
      let next := i + len c in
      let ends := existsb (String.eqb c) ["."; "!"; "?"] in
      let stop := match cs' with [] => true | c' :: _ => is_whitespace c' end in
      sentence_scan min spans next cs'
        (if (min <=? i) && ends && stop && is_safe_fence_break spans next then Some next else last)
  end.
Definition find_sentence_break (min : nat) (buf : string) (spans : list FenceSpan) : option nat :=
  sentence_scan min spans 0 (chars buf) None.

Definition opt_or {A} (o p : option A) : option A := match o with Some x => Some x | None => p end.

(** [None] is the panic of slicing inside a character. *)
Definition pick_break_index (cfg : ChunkingConfig) (buffer : string) : option nat :=
  let window := Nat.min (len buffer) (max_chars cfg) in
  buf ← slice_to buffer window;
  let spans := parse_fence_spans buf in
  let min := min_chars cfg in
  Some (default window
    match break_preference cfg with
    | Paragraph => opt_or (find_paragraph_break min buf spans)
                     (opt_or (find_newline_break min buf spans) (find_sentence_break min buf spans))
    | Newline => opt_or (find_newline_break min buf spans) (find_sentence_break min buf spans)
    | Sentence => find_sentence_break min buf spans
    end).

(** * Draining *)

(** The chunk, the fence it closes and the one that reopens, the rest. *)
Definition split_at (idx : nat) (buffer : string) : option (string * option string * option string * string) :=
  chunk ← slice_to buffer idx;
  rest ← slice_from buffer idx;
  let rest := trim_start_char LF rest in
  match last (parse_fence_spans chunk) with
  | Some span =>
      if len chunk <=? fs_end span
      then Some (chunk, Some (nl +:+ fs_indent span +:+ str_repeat (String (fs_marker span) "") 3),
                 Some (fs_open_line span +:+ nl), rest)
      else Some (chunk, None, None, rest)
  | None => Some (chunk, None, None, rest)
  end.

Definition non_blank (s : string) : list string := if String.eqb s "" then [] else [s].

Inductive StepOut :=
| Stop (chunks : list string) (buffer : string)
| More (chunks : list string) (buffer : string).

(** One round of the loop of [drain]. *)
Definition drain_round (cfg : ChunkingConfig) (force : bool) (buffer : string) : option StepOut :=
  if String.eqb (trim buffer) "" then Some (Stop [] (if force then "" else buffer))
  else if negb force && (len buffer <? min_chars cfg) then Some (Stop [] buffer)
  else if force && (len buffer <=? max_chars cfg) then Some (Stop (non_blank (trim buffer)) "")
  else
    idx ← pick_break_index cfg buffer;
    '(chunk, close, reopen, rest) ← split_at idx buffer;
    let out := match close with Some c => chunk +:+ c | None => chunk end in
    let buffer' := match reopen with Some r => r +:+ trim_start_char LF rest | None => rest end in
    Some (More (non_blank (trim out)) buffer').

Inductive Drained :=
| Done (chunks : list string) (buffer : string)
| Panicked
| Spins.

Definition emit (cs : list string) (d : Drained) : Drained :=
  match d with Done cs' b => Done (cs ++ cs') b | _ => d end.

Fixpoint drain (fuel : nat) (cfg : ChunkingConfig) (force : bool) (buffer : string) : Drained :=
  match fuel with
  | 0 => Spins
  | S fuel' =>
      match drain_round cfg force buffer with
      | None => Panicked
      | Some (Stop cs b) => Done cs b
      | Some (More cs b) => emit cs (drain fuel' cfg force b)
      end
  end.

(** The chunker: text is pushed and chunks are drained. *)
Record StreamChunker := { sk_config : ChunkingConfig; sk_buffer : string }.
Definition StreamChunker_new (config : ChunkingConfig) : StreamChunker := {|
  sk_config := config; sk_buffer := "" |}.
Definition push (text : string) (k : StreamChunker) : StreamChunker := {|
  sk_config := sk_config k; sk_buffer := sk_buffer k +:+ text |}.

(** * Lemmas on text *)

Lemma chars_split s i : is_char_boundary s i = true ->
  chars s = chars (str_take i s) ++ chars (str_drop i s).
Proof.
  intros Hb.
  assert (chunks (chars (str_take i s) ++ chars (str_drop i s))) as Hc.
  { destruct (chars_chunks (str_take i s)) as [A1 A2], (chars_chunks (str_drop i s)) as [B1 B2].
    split; [by apply Forall_app|].
    assert (Forall lead (chars (str_drop i s)) \/ i = 0) as [Hl| ->].
    { destruct (decide (i = 0)) as [|Hi]; [by right|left].
      unfold is_char_boundary in Hb. rewrite (proj2 (Nat.eqb_neq _ _) Hi) in Hb.
      rewrite byte_at_drop in Hb. destruct (str_drop i s) as [|c r] eqn:E; [constructor|].
      pose proof (chars_concat (String c r)) as Hcc.
      destruct (chars (String c r)) as [|[|d w] ws] eqn:Ech; [constructor|by apply Forall_cons in B1 as [[] _]|].
      constructor; [|done]. simpl in Hcc. injection Hcc as -> _. by apply negb_true_iff in Hb. }
    - destruct (chars (str_take i s)) as [|x l]; simpl; [|by apply Forall_app].
      destruct (chars (str_drop i s)); [constructor|]. by apply Forall_cons in Hl as [_ ?].
    - by destruct s. }
  pose proof (chars_of_chunks _ Hc) as H. rewrite str_concat_app, !chars_concat, str_take_drop in H.
  done.
Qed.

(** A character of more than one byte starts with a byte of 128 or more. *)
Definition wide_char (c : string) : bool :=
  match c with String d (String _ _) => 128 <=? nat_of_ascii d | _ => true end.
Definition text_ok (s : string) : bool := forallb wide_char (chars s).

Lemma text_ok_split s i : is_char_boundary s i = true ->
  text_ok s = text_ok (str_take i s) && text_ok (str_drop i s).
Proof. intros Hb. unfold text_ok. by rewrite (chars_split s i Hb), forallb_app. Qed.

(** What is not white space. *)
Definition ink (s : string) : list string := retain (fun c => negb (is_whitespace c)) (chars s).

Lemma ink_split s i : is_char_boundary s i = true -> ink s = ink (str_take i s) ++ ink (str_drop i s).
Proof. intros Hb. unfold ink, retain. by rewrite (chars_split s i Hb), List.filter_app. Qed.

Lemma retain_drop_while {A} (p : A -> bool) l :
  retain (fun x => negb (p x)) (drop_while p l) = retain (fun x => negb (p x)) l.
Proof.
  induction l as [|x l IH]; [done|]. simpl. destruct (p x) eqn:E; simpl; [done|]. by rewrite E.
Qed.

Lemma retain_rev {A} (p : A -> bool) l : retain p (rev l) = rev (retain p l).
Proof. unfold retain. by rewrite List.filter_rev. Qed.

Lemma ink_trim s : ink (trim s) = ink s.
Proof.
  unfold ink. rewrite chars_trim. unfold trim_list.
  by rewrite retain_rev, retain_drop_while, retain_rev, rev_involutive, retain_drop_while.
Qed.

Lemma ink_blank s : trim s = "" -> ink s = [].
Proof. intros H. by rewrite <- ink_trim, H. Qed.

(** A line feed is a character of its own. *)
Lemma chars_lf s : text_ok (String LF s) = true -> chars (String LF s) = nl :: chars s.
Proof.
  unfold text_ok. simpl. destruct (chars s) as [|[|d w] ws] eqn:E; [done|done|].
  by destruct (is_utf8_cont d).
Qed.

Lemma trim_lf_ok s : text_ok s = true ->
  text_ok (trim_start_char LF s) = true /\ ink (trim_start_char LF s) = ink s.
Proof.
  induction s as [|c s IH]; [done|]. intros Hok. cbn [trim_start_char].
  destruct (Ascii.eqb_spec c LF) as [->|]; [|done].
  pose proof (chars_lf s Hok) as Hc. unfold text_ok in Hok. rewrite Hc in Hok.
  apply andb_true_iff in Hok as [_ Hok]. destruct (IH Hok) as [H1 H2]. split; [done|].
  rewrite H2. unfold ink. by rewrite Hc.
Qed.

Lemma byte_at_all p s i c : str_all p s = true -> byte_at s i = Some c -> p c = true.
Proof.
  revert i. induction s as [|d s IH]; intros i H Hi; [done|]. apply andb_true_iff in H as [Hd Hs].
  destruct i as [|i]; [by injection Hi as <-|by apply (IH i)].
Qed.

Definition ascii_byte (c : ascii) : bool := nat_of_ascii c <? 128.

Lemma ascii_char_boundary s i : str_all ascii_byte s = true -> i <= len s -> is_char_boundary s i = true.
Proof.
  intros Hs Hi. unfold is_char_boundary. destruct (i =? 0); [done|].
  destruct (byte_at s i) as [c|] eqn:E.
  - pose proof (byte_at_all _ _ _ _ Hs E) as Hc. unfold ascii_byte in Hc. apply Nat.ltb_lt in Hc. unfold is_utf8_cont.
    by rewrite (proj2 (Nat.leb_gt _ _) Hc).
  - apply byte_at_None in E. apply Nat.eqb_eq. lia.
Qed.

Lemma str_all_split p s i : str_all p s = true ->
  str_all p (str_take i s) = true /\ str_all p (str_drop i s) = true.
Proof. rewrite <- (str_take_drop i s) at 1. rewrite str_all_app. apply andb_true_iff. Qed.

Lemma trim_start_char_drop c s : exists n, trim_start_char c s = str_drop n s.
Proof.
  induction s as [|d s [n IH]]; simpl; [by exists 0|]. destruct (Ascii.eqb d c); [by exists (S n)|by exists 0].
Qed.

Lemma rfind_starts s p i : rfind s p = Some i -> starts_with (str_drop i s) p = true.
Proof.
  unfold starts_with. revert i. induction s as [|c s IH]; intros i; cbn [rfind].
  - destruct (String.prefix p "") eqn:E; [|done]. intros [= <-]. exact E.
  - destruct (rfind s p) as [j|] eqn:Er; [intros [= <-]; by apply IH|].
    destruct (String.prefix p (String c s)) eqn:E; [|done]. intros [= <-]. exact E.
Qed.

(** ** Text without fence markers *)

Definition plain_byte (c : ascii) : bool := negb (fence_marker c).

Lemma split_char_all p c s : str_all p s = true -> Forall (fun l => str_all p l = true) (split_char c s).
Proof.
  induction s as [|d s IH]; simpl; [by repeat constructor|]. intros [Hd Hs]%andb_true_iff.
  specialize (IH Hs). destruct (Ascii.eqb d c); [by constructor|].
  destruct (split_char c s) as [|w ws]; [constructor; [|done]; simpl; by rewrite Hd|].
  apply Forall_cons in IH as [Hw IH]. constructor; [|done]. simpl. by rewrite Hd, Hw.
Qed.

Lemma plain_no_fence line : str_all plain_byte line = true -> fence_line line = None.
Proof.
  intros H. unfold fence_line. destruct (_ <? _); [done|].
  destruct (trim_start_decompose line) as [a E]. rewrite E, str_all_app in H.
  apply andb_true_iff in H as [_ H]. destruct (trim_start line) as [|c r]; [done|].
  simpl in H. apply andb_true_iff in H as [Hc%negb_true_iff _]. by rewrite Hc.
Qed.

Lemma plain_no_spans s : str_all plain_byte s = true -> parse_fence_spans s = [].
Proof.
  intros H. unfold parse_fence_spans. generalize (len s), 0.
  pose proof (split_char_all _ LF s H) as Hall. induction Hall as [|l ls Hl _ IH]; intros total pos; [done|].
  simpl. rewrite plain_no_fence by done. apply IH.
Qed.

(** * Where a round cuts *)

Lemma find_back_bounds fuel pat buf min spans i pos :
  find_back fuel pat buf min spans i = Some pos ->
  pos + len pat <= len buf /\ min <= pos /\ starts_with (str_drop pos buf) pat = true
  /\ is_safe_fence_break spans pos = true.
Proof.
  revert i. induction fuel as [|fuel IH]; intros i; simpl; [done|].
  destruct (i <=? min); [done|]. destruct (rfind (str_take i buf) pat) as [p|] eqn:E; [|done].
  destruct (Nat.ltb_spec p min); [done|].
  destruct (is_safe_fence_break spans p) eqn:Es; [|by apply IH]. intros [= <-].
  pose proof (rfind_lt _ _ _ E) as Hlt. rewrite len_str_take in Hlt. split; [lia|]. split; [done|].
  split; [|done]. apply rfind_starts in E. apply prefix_spec in E as [r Hr]. apply prefix_spec.
  exists (r +:+ str_drop i buf).
  pose proof (str_take_drop i buf) as Hb. pose proof (str_take_drop p (str_take i buf)) as Hp.
  rewrite Hr in Hp. rewrite <- Hp in Hb. rewrite <- Hb at 1.
  assert (len (str_take p (str_take i buf)) = p) as Hl by (rewrite !len_str_take; lia).
  rewrite <- Hl at 1. rewrite !str_app_assoc, str_drop_app. done.
Qed.

(** The fuel of [find_back] never runs out. *)
Lemma find_back_fuel fuel fuel' pat buf min spans i : 0 < len pat -> i < fuel -> i < fuel' ->
  find_back fuel pat buf min spans i = find_back fuel' pat buf min spans i.
Proof.
  intros Hp. revert fuel' i. induction fuel as [|fuel IH]; intros [|fuel'] i H1 H2; try lia. simpl.
  destruct (i <=? min); [done|]. destruct (rfind (str_take i buf) pat) as [p|] eqn:E; [|done].
  destruct (p <? min); [done|]. destruct (is_safe_fence_break spans p); [done|].
  pose proof (rfind_lt _ _ _ E) as Hlt. rewrite len_str_take in Hlt. apply IH; lia.
Qed.

Lemma sentence_scan_bounds min spans i cs last n :
  sentence_scan min spans i cs last = Some n ->
  last = Some n \/ 1 <= n <= i + len (str_concat cs).
Proof.
  revert i last. induction cs as [|c cs IH]; intros i l; simpl; [by left|]. rewrite len_app.
  intros [H|H]%IH; [|right; lia].
  match type of H with context [if ?b then _ else _] => destruct b eqn:E end; [|by left].
  injection H as <-. right. apply andb_true_iff in E as [[[_ He]%andb_true_iff _]%andb_true_iff _].
  rewrite !orb_true_iff, !String.eqb_eq in He. destruct He as [->|[->|[->|?]]]; simpl; [lia..|done].
Qed.

Lemma pick_break_bounds cfg buffer idx : 0 < len buffer -> 1 <= max_chars cfg ->
  pick_break_index cfg buffer = Some idx ->
  idx <= max_chars cfg /\ idx <= len buffer /\ (idx = 0 -> starts_with buffer nl = true).
Proof.
  intros Hb Hm. unfold pick_break_index. set (w := Nat.min (len buffer) (max_chars cfg)).
  destruct (slice_to buffer w) as [buf|] eqn:Ew; [|done]. simpl.
  apply slice_to_Some in Ew as [Hbuf Hlen]. rewrite (Nat.min_l w) in Hlen by lia.
  set (spans := parse_fence_spans buf).
  assert (forall p, starts_with buf (nl +:+ p) = true -> starts_with buffer nl = true) as Hpre.
  { intros p H. apply prefix_spec in H as [r Hr]. apply prefix_spec.
    exists (p +:+ r +:+ str_drop w buffer). rewrite Hbuf at 1. rewrite Hr. by rewrite !str_app_assoc. }
  assert (forall n, find_paragraph_break (min_chars cfg) buf spans = Some n ->
    n <= w /\ (n = 0 -> starts_with buffer nl = true)) as H1.
  { intros n (Hn & _ & Hs & _)%find_back_bounds. split; [lia|]. intros ->. by apply (Hpre nl). }
  assert (forall n, find_newline_break (min_chars cfg) buf spans = Some n ->
    n <= w /\ (n = 0 -> starts_with buffer nl = true)) as H2.
  { intros n (Hn & _ & Hs & _)%find_back_bounds. split; [lia|]. intros ->. by apply (Hpre ""). }
  assert (forall n, find_sentence_break (min_chars cfg) buf spans = Some n ->
    n <= w /\ (n = 0 -> starts_with buffer nl = true)) as H3.
  { intros n [?|Hn]%sentence_scan_bounds; [done|]. rewrite chars_concat in Hn. lia. }
  intros [= <-].
  assert (forall o, (forall n, o = Some n -> n <= w /\ (n = 0 -> starts_with buffer nl = true)) ->
    default w o <= max_chars cfg /\ default w o <= len buffer
    /\ (default w o = 0 -> starts_with buffer nl = true)) as Hgo.
  { intros [n|] H; simpl; [destruct (H n eq_refl); split_and!; [lia|lia|done]|split_and!; lia]. }
  apply Hgo. intros n. unfold opt_or.
  destruct (break_preference cfg), (find_paragraph_break _ _ _), (find_newline_break _ _ _); auto.
Qed.

Definition inks (cs : list string) : list string := concat (ink <$> cs).

(** A chunk: not blank, trimmed, at most [max_chars] long. *)
Definition good_chunk (cfg : ChunkingConfig) (c : string) : Prop :=
  c <> "" /\ trim c = c /\ len c <= max_chars cfg.

Lemma non_blank_good cfg s : len s <= max_chars cfg ->
  Forall (good_chunk cfg) (non_blank (trim s)) /\ inks (non_blank (trim s)) = ink s.
Proof.
  intros Hl. unfold non_blank, inks. destruct (String.eqb_spec (trim s) "") as [E|E]; simpl.
  - split; [done|]. by rewrite ink_blank.
  - rewrite app_nil_r, ink_trim. split; [|done]. repeat constructor; [done|apply trim_idem|].
    pose proof (len_trim s). lia.
Qed.

(** The text handled below: no fence markers, well-formed characters. *)
Definition prose (s : string) : Prop := str_all plain_byte s = true /\ text_ok s = true.

Definition left_over (cfg : ChunkingConfig) (force : bool) (b : string) : Prop :=
  if force then b = "" else trim b = "" \/ len b < min_chars cfg.

Definition round_ok (cfg : ChunkingConfig) (force : bool) (buffer : string) (o : option StepOut) : Prop :=
  match o with
  | None => str_all ascii_byte buffer = false
  | Some (Stop cs b) => Forall (good_chunk cfg) cs /\ inks cs ++ ink b = ink buffer /\ left_over cfg force b
  | Some (More cs b) => Forall (good_chunk cfg) cs /\ inks cs ++ ink b = ink buffer
      /\ len b < len buffer /\ prose b /\ (str_all ascii_byte buffer = true -> str_all ascii_byte b = true)
  end.

Lemma slice_ascii s i : i <= len s -> is_char_boundary s i = false -> str_all ascii_byte s = false.
Proof.
  intros Hi Hb. destruct (str_all ascii_byte s) eqn:E; [|done].
  by rewrite (ascii_char_boundary s i E Hi) in Hb.
Qed.

(** The buffer after a cut. *)
Lemma cut_rest idx buffer : prose buffer -> is_char_boundary buffer idx = true ->
  (idx = 0 -> starts_with buffer nl = true) -> 0 < len buffer ->
  let b := trim_start_char LF (str_drop idx buffer) in
  prose b /\ ink buffer = ink (str_take idx buffer) ++ ink b /\ len b < len buffer
  /\ (str_all ascii_byte buffer = true -> str_all ascii_byte b = true).
Proof.
  intros [Hp Hok] Hb Hz Hl. simpl. rewrite (text_ok_split _ _ Hb) in Hok.
  apply andb_true_iff in Hok as [_ Hok]. destruct (trim_lf_ok _ Hok) as [H1 H2].
  destruct (trim_start_char_drop LF (str_drop idx buffer)) as [n Hn].
  destruct (str_all_split _ _ idx Hp) as [_ Hp']. split_and!.
  - split; [|done]. rewrite Hn. by apply str_all_split.
  - by rewrite H2, <- ink_split.
  - pose proof (len_trim_start_char LF (str_drop idx buffer)) as Hlt. rewrite len_str_drop in Hlt.
    destruct idx as [|idx]; [|lia]. specialize (Hz eq_refl). apply prefix_spec in Hz as [r ->].
    simpl. pose proof (len_trim_start_char LF r). lia.
  - intros Ha. rewrite Hn. by apply str_all_split, str_all_split.
Qed.

Lemma cut_fits cfg force buffer : 1 <= max_chars cfg -> prose buffer -> 0 < len buffer ->
  round_ok cfg force buffer (
    idx ← pick_break_index cfg buffer;
    '(chunk, close, reopen, rest) ← split_at idx buffer;
    let out := match close with Some c => chunk +:+ c | None => chunk end in
    let buffer' := match reopen with Some r => r +:+ trim_start_char LF rest | None => rest end in
    Some (More (non_blank (trim out)) buffer')).
Proof.
  intros Hm Hp Hl. destruct (pick_break_index cfg buffer) as [idx|] eqn:Ei.
  - destruct (pick_break_bounds cfg buffer idx Hl Hm Ei) as (Hi & Hi' & Hz). simpl.
    unfold split_at, slice_to, slice_from.
    destruct (is_char_boundary buffer idx) eqn:Eb; simpl; [|by apply (slice_ascii _ idx)].
    rewrite plain_no_spans by (apply str_all_split, Hp). simpl.
    destruct (cut_rest idx buffer Hp Eb Hz Hl) as (H1 & H2 & H3 & H4).
    destruct (non_blank_good cfg (str_take idx buffer)) as [G1 G2]; [rewrite len_str_take; lia|].
    split; [done|]. by rewrite G2.
  - simpl. unfold pick_break_index, slice_to in Ei.
    destruct (is_char_boundary buffer _) eqn:Eb; [done|]. apply (slice_ascii _ _) in Eb; [done|lia].
Qed.

Lemma drain_round_prose cfg force buffer : 1 <= max_chars cfg -> prose buffer ->
  round_ok cfg force buffer (drain_round cfg force buffer).
Proof.
  intros Hm Hp. unfold drain_round.
  destruct (String.eqb_spec (trim buffer) "") as [Eb|Eb].
  { unfold round_ok, inks, left_over. destruct force; simpl; rewrite ?(ink_blank buffer) by done; auto. }
  assert (0 < len buffer) as Hl.
  { destruct buffer; [done|simpl; lia]. }
  destruct force; simpl.
  - destruct (Nat.leb_spec (len buffer) (max_chars cfg)) as [Hle|Hgt]; [|by apply cut_fits].
    destruct (non_blank_good cfg buffer Hle) as [H1 H2]. simpl. by rewrite H2, app_nil_r.
  - destruct (Nat.ltb_spec (len buffer) (min_chars cfg)); [|by apply cut_fits].
    unfold round_ok, left_over. auto.
Qed.

Lemma drain_prose fuel cfg force buffer : 1 <= max_chars cfg -> prose buffer -> len buffer < fuel ->
  match drain fuel cfg force buffer with
  | Done cs b => Forall (good_chunk cfg) cs /\ inks cs ++ ink b = ink buffer /\ left_over cfg force b
  | Panicked => str_all ascii_byte buffer = false
  | Spins => False
  end.
Proof.
  intros Hm. revert buffer. induction fuel as [|fuel IH]; intros buffer Hp Hf; [lia|]. simpl.
  pose proof (drain_round_prose cfg force buffer Hm Hp) as H.
  destruct (drain_round cfg force buffer) as [[cs b|cs b]|]; simpl in H; [done| |done].
  destruct H as (H1 & H2 & H3 & H4 & H5). specialize (IH b H4 ltac:(lia)).
  destruct (drain fuel cfg force b) as [cs' b'| |]; simpl; [|destruct (str_all ascii_byte buffer); [|done]|done].
  - destruct IH as (I1 & I2 & I3). split_and!; [by apply Forall_app| |done].
    unfold inks in *. rewrite fmap_app, concat_app, <- H2, <- I2. by rewrite app_assoc.
  - rewrite H5 in IH; done.
Qed.


Definition small (force_max : nat) : ChunkingConfig := {|
  min_chars := 4; max_chars := force_max; break_preference := Paragraph; flush_on_paragraph := false |}.


(** ** What fences and characters change *)

(** A cut inside a two-byte character panics. *)
Example cut_inside_character :
  drain 10 (small 5) false ("abcd" +:+ chr2 195 169 +:+ "f") = Panicked.
Proof. by vm_compute. Qed.

Lemma drain_stuck cfg force buffer cs fuel :
  drain_round cfg force buffer = Some (More cs buffer) -> drain fuel cfg force buffer = Spins.
Proof. intros H. induction fuel as [|fuel IH]; simpl; [done|]. by rewrite H, IH. Qed.

(** A fence whose opening line is as long as a chunk is reopened with all of it,
    and the loop never ends. *)
Example long_fence_line_spins : forall fuel, drain fuel (small 8) true "```abcdefghijkl" = Spins.
Proof.
  intros [|fuel]; [done|]. cbn [drain].
  replace (drain_round (small 8) true "```abcdefghijkl")
    with (Some (More ["```abcde" +:+ nl +:+ "```"] ("```abcde" +:+ nl +:+ "fghijkl"))) by (by vm_compute).
  by rewrite (drain_stuck _ _ _ ["```abcde" +:+ nl +:+ "```"]) by (by vm_compute).
Qed.

(** Without a break the whole buffer goes out, although it is below the maximum. *)
Example no_break_flushes_all :
  drain 10 (small 1500) false "half a wor" = Done ["half a wor"] "".
Proof. by vm_compute. Qed.
