(* ===== verification/SessionBindings.v ===== *)
(** Delivery targets and session bindings
    ([crates/gateway-core/src/http/agent_bridge.rs]): where the result of a
    subagent is announced, from the metadata of a session, from its key, from a
    hook, or from the conversations bound to it.

    The list of bindings is kept as JSON text in the metadata; writing and reading
    that text is a parameter. *)

From Stdlib Require Import Strings.String.
From S2P Require Import Prelude RustStr Json ConfigStore SessionStore Outbound.
#[local] Open Scope string_scope.
#[local] Open Scope nat_scope.
#[local] Open Scope list_scope.
#[local] Open Scope rust_scope.

(** * Data *)

Record SessionBindingConversationRef := {
  sc_channel : string;
  sc_account_id : string;
  sc_conversation_id : string;
  sc_parent_conversation_id : option string;
}.

Record SessionBindingRecord := {
  sb_binding_id : string;
  sb_target_session_key : string;
  sb_target_kind : string;
  sb_conversation : SessionBindingConversationRef;
  sb_status : string;
  sb_bound_at_ms : Z;
  sb_expires_at_ms : option Z;
  sb_metadata : option json;
}.

Record AnnounceTarget := {
  at_channel : string;
  at_to : string;
  at_account_id : option string;
  at_thread_id : option string;
}.

Record BoundDeliveryRoute := {
  br_binding : option SessionBindingRecord;
  br_mode : string;
  br_reason : string;
}.

(** * Targets *)

Definition normalize_account_id (raw : option string) : string :=
  default "" (to_ascii_lowercase <$> trimmed raw).

Definition parse_conversation_id_from_target (to : string) : option string :=
  let t := trim to in
  if String.eqb t "" then None
  else match strip_prefix t "channel:" with
       | Some rest => Some (trim rest)
       | None => match strip_prefix t "group:" with
                 | Some rest => Some (trim rest)
                 | None => Some t
                 end
       end.

Definition binding_record_to_announce_target (record : SessionBindingRecord) : option AnnounceTarget :=
  let channel := normalize_channel_alias (sc_channel (sb_conversation record)) in
  let conversation_id := trim (sc_conversation_id (sb_conversation record)) in
  if String.eqb channel "" || String.eqb conversation_id "" then None
  else Some {| at_channel := channel; at_to := "channel:" +:+ conversation_id;
               at_account_id := Some (normalize_account_id (Some (sc_account_id (sb_conversation record))));
               at_thread_id := Some conversation_id |}.

Definition target_to_requester_conversation (target : AnnounceTarget)
  : option SessionBindingConversationRef :=
  let channel := normalize_channel_alias (at_channel target) in
  if String.eqb channel "" then None
  else
    conversation_id ← match trimmed (at_thread_id target) with
                      | Some thread_id => Some thread_id
                      | None => parse_conversation_id_from_target (at_to target)
                      end;
    Some {| sc_channel := channel; sc_account_id := normalize_account_id (at_account_id target);
            sc_conversation_id := conversation_id;
            sc_parent_conversation_id := parse_conversation_id_from_target (at_to target) |}.

Definition target_of_meta (meta : gmap string string) : option AnnounceTarget :=
  channel ← session_metadata_pick meta ["delivery.channel"; "lastChannel"; "last_channel"; "channel"];
  to ← session_metadata_pick meta ["delivery.to"; "lastTo"; "last_to"; "to"; "target"];
  Some {| at_channel := channel; at_to := to;
          at_account_id := session_metadata_pick meta
            ["delivery.accountId"; "lastAccountId"; "last_account_id"; "account_id"];
          at_thread_id := session_metadata_pick meta
            ["delivery.threadId"; "lastThreadId"; "last_thread_id"; "thread_id"] |}.

Section from_key.
(** The decimal digits of the regular expression's [\d]. *)
Variable is_digit : string -> bool.

(** The suffix [:topic:<digits>] or [:thread:<digits>]: the digits and the rest. *)
Definition split_topic (rest : string) : option (string * string) :=
  match rev (split_char ":"%char rest) with
  | digits :: word :: ((_ :: _) as front) =>
      if negb (String.eqb digits "") && forallb is_digit (chars digits)
         && (eq_ignore_ascii_case word "topic" || eq_ignore_ascii_case word "thread")
      then Some (digits, join ":" (rev front)) else None
  | _ => None
  end.

Definition resolve_announce_target_from_key (session_key : string) : option AnnounceTarget :=
  let parts := retain (fun part => negb (String.eqb part "")) (split_char ":"%char session_key) in
  let parts := if (3 <=? length parts) && bool_decide (head parts = Some "agent") then drop 2 parts else parts in
  match parts with
  | channel_raw :: kind_raw :: ((_ :: _) as rest_parts) =>
      let kind := to_ascii_lowercase (trim kind_raw) in
      if negb (String.eqb kind "group") && negb (String.eqb kind "channel") then None
      else
        let rest := join ":" rest_parts in
        if String.eqb (trim rest) "" then None
        else
          let '(thread_id, rest) := match split_topic rest with
                                    | Some (digits, front) => (Some digits, front)
                                    | None => (None, rest)
                                    end in
          let id := trim rest in
          if String.eqb id "" then None
          else
            let channel := normalize_channel_alias (trim channel_raw) in
            let to := if String.eqb channel "discord" || String.eqb channel "slack" || String.eqb kind "channel"
                      then "channel:" +:+ id else "group:" +:+ id in
            Some {| at_channel := channel; at_to := to; at_account_id := None; at_thread_id := thread_id |}
  | _ => None
  end.

(** [rows]: the order in which the table is read. *)
Definition resolve_announce_target (rows : gmap string SessionInfo -> list SessionInfo)
    (session_key display_key : string) (db : Db) : option AnnounceTarget :=
  let of_session key := target_of_meta (get_session_metadata key db) in
  or_else (of_session session_key)
    (or_else (if String.eqb display_key session_key then None else of_session display_key)
      (or_else (head (omap (fun row =>
          if String.eqb (si_key row) session_key || String.eqb (si_key row) display_key
          then of_session (si_key row) else None) (list_sessions rows db)))
        (or_else (resolve_announce_target_from_key session_key)
                 (resolve_announce_target_from_key display_key)))).
End from_key.

Definition str_or_i64 (v : json) : option string :=
  match as_str v with Some s => Some s | None => (fun n : Z => pretty n) <$> as_i64 v end.

Definition parse_subagent_delivery_target_from_hook (value : json) : option AnnounceTarget :=
  let root := match get "origin" value with
              | Some v => if is_object v then v else value
              | None => value
              end in
  channel ← normalize_channel_alias <$> trimmed (get_str "channel" root);
  if String.eqb channel "webchat" then None
  else
    to ← trimmed (or_else (get "to" root) (get "target" root) ≫= as_str);
    Some {| at_channel := channel; at_to := to;
            at_account_id := trimmed (or_else (get "accountId" root) (get "account_id" root) ≫= as_str);
            at_thread_id := trimmed (or_else (get "threadId" root) (get "thread_id" root) ≫= str_or_i64) |}.

(** * Bindings *)

Section bindings.
Variable ser : list SessionBindingRecord -> string.
Variable de : string -> option (list SessionBindingRecord).
Variable fk : bool.

Definition same_session (record : SessionBindingRecord) (key : string) : bool :=
  String.eqb (trim (sb_target_session_key record)) (trim key).

Definition usable (now : Z) (record : SessionBindingRecord) : bool :=
  String.eqb (to_ascii_lowercase (trim (sb_status record))) "active"
  && match sb_expires_at_ms record with
     | Some at_ms => negb ((0 <? at_ms)%Z && (at_ms <=? now)%Z)
     | None => true
     end
  && negb (String.eqb (trim (sc_channel (sb_conversation record))) "")
  && negb (String.eqb (trim (sc_conversation_id (sb_conversation record))) "").

(** The delivery fields of a session, as a binding. *)
Definition legacy_binding (now : Z) (meta : gmap string string) (key : string)
  : list SessionBindingRecord :=
  match session_metadata_pick meta ["delivery.channel"; "lastChannel"; "last_channel"; "channel"],
        session_metadata_pick meta ["delivery.to"; "lastTo"; "last_to"; "to"; "target"] with
  | Some channel, Some to =>
      match parse_conversation_id_from_target to with
      | Some conversation_id =>
          if String.eqb (trim channel) "" || String.eqb (trim conversation_id) "" then []
          else [{| sb_binding_id := "legacy:" +:+ key; sb_target_session_key := key;
                   sb_target_kind := "subagent";
                   sb_conversation := {|
                     sc_channel := normalize_channel_alias channel;
                     sc_account_id := normalize_account_id (session_metadata_pick meta
                       ["delivery.accountId"; "lastAccountId"; "last_account_id"; "account_id"]);
                     sc_conversation_id := conversation_id;
                     sc_parent_conversation_id := session_metadata_pick meta
                       ["delivery.threadId"; "lastThreadId"; "last_thread_id"; "thread_id"] |};
                   sb_status := "active"; sb_bound_at_ms := now; sb_expires_at_ms := None;
                   sb_metadata := None |}]
      | None => []
      end
  | _, _ => []
  end.

Definition parse_session_bindings_from_metadata (now : Z) (meta : gmap string string) (key : string)
  : list SessionBindingRecord :=
  let raw := trim (default "" (or_else (meta !! "deliveryBindings") (meta !! "subagentDeliveryBindings"))) in
  let out := if String.eqb raw "" then [] else default [] (de raw) in
  let out := match out with [] => legacy_binding now meta key | _ => out end in
  retain (fun record => same_session record key && usable now record) out.

Definition read_session_bindings (now : Z) (key : string) (db : Db) : list SessionBindingRecord :=
  parse_session_bindings_from_metadata now (get_session_metadata key db) key.

(** Both writes; their outcomes are dropped. *)
Definition write_session_bindings (st1 st2 : nat -> option string) (key : string)
    (bindings : list SessionBindingRecord) (db : Db) : Db :=
  let db1 := (set_session_metadata_field fk st1 key "deliveryBindings" (ser bindings) db).2 in
  (set_session_metadata_field fk st2 key "subagentDeliveryBindings" (ser bindings) db1).2.

Definition same_conversation (channel account_id conversation_id : string) (entry : SessionBindingRecord)
  : bool :=
  String.eqb (normalize_channel_alias (sc_channel (sb_conversation entry))) channel
  && String.eqb (normalize_account_id (Some (sc_account_id (sb_conversation entry)))) account_id
  && String.eqb (trim (sc_conversation_id (sb_conversation entry))) (trim conversation_id).

Definition renewed (now : Z) (key kind : string) (thread_id : option string) (item : SessionBindingRecord)
  : SessionBindingRecord := {|
  sb_binding_id := sb_binding_id item; sb_target_session_key := key; sb_target_kind := kind;
  sb_conversation := {|
    sc_channel := sc_channel (sb_conversation item); sc_account_id := sc_account_id (sb_conversation item);
    sc_conversation_id := sc_conversation_id (sb_conversation item);
    sc_parent_conversation_id := thread_id |};
  sb_status := "active"; sb_bound_at_ms := now; sb_expires_at_ms := sb_expires_at_ms item;
  sb_metadata := sb_metadata item |}.

Definition new_binding (now : Z) (uuid key kind channel account_id conversation_id : string)
    (thread_id : option string) : SessionBindingRecord := {|
  sb_binding_id := key +:+ ":" +:+ uuid; sb_target_session_key := key; sb_target_kind := kind;
  sb_conversation := {| sc_channel := channel; sc_account_id := account_id;
                        sc_conversation_id := conversation_id; sc_parent_conversation_id := thread_id |};
  sb_status := "active"; sb_bound_at_ms := now; sb_expires_at_ms := None; sb_metadata := None |}.

(** The bindings with the target's conversation bound, and its binding. *)
Definition upsert (now : Z) (uuid key kind : string) (target : AnnounceTarget)
    (bindings : list SessionBindingRecord) : option (SessionBindingRecord * list SessionBindingRecord) :=
  conversation_id ← parse_conversation_id_from_target (at_to target);
  let channel := normalize_channel_alias (at_channel target) in
  if String.eqb channel "" || String.eqb (trim conversation_id) "" then None
  else
    let account_id := normalize_account_id (at_account_id target) in
    let thread_id := trimmed (at_thread_id target) in
    let fresh := new_binding now uuid key kind channel account_id conversation_id thread_id in
    match position (same_conversation channel account_id conversation_id) bindings with
    | Some idx =>
        match bindings !! idx with
        | Some item => let item := renewed now key kind thread_id item in
                       Some (item, <[idx := item]> bindings)
        | None => None
        end
    | None => Some (fresh, bindings ++ [fresh])
    end.

Definition upsert_session_binding (st1 st2 : nat -> option string) (now : Z) (uuid key kind : string)
    (target : AnnounceTarget) (db : Db) : option SessionBindingRecord * Db :=
  match upsert now uuid key kind target (read_session_bindings now key db) with
  | Some (item, bindings) => (Some item, write_session_bindings st1 st2 key bindings db)
  | None => (None, db)
  end.

(** ** The route of a result *)

Definition fallback (reason : string) : BoundDeliveryRoute := {|
  br_binding := None; br_mode := "fallback"; br_reason := reason |}.
Definition bound (binding : option SessionBindingRecord) (reason : string) : BoundDeliveryRoute := {|
  br_binding := binding; br_mode := "bound"; br_reason := reason |}.

Definition resolve_bound_delivery_route_from_bindings (active : list SessionBindingRecord)
    (requester : option SessionBindingConversationRef) (fail_closed : bool) : BoundDeliveryRoute :=
  match active with
  | [] => fallback "no-active-binding"
  | _ =>
      match requester with
      | None => if length active =? 1 then bound (head active) "single-active-binding"
                else fallback "ambiguous-without-requester"
      | Some r =>
          let channel := normalize_channel_alias (sc_channel r) in
          let account_id := normalize_account_id (Some (sc_account_id r)) in
          let conversation_id := trim (sc_conversation_id r) in
          if String.eqb channel "" || String.eqb conversation_id "" then fallback "invalid-requester"
          else
            let matching := retain (fun entry =>
              String.eqb (normalize_channel_alias (sc_channel (sb_conversation entry))) channel
              && String.eqb (normalize_account_id (Some (sc_account_id (sb_conversation entry)))) account_id)
              active in
            match matching with
            | [] => if (length active =? 1) && negb fail_closed
                    then bound (head active) "single-active-binding-fallback"
                    else fallback "no-requester-match"
            | _ =>
                match find_first (fun entry =>
                  String.eqb (trim (sc_conversation_id (sb_conversation entry))) conversation_id) matching with
                | Some exact => bound (Some exact) "requester-match"
                | None => if length matching =? 1 then bound (head matching) "single-active-binding-fallback"
                          else fallback "no-requester-match"
                end
            end
      end
  end.

Definition resolve_bound_delivery_route (now : Z) (target_session_key : string)
    (requester : option SessionBindingConversationRef) (fail_closed : bool) (db : Db) : BoundDeliveryRoute :=
  let key := trim target_session_key in
  if String.eqb key "" then fallback "missing-target-session"
  else resolve_bound_delivery_route_from_bindings (read_session_bindings now key db) requester fail_closed.
End bindings.

Definition completion_direct_force_by_route (spawn_mode route_mode : string) : bool :=
  eq_ignore_ascii_case spawn_mode "session"
  && (eq_ignore_ascii_case route_mode "bound" || eq_ignore_ascii_case route_mode "hook").
Definition should_defer_completion_direct_delivery (active_requester_descendants : nat)
    (spawn_mode route_mode : string) : bool :=
  if active_requester_descendants =? 0 then false
  else negb (completion_direct_force_by_route spawn_mode route_mode).

(** * What routes and bindings promise *)

Definition matches_account (r : SessionBindingConversationRef) (b : SessionBindingRecord) : Prop :=
  normalize_channel_alias (sc_channel (sb_conversation b)) = normalize_channel_alias (sc_channel r)
  /\ normalize_account_id (Some (sc_account_id (sb_conversation b))) = normalize_account_id (Some (sc_account_id r)).
Definition matches_conversation (r : SessionBindingConversationRef) (b : SessionBindingRecord) : Prop :=
  trim (sc_conversation_id (sb_conversation b)) = trim (sc_conversation_id r).

Lemma head_elem {A} (l : list A) x : head l = Some x -> x ∈ l.
Proof. destruct l; [done|]. intros [= ->]. by left. Qed.

Lemma length_one {A} (l : list A) x : length l = 1 -> head l = Some x -> forall y, y ∈ l -> y = x.
Proof. destruct l as [|z [|]]; try done. intros _ [= ->] y Hy%list_elem_of_singleton. done. Qed.

(** The route of a result.  A bound route names one of the active bindings.
    Without a requester it is the only one.  With a requester it is one of its
    channel and account, and of its conversation whenever one of those is, or the
    only one among them; only when the route does not fail closed can it be a
    binding of another account, and then there is no other binding. *)
Theorem bound_route_sound active requester fail_closed b :
  br_binding (resolve_bound_delivery_route_from_bindings active requester fail_closed) = Some b ->
  b ∈ active
  /\ match requester with
     | None => forall b', b' ∈ active -> b' = b
     | Some r =>
         (matches_account r b
          /\ (matches_conversation r b
              \/ forall b', b' ∈ active -> matches_account r b' -> b' = b))
         \/ (fail_closed = false /\ forall b', b' ∈ active -> b' = b)
     end.
Proof.
  unfold resolve_bound_delivery_route_from_bindings. destruct active as [|a0 rest] eqn:Ea; [done|].
  rewrite <- Ea. clear Ea. destruct requester as [r|].
  - destruct (String.eqb _ "" || String.eqb _ ""); [done|].
    set (m := retain _ active).
    assert (forall b', b' ∈ m <-> b' ∈ active /\ matches_account r b') as Hm.
    { intros b'. unfold m. rewrite elem_of_retain, andb_true_iff, !String.eqb_eq. done. }
    destruct m as [|m0 ms] eqn:Em.
    + destruct (Nat.eqb_spec (length active) 1) as [Hl|]; [|done]. destruct fail_closed; [done|].
      simpl. intros Hb. split; [by apply head_elem|]. right. split; [done|]. by apply length_one.
    + rewrite <- Em in Hm |- *. destruct (find_first _ m) as [x|] eqn:Ef.
      * intros [= ->]. apply find_first_Some in Ef as [Hin%Hm He%String.eqb_eq].
        split; [apply Hin|]. left. split; [apply Hin|by left].
      * destruct (Nat.eqb_spec (length m) 1) as [Hl|]; [|done]. simpl. intros Hb.
        pose proof (head_elem _ _ Hb) as Hin%Hm. split; [apply Hin|]. left. split; [apply Hin|right].
        intros b' Hb' Ha. apply (length_one m b Hl Hb). by apply Hm.
  - destruct (Nat.eqb_spec (length active) 1) as [Hl|]; [|done]. simpl. intros Hb.
    split; [by apply head_elem|by apply length_one].
Qed.

(** ** Binding a conversation and routing back to it *)

Section roundtrip.
Variable ser : list SessionBindingRecord -> string.
Variable de : string -> option (list SessionBindingRecord).
(** The text written for a list reads back as that list. *)
Definition reads_back (l : list SessionBindingRecord) : Prop :=
  trim (ser l) <> "" /\ de (trim (ser l)) = Some l.
Variable fk : bool.

(** The writes succeed: the session exists and no statement fails. *)
Definition all_written (st : nat -> option string) (key : string) (db : Db) : Prop :=
  (forall n, st n = None) /\ is_Some (db_sessions db !! key).

Lemma put_written st key field value db : all_written st key db -> trim field = field -> field <> "" ->
  set_session_metadata_field fk st key field value db = (Ok tt, put_field key field value db).
Proof.
  intros [Hst [s Hs]] Ht Hne. unfold set_session_metadata_field. rewrite Ht.
  rewrite (proj2 (String.eqb_neq _ _) Hne). unfold fk_violated. rewrite bool_decide_false by congruence.
  rewrite andb_false_r. unfold exec. by rewrite Hst.
Qed.

Lemma read_after_write st1 st2 now key bindings db :
  all_written st1 key db -> (forall n, st2 n = None) -> reads_back bindings ->
  bindings <> [] -> Forall (fun b => same_session b key = true /\ usable now b = true) bindings ->
  read_session_bindings de now key (write_session_bindings ser fk st1 st2 key bindings db) = bindings.
Proof.
  intros H1 H2 [Htext Hde] Hne Hall. unfold write_session_bindings. rewrite (put_written st1) by done. cbn [snd].
  assert (all_written st2 key (put_field key "deliveryBindings" (ser bindings) db)) as H3.
  { split; [done|]. apply H1. }
  rewrite (put_written st2) by done. cbn [snd].
  unfold read_session_bindings, parse_session_bindings_from_metadata, put_field, get_session_metadata.
  cbn [set_metadata db_metadata]. rewrite !lookup_insert_eq. cbn [default from_option id].
  rewrite lookup_insert_ne, lookup_insert_eq by done. cbn [or_else default from_option id].
  rewrite (proj2 (String.eqb_neq _ _) Htext), Hde. cbn [default from_option id].
  destruct bindings as [|b bs]; [done|]. apply retain_all. eapply Forall_impl; [exact Hall|].
  intros x [-> ->]. done.
Qed.

(** The bindings that are read are usable ones of the session. *)
Lemma read_usable now key db :
  Forall (fun b => same_session b key = true /\ usable now b = true) (read_session_bindings de now key db).
Proof.
  unfold read_session_bindings, parse_session_bindings_from_metadata. apply Forall_forall.
  intros b [_ Hb%andb_true_iff]%elem_of_retain. done.
Qed.

Lemma new_usable now uuid key kind raw account conversation thread_id :
  normalize_channel_alias raw <> "" -> trim conversation <> "" ->
  let b := new_binding now uuid key kind (normalize_channel_alias raw) account conversation thread_id in
  same_session b key = true /\ usable now b = true.
Proof.
  intros Hc Ht. split; [apply String.eqb_refl|]. unfold usable, new_binding.
  cbn [sb_status sb_expires_at_ms sb_conversation sc_channel sc_conversation_id].
  rewrite alias_trim, (proj2 (String.eqb_neq _ _) Hc), (proj2 (String.eqb_neq _ _) Ht). done.
Qed.

Lemma account_idem o : normalize_account_id (Some (normalize_account_id o)) = normalize_account_id o.
Proof.
  unfold normalize_account_id, trimmed, non_empty. destruct o as [a|]; simpl; [|done].
  destruct (String.eqb_spec (trim a) "") as [|Hne]; simpl; [done|].
  rewrite <- lower_trim, trim_idem.
  destruct (String.eqb_spec (to_ascii_lowercase (trim a)) "") as [E|]; simpl.
  - by rewrite E.
  - apply lower_idem.
Qed.

Lemma position_first {A} (p : A -> bool) l i x : position p l = Some i -> l !! i = Some x ->
  p x = true /\ forall j y, j < i -> l !! j = Some y -> p y = false.
Proof.
  revert i. induction l as [|a l IH]; intros i; [done|]. simpl. destruct (p a) eqn:E.
  - intros [= <-] [= <-]. split; [done|]. lia.
  - intros (i' & Hi & ->)%fmap_Some Hx. destruct (IH i' Hi Hx) as [H1 H2]. split; [done|].
    intros [|j] y Hj Hy; [by injection Hy as <-|]. apply (H2 j); [lia|done].
Qed.

Lemma find_first_split {A} (p q : A -> bool) l i x :
  l !! i = Some x -> q x = true -> p x = true -> (forall j y, j < i -> l !! j = Some y -> q y && p y = false) ->
  find_first p (retain q l) = Some x.
Proof.
  revert i. induction l as [|a l IH]; intros i Hi Hq Hp Hbefore; [done|]. destruct i as [|i].
  - injection Hi as ->. simpl. rewrite Hq. simpl. by rewrite Hp.
  - assert (q a && p a = false) as Ha by (apply (Hbefore 0 a); [lia|done]).
    assert (find_first p (retain q l) = Some x) as Hl.
    { apply (IH i); [done..|]. intros j y Hj. apply (Hbefore (S j)). lia. }
    simpl. destruct (q a); [|done]. simpl in *. by rewrite Ha.
Qed.

(** What [upsert] leaves: usable bindings, with the one of the conversation as
    the first for it. *)
Lemma upsert_spec now uuid key kind target bs item bs' :
  Forall (fun b => same_session b key = true /\ usable now b = true) bs ->
  upsert now uuid key kind target bs = Some (item, bs') ->
  Forall (fun b => same_session b key = true /\ usable now b = true) bs'
  /\ exists conversation i,
    parse_conversation_id_from_target (at_to target) = Some conversation /\ trim conversation <> ""
    /\ normalize_channel_alias (at_channel target) <> "" /\ bs' !! i = Some item
    /\ let same := same_conversation (normalize_channel_alias (at_channel target))
                     (normalize_account_id (at_account_id target)) conversation in
       same item = true /\ forall j y, j < i -> bs' !! j = Some y -> same y = false.
Proof.
  intros Hall. unfold upsert.
  destruct (parse_conversation_id_from_target (at_to target)) as [conv|]; [|done]. simpl.
  destruct (String.eqb_spec (normalize_channel_alias (at_channel target)) "") as [|Hch]; [done|].
  destruct (String.eqb_spec (trim conv) "") as [|Hconv]; [done|]. simpl.
  set (same := same_conversation _ _ conv). destruct (position same bs) as [idx|] eqn:Ep.
  - destruct (bs !! idx) as [x|] eqn:Ex; [|done]. intros [= <- <-].
    destruct (position_first same bs idx x Ep Ex) as [Hx Hbefore].
    pose proof (proj1 (Forall_forall _ _) Hall x ltac:(by eapply list_elem_of_lookup_2)) as [_ Hu].
    split.
    + apply Forall_insert; [done|]. split; [apply String.eqb_refl|].
      unfold usable in *. cbn [renewed sb_status sb_expires_at_ms sb_conversation sc_channel sc_conversation_id] in *.
      apply andb_true_iff in Hu as [[[_ He]%andb_true_iff H2]%andb_true_iff H3]. by rewrite He, H2, H3.
    + exists conv, idx. split_and!; try done.
      * apply list_lookup_insert_eq. by eapply lookup_lt_Some.
      * intros j y Hj. rewrite list_lookup_insert_ne by lia. by apply Hbefore.
  - intros [= <- <-]. split.
    + apply Forall_app. split; [done|]. repeat constructor; by apply new_usable.
    + exists conv, (length bs). split_and!; try done.
      * by rewrite lookup_app_r, Nat.sub_diag by lia.
      * unfold same, same_conversation.
        cbn [new_binding sb_conversation sc_channel sc_account_id sc_conversation_id].
        by rewrite alias_idem, account_idem, !String.eqb_refl.
      * intros j y Hj. rewrite lookup_app_l by done. intros Hy%list_elem_of_lookup_2.
        apply position_None, find_first_None in Ep. rewrite Forall_forall in Ep. by apply Ep.
Qed.

End roundtrip.

(** * Concrete targets *)

Definition digit (c : string) : bool := existsb (String.eqb c) ["0"; "1"; "2"; "3"; "4"; "5"; "6"; "7"; "8"; "9"].

Example target_from_key :
  resolve_announce_target_from_key digit "agent:x:telegram:group:-100:topic:5"
    = Some {| at_channel := "telegram"; at_to := "group:-100"; at_account_id := None; at_thread_id := Some "5" |}
  /\ resolve_announce_target_from_key digit "slack:channel:C1"
    = Some {| at_channel := "slack"; at_to := "channel:C1"; at_account_id := None; at_thread_id := None |}
  /\ resolve_announce_target_from_key digit "agent:default:main" = None.
Proof. by vm_compute. Qed.

Definition chat (channel to : string) (thread : option string) : AnnounceTarget := {|
  at_channel := channel; at_to := to; at_account_id := None; at_thread_id := thread |}.
Definition binding_of (target : AnnounceTarget) : list SessionBindingRecord :=
  match upsert 1 "u" "child" "subagent" target [] with Some (_, bs) => bs | None => [] end.
Definition child_db : Db :=
  (create_session (fun _ => None) "child" "default" 0 Db_empty).2.

Lemma bound_route_sound_witness :
  exists b, br_binding (resolve_bound_delivery_route_from_bindings
      (binding_of (chat "discord" "channel:C1" None) ++ binding_of (chat "slack" "channel:C2" None)) 
      (target_to_requester_conversation (chat "slack" "C2" None)) true) = Some b
    /\ sc_channel (sb_conversation b) = "slack"
    /\ b ∈ binding_of (chat "discord" "channel:C1" None) ++ binding_of (chat "slack" "channel:C2" None).
Proof.
  destruct (br_binding (resolve_bound_delivery_route_from_bindings
      (binding_of (chat "discord" "channel:C1" None) ++ binding_of (chat "slack" "channel:C2" None)) 
      (target_to_requester_conversation (chat "slack" "C2" None)) true)) as [b|] eqn:E;
    [|exfalso; vm_compute in E; discriminate].
  exists b. split; [reflexivity|]. split.
  - vm_compute in E. injection E as <-. reflexivity.
  - exact (proj1 (bound_route_sound _ _ _ b E)).
Defined.


(** The target of a binding is not the target it was made from: a Telegram chat
    becomes a channel with a thread, a group loses its kind, and the topic of a
    group is lost. *)
Example binding_target_differs :
  (binding_record_to_announce_target <$> binding_of (chat "telegram" "42" None))
    = [Some {| at_channel := "telegram"; at_to := "channel:42"; at_account_id := Some "";
               at_thread_id := Some "42" |}]
  /\ (binding_record_to_announce_target <$> binding_of (chat "telegram" "group:-100" (Some "5")))
    = [Some {| at_channel := "telegram"; at_to := "channel:-100"; at_account_id := Some "";
               at_thread_id := Some "-100" |}].
Proof. by vm_compute. Qed.

(** A requester in a thread asks for the thread, and the binding is for the chat:
    with two chats bound the route is not found. *)
Example thread_requester_not_matched :
  let bs := binding_of (chat "telegram" "group:-100" (Some "5")) ++ binding_of (chat "telegram" "group:-200" None) in
  resolve_bound_delivery_route_from_bindings bs
    (target_to_requester_conversation (chat "telegram" "group:-100" (Some "5"))) true
  = fallback "no-requester-match".
Proof. by vm_compute. Qed.
