(* ===== verification/SessionAccess.v ===== *)
(** Which sessions an agent may see
    ([crates/gateway-core/src/http/agent_bridge.rs]): session keys, visibility,
    the agent-to-agent policy, the tree of spawned sessions, and the
    [sessions_list] and [sessions_history] tools. *)

From Stdlib Require Import Strings.String.
From S2P Require Import Prelude RustStr Json ConfigStore SessionStore Outbound.
#[local] Open Scope string_scope.
#[local] Open Scope nat_scope.
#[local] Open Scope list_scope.
#[local] Open Scope rust_scope.

(** * Keys and policies *)

Inductive SessionVisibility := SelfOnly | Tree | Agent | All.
#[export] Instance session_visibility_eq_dec : EqDecision SessionVisibility.
Proof. solve_decision. Defined.

Inductive SessionAccessAction := List | History | Send | Status.

Record AgentToAgentPolicy := { aa_enabled : bool; aa_allow_patterns : list string }.

(** The parts of the configuration that are read here. *)
Record AccessConfig := {
  ac_tools : option json;
  ac_agents : option json;
  ac_session_a2a : option json;
}.

Record SessionAccessContext := {
  ax_requester_key : string;
  ax_requester_agent_id : string;
  ax_visibility : SessionVisibility;
  ax_a2a : AgentToAgentPolicy;
  ax_tree_visible_keys : option (gset string);
}.

Definition token_byte (c : ascii) : bool :=
  let n := nat_of_ascii c in
  ((48 <=? n) && (n <=? 57)) || ((65 <=? n) && (n <=? 90)) || ((97 <=? n) && (n <=? 122))
  || Ascii.eqb c "-" || Ascii.eqb c "_".
Definition token_char (c : string) : string :=
  match c with
  | String b "" => if token_byte b then String (lower_byte b) "" else "_"
  | _ => "_"
  end.
Definition sanitize_session_token (input : string) : string :=
  let out := str_concat (map token_char (chars input)) in
  if String.eqb out "" then "default" else out.

Definition resolve_agent_id_from_session_key (key : string) : string :=
  let t := trim key in
  if String.eqb t "" then "default"
  else match split_char ":"%char t with
       | "agent" :: agent :: _ => match trimmed (Some agent) with
                                  | Some a => sanitize_session_token a
                                  | None => "default"
                                  end
       | _ => "default"
       end.

(** [Value::pointer] along object keys. *)
Definition pointer (path : list string) (v : json) : option json :=
  foldl (fun o k => o ≫= get k) (Some v) path.
Definition tools_pointer (path : list string) (cfg : AccessConfig) : option json :=
  ac_tools cfg ≫= pointer path.
Definition agents_pointer (path : list string) (cfg : AccessConfig) : option json :=
  ac_agents cfg ≫= pointer path.

Definition resolve_session_visibility (cfg : option AccessConfig) : SessionVisibility :=
  match cfg with
  | None => Tree
  | Some c =>
      let raw := default "tree" ((fun s => to_ascii_lowercase (trim s))
                   <$> (tools_pointer ["sessions"; "visibility"] c ≫= as_str)) in
      if String.eqb raw "self" then SelfOnly
      else if String.eqb raw "tree" then Tree
      else if String.eqb raw "agent" then Agent
      else if String.eqb raw "all" then All
      else Tree
  end.

Definition resolve_agent_to_agent_policy (cfg : option AccessConfig) : AgentToAgentPolicy :=
  match cfg with
  | None => {| aa_enabled := false; aa_allow_patterns := [] |}
  | Some c => {|
      aa_enabled := default false (tools_pointer ["agentToAgent"; "enabled"] c ≫= as_bool);
      aa_allow_patterns :=
        trimmed_strings (default [] (tools_pointer ["agentToAgent"; "allow"] c ≫= as_array)) |}
  end.

Section access.
(** The regular expressions: escaping, and matching a text ([None]: the
    expression does not compile). *)
Variable regex_escape : string -> string.
Variable regex_is_match : string -> string -> option bool.

Definition allow_pattern_matches (pattern agent_id : string) : bool :=
  let pat := trim pattern in
  if String.eqb pat "" then false
  else if String.eqb pat "*" then true
  else if negb (contains pat "*") then eq_ignore_ascii_case pat agent_id
  else default false
         (regex_is_match ("(?i)^" +:+ str_replace (regex_escape pat) "\*" ".*" +:+ "$") agent_id).

Definition is_a2a_allowed (policy : AgentToAgentPolicy) (requester_agent target_agent : string) : bool :=
  if String.eqb requester_agent target_agent then true
  else if negb (aa_enabled policy) then false
  else match aa_allow_patterns policy with
       | [] => true
       | ps => existsb (fun p => allow_pattern_matches p requester_agent) ps
               && existsb (fun p => allow_pattern_matches p target_agent) ps
       end.

(** ** Errors *)

Definition session_action_label (action : SessionAccessAction) : string :=
  match action with
  | History => "Session history" | Send => "Session send" | List => "Session list"
  | Status => "Session status"
  end.
Definition cross_visibility_error (action : SessionAccessAction) : string :=
  session_action_label action
  +:+ " visibility is restricted. Set tools.sessions.visibility=all to allow cross-agent access.".
Definition a2a_disabled_error (action : SessionAccessAction) : string :=
  match action with
  | History => "Agent-to-agent history is disabled. Set tools.agentToAgent.enabled=true to allow cross-agent access."
  | Send => "Agent-to-agent messaging is disabled. Set tools.agentToAgent.enabled=true to allow cross-agent sends."
  | List => "Agent-to-agent listing is disabled. Set tools.agentToAgent.enabled=true to allow cross-agent visibility."
  | Status => "Agent-to-agent status is disabled. Set tools.agentToAgent.enabled=true to allow cross-agent access."
  end.
Definition a2a_denied_error (action : SessionAccessAction) : string :=
  match action with
  | History => "Agent-to-agent history denied by tools.agentToAgent.allow."
  | Send => "Agent-to-agent messaging denied by tools.agentToAgent.allow."
  | List => "Agent-to-agent listing denied by tools.agentToAgent.allow."
  | Status => "Agent-to-agent session status denied by tools.agentToAgent.allow."
  end.
Definition self_visibility_error (action : SessionAccessAction) : string :=
  session_action_label action
  +:+ " visibility is restricted to the current session (tools.sessions.visibility=self).".
Definition tree_visibility_error (action : SessionAccessAction) : string :=
  session_action_label action
  +:+ " visibility is restricted to the current session tree (tools.sessions.visibility=tree).".

(** ** The tree of a session *)

Definition parent_key (meta : gmap string string) : option string :=
  trimmed (or_else (meta !! "spawnedBy") (meta !! "parentSessionKey")).

(** [by_parent]: the children of each key, in the order of the sessions. *)
Definition children_map (db : Db) (sessions : list SessionInfo) : gmap string (list string) :=
  foldl (fun m s => match parent_key (get_session_metadata (si_key s) db) with
                    | Some p => <[p := default [] (m !! p) ++ [si_key s]]> m
                    | None => m
                    end) ∅ sessions.

(** The loop over the stack, its top first; the fuel bounds the rounds. *)
Fixpoint tree_go (fuel : nat) (by_parent : gmap string (list string)) (out : gset string)
    (stack : list string) : option (gset string) :=
  match stack with
  | [] => Some out
  | current :: stack' =>
      match fuel with
      | 0 => None
      | S fuel' =>
          if bool_decide (current ∈ out) then tree_go fuel' by_parent out stack'
          else tree_go fuel' by_parent ({[current]} ∪ out)
                 (rev (default [] (by_parent !! current)) ++ stack')
      end
  end.

Variable rows : gmap string SessionInfo -> list SessionInfo.

(** One round per session and one for the requester. *)
Definition collect_tree_visible_keys (requester_key : string) (db : Db) : option (gset string) :=
  let sessions := list_sessions rows db in
  tree_go (S (length sessions)) (children_map db sessions) ∅ [requester_key].

(** ** The check *)

Definition requester_of (session_id : option string) : string := default "agent:default:main" session_id.

Definition build_session_access_context (cfg : option AccessConfig) (session_id : option string) (db : Db)
  : option SessionAccessContext :=
  let requester_key := requester_of session_id in
  let visibility := resolve_session_visibility cfg in
  tree ← (if bool_decide (visibility = Tree)
          then Some <$> collect_tree_visible_keys requester_key db else Some None);
  Some {| ax_requester_key := requester_key;
          ax_requester_agent_id := resolve_agent_id_from_session_key requester_key;
          ax_visibility := visibility; ax_a2a := resolve_agent_to_agent_policy cfg;
          ax_tree_visible_keys := tree |}.

Definition check_session_access (ctx : SessionAccessContext) (target_key : string)
    (action : SessionAccessAction) : result unit string :=
  let target_agent := resolve_agent_id_from_session_key target_key in
  if negb (String.eqb target_agent (ax_requester_agent_id ctx)) then
    if negb (bool_decide (ax_visibility ctx = All)) then Err (cross_visibility_error action)
    else if negb (aa_enabled (ax_a2a ctx)) then Err (a2a_disabled_error action)
    else if negb (is_a2a_allowed (ax_a2a ctx) (ax_requester_agent_id ctx) target_agent)
         then Err (a2a_denied_error action)
    else Ok tt
  else
    match ax_visibility ctx with
    | SelfOnly => if negb (String.eqb target_key (ax_requester_key ctx))
                  then Err (self_visibility_error action) else Ok tt
    | Tree => if negb (String.eqb target_key (ax_requester_key ctx))
                 && negb match ax_tree_visible_keys ctx with
                         | Some set => bool_decide (target_key ∈ set)
                         | None => false
                         end
              then Err (tree_visibility_error action) else Ok tt
    | Agent | All => Ok tt
    end.

(** * The tools *)

Definition accessible (ctx : SessionAccessContext) (action : SessionAccessAction) (key : string) : bool :=
  match check_session_access ctx key action with Ok _ => true | Err _ => false end.

Definition session_row (db : Db) (s : SessionInfo) : json :=
  let meta := get_session_metadata (si_key s) db in
  jobject [("key", JStr (si_key s)); ("agent_id", JStr (si_agent_id s));
           ("created_at", JInt (si_created_at s)); ("updated_at", JInt (si_updated_at s));
           ("message_count", JInt (si_message_count s)); ("label", jopt JStr (meta !! "label"));
           ("spawned_by", jopt JStr (or_else (meta !! "spawnedBy") (meta !! "parentSessionKey")))].

Definition listed_sessions (cfg : option AccessConfig) (session_id : option string) (p : json) (db : Db)
  : option (list SessionInfo) :=
  ctx ← build_session_access_context cfg session_id db;
  let sessions := retain (fun s => accessible ctx List (si_key s)) (list_sessions rows db) in
  let sessions := match normalize_channel_alias <$> get_str "channel" p with
                  | Some filter => retain (fun s =>
                      match normalize_channel_alias <$> (get_session_metadata (si_key s) db !! "channel") with
                      | Some c => String.eqb c filter
                      | None => false
                      end) sessions
                  | None => sessions
                  end in
  let sessions := if default false (get_bool "active_only" p)
                  then retain (fun s => negb (bool_decide
                    (get_session_metadata (si_key s) db !! "terminated" = Some "true"))) sessions
                  else sessions in
  Some (take (Z.to_nat (default 20%Z (get_u64 "limit" p))) sessions).

(** [None]: the context loop is out of fuel (it never is). *)
Definition fulfill_sessions_list (cfg : option AccessConfig) (session_id : option string) (p : json) (db : Db)
  : option json :=
  sessions ← listed_sessions cfg session_id p db;
  Some (jobject [("action", JStr "sessions_list"); ("sessions", JArr (session_row db <$> sessions));
                 ("count", JInt (Z.of_nat (length sessions)))]).

Definition resolve_session_key (raw session_id : option string) : option string :=
  or_else (trimmed raw) session_id.

Definition history_key (p : json) : option string :=
  or_else (get_str "session_key" p) (get_str "sessionKey" p).

Definition fulfill_sessions_history (cfg : option AccessConfig) (session_id : option string) (p : json) (db : Db)
  : option (result json string) :=
  match resolve_session_key (history_key p) session_id with
  | None => Some (Err "sessions_history: missing session_key")
  | Some key =>
      let limit := default 50%Z (get_u64 "limit" p) in
      ctx ← build_session_access_context cfg session_id db;
      match check_session_access ctx key History with
      | Err err => Some (Ok (jobject [("action", JStr "sessions_history"); ("session_key", JStr key);
                                      ("status", JStr "forbidden"); ("error", JStr err)]))
      | Ok _ =>
          let messages := rev (get_messages key limit db) in
          Some (Ok (jobject [("action", JStr "sessions_history"); ("session_key", JStr key);
                             ("messages", JArr (SessionMessage_json <$> messages));
                             ("count", JInt (Z.of_nat (length messages)))]))
      end
  end.
End access.

(** * The tree is what spawning reaches *)

Section tree.
Variable db : Db.
Variable sessions : list SessionInfo.

Definition parent_of (s : SessionInfo) : option string := parent_key (get_session_metadata (si_key s) db).
Definition children_of (p : string) : list string :=
  si_key <$> filter (fun s => parent_of s = Some p) sessions.
(** A session and one spawned by it. *)
Definition spawned (p k : string) : Prop := k ∈ children_of p.

Lemma children_map_lookup p : default [] (children_map db sessions !! p) = children_of p.
Proof.
  unfold children_map, children_of, parent_of.
  assert (forall m : gmap string (list string), default [] (foldl (fun m s =>
      match parent_key (get_session_metadata (si_key s) db) with
      | Some p => <[p := default [] (m !! p) ++ [si_key s]]> m
      | None => m
      end) m sessions !! p)
    = default [] (m !! p) ++ (si_key <$> filter (fun s => parent_key (get_session_metadata (si_key s) db) = Some p) sessions))
    as H; [|by rewrite H, lookup_empty].
  induction sessions as [|s l IH]; intros m; cbn [foldl]; [by rewrite app_nil_r|]. rewrite IH.
  destruct (parent_key (get_session_metadata (si_key s) db)) as [q|] eqn:E.
  - destruct (decide (q = p)) as [->|Hne].
    + rewrite lookup_insert_eq, filter_cons_True by done. cbn. by rewrite <- app_assoc.
    + rewrite lookup_insert_ne by done. rewrite filter_cons_False by congruence. done.
  - rewrite filter_cons_False by congruence. done.
Qed.

(** The sessions whose parent has not been visited. *)
Definition waits (out : gset string) (s : SessionInfo) : bool :=
  match parent_of s with Some p => negb (bool_decide (p ∈ out)) | None => false end.
Definition waiting (out : gset string) : nat := length (retain (waits out) sessions).

Lemma waiting_visit out p : p ∉ out ->
  length (children_of p) + waiting ({[p]} ∪ out) = waiting out.
Proof.
  intros Hp. unfold waiting, children_of. rewrite length_fmap.
  induction sessions as [|s l IH]; [done|]. unfold retain in *. cbn [List.filter].
  assert (parent_of s = Some p -> waits ({[p]} ∪ out) s = false /\ waits out s = true) as H1.
  { unfold waits. intros ->. rewrite bool_decide_true by set_solver. by rewrite bool_decide_false. }
  assert (parent_of s <> Some p -> waits ({[p]} ∪ out) s = waits out s) as H2.
  { unfold waits. destruct (parent_of s) as [q|]; [|done]. intros Hq. f_equal. apply bool_decide_ext.
    rewrite elem_of_union, elem_of_singleton. naive_solver congruence. }
  destruct (decide (parent_of s = Some p)) as [E|E].
  - destruct (H1 E) as [-> ->]. rewrite filter_cons_True by done. cbn [length]. lia.
  - rewrite (H2 E), filter_cons_False by done. destruct (waits out s); cbn [length]; lia.
Qed.

Lemma waiting_le out : waiting out <= length sessions.
Proof. apply retain_length. Qed.

(** What the loop keeps: everything found is reached from [root]; the children of
    what is visited are visited or on the stack. *)
Record TreeInv (root : string) (out : gset string) (stack : list string) : Prop := {
  t_sound : forall k, k ∈ out \/ k ∈ stack -> rtc spawned root k;
  t_root : root ∈ out \/ root ∈ stack;
  t_closed : forall k c, k ∈ out -> spawned k c -> c ∈ out \/ c ∈ stack;
}.

Lemma tree_go_spec root fuel out stack :
  TreeInv root out stack -> length stack + waiting out <= fuel ->
  exists keys, tree_go fuel (children_map db sessions) out stack = Some keys
    /\ forall k, k ∈ keys <-> rtc spawned root k.
Proof.
  revert out stack. induction fuel as [|fuel IH]; intros out [|cur stack] Hi Hf; cbn [tree_go length] in *; try lia.
  1, 2: exists out; split; [done|]; intros k; split; [intros Hk; apply (t_sound _ _ _ Hi); by left|].
  1, 2: assert (forall x y, rtc spawned x y -> x ∈ out -> y ∈ out) as Hc by
    (intros x y H; induction H as [|x z y Hxz _ IHr]; [done|]; intros Hx; apply IHr;
     destruct (t_closed _ _ _ Hi x z Hx Hxz) as [|?%elem_of_nil]; done).
  1, 2: intros Hk; apply (Hc root k Hk); by destruct (t_root _ _ _ Hi) as [|?%elem_of_nil].
  case_bool_decide as Hin.
  - apply IH; [|lia]. constructor.
    + intros k [Hk|Hk]; apply (t_sound _ _ _ Hi); [by left|right; by right].
    + destruct (t_root _ _ _ Hi) as [|[->|]%elem_of_cons]; auto.
    + intros k c Hk Hs. destruct (t_closed _ _ _ Hi k c Hk Hs) as [|[->|]%elem_of_cons]; auto.
  - rewrite children_map_lookup. apply IH.
    + constructor.
      * intros k [[->%elem_of_singleton|Hk]%elem_of_union|[Hk|Hk]%elem_of_app].
        -- apply (t_sound _ _ _ Hi). right. by left.
        -- apply (t_sound _ _ _ Hi). by left.
        -- apply rtc_r with cur; [apply (t_sound _ _ _ Hi); right; by left|].
           unfold spawned. by apply list_elem_of_In, in_rev, list_elem_of_In in Hk.
        -- apply (t_sound _ _ _ Hi). right. by right.
      * destruct (t_root _ _ _ Hi) as [|[->|]%elem_of_cons]; [left|left|right].
        -- by apply elem_of_union_r.
        -- by apply elem_of_union_l, elem_of_singleton.
        -- by apply elem_of_app; right.
      * intros k c [->%elem_of_singleton|Hk]%elem_of_union Hs.
        -- right. apply elem_of_app. left. by apply list_elem_of_In, in_rev, list_elem_of_In in Hs.
        -- destruct (t_closed _ _ _ Hi k c Hk Hs) as [|[->|]%elem_of_cons].
           ++ left. by apply elem_of_union_r.
           ++ left. by apply elem_of_union_l, elem_of_singleton.
           ++ right. by apply elem_of_app; right.
    + rewrite length_app, length_rev. pose proof (waiting_visit out cur Hin). lia.
Qed.
End tree.

Lemma tree_keys rows requester db :
  exists keys, collect_tree_visible_keys rows requester db = Some keys
  /\ forall k, k ∈ keys <-> rtc (spawned db (list_sessions rows db)) requester k.
Proof.
  apply tree_go_spec.
  - constructor.
    + intros k [?%elem_of_empty| ->%list_elem_of_singleton]; [done|reflexivity].
    + right. by left.
    + by intros k c ?%elem_of_empty.
  - pose proof (waiting_le db (list_sessions rows db) ∅). simpl. lia.
Qed.

(** C26. The sessions of a tree: the loop ends, and what it collects is exactly
    what can be reached from the requester by spawning. *)
Theorem tree_keys_spec rows requester db :
  exists keys, collect_tree_visible_keys rows requester db = Some keys
  /\ forall k, k ∈ keys <-> rtc (spawned db (list_sessions rows db)) requester k.
Proof. apply tree_keys. Qed.

(** * Who sees what *)

Section confined.
Variable regex_escape : string -> string.
Variable regex_is_match : string -> string -> option bool.
Variable rows : gmap string SessionInfo -> list SessionInfo.
#[local] Abbreviation matches := (allow_pattern_matches regex_escape regex_is_match).

(** The rule: one's own agent's sessions as far as the visibility goes; those of
    another agent only when everything is visible and the policy names both. *)
Definition may_access (cfg : option AccessConfig) (requester target : string) (db : Db) : Prop :=
  let mine := resolve_agent_id_from_session_key requester in
  let theirs := resolve_agent_id_from_session_key target in
  let policy := resolve_agent_to_agent_policy cfg in
  if String.eqb theirs mine then
    match resolve_session_visibility cfg with
    | SelfOnly => target = requester
    | Tree => rtc (spawned db (list_sessions rows db)) requester target
    | Agent | All => True
    end
  else resolve_session_visibility cfg = All /\ aa_enabled policy = true
       /\ (aa_allow_patterns policy = []
           \/ Exists (fun p => matches p mine = true) (aa_allow_patterns policy)
              /\ Exists (fun p => matches p theirs = true) (aa_allow_patterns policy)).

Lemma existsb_Exists {A} (f : A -> bool) l : existsb f l = true <-> Exists (fun x => f x = true) l.
Proof.
  induction l as [|x l IH]; simpl; [by rewrite Exists_nil|]. rewrite Exists_cons, orb_true_iff. by rewrite IH.
Qed.

Lemma a2a_spec policy mine theirs : mine <> theirs ->
  is_a2a_allowed regex_escape regex_is_match policy mine theirs = true
  <-> aa_enabled policy = true
      /\ (aa_allow_patterns policy = []
          \/ Exists (fun p => matches p mine = true) (aa_allow_patterns policy)
             /\ Exists (fun p => matches p theirs = true) (aa_allow_patterns policy)).
Proof.
  intros Hne. unfold is_a2a_allowed. rewrite (proj2 (String.eqb_neq _ _) Hne).
  destruct (aa_enabled policy); cbn [negb]; [|naive_solver].
  destruct (aa_allow_patterns policy) as [|p ps]; [naive_solver|].
  rewrite andb_true_iff, !existsb_Exists. naive_solver.
Qed.

Lemma check_spec cfg session_id db ctx target action :
  build_session_access_context rows cfg session_id db = Some ctx ->
  check_session_access regex_escape regex_is_match ctx target action = Ok tt
  <-> may_access cfg (requester_of session_id) target db.
Proof.
  unfold build_session_access_context. set (req := requester_of session_id).
  intros (tree & Ht & [= <-])%bind_Some. unfold check_session_access, may_access.
  cbn [ax_requester_agent_id ax_visibility ax_a2a ax_tree_visible_keys ax_requester_key].
  destruct (String.eqb_spec (resolve_agent_id_from_session_key target) (resolve_agent_id_from_session_key req))
    as [He|Hne]; cbn [negb].
  - destruct (resolve_session_visibility cfg); try done.
    + destruct (String.eqb_spec target req); cbn [negb]; naive_solver.
    + rewrite bool_decide_true in Ht by done. apply fmap_Some in Ht as (keys & Hk & ->).
      destruct (tree_keys rows req db) as (keys' & Hk' & Hspec).
      rewrite Hk in Hk'. injection Hk' as <-.
      destruct (String.eqb_spec target req) as [->|Hn]; cbn [negb andb]; [done|].
      case_bool_decide as Hb; cbn [negb]; rewrite Hspec in Hb; naive_solver.
  - clear Ht. case_bool_decide as Hv; cbn [negb]; [|split; [done|by intros [? _]]].
    rewrite <- a2a_spec by congruence. unfold is_a2a_allowed.
    rewrite (proj2 (String.eqb_neq (resolve_agent_id_from_session_key req) _)) by congruence.
    destruct (aa_enabled (resolve_agent_to_agent_policy cfg)); cbn [negb]; [|split; [done|by intros (_ & ?)]].
    match goal with |- context [negb ?b] => destruct b end; cbn [negb]; (split; [done|]); by intros (_ & ?).
Qed.

Lemma context_total cfg session_id db : is_Some (build_session_access_context rows cfg session_id db).
Proof.
  unfold build_session_access_context. case_bool_decide; [|by eexists].
  destruct (tree_keys rows (requester_of session_id) db) as (keys & -> & _). by eexists.
Qed.

(** C24. The session tools stay within the rule.  Every session listed may be
    accessed by the requester; the history of a session is given exactly when it
    may be, and else the answer is [forbidden]. *)
Theorem session_tools_confined cfg session_id p db :
  (exists l, listed_sessions regex_escape regex_is_match rows cfg session_id p db = Some l
     /\ forall s, s ∈ l -> s ∈ list_sessions rows db /\ may_access cfg (requester_of session_id) (si_key s) db)
  /\ forall key, resolve_session_key (history_key p) session_id = Some key ->
     let answer := fulfill_sessions_history regex_escape regex_is_match rows cfg session_id p db in
     let messages := rev (get_messages key (default 50%Z (get_u64 "limit" p)) db) in
     (may_access cfg (requester_of session_id) key db ->
        answer = Some (Ok (jobject [("action", JStr "sessions_history"); ("session_key", JStr key);
                                    ("messages", JArr (SessionMessage_json <$> messages));
                                    ("count", JInt (Z.of_nat (length messages)))])))
     /\ (~ may_access cfg (requester_of session_id) key db ->
        exists err, answer = Some (Ok (jobject [("action", JStr "sessions_history"); ("session_key", JStr key);
                                                ("status", JStr "forbidden"); ("error", JStr err)]))).
Proof.
  destruct (context_total cfg session_id db) as [ctx Hctx]. split.
  - unfold listed_sessions. rewrite Hctx. eexists. split; [reflexivity|].
    intros s Hs. apply elem_of_take in Hs as (i & Hs%list_elem_of_lookup_2 & _).
    assert (s ∈ retain (fun s => accessible regex_escape regex_is_match ctx List (si_key s)) (list_sessions rows db)) as H.
    { revert Hs. destruct (default false _); [intros [Hs _]%elem_of_retain; revert Hs|];
        (destruct (normalize_channel_alias <$> _); [intros [Hs _]%elem_of_retain; exact Hs|done]). }
    apply elem_of_retain in H as [Hin Ha]. split; [done|].
    apply (check_spec cfg session_id db ctx _ List Hctx). unfold accessible in Ha.
    destruct (check_session_access _ _ ctx (si_key s) List) as [[]|]; done.
  - intros key Hk. cbv zeta. unfold fulfill_sessions_history. rewrite Hk, Hctx. cbn [mbind option_bind].
    pose proof (check_spec cfg session_id db ctx key History Hctx) as Hc.
    destruct (check_session_access _ _ ctx key History) as [[]|err].
    + split; [done|]. intros Hn. destruct Hn. by apply Hc.
    + split; [intros Hm%Hc; done|]. intros _. by exists err.
Qed.
End confined.

(** A store where [main] spawned [a], and [a] spawned [b] under another agent. *)
Definition no_failure : nat -> option string := fun _ => None.
Definition child_of (key parent : string) (db : Db) : Db :=
  (set_session_metadata_field true no_failure key "spawnedBy" parent (create_session no_failure key "default" 0 db).2).2.
Definition family : Db :=
  child_of "agent:x:sub" "agent:default:a" (child_of "agent:default:a" "agent:default:main" 
    (create_session no_failure "agent:default:main" "default" 0 Db_empty).2).
Definition rows_of_map (m : gmap string SessionInfo) : list SessionInfo := (map_to_list m).*2.

Lemma session_tools_confined_witness :
  let answer := fulfill_sessions_history (fun s => s) (fun _ _ => None) rows_of_map None
                  (Some "agent:default:main") (jobject [("session_key", JStr "agent:default:a")]) family in
  answer = Some (Ok (jobject [("action", JStr "sessions_history"); ("session_key", JStr "agent:default:a");
                              ("messages", JArr []); ("count", JInt 0)])).
Proof.
  cbv zeta. apply (proj2 (session_tools_confined (fun s => s) (fun _ _ => None) rows_of_map None
    (Some "agent:default:main") (jobject [("session_key", JStr "agent:default:a")]) family) "agent:default:a" eq_refl).
  unfold may_access. change (rtc (spawned family (list_sessions rows_of_map family)) "agent:default:main" "agent:default:a").
  apply rtc_once. unfold spawned. apply list_elem_of_In. vm_compute. by left.
Defined.

(** A session that was spawned for another agent is in the tree and not
    accessible. *)
Example tree_child_of_other_agent :
  (fun keys : gset string => bool_decide ("agent:x:sub" ∈ keys))
    <$> collect_tree_visible_keys rows_of_map "agent:default:main" family = Some true
  /\ ~ may_access (fun s => s) (fun _ _ => None) rows_of_map None "agent:default:main" "agent:x:sub" family.
Proof. split; [by vm_compute|]. intros [H _]. discriminate H. Qed.
