(* ===== verification/SubagentRuns.v ===== *)
(** The gateway's subagent registry
    ([crates/gateway-core/src/http/agent_bridge.rs]): run entries, the queries on
    them, restoring them from the registry file, and how the [subagents] tool
    names a run. *)

From Stdlib Require Import Strings.String.
From S2P Require Import Prelude RustStr Usage Sorting Parse.
#[local] Open Scope string_scope.
#[local] Open Scope nat_scope.
#[local] Open Scope list_scope.

(** * Entries *)

Record SubagentRunEntry := {
  se_run_id : string;
  se_requester_session_key : string;
  se_child_session_key : string;
  se_label : string;
  se_task : string;
  se_model : string;
  se_started_at_ms : Z;
  se_ended_at_ms : option Z;
  se_status : string;
  se_error : option string;
  se_usage : option UsageSummary;
  se_completion_reply : option string;
  se_spawn_mode : string;
  se_cleanup : string;
  se_thread_requested : bool;
  se_expects_completion_message : bool;
  se_suppress_announce_reason : option string;
  se_announce_retry_count : Z;
  se_last_announce_retry_at_ms : option Z;
  se_cleanup_handled : bool;
  se_cleanup_completed_at_ms : option Z;
  se_ended_reason : option string;
  se_ended_hook_emitted_at_ms : option Z;
  se_run_timeout_seconds : Z;
  se_archive_at_ms : option Z;
}.

Abbreviation Runs := (gmap string SubagentRunEntry).

Definition SUBAGENT_MIN_ANNOUNCE_RETRY_DELAY_MS : Z := 1000.
Definition SUBAGENT_MAX_ANNOUNCE_RETRY_DELAY_MS : Z := 8000.
Definition SUBAGENT_MAX_ANNOUNCE_RETRY_COUNT : Z := 3.
Definition SUBAGENT_ANNOUNCE_EXPIRY_MS : Z := 5 * 60000.

Definition is_subagent_session_key (session_key : string) : bool := contains session_key ":subagent:".

Definition active (e : SubagentRunEntry) : bool := bool_decide (se_ended_at_ms e = None).

(** * Restoring and sweeping *)

Definition interrupted (now : Z) (e : SubagentRunEntry) : SubagentRunEntry := {|
  se_run_id := se_run_id e; se_requester_session_key := se_requester_session_key e;
  se_child_session_key := se_child_session_key e; se_label := se_label e; se_task := se_task e;
  se_model := se_model e; se_started_at_ms := se_started_at_ms e; se_ended_at_ms := Some now;
  se_status := "interrupted"; se_error := Some "gateway restarted before subagent run completed";
  se_usage := se_usage e; se_completion_reply := se_completion_reply e; se_spawn_mode := se_spawn_mode e;
  se_cleanup := se_cleanup e; se_thread_requested := se_thread_requested e;
  se_expects_completion_message := se_expects_completion_message e;
  se_suppress_announce_reason := se_suppress_announce_reason e;
  se_announce_retry_count := se_announce_retry_count e;
  se_last_announce_retry_at_ms := se_last_announce_retry_at_ms e; se_cleanup_handled := false;
  se_cleanup_completed_at_ms := None; se_ended_reason := Some "subagent-error";
  se_ended_hook_emitted_at_ms := se_ended_hook_emitted_at_ms e;
  se_run_timeout_seconds := se_run_timeout_seconds e;
  se_archive_at_ms := match se_archive_at_ms e with
                      | None => Some (sat_add_i64 now (60 * 60000))
                      | at_ms => at_ms
                      end |}.

(** [restored] is what the registry file holds; its entries replace those in memory. *)
Definition ensure_subagent_registry_loaded (now : Z) (restored : Runs) (runs : Runs) : Runs :=
  ((fun e => if active e then interrupted now e else e) <$> restored) ∪ runs.

Definition archived (now : Z) (e : SubagentRunEntry) : bool :=
  match se_archive_at_ms e with
  | Some at_ms => (0 <? at_ms)%Z && (at_ms <=? now)%Z
  | None => false
  end.
Definition sweep_archived_subagent_runs (now : Z) (runs : Runs) : Runs :=
  filter (fun kv => archived now kv.2 = false \/ active kv.2 = true) runs.

(** * Queries *)

Section queries.
(** The iteration order of the map's values. *)
Variable values : Runs -> list SubagentRunEntry.

Definition by_start_desc (a b : SubagentRunEntry) : comparison :=
  cmp_rev (by_Z se_started_at_ms) a b.

Definition requested_by (key : string) (e : SubagentRunEntry) : bool :=
  String.eqb (se_requester_session_key e) key.

Definition list_runs_for_requester (now : Z) (requester : string) (runs : Runs) : list SubagentRunEntry :=
  sort_by by_start_desc
    (retain (requested_by requester) (values (sweep_archived_subagent_runs now runs))).

Definition count_active_children_for_requester (now : Z) (requester : string) (runs : Runs) : nat :=
  length (retain (fun e => requested_by requester e && active e)
            (values (sweep_archived_subagent_runs now runs))).

(** [max_by_key]: the last of the latest. *)
Definition latest (l : list SubagentRunEntry) : option SubagentRunEntry :=
  foldl (fun o e => match o with
                    | Some b => if (se_started_at_ms b <=? se_started_at_ms e)%Z then Some e else o
                    | None => Some e
                    end) None l.

Definition resolve_requester_for_child_session_from_runs (snapshot : list SubagentRunEntry)
    (child_session_key : string) : option string :=
  let key := trim child_session_key in
  if String.eqb key "" then None
  else
    e ← latest (retain (fun e => String.eqb (trim (se_child_session_key e)) key) snapshot);
    let r := trim (se_requester_session_key e) in
    if String.eqb r "" then None else Some r.

Definition is_subagent_session_run_active_from_runs (snapshot : list SubagentRunEntry)
    (child_session_key : string) : bool :=
  let key := trim child_session_key in
  if String.eqb key "" then false
  else existsb (fun e => String.eqb (trim (se_child_session_key e)) key && active e) snapshot.

(** The inner loop over the runs of one requester: the new ones are taken. *)
Fixpoint take_new (seen : gset string) (l : list SubagentRunEntry) : list SubagentRunEntry :=
  match l with
  | [] => []
  | e :: l' => if bool_decide (se_run_id e ∈ seen) then take_new seen l'
               else e :: take_new ({[se_run_id e]} ∪ seen) l'
  end.

(** The loop over the stack, its top first; the fuel bounds the rounds. *)
Fixpoint descend (fuel : nat) (snapshot : list SubagentRunEntry) (seen : gset string)
    (out : list SubagentRunEntry) (stack : list string) : option (list SubagentRunEntry) :=
  match stack with
  | [] => Some out
  | requester :: stack' =>
      match fuel with
      | 0 => None
      | S fuel' =>
          let new := take_new seen (retain (requested_by requester) snapshot) in
          descend fuel' snapshot (list_to_set (se_run_id <$> new) ∪ seen) (out ++ new)
            (rev (se_child_session_key <$> new) ++ stack')
      end
  end.

(** One round per run and one for the root. *)
Definition collect_descendant_runs (now : Z) (root : string) (runs : Runs) : option (list SubagentRunEntry) :=
  let snapshot := values (sweep_archived_subagent_runs now runs) in
  descend (S (length snapshot)) snapshot ∅ [] [root].

Definition count_active_descendant_runs (now : Z) (root : string) (runs : Runs) : nat :=
  length (retain active (default [] (collect_descendant_runs now root runs))).
End queries.

(** [1 << exp] for [exp] at most nine. *)
Definition resolve_subagent_announce_retry_delay_ms (retry_count : Z) : Z :=
  let bounded := Z.max 0 (Z.min 10 retry_count) in
  let exp := sat_sub bounded 1 in
  Z.max 1 (Z.min SUBAGENT_MAX_ANNOUNCE_RETRY_DELAY_MS (SUBAGENT_MIN_ANNOUNCE_RETRY_DELAY_MS * 2 ^ exp)).

(** * Naming a run *)

(** [as i64] and the saturating operations of [i64]. *)
Definition wrap_i64 (z : Z) : Z :=
  ((z + 9223372036854775808) mod 18446744073709551616 - 9223372036854775808)%Z.
Definition clamp_i64 (z : Z) : Z := Z.max i64_min (Z.min i64_max z).
Definition sat_sub_i64 (a b : Z) : Z := clamp_i64 (a - b).
Definition sat_mul_i64 (a b : Z) : Z := clamp_i64 (a * b).

Definition resolve_subagent_target (now : Z) (runs : list SubagentRunEntry) (target : string)
    (recent_window_minutes : Z) : result SubagentRunEntry string :=
  let token := trim target in
  if String.eqb token "" then Err "missing subagent target"
  else
    let sorted := sort_by by_start_desc runs in
    let unknown := "unknown subagent target: " +:+ token in
    if eq_ignore_ascii_case token "last" then
      match head sorted with Some e => Ok e | None => Err unknown end
    else
      let window := wrap_i64 (Z.max 1 recent_window_minutes) in
      let cutoff := sat_sub_i64 now (sat_mul_i64 window 60000) in
      let numeric_order := retain active sorted
        ++ retain (fun e => match se_ended_at_ms e with Some v => (cutoff <=? v)%Z | None => false end) sorted in
      match parse_unsigned u64_max token with
      | Some idx =>
          match (if (idx =? 0)%Z then None else numeric_order !! Z.to_nat (idx - 1)) with
          | Some e => Ok e
          | None => Err ("invalid subagent index: " +:+ pretty idx)
          end
      | None =>
          if contains token ":" then
            match find_first (fun e => String.eqb (se_child_session_key e) token) sorted with
            | Some e => Ok e
            | None => Err ("unknown subagent session: " +:+ token)
            end
          else
            let lowered := to_ascii_lowercase token in
            let label e := to_ascii_lowercase (trim (se_label e)) in
            match retain (fun e => String.eqb (label e) lowered) runs with
            | [e] => Ok e
            | _ :: _ :: _ => Err ("ambiguous subagent label: " +:+ token)
            | [] =>
                match retain (fun e => starts_with (label e) lowered) runs with
                | [e] => Ok e
                | _ :: _ :: _ => Err ("ambiguous subagent label prefix: " +:+ token)
                | [] =>
                    match retain (fun e => starts_with (se_run_id e) token) runs with
                    | [e] => Ok e
                    | _ :: _ :: _ => Err ("ambiguous subagent run id prefix: " +:+ token)
                    | [] => Err unknown
                    end
                end
            end
      end.

(** * Lemmas *)

Lemma sweep_elem now runs k e : sweep_archived_subagent_runs now runs !! k = Some e <->
  runs !! k = Some e /\ (archived now e = false \/ active e = true).
Proof. unfold sweep_archived_subagent_runs. by rewrite map_lookup_filter_Some. Qed.

(** Only ended runs are swept. *)
Lemma sweep_keeps_active now runs k e : runs !! k = Some e -> active e = true ->
  sweep_archived_subagent_runs now runs !! k = Some e.
Proof. intros. apply sweep_elem. auto. Qed.

(** After a restart no restored run is active. *)
Lemma restored_ended now restored runs k e : restored !! k = Some e ->
  exists e', ensure_subagent_registry_loaded now restored runs !! k = Some e' /\ active e' = false
    /\ se_run_id e' = se_run_id e /\ se_child_session_key e' = se_child_session_key e.
Proof.
  intros He. unfold ensure_subagent_registry_loaded.
  exists (if active e then interrupted now e else e). split.
  - apply lookup_union_Some_l. rewrite lookup_fmap, He. done.
  - destruct (active e) eqn:Ea; done.
Qed.

Lemma retry_delay_bounds n : (1000 <= resolve_subagent_announce_retry_delay_ms n <= 8000)%Z.
Proof.
  unfold resolve_subagent_announce_retry_delay_ms, SUBAGENT_MAX_ANNOUNCE_RETRY_DELAY_MS,
    SUBAGENT_MIN_ANNOUNCE_RETRY_DELAY_MS.
  assert (1 <= 2 ^ sat_sub (Z.max 0 (Z.min 10 n)) 1)%Z; [|lia].
  change 1%Z with (2 ^ 0)%Z at 1. apply Z.pow_le_mono_r; unfold sat_sub; lia.
Qed.

(** ** Descendants *)

Lemma take_new_spec seen l : NoDup (se_run_id <$> l) ->
  take_new seen l = retain (fun e => negb (bool_decide (se_run_id e ∈ seen))) l.
Proof.
  revert seen. induction l as [|e l IH]; intros seen; [done|]. cbn [fmap list_fmap]. intros [Hn Hnd]%NoDup_cons.
  cbn [take_new]. unfold retain. cbn [List.filter]. case_bool_decide as Hs; cbn [negb]; [by apply IH|].
  f_equal. rewrite IH by done. unfold retain. clear IH. induction l as [|x l IHl]; [done|].
  cbn [List.filter fmap list_fmap] in *. apply NoDup_cons in Hnd as [_ Hnd].
  apply not_elem_of_cons in Hn as [Hx Hn].
  rewrite (bool_decide_ext (se_run_id x ∈ {[se_run_id e]} ∪ seen) (se_run_id x ∈ seen))
    by (rewrite elem_of_union, elem_of_singleton; naive_solver congruence).
  by rewrite IHl.
Qed.

Lemma in_rev_elem {A} (x : A) l : x ∈ l <-> x ∈ rev l.
Proof. by rewrite !list_elem_of_In, <- in_rev. Qed.

Lemma retain_ids (p : SubagentRunEntry -> bool) l : NoDup (se_run_id <$> l) -> NoDup (se_run_id <$> retain p l).
Proof.
  induction l as [|x l IH]; [done|]. unfold retain in *. cbn [List.filter fmap list_fmap].
  intros [Hn Hd]%NoDup_cons. destruct (p x); [|by apply IH]. cbn [fmap list_fmap].
  apply NoDup_cons. split; [|by apply IH].
  intros (y & Hy & [Hin _]%elem_of_retain)%list_elem_of_fmap. apply Hn. apply list_elem_of_fmap. eauto.
Qed.

Section descendants.
Variable snapshot : list SubagentRunEntry.
Hypothesis ids : NoDup (se_run_id <$> snapshot).

Lemma same_run e e' : e ∈ snapshot -> e' ∈ snapshot -> se_run_id e = se_run_id e' -> e = e'.
Proof.
  intros [i Hi]%list_elem_of_lookup [j Hj]%list_elem_of_lookup E.
  assert (i = j) as ->; [|congruence].
  apply (NoDup_lookup _ i j (se_run_id e) ids); rewrite list_lookup_fmap; [by rewrite Hi|by rewrite Hj, E].
Qed.

(** From the requester of a run to the session it runs in. *)
Definition spawns (a b : string) : Prop :=
  exists e, e ∈ snapshot /\ se_requester_session_key e = a /\ se_child_session_key e = b.

Definition unseen (seen : gset string) : nat :=
  length (retain (fun e => negb (bool_decide (se_run_id e ∈ seen))) snapshot).

Definition new_of (seen : gset string) (requester : string) : list SubagentRunEntry :=
  take_new seen (retain (requested_by requester) snapshot).

Lemma new_of_elem seen requester e : e ∈ new_of seen requester <->
  e ∈ snapshot /\ se_requester_session_key e = requester /\ se_run_id e ∉ seen.
Proof.
  unfold new_of. rewrite take_new_spec.
  - rewrite !elem_of_retain, negb_true_iff, bool_decide_eq_false. unfold requested_by.
    rewrite String.eqb_eq. tauto.
  - apply retain_ids, ids.
Qed.

Lemma new_of_NoDup seen requester : NoDup (se_run_id <$> new_of seen requester).
Proof.
  unfold new_of. rewrite take_new_spec by apply retain_ids, ids. apply retain_ids, retain_ids, ids.
Qed.

Lemma unseen_new seen requester :
  length (new_of seen requester) + unseen (list_to_set (se_run_id <$> new_of seen requester) ∪ seen) <= unseen seen.
Proof.
  unfold unseen.
  assert (retain (fun e => negb (bool_decide (se_run_id e ∈ (list_to_set (se_run_id <$> new_of seen requester) : gset string) ∪ seen))) snapshot
    = retain (fun e => negb (requested_by requester e))
        (retain (fun e => negb (bool_decide (se_run_id e ∈ seen))) snapshot)) as ->.
  { assert (forall e, e ∈ snapshot ->
      bool_decide (se_run_id e ∈ (list_to_set (se_run_id <$> new_of seen requester) : gset string) ∪ seen)
      = bool_decide (se_run_id e ∈ seen) || requested_by requester e) as H.
    { intros e He. apply eq_iff_eq_true. rewrite orb_true_iff, !bool_decide_eq_true, elem_of_union, elem_of_list_to_set.
      rewrite list_elem_of_fmap. unfold requested_by. rewrite String.eqb_eq. split.
      - intros [(y & E & Hy)|?]; [|by left]. apply new_of_elem in Hy as (Hy & Hr & _). right.
        by rewrite (same_run e y).
      - intros [?|Hr]; [by right|]. destruct (decide (se_run_id e ∈ seen)); [by right|left].
        exists e. split; [done|]. by apply new_of_elem. }
    clear ids. revert H. generalize (list_to_set (se_run_id <$> new_of seen requester) ∪ seen). intros set' H.
    revert H. generalize snapshot. intros l H. induction l as [|x l IH]; [done|]. unfold retain in *. cbn [List.filter].
    rewrite (H x) by by left. rewrite negb_orb.
    destruct (bool_decide (se_run_id x ∈ seen)); cbn [negb andb].
    - apply IH. intros e He. apply H. by right.
    - cbn [List.filter]. destruct (requested_by requester x); cbn [negb]; [|f_equal];
        apply IH; intros e He; apply H; by right. }
  assert (length (new_of seen requester) <= length (retain (requested_by requester)
    (retain (fun e => negb (bool_decide (se_run_id e ∈ seen))) snapshot))) as Hle.
  { apply submseteq_length. apply NoDup_submseteq.
    - apply (NoDup_fmap_1 se_run_id), new_of_NoDup.
    - intros e (H1 & H2 & H3)%new_of_elem. apply elem_of_retain. split; [|by apply String.eqb_eq].
      apply elem_of_retain. split; [done|]. by rewrite bool_decide_false. }
  generalize dependent (retain (fun e => negb (bool_decide (se_run_id e ∈ seen))) snapshot). intros l Hle.
  assert (length (retain (requested_by requester) l) + length (retain (fun e => negb (requested_by requester e)) l) = length l).
  { clear. unfold retain. induction l as [|x l IH]; [done|]. cbn [List.filter]. destruct (requested_by requester x); cbn; lia. }
  lia.
Qed.

(** What the loop over the stack keeps. *)
Record Descent (root : string) (seen : gset string) (out : list SubagentRunEntry) (stack : list string) : Prop := {
  d_seen : seen = list_to_set (se_run_id <$> out);
  d_nodup : NoDup (se_run_id <$> out);
  d_sound : forall e, e ∈ out -> e ∈ snapshot /\ rtc spawns root (se_requester_session_key e);
  d_stack : forall k, k ∈ stack -> rtc spawns root k;
  d_closed : forall k, k = root \/ k ∈ se_child_session_key <$> out ->
    k ∈ stack \/ forall e, e ∈ snapshot -> se_requester_session_key e = k -> e ∈ out;
}.

Lemma in_seen root seen out stack e : Descent root seen out stack -> e ∈ snapshot -> se_run_id e ∈ seen -> e ∈ out.
Proof.
  intros D He. rewrite (d_seen _ _ _ _ D), elem_of_list_to_set. intros (y & E & Hy)%list_elem_of_fmap.
  rewrite (same_run e y); try done. by apply (d_sound _ _ _ _ D).
Qed.

Lemma descent_round root seen out requester stack : Descent root seen out (requester :: stack) ->
  Descent root (list_to_set (se_run_id <$> new_of seen requester) ∪ seen) (out ++ new_of seen requester)
    (rev (se_child_session_key <$> new_of seen requester) ++ stack).
Proof.
  intros D. pose proof (d_stack _ _ _ _ D requester ltac:(by left)) as Hreq. split.
  - rewrite fmap_app, list_to_set_app_L, (d_seen _ _ _ _ D). apply union_comm_L.
  - rewrite fmap_app. apply NoDup_app. repeat split; [apply D| |apply new_of_NoDup].
    intros i Hi (e & -> & (_ & _ & He)%new_of_elem)%list_elem_of_fmap. apply He.
    by rewrite (d_seen _ _ _ _ D), elem_of_list_to_set.
  - intros e [He|(He & <- & _)%new_of_elem]%elem_of_app; [by apply (d_sound _ _ _ _ D)|done].
  - intros k [Hk|Hk]%elem_of_app; [|by apply (d_stack _ _ _ _ D); right].
    rewrite <- in_rev_elem in Hk. apply list_elem_of_fmap in Hk as (e & -> & (He & <- & _)%new_of_elem).
    eapply rtc_r; [exact Hreq|]. by exists e.
  - intros k Hk. rewrite fmap_app, elem_of_app in Hk.
    assert (k = requester \/ (k = root \/ k ∈ se_child_session_key <$> out)
      \/ k ∈ se_child_session_key <$> new_of seen requester) as [->|[Ho|Hn]] by tauto.
    + right. intros e He Hr. apply elem_of_app. destruct (decide (se_run_id e ∈ seen)) as [Hs|Hs].
      * left. by eapply in_seen.
      * right. by apply new_of_elem.
    + destruct (d_closed _ _ _ _ D k Ho) as [[->|Hin]%elem_of_cons|Hall].
      * right. intros e He Hr. apply elem_of_app. destruct (decide (se_run_id e ∈ seen)) as [Hs|Hs].
        -- left. by eapply in_seen.
        -- right. by apply new_of_elem.
      * left. apply elem_of_app. by right.
      * right. intros e He Hr. apply elem_of_app. left. by apply Hall.
    + left. apply elem_of_app. left. by rewrite <- in_rev_elem.
Qed.

Lemma descend_spec fuel root seen out stack : Descent root seen out stack ->
  length stack + unseen seen <= fuel ->
  exists out' seen', descend fuel snapshot seen out stack = Some out' /\ Descent root seen' out' [].
Proof.
  revert seen out stack. induction fuel as [|fuel IH]; intros seen out [|requester stack] D Hf.
  - by exists out, seen.
  - cbn in Hf. lia.
  - by exists out, seen.
  - cbn [descend]. apply IH; [by apply descent_round|].
    pose proof (unseen_new seen requester). cbn in Hf. rewrite length_app, length_rev, length_fmap. unfold new_of in *. lia.
Qed.

Lemma descent_end root seen out e : Descent root seen out [] ->
  e ∈ out <-> e ∈ snapshot /\ rtc spawns root (se_requester_session_key e).
Proof.
  intros D. split; [apply D|]. intros [He Hr].
  assert (forall k, rtc spawns root k -> k = root \/ k ∈ se_child_session_key <$> out) as H.
  { apply (rtc_ind_r (fun k => k = root \/ k ∈ se_child_session_key <$> out)); [by left|].
    intros k k' _ (c & Hc & Hcr & <-) IH. right. apply list_elem_of_fmap. exists c. split; [done|].
    destruct (d_closed _ _ _ _ D k IH) as [[]%not_elem_of_nil|Hall]. by apply Hall. }
  destruct (d_closed _ _ _ _ D _ (H _ Hr)) as [[]%not_elem_of_nil|Hall]. by apply Hall.
Qed.
End descendants.

(** * Properties *)

Lemma collect_descendants (values : Runs -> list SubagentRunEntry) now root runs :
  (forall m, values m ≡ₚ (map_to_list m).*2) ->
  map_Forall (fun k e => se_run_id e = k) runs ->
  let snapshot := values (sweep_archived_subagent_runs now runs) in
  exists out, collect_descendant_runs values now root runs = Some out
    /\ NoDup (se_run_id <$> out)
    /\ (forall e, e ∈ out <-> sweep_archived_subagent_runs now runs !! se_run_id e = Some e
          /\ rtc (spawns snapshot) root (se_requester_session_key e))
    /\ count_active_descendant_runs values now root runs = length (retain active out).
Proof.
  intros Hv Hk snapshot.
  assert (forall e, e ∈ snapshot <-> sweep_archived_subagent_runs now runs !! se_run_id e = Some e) as Hsn.
  { intros e. unfold snapshot. rewrite (Hv _), list_elem_of_fmap. split.
    - intros ([k x] & -> & Hx%elem_of_map_to_list). cbn [snd].
      assert (se_run_id x = k) as ->; [|done]. apply sweep_elem in Hx as [Hx _]. exact (Hk _ _ Hx).
    - intros Hx. exists (se_run_id e, e). by rewrite elem_of_map_to_list. }
  assert (NoDup (se_run_id <$> snapshot)) as Hids.
  { unfold snapshot. rewrite (Hv _), <- list_fmap_compose.
    erewrite (list_fmap_ext (se_run_id ∘ snd) fst); [apply NoDup_fst_map_to_list|].
    intros i [k x] Hx%list_elem_of_lookup_2%elem_of_map_to_list. cbn.
    apply sweep_elem in Hx as [Hx _]. exact (Hk _ _ Hx). }
  destruct (descend_spec snapshot Hids (S (length snapshot)) root ∅ [] [root]) as (out & seen & E & D).
  - split; [done|constructor|..].
    + by intros e He%not_elem_of_nil.
    + intros k ->%list_elem_of_singleton. done.
    + intros k [->|[]%not_elem_of_nil]. left. by left.
  - unfold unseen. cbn [length Nat.add]. apply le_n_S, retain_length.
  - exists out. split; [exact E|]. split; [apply D|]. split.
    + intros e. by rewrite (descent_end snapshot root seen out e D), Hsn.
    + unfold count_active_descendant_runs.
      by replace (collect_descendant_runs values now root runs) with (Some out).
Qed.

(** C27. [collect_descendant_runs] returns for every registry, with the spawning of runs
    allowed to form cycles: one round per run and one for the root is enough. It returns no
    run twice, and a run is returned exactly when it survives the sweep of archived runs and its
    requester is the root session or is reached from it by runs spawning sessions.
    In particular the count of active descendants counts each of them once. *)
Theorem collect_descendants_spec (values : Runs -> list SubagentRunEntry) now root runs :
  (forall m, values m ≡ₚ (map_to_list m).*2) ->
  map_Forall (fun k e => se_run_id e = k) runs ->
  let snapshot := values (sweep_archived_subagent_runs now runs) in
  exists out, collect_descendant_runs values now root runs = Some out
    /\ NoDup (se_run_id <$> out)
    /\ (forall e, e ∈ out <-> sweep_archived_subagent_runs now runs !! se_run_id e = Some e
          /\ rtc (spawns snapshot) root (se_requester_session_key e))
    /\ count_active_descendant_runs values now root runs = length (retain active out).
Proof. apply collect_descendants. Qed.

Definition sample_run (id requester child : string) (started : Z) (ended archive : option Z) : SubagentRunEntry := {|
  se_run_id := id; se_requester_session_key := requester; se_child_session_key := child; se_label := "scan";
  se_task := "t"; se_model := "m"; se_started_at_ms := started; se_ended_at_ms := ended; se_status := "running";
  se_error := None; se_usage := None; se_completion_reply := None; se_spawn_mode := "run"; se_cleanup := "keep";
  se_thread_requested := false; se_expects_completion_message := true; se_suppress_announce_reason := None;
  se_announce_retry_count := 0; se_last_announce_retry_at_ms := None; se_cleanup_handled := false;
  se_cleanup_completed_at_ms := None; se_ended_reason := None; se_ended_hook_emitted_at_ms := None;
  se_run_timeout_seconds := 0; se_archive_at_ms := archive |}.

Definition some_values (m : Runs) : list SubagentRunEntry := (map_to_list m).*2.

(** [a] and [b] spawn each other's session; [c] is archived. *)
Definition cyclic_runs : Runs := {[
  "a" := sample_run "a" "root" "s1" 1 None None;
  "b" := sample_run "b" "s1" "s2" 2 None None;
  "c" := sample_run "c" "s1" "s3" 3 (Some 4%Z) (Some 5%Z);
  "d" := sample_run "d" "s2" "s1" 4 (Some 9%Z) None ]}.

Lemma collect_descendants_spec_witness :
  exists out, collect_descendant_runs some_values 100 "root" cyclic_runs = Some out /\ NoDup (se_run_id <$> out).
Proof.
  destruct (collect_descendants_spec some_values 100 "root" cyclic_runs) as (out & H & Hn & _); [done| |eauto].
  intros k e. unfold cyclic_runs. rewrite !lookup_insert_Some, lookup_singleton_Some. naive_solver.
Defined.

Example cyclic_descendants :
  option_map (map se_run_id) (collect_descendant_runs some_values 100 "root" cyclic_runs) = Some ["a"; "b"; "d"]
  /\ count_active_descendant_runs some_values 100 "root" cyclic_runs = 2.
Proof. vm_compute. done. Qed.

(** A run that is both named by index and has a digit as its label is found by the index. *)
Example index_before_label :
  (exists e, resolve_subagent_target 100 [sample_run "a" "root" "s:1" 1 None None] " 1 " 30 = Ok e)
  /\ resolve_subagent_target 100 [sample_run "a" "root" "s:1" 1 None None] "2" 30 = Err "invalid subagent index: 2".
Proof. split; [eexists|]; vm_compute; done. Qed.

(** An active run is listed once by index, an ended one of the window after it; two runs with one label are
    ambiguous, and one of them is found by its run id. *)
Example labels_ambiguous :
  let runs := [sample_run "aa" "root" "s:1" 1 None None; sample_run "ab" "root" "s:2" 2 None None] in
  resolve_subagent_target 100 runs "SCAN" 30 = Err "ambiguous subagent label: SCAN"
  /\ (fun r => match r with Ok e => se_run_id e | Err m => m end) (resolve_subagent_target 100 runs "ab" 30) = "ab".
Proof. vm_compute. done. Qed.
