(* ===== verification/AnnounceQueue.v ===== *)
(** The announce queues of subagent results
    ([crates/gateway-core/src/http/agent_bridge.rs]): settings, overflow, the
    prompts made of queued announcements, and the task that drains a queue.

    Each critical section of the draining task is a step; announcements may be
    queued between any two.  The formatting of time stamps is a parameter. *)

From Stdlib Require Import Strings.String.
From S2P Require Import Prelude RustStr Sorting Json Parse SessionStore Gate Outbound SessionBindings SubagentRuns.
#[local] Open Scope string_scope.
#[local] Open Scope nat_scope.
#[local] Open Scope list_scope.
#[local] Open Scope rust_scope.

(** * Data *)

Inductive SubagentAnnounceQueueMode := Steer | Followup | Collect | SteerBacklog | Interrupt.
Inductive SubagentAnnounceDropPolicy := Old | New | Summarize.

#[export] Instance announce_mode_eq_dec : EqDecision SubagentAnnounceQueueMode.
Proof. solve_decision. Defined.
#[export] Instance announce_drop_eq_dec : EqDecision SubagentAnnounceDropPolicy.
Proof. solve_decision. Defined.

Record SubagentAnnounceQueueSettings := {
  qs_mode : SubagentAnnounceQueueMode;
  qs_debounce_ms : Z;
  qs_cap : Z;
  qs_drop_policy : SubagentAnnounceDropPolicy;
}.

Definition SUBAGENT_DEFAULT_ANNOUNCE_QUEUE_DEBOUNCE_MS : Z := 1000.
Definition SUBAGENT_DEFAULT_ANNOUNCE_QUEUE_CAP : Z := 20.
Definition SUBAGENT_ANNOUNCE_IDEMPOTENCY_TTL_MS : Z := 10 * 60000.

Record SubagentAnnounceQueueItem := {
  qi_run_id : string;
  qi_prompt : string;
  qi_summary_line : option string;
  qi_enqueued_at_ms : Z;
  qi_session_key : string;
  qi_target : option AnnounceTarget;
  qi_origin_key : option string;
}.

Record SubagentAnnounceQueueState := {
  aq_items : list SubagentAnnounceQueueItem;
  aq_draining : bool;
  aq_last_enqueued_at_ms : Z;
  aq_mode : SubagentAnnounceQueueMode;
  aq_debounce_ms : Z;
  aq_cap : Z;
  aq_drop_policy : SubagentAnnounceDropPolicy;
  aq_dropped_count : Z;
  aq_summary_lines : list string;
}.

Definition SubagentAnnounceQueueState_new (s : SubagentAnnounceQueueSettings) : SubagentAnnounceQueueState := {|
  aq_items := []; aq_draining := false; aq_last_enqueued_at_ms := 0; aq_mode := qs_mode s;
  aq_debounce_ms := qs_debounce_ms s; aq_cap := qs_cap s; aq_drop_policy := qs_drop_policy s;
  aq_dropped_count := 0; aq_summary_lines := [] |}.

(** * Settings *)

Definition normalize_subagent_announce_queue_mode (raw : option string) : SubagentAnnounceQueueMode :=
  let value := to_ascii_lowercase (default "collect" (trimmed raw)) in
  if String.eqb value "steer" then Steer
  else if one_of value ["steerbacklog"; "steer-backlog"; "steer+backlog"] then SteerBacklog
  else if String.eqb value "interrupt" then Interrupt
  else if one_of value ["followup"; "follow-up"; "queue"] then Followup
  else Collect.

Definition normalize_subagent_announce_drop_policy (raw : option string) : SubagentAnnounceDropPolicy :=
  let value := to_ascii_lowercase (default "summarize" (trimmed raw)) in
  if String.eqb value "old" then Old
  else if String.eqb value "new" then New
  else Summarize.

(** What the session's metadata and the configuration's [messages] say. *)
Record RawSettings := {
  rs_mode : option string;
  rs_debounce_ms : option Z;
  rs_cap : option Z;
  rs_drop : option string;
}.

Definition session_settings (meta : gmap string string) : RawSettings := {|
  rs_mode := trimmed (or_else (meta !! "queueMode") (meta !! "queue_mode"));
  rs_debounce_ms := Z.max 0 <$> (or_else (meta !! "queueDebounceMs") (meta !! "queue_debounce_ms")
                                 ≫= fun v => parse_i64 (trim v));
  rs_cap := Z.max 1 <$> (or_else (meta !! "queueCap") (meta !! "queue_cap")
                         ≫= fun v => parse_unsigned u64_max (trim v));
  rs_drop := trimmed (or_else (meta !! "queueDrop") (or_else (meta !! "queue_drop") (meta !! "queueDropPolicy"))) |}.

Definition config_settings (channel_hint : option string) (messages : json) : RawSettings :=
  let by_channel (prefix : string) :=
    channel_hint ≫= fun c => json_pointer (prefix +:+ normalize_channel_alias c) messages in
  {|
  rs_mode := or_else (trimmed (by_channel "/queue/byChannel/" ≫= as_str))
                     (trimmed (json_pointer "/queue/mode" messages ≫= as_str));
  rs_debounce_ms := or_else (Z.max 0 <$> (by_channel "/queue/debounceMsByChannel/" ≫= as_i64))
                            (json_pointer "/queue/debounceMs" messages ≫= as_i64);
  rs_cap := Z.max 1 <$> (json_pointer "/queue/cap" messages ≫= as_i64);
  rs_drop := trimmed (or_else (json_pointer "/queue/dropPolicy" messages)
                              (json_pointer "/queue/drop" messages) ≫= as_str) |}.

Definition no_settings : RawSettings := {|
  rs_mode := None; rs_debounce_ms := None; rs_cap := None; rs_drop := None |}.

Definition resolve_subagent_announce_queue_settings (meta : option (gmap string string))
    (messages : option json) (channel_hint : option string) : SubagentAnnounceQueueSettings :=
  let s := default no_settings (session_settings <$> meta) in
  let c := default no_settings (config_settings channel_hint <$> messages) in {|
  qs_mode := normalize_subagent_announce_queue_mode (or_else (rs_mode s) (or_else (rs_mode c) (Some "collect")));
  qs_debounce_ms := Z.max 0 (default SUBAGENT_DEFAULT_ANNOUNCE_QUEUE_DEBOUNCE_MS
                               (or_else (rs_debounce_ms s) (rs_debounce_ms c)));
  qs_cap := Z.max 1 (default SUBAGENT_DEFAULT_ANNOUNCE_QUEUE_CAP (or_else (rs_cap s) (rs_cap c)));
  qs_drop_policy := normalize_subagent_announce_drop_policy
                      (or_else (rs_drop s) (or_else (rs_drop c) (Some "summarize"))) |}.

(** * Prompts *)

Definition lower_trim (s : string) : string := to_ascii_lowercase (trim s).

Definition build_announce_origin_key (target : option AnnounceTarget) : option string :=
  (fun t => lower_trim (at_channel t) +:+ "|" +:+ lower_trim (at_to t) +:+ "|"
            +:+ lower_trim (default "" (at_account_id t)) +:+ "|"
            +:+ lower_trim (default "" (at_thread_id t))) <$> target.

(** The character [U+2026]. *)
Definition ellipsis : string := chr3 226 128 166.
Definition elide_announce_text (text : string) (limit : nat) : string :=
  let t := trim text in
  if length (chars t) <=? limit then t
  else str_concat (take (limit - 1) (chars t)) +:+ ellipsis.

Definition build_announce_summary_line (text : string) : string :=
  elide_announce_text (join " " (split_whitespace text)) 160.

Definition build_announce_queue_summary_prompt (q : SubagentAnnounceQueueState) : option string :=
  if negb (bool_decide (aq_drop_policy q = Summarize)) || (aq_dropped_count q =? 0)%Z then None
  else
    let head := "[Queue overflow] Dropped " +:+ pretty (aq_dropped_count q) +:+ " announce"
                +:+ (if (aq_dropped_count q =? 1)%Z then "" else "s") +:+ " due to cap." in
    Some (join nl (head :: match aq_summary_lines q with
                           | [] => []
                           | l => "Summary:" :: ((fun line => "- " +:+ line) <$> l)
                           end)).

Definition announce_items_cross_channel (items : list SubagentAnnounceQueueItem) : bool :=
  let keys := omap qi_origin_key items in
  match keys with
  | [] => false
  | k :: rest => existsb (fun k' => negb (String.eqb k k')) rest
                 || existsb (fun i => bool_decide (qi_origin_key i = None)) items
  end.

Section announce.
(** [from_timestamp_millis(ms)] as text. *)
Variable rfc3339 : Z -> option string.

Definition collect_block (idx : nat) (item : SubagentAnnounceQueueItem) : string :=
  let source := trim (qi_session_key item) in
  "---" +:+ nl +:+ "Queued #" +:+ pretty (Z.of_nat (S idx))
  +:+ (if String.eqb source "" then "" else " | source_session=" +:+ source)
  +:+ (if (0 <? qi_enqueued_at_ms item)%Z
       then match rfc3339 (qi_enqueued_at_ms item) with
            | Some ts => " | enqueued_at=" +:+ ts
            | None => " | enqueued_at_ms=" +:+ pretty (qi_enqueued_at_ms item)
            end
       else "")
  +:+ nl +:+ qi_prompt item.

Definition build_announce_collect_prompt (items : list SubagentAnnounceQueueItem) (summary : option string)
  : option string :=
  match items with
  | [] => None
  | _ => Some (join (nl +:+ nl)
           (["[Queued announce messages while agent was busy]"] ++ option_list (trimmed summary)
            ++ imap collect_block items))
  end.

(** * Queueing *)

Definition dropped_line (item : SubagentAnnounceQueueItem) : string :=
  build_announce_summary_line (default (trim (qi_prompt item)) (trimmed (qi_summary_line item))).

(** The queue with the items that make room for one more taken off its front. *)
Definition make_room (q : SubagentAnnounceQueueState) : SubagentAnnounceQueueState :=
  let n := Z.to_nat (Z.of_nat (length (aq_items q)) - aq_cap q + 1) in
  let dropped := take n (aq_items q) in
  let summarize := bool_decide (aq_drop_policy q = Summarize) in
  let lines := if summarize then aq_summary_lines q ++ (dropped_line <$> dropped) else aq_summary_lines q in
  {| aq_items := drop n (aq_items q); aq_draining := aq_draining q;
     aq_last_enqueued_at_ms := aq_last_enqueued_at_ms q; aq_mode := aq_mode q;
     aq_debounce_ms := aq_debounce_ms q; aq_cap := aq_cap q; aq_drop_policy := aq_drop_policy q;
     aq_dropped_count := if summarize then sat_add (aq_dropped_count q) (Z.of_nat (length dropped))
                         else aq_dropped_count q;
     aq_summary_lines := lastn (Z.to_nat (aq_cap q)) lines |}.

Definition with_settings (now : Z) (s : SubagentAnnounceQueueSettings) (q : SubagentAnnounceQueueState)
  : SubagentAnnounceQueueState := {|
  aq_items := aq_items q; aq_draining := aq_draining q; aq_last_enqueued_at_ms := now;
  aq_mode := qs_mode s; aq_debounce_ms := Z.max 0 (qs_debounce_ms s); aq_cap := Z.max 1 (qs_cap s);
  aq_drop_policy := qs_drop_policy s; aq_dropped_count := aq_dropped_count q;
  aq_summary_lines := aq_summary_lines q |}.

Definition push_item (item : SubagentAnnounceQueueItem) (q : SubagentAnnounceQueueState)
  : SubagentAnnounceQueueState := {|
  aq_items := aq_items q ++ [item]; aq_draining := aq_draining q;
  aq_last_enqueued_at_ms := aq_last_enqueued_at_ms q; aq_mode := aq_mode q;
  aq_debounce_ms := aq_debounce_ms q; aq_cap := aq_cap q; aq_drop_policy := aq_drop_policy q;
  aq_dropped_count := aq_dropped_count q; aq_summary_lines := aq_summary_lines q |}.

Definition set_draining (b : bool) (q : SubagentAnnounceQueueState) : SubagentAnnounceQueueState := {|
  aq_items := aq_items q; aq_draining := b; aq_last_enqueued_at_ms := aq_last_enqueued_at_ms q;
  aq_mode := aq_mode q; aq_debounce_ms := aq_debounce_ms q; aq_cap := aq_cap q;
  aq_drop_policy := aq_drop_policy q; aq_dropped_count := aq_dropped_count q;
  aq_summary_lines := aq_summary_lines q |}.

Definition with_origin (item : SubagentAnnounceQueueItem) : SubagentAnnounceQueueItem := {|
  qi_run_id := qi_run_id item; qi_prompt := qi_prompt item; qi_summary_line := qi_summary_line item;
  qi_enqueued_at_ms := qi_enqueued_at_ms item; qi_session_key := qi_session_key item;
  qi_target := qi_target item; qi_origin_key := build_announce_origin_key (qi_target item) |}.

(** The queue after an announcement, whether it was queued, and whether a drain
    has to be started. *)
Definition enqueue_subagent_announce (now : Z) (item : SubagentAnnounceQueueItem)
    (settings : SubagentAnnounceQueueSettings) (entry : option SubagentAnnounceQueueState)
  : SubagentAnnounceQueueState * bool * bool :=
  let q := with_settings now settings (default (SubagentAnnounceQueueState_new settings) entry) in
  let full := (aq_cap q <=? Z.of_nat (length (aq_items q)))%Z in
  let should_enqueue := negb (full && bool_decide (aq_drop_policy q = New)) in
  let q1 := if full && should_enqueue then make_room q else q in
  let q2 := if should_enqueue then push_item (with_origin item) q1 else q1 in
  (set_draining true q2, should_enqueue, negb (aq_draining q)).

(** * Draining *)

Record AnState := {
  an_queues : gmap string SubagentAnnounceQueueState;
  an_delivered : gmap string Z;
}.

Definition put_queues (x : gmap string SubagentAnnounceQueueState) (s : AnState) : AnState := {|
  an_queues := x; an_delivered := an_delivered s |}.
Definition put_delivered (x : gmap string Z) (s : AnState) : AnState := {|
  an_queues := an_queues s; an_delivered := x |}.

Definition sweep_subagent_announce_delivered_map (now : Z) (m : gmap string Z) : gmap string Z :=
  filter (fun kv => (0 < kv.2 /\ sat_sub_i64 now kv.2
                     <= Z.max SUBAGENT_ANNOUNCE_IDEMPOTENCY_TTL_MS SUBAGENT_ANNOUNCE_EXPIRY_MS)%Z) m.

Definition was_subagent_announce_delivered (now : Z) (announce_id : string) (m : gmap string Z)
  : bool * gmap string Z :=
  let key := trim announce_id in
  if String.eqb key "" then (false, m)
  else let m' := sweep_subagent_announce_delivered_map now m in (bool_decide (is_Some (m' !! key)), m').

Definition mark_subagent_announce_delivered (now : Z) (announce_id : string) (m : gmap string Z)
  : gmap string Z :=
  let key := trim announce_id in
  if String.eqb key "" then m else <[key := now]> (sweep_subagent_announce_delivered_map now m).

(** What a step gets from outside: the clock, an identifier for the message, the
    registered channels and the answer of the channel. *)
Record AnEnv := {
  ae_now : Z;
  ae_uuid : string;
  ae_channels : option (list string);
  ae_sent : result string string;
}.

Definition resolve_channel_name (channels : list string) (requested : string) : result string string :=
  let normalized := normalize_channel_alias requested in
  if String.eqb normalized "webchat"
  then Err "message tool: unsupported channel webchat (internal-only)"
  else match find_first (fun name => String.eqb (normalize_channel_alias name) normalized)
               (sort_by (by_str id) channels) with
       | Some found => Ok found
       | None => Err ("message tool: unsupported channel " +:+ requested)
       end.

Definition announce_message (env : AnEnv) (channel : string) (target : AnnounceTarget) (text : string)
  : ChannelMessage := {|
  cm_id := ae_uuid env; cm_channel := channel; cm_sender := "sessions_send/a2a"; cm_content := text;
  cm_timestamp := ae_now env;
  cm_metadata := resolve_outbound_target_metadata (at_to target) (at_thread_id target) (at_account_id target) |}.

(** The message a channel took; none without a channel manager. *)
Definition send_announce_to_target (env : AnEnv) (target : AnnounceTarget) (text : string)
  : result (option ChannelMessage) string :=
  match ae_channels env with
  | None => Ok None
  | Some channels =>
      let? channel := resolve_channel_name channels (at_channel target) in
      let? _ := ae_sent env in
      Ok (Some (announce_message env channel target text))
  end.

(** [Single] and [Collect] work: the item whose target and run it goes by, the
    prompt, the items it stands for (those consumed), whether the summary is. *)
Record DrainWork := {
  wk_item : SubagentAnnounceQueueItem;
  wk_prompt : string;
  wk_batch : list SubagentAnnounceQueueItem;
  wk_clear_summary : bool;
}.

Inductive Choice := Work (w : DrainWork) | Idle | Again.

Definition single_work (q : SubagentAnnounceQueueState) (summary : option string) : Choice :=
  match aq_items q with
  | item :: _ => Work {| wk_item := item; wk_prompt := default (qi_prompt item) summary;
                         wk_batch := [item]; wk_clear_summary := bool_decide (is_Some summary) |}
  | [] => Idle
  end.

Definition choose_work (q : SubagentAnnounceQueueState) : Choice :=
  if bool_decide (aq_items q = []) && (aq_dropped_count q =? 0)%Z then Idle
  else
    let summary := build_announce_queue_summary_prompt q in
    match aq_mode q with
    | Collect =>
        if announce_items_cross_channel (aq_items q) then single_work q summary
        else match last (aq_items q) with
             | None => Again
             | Some item => Work {|
                 wk_item := item;
                 wk_prompt := default (qi_prompt item) (build_announce_collect_prompt (aq_items q) summary);
                 wk_batch := aq_items q; wk_clear_summary := bool_decide (is_Some summary) |}
             end
    | _ => single_work q summary
    end.

(** How long the drain sleeps before it takes work. *)
Definition debounce_wait (now : Z) (q : SubagentAnnounceQueueState) : Z :=
  let debounce := Z.max 0 (aq_debounce_ms q) in
  let since := sat_sub_i64 now (aq_last_enqueued_at_ms q) in
  if (0 <? debounce)%Z && (since <? debounce)%Z then Z.max 1 (sat_sub_i64 debounce since) else 0%Z.

Inductive DrainPc :=
| DrCheck
| DrRemove
| DrWork
| DrIdle
| DrSeen (w : DrainWork)
| DrSend (w : DrainWork)
| DrMark (w : DrainWork)
| DrDone (w : DrainWork) (ok : bool).

(** A message a channel took, with the items it stood for. *)
Record Sent := { sn_key : string; sn_batch : list SubagentAnnounceQueueItem; sn_message : ChannelMessage }.

(** [for _ in 0..consume_count { pop_front }], or the time of the failure. *)
Definition finish_work (now : Z) (w : DrainWork) (ok : bool) (q : SubagentAnnounceQueueState)
  : SubagentAnnounceQueueState := {|
  aq_items := if ok then drop (length (wk_batch w)) (aq_items q) else aq_items q;
  aq_draining := aq_draining q;
  aq_last_enqueued_at_ms := if ok then aq_last_enqueued_at_ms q else now;
  aq_mode := aq_mode q; aq_debounce_ms := aq_debounce_ms q; aq_cap := aq_cap q;
  aq_drop_policy := aq_drop_policy q;
  aq_dropped_count := if ok && wk_clear_summary w then 0%Z else aq_dropped_count q;
  aq_summary_lines := if ok && wk_clear_summary w then [] else aq_summary_lines q |}.

(** One critical section, or the send: the next step ([None]: the task ends), the
    state, and what was sent. *)
Definition drain_step (env : AnEnv) (key : string) (pc : DrainPc) (s : AnState)
  : option DrainPc * AnState * option Sent :=
  let remove := (None, put_queues (delete key (an_queues s)) s, None) in
  match pc with
  | DrCheck =>
      match an_queues s !! key with
      | None => (None, s, None)
      | Some q => (Some (if bool_decide (aq_items q = []) && (aq_dropped_count q =? 0)%Z
                         then DrRemove else DrWork), s, None)
      end
  | DrRemove => remove
  | DrWork =>
      match an_queues s !! key with
      | None => (None, s, None)
      | Some q => match choose_work q with
                  | Work w => (Some (DrSeen w), s, None)
                  | Idle => (Some DrIdle, s, None)
                  | Again => (Some DrCheck, s, None)
                  end
      end
  | DrIdle => remove
  | DrSeen w =>
      let '(seen, m) := was_subagent_announce_delivered (ae_now env) (qi_run_id (wk_item w)) (an_delivered s) in
      (Some (if seen then DrDone w true else DrSend w), put_delivered m s, None)
  | DrSend w =>
      match qi_target (wk_item w) with
      | None => (Some (DrDone w false), s, None)
      | Some target =>
          match send_announce_to_target env target (wk_prompt w) with
          | Err _ => (Some (DrDone w false), s, None)
          | Ok message => (Some (DrMark w), s, (fun m => {| sn_key := key; sn_batch := wk_batch w; sn_message := m |}) <$> message)
          end
      end
  | DrMark w =>
      (Some (DrDone w true),
       put_delivered (mark_subagent_announce_delivered (ae_now env) (qi_run_id (wk_item w)) (an_delivered s)) s, None)
  | DrDone w ok =>
      match an_queues s !! key with
      | None => (None, s, None)
      | Some q =>
          let q' := finish_work (ae_now env) w ok q in
          if bool_decide (aq_items q' = []) && (aq_dropped_count q' =? 0)%Z
          then (None, put_queues (delete key (an_queues s)) s, None)
          else (Some DrCheck, put_queues (<[key := q']> (an_queues s)) s, None)
      end
  end.

(** * Interleavings *)

(** [ac_owner] is the queue each announcement was made for, by its run. *)
Record AnConf := {
  ac_state : AnState;
  ac_drains : gmap nat (string * DrainPc);
  ac_sent : list Sent;
  ac_owner : gmap string string;
}.

Inductive AnMove :=
| AmEnqueue (i : nat) (now : Z) (key : string) (item : SubagentAnnounceQueueItem)
    (settings : SubagentAnnounceQueueSettings)
| AmDrain (i : nat) (env : AnEnv).

Definition an_move (m : AnMove) (c : AnConf) : option AnConf :=
  match m with
  | AmEnqueue i now key item settings =>
      let '(q, _, start) := enqueue_subagent_announce now item settings (an_queues (ac_state c) !! key) in
      match ac_drains c !! i with
      | Some _ => None
      | None => Some {|
          ac_state := put_queues (<[key := q]> (an_queues (ac_state c))) (ac_state c);
          ac_drains := if start then <[i := (key, DrCheck)]> (ac_drains c) else ac_drains c;
          ac_sent := ac_sent c; ac_owner := <[qi_run_id item := key]> (ac_owner c) |}
      end
  | AmDrain i env =>
      match ac_drains c !! i with
      | None => None
      | Some (key, pc) =>
          let '(next, s', sent) := drain_step env key pc (ac_state c) in
          Some {| ac_state := s'; ac_drains := put i ((key,.) <$> next) (ac_drains c);
                  ac_sent := ac_sent c ++ option_list sent; ac_owner := ac_owner c |}
      end
  end.

(** A run is announced once. *)
Definition an_allowed (m : AnMove) (c : AnConf) : Prop :=
  match m with AmEnqueue _ _ _ item _ => ac_owner c !! qi_run_id item = None | _ => True end.

Definition an_init (delivered : gmap string Z) : AnConf := {|
  ac_state := {| an_queues := ∅; an_delivered := delivered |}; ac_drains := ∅; ac_sent := []; ac_owner := ∅ |}.

Inductive AnReach : AnConf -> Prop :=
| an_reach_init delivered : AnReach (an_init delivered)
| an_reach_step m c c' : AnReach c -> an_allowed m c -> an_move m c = Some c' -> AnReach c'.

(** A drain left alone, its environment fixed. *)
Fixpoint run_drain (fuel : nat) (env : AnEnv) (key : string) (pc : DrainPc) (s : AnState)
  : option (AnState * list Sent) :=
  match fuel with
  | 0 => None
  | S fuel' =>
      let '(next, s', sent) := drain_step env key pc s in
      match next with
      | None => Some (s', option_list sent)
      | Some pc' => '(s'', l) ← run_drain fuel' env key pc' s'; Some (s'', option_list sent ++ l)
      end
  end.
End announce.

(** * What draining keeps *)

Definition ids (l : list SubagentAnnounceQueueItem) : list string := qi_run_id <$> l.
Definition sent_ids (l : list Sent) : list string := concat ((fun s => ids (sn_batch s)) <$> l).

Definition clean (sent : list string) (l : list SubagentAnnounceQueueItem) : Prop :=
  forall x, x ∈ l -> qi_run_id x ∉ sent.
Definition owned (owner : gmap string string) (key : string) (l : list SubagentAnnounceQueueItem) : Prop :=
  forall x, x ∈ l -> owner !! qi_run_id x = Some key.

(** The queue against the work under way: what is left of the batch, then what was
    queued since.  [fresh]: the batch has not been sent. *)
Definition work_ok (fresh : bool) (owner : gmap string string) (sent : list string) (key : string)
    (w : DrainWork) (items : list SubagentAnnounceQueueItem) : Prop :=
  exists j new, items = drop j (wk_batch w) ++ new /\ NoDup (ids (wk_batch w ++ new))
    /\ clean sent new /\ owned owner key (wk_batch w) /\ (fresh = true -> clean sent (wk_batch w)).

Definition drain_ok (owner : gmap string string) (sent : list string) (key : string) (pc : DrainPc)
    (items : list SubagentAnnounceQueueItem) : Prop :=
  match pc with
  | DrCheck | DrRemove | DrWork | DrIdle => NoDup (ids items) /\ clean sent items
  | DrSeen w | DrSend w => work_ok true owner sent key w items
  | DrMark w => work_ok false owner sent key w items
  | DrDone w ok => work_ok (negb ok) owner sent key w items
  end.

Record AnInv (c : AnConf) : Prop := {
  ai_one : forall i j k pc pc', ac_drains c !! i = Some (k, pc) -> ac_drains c !! j = Some (k, pc') -> i = j;
  ai_drain : forall i k pc, ac_drains c !! i = Some (k, pc) ->
    exists q, an_queues (ac_state c) !! k = Some q
      /\ drain_ok (ac_owner c) (sent_ids (ac_sent c)) k pc (aq_items q);
  ai_queue : forall k q, an_queues (ac_state c) !! k = Some q ->
    aq_draining q = true /\ owned (ac_owner c) k (aq_items q) /\ exists i pc, ac_drains c !! i = Some (k, pc);
  ai_sent : forall s, s ∈ ac_sent c -> owned (ac_owner c) (sn_key s) (sn_batch s);
  ai_nodup : NoDup (sent_ids (ac_sent c));
}.

Lemma ids_app l1 l2 : ids (l1 ++ l2) = ids l1 ++ ids l2.
Proof. apply fmap_app. Qed.

Lemma elem_of_ids x l : x ∈ l -> qi_run_id x ∈ ids l.
Proof. intros. apply list_elem_of_fmap. eauto. Qed.

Lemma ids_elem r l : r ∈ ids l -> exists x, x ∈ l /\ qi_run_id x = r.
Proof. intros (x & -> & ?)%list_elem_of_fmap. eauto. Qed.

Lemma clean_app sent l1 l2 : clean sent (l1 ++ l2) <-> clean sent l1 /\ clean sent l2.
Proof.
  split.
  - intros H. split; intros x Hx; apply H, elem_of_app; auto.
  - intros [H1 H2] x [?|?]%elem_of_app; auto.
Qed.

Lemma owned_app owner key l1 l2 : owned owner key (l1 ++ l2) <-> owned owner key l1 /\ owned owner key l2.
Proof.
  split.
  - intros H. split; intros x Hx; apply H, elem_of_app; auto.
  - intros [H1 H2] x [?|?]%elem_of_app; auto.
Qed.

Lemma clean_drop sent n l : clean sent l -> clean sent (drop n l).
Proof. intros H x Hx. apply H. rewrite <- (take_drop n l). apply elem_of_app. by right. Qed.

Lemma owned_drop owner key n l : owned owner key l -> owned owner key (drop n l).
Proof. intros H x Hx. apply H. rewrite <- (take_drop n l). apply elem_of_app. by right. Qed.

Lemma ids_drop_NoDup n l : NoDup (ids l) -> NoDup (ids (drop n l)).
Proof. rewrite <- (take_drop n l) at 1. rewrite ids_app. intros (_ & _ & H)%NoDup_app. done. Qed.

Lemma sent_ids_app l1 l2 : sent_ids (l1 ++ l2) = sent_ids l1 ++ sent_ids l2.
Proof. unfold sent_ids. by rewrite fmap_app, concat_app. Qed.

Lemma clean_sent_app sent extra l : clean (sent ++ extra) l <-> clean sent l /\ clean extra l.
Proof.
  split.
  - intros H. split; intros x Hx Hin; apply (H x Hx), elem_of_app; auto.
  - intros [H1 H2] x Hx [?|?]%elem_of_app; [by apply (H1 x)|by apply (H2 x)].
Qed.

(** Batches of different queues have no run in common. *)
Lemma owned_clean owner k k' l l' : owned owner k l -> owned owner k' l' -> k <> k' -> clean (ids l) l'.
Proof.
  intros H H' Hne x Hx (y & Hy & E)%ids_elem. pose proof (H' x Hx) as H1. pose proof (H y Hy) as H2.
  rewrite E in H2. congruence.
Qed.

Lemma NoDup_clean l1 l2 : NoDup (ids (l1 ++ l2)) -> clean (ids l1) l2.
Proof.
  rewrite ids_app. intros (_ & H & _)%NoDup_app x Hx Hin. by apply (H _ Hin), elem_of_ids.
Qed.

(** The queue grows at its end and loses items at its front. *)
Lemma work_grow fresh owner sent key w items n l : work_ok fresh owner sent key w items ->
  clean sent l -> NoDup (ids l) -> clean (ids (wk_batch w)) l -> clean (ids items) l ->
  work_ok fresh owner sent key w (drop n items ++ l).
Proof.
  intros (j & new & -> & Hn & Hc & Ho & Hb) Hl Hnl Hbl Hil.
  exists (j + n), (drop (n - length (drop j (wk_batch w))) new ++ l). split_and!; [| | |done|done].
  - by rewrite drop_app, drop_drop, app_assoc.
  - rewrite app_assoc, !ids_app. rewrite ids_app in Hn. apply NoDup_app in Hn as (H1 & H2 & H3).
    apply NoDup_app. split_and!; [apply NoDup_app; split_and!| |].
    + done.
    + intros r Hr. intros (x & Hx & <-)%ids_elem. eapply (H2 _ Hr), elem_of_ids.
      rewrite <- (take_drop (n - length (drop j (wk_batch w))) new). apply elem_of_app. by right.
    + by apply ids_drop_NoDup.
    + intros r [Hr|Hr]%elem_of_app (x & Hx & <-)%ids_elem; [by apply (Hbl x Hx)|].
      apply (Hil x Hx). apply ids_elem in Hr as (y & Hy & <-). apply elem_of_ids, elem_of_app. right.
      rewrite <- (take_drop (n - length (drop j (wk_batch w))) new). apply elem_of_app. by right.
    + done.
  - apply clean_app. split; [by apply clean_drop|done].
Qed.

Lemma drain_grow owner sent key pc items n l : drain_ok owner sent key pc items ->
  clean sent l -> NoDup (ids l) -> clean (ids items) l ->
  (forall w, (pc = DrSeen w \/ pc = DrSend w \/ pc = DrMark w \/ exists ok, pc = DrDone w ok) ->
     clean (ids (wk_batch w)) l) ->
  drain_ok owner sent key pc (drop n items ++ l).
Proof.
  intros H Hl Hn Hi Hw.
  assert (NoDup (ids items) /\ clean sent items -> NoDup (ids (drop n items ++ l)) /\ clean sent (drop n items ++ l)) as Hplain.
  { intros [Hnd Hc]. split; [|apply clean_app; split; [by apply clean_drop|done]].
    rewrite ids_app. apply NoDup_app. split_and!; [by apply ids_drop_NoDup| |done].
    intros r (y & Hy & <-)%ids_elem (x & Hx & E)%ids_elem. apply (Hi x Hx). rewrite E. apply elem_of_ids.
    rewrite <- (take_drop n items). apply elem_of_app. by right. }
  destruct pc; cbn in *; eauto using work_grow; apply work_grow; eauto 6.
Qed.

Definition items_of (entry : option SubagentAnnounceQueueState) : list SubagentAnnounceQueueItem :=
  default [] (aq_items <$> entry).

Lemma enqueue_shape now item settings entry :
  exists q queued, enqueue_subagent_announce now item settings entry
      = (q, queued, negb (default false (aq_draining <$> entry)))
    /\ aq_draining q = true
    /\ exists n l, aq_items q = drop n (items_of entry) ++ l
         /\ if queued : bool then l = [with_origin item] else l = [] /\ n = 0.
Proof.
  unfold enqueue_subagent_announce.
  set (q := with_settings now settings (default (SubagentAnnounceQueueState_new settings) entry)).
  assert (aq_items q = items_of entry) as Ei by (unfold q; by destruct entry).
  assert (aq_draining q = default false (aq_draining <$> entry)) as Ed by (unfold q; by destruct entry).
  rewrite <- Ed. clearbody q.
  destruct (aq_cap q <=? Z.of_nat (length (aq_items q)))%Z eqn:Ef; cbn [andb negb].
  - destruct (bool_decide (aq_drop_policy q = New)) eqn:En; cbn [negb].
    + eexists _, _. split; [done|]. split; [done|]. exists 0, []. cbn. by rewrite app_nil_r, Ei.
    + eexists _, _. split; [done|]. split; [done|]. rewrite <- Ei. cbn. by eexists _, _.
  - eexists _, _. split; [done|]. split; [done|]. rewrite <- Ei. exists 0, [with_origin item]. done.
Qed.

Lemma fresh_clean (owner : gmap string string) sent item :
  owner !! qi_run_id item = None -> (forall r, r ∈ sent -> is_Some (owner !! r)) ->
  clean sent [with_origin item] /\ (forall k l', owned owner k l' -> clean (ids l') [with_origin item]).
Proof.
  intros Hn Hs. split.
  - intros x ->%list_elem_of_singleton Hin. destruct (Hs _ Hin). cbn in *. congruence.
  - intros k l' Ho x ->%list_elem_of_singleton (y & Hy & E)%ids_elem. specialize (Ho y Hy). cbn in *. congruence.
Qed.

Lemma owned_insert owner key r l k : owner !! r = None -> owned owner k l -> owned (<[r := key]> owner) k l.
Proof. intros Hn Ho x Hx. specialize (Ho x Hx). rewrite lookup_insert_ne; [done|congruence]. Qed.

Lemma drain_owned owner sent key pc items : drain_ok owner sent key pc items ->
  forall w, (pc = DrSeen w \/ pc = DrSend w \/ pc = DrMark w \/ exists ok, pc = DrDone w ok) ->
  owned owner key (wk_batch w).
Proof. intros H w [-> | [-> | [-> | [ok ->]]]]; destruct H as (? & ? & ? & ? & ? & ? & ?); done. Qed.

Lemma drain_insert owner sent key pc items r k : owner !! r = None -> drain_ok owner sent key pc items ->
  drain_ok (<[r := k]> owner) sent key pc items.
Proof.
  intros Hn. assert (forall b w, work_ok b owner sent key w items -> work_ok b (<[r := k]> owner) sent key w items) as H.
  { intros b w (j & new & ? & ? & ? & ? & ?). exists j, new. eauto 7 using owned_insert. }
  destruct pc; cbn; auto.
Qed.

Lemma sent_ids_elem l r : r ∈ sent_ids l <-> exists s, s ∈ l /\ r ∈ ids (sn_batch s).
Proof.
  unfold sent_ids. rewrite list_elem_of_In, in_concat. split.
  - intros (x & (s & <- & Hs%list_elem_of_In)%in_map_iff & Hr%list_elem_of_In). eauto.
  - intros (s & Hs & Hr). exists (ids (sn_batch s)). split; [|by apply list_elem_of_In].
    apply in_map_iff. exists s. split; [done|]. by apply list_elem_of_In.
Qed.

Section invariant.
Variable rfc3339 : Z -> option string.

Lemma sent_owned c r : AnInv c -> r ∈ sent_ids (ac_sent c) -> is_Some (ac_owner c !! r).
Proof.
  intros I (s & Hs & (x & Hx & <-)%ids_elem)%sent_ids_elem. eexists. by apply (ai_sent _ I s Hs).
Qed.

Lemma inv_enqueue i now key item settings c c' : AnInv c -> ac_owner c !! qi_run_id item = None ->
  an_move rfc3339 (AmEnqueue i now key item settings) c = Some c' -> AnInv c'.
Proof.
  intros I Hn. cbn [an_move].
  destruct (enqueue_shape now item settings (an_queues (ac_state c) !! key))
    as (q & queued & -> & Hd & n & l & Hi & Hl). cbv zeta iota beta.
  destruct (ac_drains c !! i) eqn:Ei; [done|]. intros [= <-].
  destruct (fresh_clean (ac_owner c) (sent_ids (ac_sent c)) item Hn) as [Hc Hb];
    [by intros r Hr; apply (sent_owned c r I)|].
  assert (clean (sent_ids (ac_sent c)) l /\ NoDup (ids l) /\ (forall k l', owned (ac_owner c) k l' -> clean (ids l') l)
          /\ owned (<[qi_run_id item := key]> (ac_owner c)) key l) as (Hcl & Hnl & Hbl & Hol).
  { destruct queued; [subst l|destruct Hl as [-> _]]; split_and!; try done; try (by intros ? ?%not_elem_of_nil);
      try apply NoDup_nil_2; try (by intros ? ? ? ? ?%not_elem_of_nil).
    - apply NoDup_singleton.
    - intros x ->%list_elem_of_singleton. cbn. by rewrite lookup_insert_eq. }
  assert (owned (ac_owner c) key (items_of (an_queues (ac_state c) !! key))) as Hoq.
  { destruct (an_queues (ac_state c) !! key) as [q0|] eqn:Eq; [|by intros ? ?%not_elem_of_nil].
    by destruct (ai_queue _ I _ _ Eq) as (_ & ? & _). }
  (* the drain of the queue: the one there is, or the one started *)
  destruct (an_queues (ac_state c) !! key) as [q0|] eqn:Eq; cbn [fmap option_fmap option_map default from_option id negb] in *.
  - destruct (ai_queue _ I _ _ Eq) as (Hd0 & _ & d & pcd & Ed). rewrite Hd0. cbn [negb].
    constructor; cbn [ac_state ac_drains ac_sent ac_owner an_queues put_queues].
    + apply I.
    + intros j k pc Hj. destruct (ai_drain _ I _ _ _ Hj) as (qj & Ej & Hok). destruct (decide (k = key)) as [->|Hk].
      * exists q. rewrite lookup_insert_eq. split; [done|]. rewrite Hi.
        assert (qj = q0) as -> by congruence. apply drain_insert; [done|].
        apply drain_grow; [done..| |]; [by apply (Hbl key)|]. intros w Hw. apply (Hbl key).
        by apply (drain_owned _ _ _ _ _ Hok).
      * exists qj. rewrite lookup_insert_ne by done. split; [done|]. by apply drain_insert.
    + intros k q' [[<- <-]|[Hk Hq']]%lookup_insert_Some.
      * split; [done|]. split; [|by exists d, pcd]. rewrite Hi. apply owned_app. split; [|done].
        apply owned_drop. by apply owned_insert.
      * destruct (ai_queue _ I _ _ Hq') as (? & ? & ?). split_and!; [done|by apply owned_insert|done].
    + intros s Hs. apply owned_insert; [done|]. by apply I.
    + apply I.
  - unfold items_of in Hi. cbn in Hi. rewrite drop_nil in Hi. cbn [app] in Hi.
    assert (forall j pc, ac_drains c !! j <> Some (key, pc)) as Hnone.
    { intros j pc Hj. destruct (ai_drain _ I _ _ _ Hj) as (? & ? & _). congruence. }
    constructor; cbn [ac_state ac_drains ac_sent ac_owner an_queues put_queues].
    + intros j1 j2 k pc pc' [[<- E1]|[? H1]]%lookup_insert_Some [[<- E2]|[? H2]]%lookup_insert_Some;
        simplify_eq; [done|by edestruct Hnone|by edestruct Hnone|by eapply (ai_one _ I)].
    + intros j k pc [[<- E]|[? Hj]]%lookup_insert_Some; simplify_eq.
      * exists q. rewrite lookup_insert_eq. split; [done|]. done.
      * destruct (ai_drain _ I _ _ _ Hj) as (qj & Ej & Hok). exists qj.
        rewrite lookup_insert_ne by (intros ->; by edestruct Hnone). split; [done|]. by apply drain_insert.
    + intros k q' [[<- <-]|[Hk Hq']]%lookup_insert_Some.
      * split; [done|]. split; [|exists i, DrCheck; by rewrite lookup_insert_eq]. by rewrite Hi.
      * destruct (ai_queue _ I _ _ Hq') as (? & ? & j & pc & Hj). split_and!; [done|by apply owned_insert|].
        exists j, pc. rewrite lookup_insert_ne; [done|congruence].
    + intros s Hs. apply owned_insert; [done|]. by apply I.
    + apply I.
Qed.

Definition sent_by (o : option Sent) : list string := sent_ids (option_list o).

(** One step of the drain of [key]: its queue goes with it or stays in order. *)
Record StepOk (owner : gmap string string) (sent : list string) (key : string) (s s' : AnState)
    (next : option DrainPc) (o : option Sent) : Prop := {
  so_other : forall k, k <> key -> an_queues s' !! k = an_queues s !! k;
  so_end : next = None -> an_queues s' !! key = None;
  so_next : forall pc, next = Some pc -> exists q, an_queues s' !! key = Some q /\ aq_draining q = true
    /\ owned owner key (aq_items q) /\ drain_ok owner (sent ++ sent_by o) key pc (aq_items q);
  so_sent : forall x, o = Some x -> sn_key x = key /\ owned owner key (sn_batch x)
    /\ NoDup (ids (sn_batch x)) /\ clean sent (sn_batch x);
}.

Lemma step_stays owner sent key s q pc d : an_queues s !! key = Some q -> aq_draining q = true ->
  owned owner key (aq_items q) -> drain_ok owner sent key pc (aq_items q) ->
  StepOk owner sent key s (put_delivered d s) (Some pc) None.
Proof.
  intros Hq Hd Ho Hok. constructor; [done|done| |done].
  intros pc' [= <-]. exists q. unfold sent_by. cbn. by rewrite app_nil_r.
Qed.

Lemma step_removed owner sent key s : StepOk owner sent key s (put_queues (delete key (an_queues s)) s) None None.
Proof.
  constructor; [|intros _; apply lookup_delete_eq|done|done].
  intros k Hk. cbn. by rewrite lookup_delete_ne.
Qed.

Lemma work_batch_split owner sent key w items : NoDup (ids items) -> clean sent items -> owned owner key items ->
  wk_batch w `prefix_of` items -> work_ok true owner sent key w items.
Proof.
  intros Hn Hc Ho [rest ->]. apply clean_app in Hc as [? ?]. apply owned_app in Ho as [? ?].
  exists 0, rest. done.
Qed.

Lemma choose_prefix q w : choose_work rfc3339 q = Work w -> wk_batch w `prefix_of` aq_items q.
Proof.
  assert (forall summary, single_work q summary = Work w -> wk_batch w `prefix_of` aq_items q) as Hs.
  { unfold single_work. intros summary. destruct (aq_items q) as [|x l]; [done|]. intros [= <-]. by exists l. }
  unfold choose_work. destruct (_ && _); [done|]. destruct (aq_mode q); eauto.
  destruct (announce_items_cross_channel _); [eauto|]. destruct (last _); [|done]. intros [= <-]. cbn. by exists []; rewrite app_nil_r.
Qed.

Lemma put_delivered_id s : put_delivered (an_delivered s) s = s.
Proof. by destruct s. Qed.

Lemma work_after_pop owner sent key w items : work_ok false owner sent key w items ->
  NoDup (ids (drop (length (wk_batch w)) items)) /\ clean sent (drop (length (wk_batch w)) items).
Proof.
  intros (j & new & -> & Hn & Hc & _). rewrite drop_app, drop_drop.
  rewrite (drop_ge (wk_batch w)) by lia. cbn [app]. split; [|by apply clean_drop].
  apply ids_drop_NoDup. rewrite ids_app in Hn. by apply NoDup_app in Hn as (_ & _ & ?).
Qed.

Lemma work_unsent owner sent key w items : work_ok true owner sent key w items ->
  NoDup (ids items) /\ clean sent items.
Proof.
  intros (j & new & -> & Hn & Hc & _ & Hb). split; [|apply clean_app; split; [apply clean_drop|]; auto].
  rewrite ids_app in *. apply NoDup_app in Hn as (H1 & H2 & H3). apply NoDup_app.
  split_and!; [by apply ids_drop_NoDup| |done]. intros r (x & Hx & <-)%ids_elem. apply H2, elem_of_ids.
  rewrite <- (take_drop j (wk_batch w)). apply elem_of_app. by right.
Qed.

Lemma work_sent owner sent key w items : work_ok true owner sent key w items ->
  work_ok false owner (sent ++ ids (wk_batch w)) key w items
  /\ owned owner key (wk_batch w) /\ NoDup (ids (wk_batch w)) /\ clean sent (wk_batch w).
Proof.
  intros (j & new & -> & Hn & Hc & Ho & Hb). split_and!; [|done| |by apply Hb].
  - exists j, new. split_and!; try done. apply clean_sent_app. split; [done|]. by apply NoDup_clean.
  - rewrite ids_app in Hn. by apply NoDup_app in Hn as (? & _ & _).
Qed.

Lemma work_weaken b owner sent key w items : work_ok b owner sent key w items -> work_ok false owner sent key w items.
Proof. intros (j & new & ? & ? & ? & ? & ?). by exists j, new. Qed.

Lemma drain_step_ok env owner sent key pc s q next s' o :
  an_queues s !! key = Some q -> aq_draining q = true -> owned owner key (aq_items q) ->
  drain_ok owner sent key pc (aq_items q) ->
  drain_step rfc3339 env key pc s = (next, s', o) -> StepOk owner sent key s s' next o.
Proof.
  intros Hq Hd Ho Hok.
  assert (forall pc', drain_ok owner sent key pc' (aq_items q) ->
    StepOk owner sent key s s (Some pc') None) as Hstay.
  { intros pc' ?. rewrite <- (put_delivered_id s) at 2. by eapply step_stays. }
  destruct pc as [| | | |w|w|w|w ok]; cbn [drain_step]; rewrite ?Hq.
  - intros [= <- <- <-]. apply Hstay. by destruct (_ && _).
  - intros [= <- <- <-]. apply step_removed.
  - destruct (choose_work rfc3339 q) as [w| |] eqn:Ec; intros [= <- <- <-]; apply Hstay; try done.
    cbn. destruct Hok. apply work_batch_split; try done. by apply choose_prefix.
  - intros [= <- <- <-]. apply step_removed.
  - destruct (was_subagent_announce_delivered _ _ _) as [seen m]. intros [= <- <- <-].
    eapply step_stays; try done. destruct seen; [by eapply work_weaken|done].
  - destruct (qi_target (wk_item w)) as [target|]; [|intros [= <- <- <-]; by apply Hstay].
    destruct (send_announce_to_target env target (wk_prompt w)) as [[m|]|e]; intros [= <- <- <-].
    + apply work_sent in Hok as (Hok & Hb1 & Hb2 & Hb3). constructor; [done|done| |].
      * intros pc' [= <-]. exists q. split_and!; try done. unfold sent_by, sent_ids. cbn.
        by rewrite app_nil_r.
      * intros x [= <-]. done.
    + apply Hstay. by eapply work_weaken.
    + by apply Hstay.
  - intros [= <- <- <-]. eapply step_stays; done.
  - assert (NoDup (ids (aq_items (finish_work (ae_now env) w ok q)))
      /\ clean sent (aq_items (finish_work (ae_now env) w ok q))) as [Hn Hc].
    { destruct ok; cbn; [by eapply work_after_pop|by eapply work_unsent]. }
    destruct (_ && _); intros [= <- <- <-]; [apply step_removed|].
    constructor; [intros k Hk; cbn; by rewrite lookup_insert_ne|done| |done].
    intros pc' [= <-]. eexists. cbn [put_queues an_queues]. rewrite lookup_insert_eq. split; [done|].
    split; [done|]. split; [destruct ok; [by apply owned_drop|done]|].
    unfold sent_by. cbn [option_list sent_ids fmap list_fmap concat]. by rewrite app_nil_r.
Qed.

Lemma drain_ok_other owner sent extra key k' pc items l : drain_ok owner sent key pc items ->
  owned owner key items -> owned owner k' l -> key <> k' -> extra = ids l ->
  drain_ok owner (sent ++ extra) key pc items.
Proof.
  intros Hok Ho Hl Hne ->.
  assert (forall b w, work_ok b owner sent key w items -> work_ok b owner (sent ++ ids l) key w items) as Hw.
  { intros b w (j & new & Hi & Hn & Hc & Hb & Hf). exists j, new. split_and!; try done.
    - apply clean_sent_app. split; [done|]. eapply (owned_clean owner k' key); [done| |by apply not_eq_sym].
      rewrite Hi in Ho. by apply owned_app in Ho as [_ ?].
    - intros ?. apply clean_sent_app. split; [by apply Hf|].
      eapply (owned_clean owner k' key); [done|done|by apply not_eq_sym]. }
  assert (NoDup (ids items) /\ clean sent items -> NoDup (ids items) /\ clean (sent ++ ids l) items) as Hp.
  { intros [? ?]. split; [done|]. apply clean_sent_app. split; [done|].
    eapply (owned_clean owner k' key); [done|done|by apply not_eq_sym]. }
  destruct pc; cbn in *; auto.
Qed.

Lemma inv_drain i env c c' : AnInv c -> an_move rfc3339 (AmDrain i env) c = Some c' -> AnInv c'.
Proof.
  intros I. cbn [an_move]. destruct (ac_drains c !! i) as [[key pc]|] eqn:Ei; [|done].
  destruct (ai_drain _ I _ _ _ Ei) as (q & Hq & Hok).
  destruct (ai_queue _ I _ _ Hq) as (Hd & Ho & _).
  destruct (drain_step rfc3339 env key pc (ac_state c)) as [[next s'] o] eqn:E. intros [= <-].
  pose proof (drain_step_ok env _ _ _ _ _ _ _ _ _ Hq Hd Ho Hok E) as Hs. clear E.
  assert (sent_ids (ac_sent c ++ option_list o) = sent_ids (ac_sent c) ++ sent_by o) as Es by apply sent_ids_app.
  assert (forall k, k <> key -> forall pc items, drain_ok (ac_owner c) (sent_ids (ac_sent c)) k pc items ->
     owned (ac_owner c) k items -> drain_ok (ac_owner c) (sent_ids (ac_sent c) ++ sent_by o) k pc items) as Hother.
  { intros k Hk pc' items H Hi. destruct o as [x|]; unfold sent_by; cbn; [|by rewrite app_nil_r].
    destruct (so_sent _ _ _ _ _ _ _ Hs x eq_refl) as (_ & ? & _).
    apply (drain_ok_other _ _ _ k key _ _ (sn_batch x)); try done. by rewrite app_nil_r. }
  constructor; cbn [ac_state ac_drains ac_sent ac_owner]; rewrite ?Es.
  - intros j1 j2 k p1 p2 H1%lookup_put H2%lookup_put.
    assert (ac_drains c !! i = Some (key, pc)) as Hi by done.
    destruct H1 as [[-> H1]|[? H1]], H2 as [[-> H2]|[? H2]]; [done| | |by eapply (ai_one _ I)];
      destruct next; [|done|..]; simplify_eq/=; try done; by (eapply (ai_one _ I) in H1 || eapply (ai_one _ I) in H2).
  - intros j k p [[-> Hp]|[Hne Hj]]%lookup_put.
    + destruct next as [pc'|]; [|done]. injection Hp as <- <-.
      destruct (so_next _ _ _ _ _ _ _ Hs pc' eq_refl) as (q' & ? & _ & _ & ?). eauto.
    + destruct (ai_drain _ I _ _ _ Hj) as (qj & Hqj & Hokj).
      assert (k <> key) as Hk by (intros ->; apply Hne; by eapply (ai_one _ I)).
      exists qj. rewrite (so_other _ _ _ _ _ _ _ Hs k Hk). split; [done|]. apply Hother; try done.
      by destruct (ai_queue _ I _ _ Hqj) as (_ & ? & _).
  - intros k q' Hq'. destruct (decide (k = key)) as [->|Hk].
    + destruct next as [pc'|]; [|by rewrite (so_end _ _ _ _ _ _ _ Hs eq_refl) in Hq'].
      destruct (so_next _ _ _ _ _ _ _ Hs pc' eq_refl) as (q2 & E2 & ? & ? & _).
      assert (q2 = q') as <- by congruence. split_and!; [done|done|]. exists i, pc'. apply lookup_put. by left.
    + rewrite (so_other _ _ _ _ _ _ _ Hs k Hk) in Hq'. destruct (ai_queue _ I _ _ Hq') as (? & ? & j & p & Hj).
      split_and!; [done|done|]. exists j, p. apply lookup_put. right. split; [congruence|done].
  - intros x [Hx|Hx]%elem_of_app; [by apply I|]. destruct o; [|by apply not_elem_of_nil in Hx].
    apply list_elem_of_singleton in Hx as ->. destruct (so_sent _ _ _ _ _ _ _ Hs s eq_refl) as (-> & ? & _). done.
  - apply NoDup_app. split_and!; [apply I| |].
    + intros r Hr Hin. destruct o as [x|]; [|by apply not_elem_of_nil in Hin].
      unfold sent_by, sent_ids in Hin. cbn in Hin. rewrite app_nil_r in Hin.
      apply ids_elem in Hin as (y & Hy & <-). destruct (so_sent _ _ _ _ _ _ _ Hs x eq_refl) as (_ & _ & _ & H).
      by apply (H y Hy).
    + destruct o as [x|]; [|apply NoDup_nil_2]. unfold sent_by, sent_ids. cbn. rewrite app_nil_r.
      by destruct (so_sent _ _ _ _ _ _ _ Hs x eq_refl) as (_ & _ & ? & _).
Qed.

(** ** A drain left alone *)

(** What a drain sends: the batches, and the text for each.  Collected while all
    the announcements have one origin, else one by one, the summary first. *)
Fixpoint announce_plan (fuel : nat) (mode : SubagentAnnounceQueueMode) (summary : option string)
    (items : list SubagentAnnounceQueueItem) : list (list SubagentAnnounceQueueItem * string) :=
  match fuel, items with
  | S fuel', item :: rest =>
      if bool_decide (mode = Collect) && negb (announce_items_cross_channel items)
      then [(items, default "" (build_announce_collect_prompt rfc3339 items summary))]
      else ([item], default (qi_prompt item) summary) :: announce_plan fuel' mode None rest
  | _, _ => []
  end.

Lemma announce_plan_batches fuel mode summary items : length items <= fuel ->
  concat (announce_plan fuel mode summary items).*1 = items.
Proof.
  revert summary items. induction fuel as [|fuel IH]; intros summary [|x items] Hf; try done; cbn in Hf; [lia|].
  cbn [announce_plan]. destruct (_ && _); cbn; [by rewrite app_nil_r|]. f_equal. apply IH. lia.
Qed.

Section alone.
Variables (env : AnEnv) (key : string) (channels : list string) (sent_id : string).
Hypothesis Hchannels : ae_channels env = Some channels.
Hypothesis Hsent : ae_sent env = Ok sent_id.

(** A channel takes the announcement, and it was not made before. *)
Definition can_send (item : SubagentAnnounceQueueItem) : Prop :=
  exists t name, qi_target item = Some t /\ resolve_channel_name channels (at_channel t) = Ok name.
Definition undelivered (m : gmap string Z) (item : SubagentAnnounceQueueItem) : Prop :=
  trim (qi_run_id item) <> "" /\ m !! trim (qi_run_id item) = None.
Definition run_keys (l : list SubagentAnnounceQueueItem) : list string := (fun x => trim (qi_run_id x)) <$> l.

Lemma sweep_None now m k : m !! k = None -> sweep_subagent_announce_delivered_map now m !! k = None.
Proof. intros H. unfold sweep_subagent_announce_delivered_map. apply map_lookup_filter_None. by left. Qed.

(** The work there is while announcements are queued. *)
Lemma choose_some q x rest : aq_items q = x :: rest ->
  exists w, choose_work rfc3339 q = Work w /\ wk_item w ∈ wk_batch w /\ wk_batch w <> []
    /\ wk_clear_summary w = bool_decide (is_Some (build_announce_queue_summary_prompt q))
    /\ forall fuel, announce_plan (S fuel) (aq_mode q) (build_announce_queue_summary_prompt q) (aq_items q)
         = (wk_batch w, wk_prompt w)
           :: announce_plan fuel (aq_mode q) None (drop (length (wk_batch w)) (aq_items q)).
Proof.
  intros E. unfold choose_work, single_work. rewrite E. cbn [andb].
  rewrite bool_decide_false by done. cbn [andb].
  destruct (aq_mode q) eqn:Em; try (eexists; split; [done|]; cbn; split_and!; [by left|done..]).
  destruct (announce_items_cross_channel (x :: rest)) eqn:Ec.
  - eexists. split; [done|]. cbn [wk_item wk_batch wk_clear_summary wk_prompt]. split_and!; [by left|done|done|].
    intros fuel. cbn [announce_plan]. rewrite Ec. cbn. by rewrite drop_0.
  - destruct (last (x :: rest)) as [y|] eqn:El; [|by apply last_None in El].
    eexists. split; [done|]. cbn [wk_item wk_batch wk_clear_summary wk_prompt]. split_and!; [|done|done|].
    + apply last_Some in El as [l' ->]. apply elem_of_app. right. by left.
    + intros fuel. cbn [announce_plan]. rewrite Ec, bool_decide_true by done. cbn [negb andb].
      rewrite drop_ge by done. by destruct fuel.
Qed.

Lemma drain_round fuel q s w : an_queues s !! key = Some q -> aq_items q <> [] ->
  choose_work rfc3339 q = Work w -> can_send (wk_item w) -> undelivered (an_delivered s) (wk_item w) ->
  exists d m, (forall k, k <> trim (qi_run_id (wk_item w)) -> an_delivered s !! k = None -> d !! k = None)
  /\ cm_content (sn_message m) = wk_prompt w /\ sn_batch m = wk_batch w
  /\ run_drain rfc3339 (6 + fuel) env key DrCheck s =
     let q' := finish_work (ae_now env) w true q in
     if bool_decide (aq_items q' = []) && (aq_dropped_count q' =? 0)%Z
     then Some ({| an_queues := delete key (an_queues s); an_delivered := d |}, [m])
     else '(s', l) ← run_drain rfc3339 fuel env key DrCheck
                       {| an_queues := <[key := q']> (an_queues s); an_delivered := d |}; Some (s', m :: l).
Proof.
  intros Hq Hne Hw (t & name & Ht & Hname) (Hid & Hnew).
  cbn [Nat.add run_drain drain_step]. rewrite Hq, bool_decide_false by done. cbn [andb].
  cbn [run_drain drain_step]. rewrite Hq, Hw. cbn [run_drain drain_step].
  unfold was_subagent_announce_delivered. apply String.eqb_neq in Hid. rewrite Hid.
  rewrite bool_decide_false by (rewrite sweep_None by done; by intros [? ?]).
  cbn [run_drain drain_step]. rewrite Ht. unfold send_announce_to_target. rewrite Hchannels, Hname, Hsent.
  cbn [rbind fmap option_fmap option_map run_drain drain_step].
  unfold mark_subagent_announce_delivered. rewrite Hid. cbn [put_delivered an_queues]. rewrite Hq.
  eexists _, _. split; [|split; [|split]]; cycle 3.
  - cbv zeta. destruct (_ && _); cbn [mbind option_bind option_list app]; [done|].
    destruct (run_drain _ _ _ _ _ _) as [[s' l]|]; done.
  - intros k Hk Hn. cbn. rewrite lookup_insert_ne by done. by do 2 apply sweep_None.
  - done.
  - done.
Qed.

Lemma drain_all n q s : length (aq_items q) <= n -> aq_items q <> [] ->
  an_queues s !! key = Some q -> (aq_dropped_count q = 0%Z \/ aq_drop_policy q = Summarize) ->
  Forall can_send (aq_items q) -> NoDup (run_keys (aq_items q)) ->
  Forall (undelivered (an_delivered s)) (aq_items q) ->
  exists s' log, run_drain rfc3339 (6 * n) env key DrCheck s = Some (s', log)
    /\ an_queues s' = delete key (an_queues s)
    /\ (fun x => (sn_batch x, cm_content (sn_message x))) <$> log
       = announce_plan n (aq_mode q) (build_announce_queue_summary_prompt q) (aq_items q).
Proof.
  revert q s. induction n as [|n IH]; intros q s Hlen Hne Hq Hdrop Hcan Hnd Hund.
  { destruct (aq_items q); cbn in Hlen; [done|lia]. }
  destruct (aq_items q) as [|x rest] eqn:Ei; [done|].
  destruct (choose_some q x rest Ei) as (w & Hw & Hin & Hbne & Hclear & Hplan). rewrite Ei in Hplan.
  pose proof (choose_prefix _ _ Hw) as [tl Htl]. rewrite Ei in Htl.
  assert (wk_item w ∈ x :: rest) as Hwi by (rewrite Htl; apply elem_of_app; by left).
  rewrite Forall_forall in Hcan. rewrite Forall_forall in Hund.
  destruct (drain_round (6 * n) q s w) as (d & m & Hd & Hm1 & Hm2 & E); eauto; [by rewrite Ei|].
  replace (6 * S n) with (6 + 6 * n) by lia. rewrite E. cbv zeta.
  assert (aq_items (finish_work (ae_now env) w true q) = tl) as Eq'.
  { cbn. by rewrite Ei, Htl, drop_app_length. }
  assert (aq_dropped_count (finish_work (ae_now env) w true q) = 0%Z) as Ed'.
  { cbn [finish_work aq_dropped_count andb]. rewrite Hclear. unfold build_announce_queue_summary_prompt.
    destruct Hdrop as [-> | ->]; [by case_match|].
    rewrite (bool_decide_true (Summarize = Summarize)) by done. cbn [negb orb].
    destruct (aq_dropped_count q =? 0)%Z eqn:E0.
    - rewrite bool_decide_false by (by intros [? ?]). lia.
    - by rewrite bool_decide_true. }
  rewrite Eq', Ed', Hplan, Htl, drop_app_length. cbn [Z.eqb]. rewrite andb_true_r.
  destruct tl as [|y tl].
  - rewrite bool_decide_true by done. eexists _, [m]. split; [done|]. split; [done|].
    cbn. rewrite Hm1, Hm2. by destruct n.
  - rewrite bool_decide_false by done.
    set (q' := finish_work (ae_now env) w true q) in *.
    set (s1 := {| an_queues := <[key:=q']> (an_queues s); an_delivered := d |}).
    assert (NoDup (run_keys (wk_batch w) ++ run_keys (y :: tl))) as Hnd2.
    { unfold run_keys in *. by rewrite <- fmap_app, <- Htl. }
    apply NoDup_app in Hnd2 as (_ & Hdis & Hnd2).
    destruct (IH q' s1) as (s' & log & -> & Hs' & Hlog); rewrite ?Eq'.
    + rewrite Htl, length_app in Hlen. destruct (wk_batch w); [done|]. cbn in *. lia.
    + done.
    + cbn. by rewrite lookup_insert_eq.
    + by left.
    + apply Forall_forall. intros z Hz. apply Hcan. rewrite Htl. apply elem_of_app. by right.
    + done.
    + apply Forall_forall. intros z Hz.
      destruct (Hund z) as [Hz1 Hz2]; [rewrite Htl; apply elem_of_app; by right|].
      split; [done|]. apply Hd; [|done]. intros Heq. apply (Hdis (trim (qi_run_id (wk_item w)))).
      * apply list_elem_of_fmap. by exists (wk_item w).
      * apply list_elem_of_fmap. by exists z.
    + exists s', (m :: log). split; [done|]. split.
      * rewrite Hs'. cbn. by rewrite delete_insert_eq.
      * cbn [fmap list_fmap]. rewrite Hm1, Hm2, Hlog, Eq'.
        assert (build_announce_queue_summary_prompt q' = None) as ->; [|done].
        unfold build_announce_queue_summary_prompt. rewrite Ed'. by rewrite orb_true_r.
Qed.
End alone.

Lemma an_reach_inv c : AnReach rfc3339 c -> AnInv c.
Proof.
  induction 1 as [d|m c c' _ IH Ha Hm].
  - constructor; cbn; try done; try (by intros * ?%lookup_empty_Some); try apply NoDup_nil_2;
      try (by intros ? ?%not_elem_of_nil).
  - destruct m; [by eapply inv_enqueue|by eapply inv_drain].
Qed.
End invariant.

(** * Properties *)

(** C14. In every interleaving of announcements and drains: a queue has exactly
    one task draining it, and a task only while there is its queue; and no
    announcement is part of two messages, for all that failed sends are repeated
    and a full queue drops announcements while a message that holds them is on
    its way. *)
Theorem announce_sent_once rfc3339 c : AnReach rfc3339 c ->
  (forall k, is_Some (an_queues (ac_state c) !! k) <-> exists! i, exists pc, ac_drains c !! i = Some (k, pc))
  /\ NoDup (sent_ids (ac_sent c)).
Proof.
  intros I%an_reach_inv. split; [|apply I]. intros k. split.
  - intros [q Hq]. destruct (ai_queue _ I k q Hq) as (_ & _ & i & pc & Hi). exists i. split; [eauto|].
    intros j [pc' Hj]. by eapply (ai_one _ I).
  - intros (i & [pc Hi] & _). destruct (ai_drain _ I _ _ _ Hi) as (q & ? & _). eauto.
Qed.


(** * Examples *)

Definition no_date : Z -> option string := fun _ => None.
Definition tg (ch : string) : AnnounceTarget := {|
  at_channel := ch; at_to := "u"; at_account_id := None; at_thread_id := None |}.
Definition announcement (id ch : string) : SubagentAnnounceQueueItem := {|
  qi_run_id := id; qi_prompt := "done " +:+ id; qi_summary_line := Some id; qi_enqueued_at_ms := 0;
  qi_session_key := "main"; qi_target := Some (tg ch); qi_origin_key := None |}.
Definition set_of (mode : SubagentAnnounceQueueMode) (cap : Z) (drop : SubagentAnnounceDropPolicy)
  : SubagentAnnounceQueueSettings := {|
  qs_mode := mode; qs_debounce_ms := 0; qs_cap := cap; qs_drop_policy := drop |}.
Definition taking (now : Z) : AnEnv := {|
  ae_now := now; ae_uuid := "m"; ae_channels := Some ["slack"; "telegram"]; ae_sent := Ok "1" |}.

Fixpoint an_run (ms : list AnMove) (c : AnConf) : option AnConf :=
  match ms with
  | [] => Some c
  | m :: ms' => an_move no_date m c ≫= an_run ms'
  end.
Definition sends (c : AnConf) : list (list string * string) :=
  (fun x => (ids (sn_batch x), cm_content (sn_message x))) <$> ac_sent c.
Definition left_in (key : string) (c : AnConf) : option (list string) :=
  (fun q => ids (aq_items q)) <$> an_queues (ac_state c) !! key.
Definition outcome (ms : list AnMove) : option (list (list string * string) * option (list string) * nat) :=
  (fun c => (sends c, left_in "main" c, size (ac_drains c))) <$> an_run ms (an_init ∅).
Definition queue_up (i : nat) (id ch : string) (set' : SubagentAnnounceQueueSettings) : AnMove :=
  AmEnqueue i 1 "main" (announcement id ch) set'.
Definition steps (n : nat) : list AnMove := repeat (AmDrain 0 (taking 2)) n.

Definition two_origins : SubagentAnnounceQueueState :=
  (enqueue_subagent_announce 1 (announcement "b" "telegram") (set_of Collect 5 Old)
     (Some (enqueue_subagent_announce 1 (announcement "a" "slack") (set_of Collect 5 Old) None).1.1)).1.1.
Definition two_queued : AnState := {| an_queues := {[ "main" := two_origins ]}; an_delivered := ∅ |}.


Lemma announce_sent_once_witness :
  exists c, an_move no_date (queue_up 0 "a" "slack" (set_of Collect 1 Old)) (an_init ∅) = Some c
    /\ NoDup (sent_ids (ac_sent c)).
Proof.
  destruct (an_move no_date (queue_up 0 "a" "slack" (set_of Collect 1 Old)) (an_init ∅)) as [c|] eqn:E; [|done].
  exists c. split; [done|]. apply (announce_sent_once no_date c).
  refine (an_reach_step no_date _ _ _ (an_reach_init no_date ∅) _ E). done.
Defined.

(** While a message is on its way the full queue drops the announcement it holds; when the message
    has been taken, the announcement queued in its place is consumed and never sent. *)
Example queued_while_sending_lost :
  outcome ([queue_up 0 "a" "slack" (set_of Collect 1 Old)] ++ steps 4
           ++ [queue_up 1 "b" "slack" (set_of Collect 1 Old)] ++ steps 2)
  = Some ([(["a"], "[Queued announce messages while agent was busy]" +:+ nl +:+ nl +:+ "---" +:+ nl
                    +:+ "Queued #1 | source_session=main" +:+ nl +:+ "done a")], None, 0).
Proof. vm_compute. done. Qed.

(** The same with summaries: the count of dropped announcements keeps the empty queue
    alive, and the task goes round for ever. *)
Example empty_queue_spins :
  let c := an_run ([queue_up 0 "a" "slack" (set_of Collect 1 Summarize)] ++ steps 4
                   ++ [queue_up 1 "b" "slack" (set_of Collect 1 Summarize)] ++ steps 2) (an_init ∅) in
  (left_in "main" <$> c) = Some (Some []) /\ (c ≫= an_run (steps 2)) = c.
Proof. vm_compute. done. Qed.

(** In the other modes such a queue is removed, with what was queued in between. *)
Example queued_before_removal_lost :
  outcome ([queue_up 0 "a" "slack" (set_of Followup 1 Summarize)] ++ steps 4
           ++ [queue_up 1 "b" "slack" (set_of Followup 1 Summarize)] ++ steps 4
           ++ [queue_up 1 "c" "slack" (set_of Followup 9 Summarize)] ++ steps 1)
  = Some ([(["a"], "done a")], None, 0).
Proof. vm_compute. done. Qed.

(** One by one, the summary of an overflow is sent instead of the first announcement. *)
Example summary_replaces_announcement :
  outcome ([queue_up 0 "a" "slack" (set_of Followup 1 Summarize);
            queue_up 1 "b" "slack" (set_of Followup 1 Summarize)] ++ steps 6)
  = Some ([(["b"], "[Queue overflow] Dropped 1 announce due to cap." +:+ nl +:+ "Summary:" +:+ nl +:+ "- a")], None, 0).
Proof. vm_compute. done. Qed.

(** A collected batch goes by its last announcement: when that one was made before, the
    others are consumed without being sent. *)
Example delivered_last_hides_batch :
  (fun c => (sends c, left_in "main" c)) <$>
    an_run ([queue_up 0 "a" "slack" (set_of Collect 5 Old); queue_up 1 "b" "slack" (set_of Collect 5 Old)] ++ steps 4)
      (an_init {[ "b" := 1%Z ]}) = Some ([], None).
Proof. vm_compute. done. Qed.

(** Without a channel manager an announcement counts as delivered. *)
Example no_channels_delivered :
  let env := {| ae_now := 2; ae_uuid := "m"; ae_channels := None; ae_sent := Err "none" |} in
  (fun c => (sends c, left_in "main" c, an_delivered (ac_state c))) <$>
    an_run ([queue_up 0 "a" "slack" (set_of Collect 5 Old)] ++ repeat (AmDrain 0 env) 6) (an_init ∅)
  = Some ([], None, {[ "a" := 2%Z ]}).
Proof. vm_compute. done. Qed.
