(* ===== verification/SubagentReport.v ===== *)
(** What is reported when a subagent ends
    ([crates/gateway-core/src/http/agent_bridge.rs]): its last output, waited for if
    need be, the text of the announcement, and the session it is reported to.

    The loops that wait look at the session store at the times of a schedule. *)

From Stdlib Require Import Strings.String.
From S2P Require Import Prelude RustStr Json Usage SessionStore SubagentRuns.
#[local] Open Scope string_scope.
#[local] Open Scope nat_scope.
#[local] Open Scope list_scope.

Definition SUBAGENT_OUTPUT_RETRY_INTERVAL_MS : Z := 100.
Definition SUBAGENT_OUTPUT_RETRY_MAX_WAIT_MS : Z := 15000.
Definition SUBAGENT_OUTPUT_CHANGE_MIN_WAIT_MS : Z := 250.
Definition SUBAGENT_OUTPUT_CHANGE_MAX_WAIT_MS : Z := 2000.
Definition ANNOUNCE_SKIP_TOKEN : string := "ANNOUNCE_SKIP".
Definition REPLY_SKIP_TOKEN : string := "REPLY_SKIP".

(** * The last output *)

Definition output_of (m : SessionMessage) : option string :=
  let role := to_ascii_lowercase (trim (sm_role m)) in
  if String.eqb role "assistant" || String.eqb role "toolresult" || String.eqb role "tool"
  then trimmed (Some (sm_content m)) else None.

Definition load_latest_subagent_output (child_session_key : string) (db : Db) : option string :=
  head (omap output_of (get_messages child_session_key 50 db)).

Definition retry_wait_ms (max_wait_ms : Z) : Z :=
  Z.max SUBAGENT_OUTPUT_RETRY_INTERVAL_MS (Z.min SUBAGENT_OUTPUT_RETRY_MAX_WAIT_MS (Z.max 0 max_wait_ms)).

(** The loop over what the rounds see; [None]: it has not ended. *)
Fixpoint retry_loop (child : string) (deadline : Z) (rounds : list (Z * Db)) : option (option string) :=
  match rounds with
  | [] => None
  | (now, db) :: rest =>
      let current := load_latest_subagent_output child db in
      if bool_decide (is_Some (trimmed current)) || (deadline <=? now)%Z then Some current
      else retry_loop child deadline rest
  end.

Definition load_latest_subagent_output_with_retry (child : string) (max_wait_ms start : Z)
    (rounds : list (Z * Db)) : option (option string) :=
  retry_loop child (sat_add_i64 start (retry_wait_ms max_wait_ms)) rounds.

Definition change_wait_ms (max_wait_ms : Z) : Z :=
  Z.max SUBAGENT_OUTPUT_CHANGE_MIN_WAIT_MS (Z.min SUBAGENT_OUTPUT_CHANGE_MAX_WAIT_MS (Z.max 0 max_wait_ms)).

Fixpoint change_loop (child baseline : string) (deadline : Z) (latest : option string)
    (rounds : list (Z * Db)) : option (option string) :=
  match rounds with
  | [] => None
  | (now, db) :: rest =>
      let next := trimmed (load_latest_subagent_output child db) in
      let latest' := match next with Some t => Some t | None => latest end in
      if match next with Some t => negb (String.eqb t baseline) | None => false end then Some next
      else if (deadline <=? now)%Z then Some latest'
      else change_loop child baseline deadline latest' rest
  end.

Definition wait_for_subagent_output_change (child baseline_reply : string) (max_wait_ms start : Z)
    (rounds : list (Z * Db)) : option (option string) :=
  let baseline := trim baseline_reply in
  if String.eqb baseline "" then Some None
  else change_loop child baseline (sat_add_i64 start (change_wait_ms max_wait_ms)) (Some baseline) rounds.

(** * The text *)

(** The tool executor's total counts the cached tokens too. *)
Definition usage_total_tokens (u : UsageSummary) : Z :=
  sat_add_i64 (sat_add_i64 (sat_add_i64 (input_tokens u) (output_tokens u)) (cache_read_tokens u))
    (cache_write_tokens u).

Definition announce_header (name status : string) (persistent : bool) : string :=
  let says (once kept : string) := "Subagent " +:+ name +:+ (if persistent then kept else once) in
  if String.eqb status "failed" then says " failed." " failed this task (session remains active)."
  else if String.eqb status "timeout" then says " timed out." " timed out on this task (session remains active)."
  else if String.eqb status "killed" then "Subagent " +:+ name +:+ " was killed."
  else says " finished." " completed this task (session remains active).".

Definition build_subagent_completion_announce_text (label spawn_mode status : string)
    (error reply : option string) (usage : option UsageSummary) (runtime_ms : Z) : string :=
  let name := default "subagent" (trimmed (Some label)) in
  let persistent := eq_ignore_ascii_case spawn_mode "session" in
  let details := or_else (trimmed reply) ((fun v => "Error: " +:+ v) <$> trimmed error) in
  join nl
    ([announce_header name status persistent]
     ++ (if (0 <? runtime_ms)%Z then ["Runtime: " +:+ pretty (runtime_ms / 1000)%Z +:+ "s."] else [])
     ++ option_list ((fun u => "Usage: " +:+ pretty (usage_total_tokens u) +:+ " tokens, "
                               +:+ pretty (total_calls u) +:+ " calls.") <$> usage)
     ++ match details with Some content => [""; content] | None => [] end).

Definition build_subagent_announce_reply_instruction (remaining : nat)
    (requester_is_subagent expects_completion_message : bool) : string :=
  if 0 <? remaining then
    "There are still " +:+ pretty (Z.of_nat remaining) +:+ " active subagent "
    +:+ (if remaining =? 1 then "run" else "runs")
    +:+ " for this session. If they are part of the same workflow, wait for the remaining results before sending a user update. If they are unrelated, respond normally using only the result above."
  else if requester_is_subagent then
    "Convert this completion into a concise internal orchestration update for your parent agent in your own words. Keep this internal context private (don't mention system/log/stats/session details or announce type). If this result is duplicate or no update is needed, reply ONLY: "
    +:+ REPLY_SKIP_TOKEN +:+ "."
  else if expects_completion_message then
    "A completed subagent task is ready for user delivery. Convert the result above into your normal assistant voice and send that user-facing update now. Keep this internal context private (don't mention system/log/stats/session details or announce type)."
  else
    "A completed subagent task is ready for user delivery. Convert the result above into your normal assistant voice and send that user-facing update now. Keep this internal context private (don't mention system/log/stats/session details or announce type), and do not copy the system message verbatim. Reply ONLY: "
    +:+ REPLY_SKIP_TOKEN +:+ " if this exact result was already delivered to the user in this same turn.".

Definition is_announce_skip (text : option string) : bool := String.eqb (default "" (trim <$> text)) ANNOUNCE_SKIP_TOKEN.
Definition is_reply_skip (text : option string) : bool := String.eqb (default "" (trim <$> text)) REPLY_SKIP_TOKEN.

(** The reply: the run's own, else the last output, else what comes in time. *)
Definition reply_text (e : SubagentRunEntry) (latest : option string) (retried : option string) : option string :=
  let first := or_else (trimmed (se_completion_reply e)) latest in
  if bool_decide (is_Some (trimmed first)) then first else retried.

(** The message injected into the session of a requester that is a subagent. *)
Definition injected_message (e : SubagentRunEntry) (completion_text instruction : string) : string :=
  "[System Message] A subagent task " +:+ chr1 34 +:+ se_label e +:+ chr1 34 +:+ " just " +:+ se_status e +:+ "." +:+ nl +:+ nl
  +:+ "Result:" +:+ nl +:+ trim completion_text +:+ nl +:+ nl +:+ instruction.

(** * The session reported to *)

(** A requester that is a subagent whose run and session are over is replaced by
    the requester of that run.  The last component: there is none. *)
Definition resolve_report_target (requester : string) (run_active session_alive : bool)
    (parent : option string) : string * bool * bool :=
  if is_subagent_session_key requester && negb run_active then
    if session_alive then (requester, true, false)
    else match parent with
         | Some k => (k, is_subagent_session_key k, false)
         | None => (requester, true, true)
         end
  else (requester, is_subagent_session_key requester, false).

(** * Lemmas *)

Lemma output_trimmed m t : output_of m = Some t -> trimmed (Some t) = Some t.
Proof.
  unfold output_of. destruct (_ || _ || _); [|done]. intros H. pose proof H as H'.
  apply trimmed_Some in H as (Hne & r & [= <-] & ->). revert H'. unfold trimmed. cbn. by rewrite trim_idem.
Qed.

Lemma latest_trimmed child db t : load_latest_subagent_output child db = Some t -> trimmed (Some t) = Some t.
Proof.
  unfold load_latest_subagent_output. intros H%head_Some_elem_of%list_elem_of_omap.
  destruct H as (m & _ & Hm). by apply output_trimmed in Hm.
Qed.

Lemma retry_wait_range n : (100 <= retry_wait_ms n <= 15000)%Z.
Proof. unfold retry_wait_ms, SUBAGENT_OUTPUT_RETRY_INTERVAL_MS, SUBAGENT_OUTPUT_RETRY_MAX_WAIT_MS. lia. Qed.
Lemma change_wait_range n : (250 <= change_wait_ms n <= 2000)%Z.
Proof. unfold change_wait_ms, SUBAGENT_OUTPUT_CHANGE_MIN_WAIT_MS, SUBAGENT_OUTPUT_CHANGE_MAX_WAIT_MS. lia. Qed.

Lemma retry_loop_spec child deadline rounds r : retry_loop child deadline rounds = Some r ->
  exists now db, (now, db) ∈ rounds /\ r = load_latest_subagent_output child db
    /\ (is_Some r \/ (deadline <= now)%Z).
Proof.
  induction rounds as [|[now db] rest IH]; [done|]. cbn [retry_loop].
  destruct (_ || _) eqn:E; intros H.
  - injection H as <-. exists now, db. split; [by left|]. split; [done|].
    destruct (load_latest_subagent_output child db); [by left; eauto|].
    right. rewrite bool_decide_false in E by (by intros [? ?]). by apply Z.leb_le in E.
  - destruct (IH H) as (t & d & ? & ? & ?). exists t, d. split; [by right|done].
Qed.

Lemma retry_loop_ends child deadline rounds n now db :
  rounds !! n = Some (now, db) -> (deadline <= now)%Z -> is_Some (retry_loop child deadline rounds).
Proof.
  revert n. induction rounds as [|[t d] rest IH]; intros n Hn Hd; [done|]. cbn [retry_loop].
  destruct (_ || _) eqn:E; [eauto|]. destruct n as [|n]; [|by apply (IH n)]. injection Hn as -> ->.
  apply orb_false_iff in E as [_ E]. apply Z.leb_gt in E. lia.
Qed.

Lemma change_loop_spec child baseline deadline latest rounds r : is_Some latest ->
  change_loop child baseline deadline latest rounds = Some r ->
  exists t, r = Some t /\ (t <> baseline \/ exists now db, (now, db) ∈ rounds /\ (deadline <= now)%Z).
Proof.
  revert latest. induction rounds as [|[now db] rest IH]; intros latest Hl; [done|]. cbn [change_loop].
  set (next := trimmed (load_latest_subagent_output child db)).
  assert (is_Some (match next with Some t => Some t | None => latest end)) as Hl' by (destruct next; eauto).
  destruct (match next with Some t => negb (String.eqb t baseline) | None => false end) eqn:E.
  - intros [= <-]. destruct next as [t|]; [|done]. exists t. split; [done|]. left.
    by apply negb_true_iff, String.eqb_neq in E.
  - destruct (deadline <=? now)%Z eqn:Ed.
    + intros [= <-]. destruct Hl' as [t ->]. exists t. split; [done|]. right. exists now, db.
      split; [by left|lia].
    + intros H. destruct (IH _ Hl' H) as (t & -> & [?|(n' & d' & ? & ?)]); exists t; (split; [done|]); [by left|right].
      exists n', d'. split; [by right|done].
Qed.

Lemma change_loop_ends child baseline deadline latest rounds n now db :
  rounds !! n = Some (now, db) -> (deadline <= now)%Z ->
  is_Some (change_loop child baseline deadline latest rounds).
Proof.
  revert n latest. induction rounds as [|[t d] rest IH]; intros n latest Hn Hd; [done|]. cbn [change_loop].
  destruct (match trimmed _ with Some t => negb (String.eqb t baseline) | None => false end); [eauto|].
  destruct (deadline <=? t)%Z eqn:Ed; [eauto|]. destruct n as [|n]; [|by apply (IH n)].
  injection Hn as -> ->. lia.
Qed.

(** Rounds at least 100 ms apart, as many as the wait can have. *)
Definition spaced (start : Z) (count : nat) (rounds : list (Z * Db)) : Prop :=
  (forall n now db, rounds !! n = Some (now, db) -> (start + 100 * Z.of_nat n <= now)%Z) /\ count < length rounds.

Lemma spaced_reaches start count rounds wait : spaced start count rounds -> (wait <= 100 * Z.of_nat count)%Z ->
  (start + wait <= i64_max)%Z -> (i64_min <= start + wait)%Z ->
  exists now db, rounds !! count = Some (now, db) /\ (sat_add_i64 start wait <= now)%Z.
Proof.
  intros [Hsp Hlen] Hw Hmax Hmin. destruct (lookup_lt_is_Some_2 rounds count Hlen) as [[now db] E].
  exists now, db. split; [done|]. specialize (Hsp _ _ _ E). unfold sat_add_i64. lia.
Qed.

(** Both waits for a subagent's output end: with rounds at least 100 ms apart,
    waiting for an output within 151 rounds and waiting for it to change within 21.
    The first answers what some round saw, an empty answer only once its time is
    up; the second an output other than the baseline, or some text once its time
    is up. *)
Theorem output_waits_end child max_wait_ms start rounds baseline :
  (i64_min <= start <= i64_max - 15000)%Z ->
  (spaced start 150 rounds ->
     exists r, load_latest_subagent_output_with_retry child max_wait_ms start rounds = Some r
     /\ exists now db, (now, db) ∈ rounds /\ r = load_latest_subagent_output child db
          /\ (is_Some r \/ (start + retry_wait_ms max_wait_ms <= now)%Z))
  /\ (spaced start 20 rounds -> trim baseline <> "" ->
     exists t, wait_for_subagent_output_change child baseline max_wait_ms start rounds = Some (Some t)
     /\ (t <> trim baseline \/ exists now db, (now, db) ∈ rounds /\ (start + change_wait_ms max_wait_ms <= now)%Z)).
Proof.
  intros Hs. pose proof (retry_wait_range max_wait_ms). pose proof (change_wait_range max_wait_ms).
  assert (forall w, (0 <= w <= 15000)%Z -> sat_add_i64 start w = (start + w)%Z) as Hsat.
  { intros w Hw. unfold sat_add_i64, i64_max, i64_min in *. lia. }
  split.
  - intros Hsp. destruct (spaced_reaches start 150 rounds (retry_wait_ms max_wait_ms) Hsp) as (now & db & E & Hd); [lia..|].
    destruct (retry_loop_ends child _ _ _ _ _ E Hd) as [r Hr]. exists r. split; [done|].
    apply retry_loop_spec in Hr. by rewrite Hsat in Hr by lia.
  - intros Hsp Hb. unfold wait_for_subagent_output_change. apply String.eqb_neq in Hb. rewrite Hb.
    destruct (spaced_reaches start 20 rounds (change_wait_ms max_wait_ms) Hsp) as (now & db & E & Hd); [lia..|].
    destruct (change_loop_ends child (trim baseline) _ (Some (trim baseline)) _ _ _ _ E Hd) as [r Hr].
    pose proof Hr as H'. apply change_loop_spec in H' as (t & -> & Ht); [|eauto]. exists t. split; [done|].
    by rewrite Hsat in Ht by lia.
Qed.

Definition never (n : nat) : list (Z * Db) := (fun i => (100 * Z.of_nat i, Db_empty)%Z) <$> seq 0 n.

Lemma output_waits_end_witness :
  exists r, load_latest_subagent_output_with_retry "c" 99000 0 (never 151) = Some r.
Proof.
  destruct (output_waits_end "c" 99000 0 (never 151) "x") as [H _]; [done|].
  destruct H as (r & E & _); [|by exists r].
  split; [|vm_compute; lia]. intros n now db. unfold never. rewrite list_lookup_fmap.
  destruct (seq 0 151 !! n) as [i|] eqn:E; [|done]. apply lookup_seq in E as [-> _]. intros [= <- _]. lia.
Defined.

Example announce_text :
  build_subagent_completion_announce_text " scan " "run" "failed" (Some "boom") (Some " ") None 1999
  = "Subagent scan failed." +:+ nl +:+ "Runtime: 1s." +:+ nl +:+ nl +:+ "Error: boom".
Proof. vm_compute. done. Qed.
