(* ===== verification/SessionsSend.v ===== *)
(** Messages between sessions
    ([crates/gateway-core/src/http/agent_bridge.rs]): the [sessions_send] and
    [session_status] tools, an agent's turn on behalf of another session, the
    conversation two agents have after a message, and the usage kept with a
    session.

    An operation works on the database and a log of what it did; it may fail.  What
    an agent answers, what its tools do to the database meanwhile, which statements
    fail, clocks and identifiers come from the environment. *)

From Stdlib Require Import Strings.String.
From stdpp Require Import pretty.
From S2P Require Import Prelude RustStr F64 Json Usage Parse SessionStore Outbound SessionBindings SessionAccess SubagentRuns AnnounceQueue SubagentReport.
#[local] Open Scope string_scope.
#[local] Open Scope nat_scope.
#[local] Open Scope list_scope.
#[local] Open Scope rust_scope.

(** * Texts *)

Definition DEFAULT_A2A_PING_PONG_TURNS : Z := 5.
Definition MAX_A2A_PING_PONG_TURNS : Z := 5.

Definition resolve_a2a_ping_pong_turns (cfg : option AccessConfig) : nat :=
  let raw := cfg ≫= fun c =>
    or_else ((ac_session_a2a c ≫= get "maxPingPongTurns") ≫= as_i64)
            (tools_pointer ["agentToAgent"; "maxPingPongTurns"] c ≫= as_i64) in
  Z.to_nat (Z.max 0 (Z.min MAX_A2A_PING_PONG_TURNS (default DEFAULT_A2A_PING_PONG_TURNS raw))).

Definition requester_lines (requester requester_channel : option string) : list string :=
  option_list ((fun v => "Agent 1 (requester) session: " +:+ v +:+ ".") <$> trimmed requester)
  ++ option_list ((fun v => "Agent 1 (requester) channel: " +:+ v +:+ ".") <$> trimmed requester_channel).
Definition target_lines (target : string) (target_channel : option string) : list string :=
  ("Agent 2 (target) session: " +:+ target +:+ ".")
  :: option_list ((fun v => "Agent 2 (target) channel: " +:+ v +:+ ".") <$> trimmed target_channel).

Definition build_agent_to_agent_message_context (requester requester_channel : option string)
    (target : string) : string :=
  join nl ("Agent-to-agent message context:" :: requester_lines requester requester_channel
           ++ ["Agent 2 (target) session: " +:+ target +:+ "."]).

Definition quoted (s : string) : string := chr1 34 +:+ s +:+ chr1 34.

Definition build_agent_to_agent_reply_context (requester requester_channel : option string)
    (target : string) (target_channel : option string) (current_role : string) (turn max_turns : nat) : string :=
  let label := if String.eqb current_role "requester" then "Agent 1 (requester)" else "Agent 2 (target)" in
  join nl (["Agent-to-agent reply step:"; "Current agent: " +:+ label +:+ ".";
            "Turn " +:+ pretty turn +:+ " of " +:+ pretty max_turns +:+ "."]
           ++ requester_lines requester requester_channel ++ target_lines target target_channel
           ++ ["If you want to stop the ping-pong, reply exactly " +:+ quoted REPLY_SKIP_TOKEN +:+ "."]).

Definition build_agent_to_agent_announce_context (requester requester_channel : option string)
    (target : string) (target_channel : option string) (original_message : string)
    (round_one_reply latest_reply : option string) : string :=
  join nl (["Agent-to-agent announce step:"]
           ++ requester_lines requester requester_channel ++ target_lines target target_channel
           ++ ["Original request: " +:+ original_message;
               "Round 1 reply: " +:+ default "(not available)." (trimmed round_one_reply);
               "Latest reply: " +:+ default "(not available)." (trimmed latest_reply);
               "If you want to remain silent, reply exactly " +:+ quoted ANNOUNCE_SKIP_TOKEN +:+ ".";
               "Any other reply will be posted to the target channel.";
               "After this reply, the agent-to-agent conversation is over."]).

Definition session_model_override_from_metadata (meta : gmap string string) : option string :=
  trimmed (meta !! "modelOverride").

(** * Usage kept with a session *)

Record AgentReplyDetailed := { rd_reply : string; rd_model : string; rd_usage : UsageSummary }.

Definition meta_pick (meta : gmap string string) (keys : list string) : option string :=
  head (omap (fun k => meta !! k) keys).
Definition meta_i64 (meta : gmap string string) (keys : list string) : Z :=
  default 0%Z (meta_pick meta keys ≫= parse_i64).
Definition meta_u32 (meta : gmap string string) (keys : list string) : Z :=
  default 0%Z (meta_pick meta keys ≫= parse_unsigned u32_max).

Section usage.
(** [parse::<f64>] and [format!("{:.8}")]. *)
Variable parse_f64 : string -> option f64.
Variable fmt8 : f64 -> string.

Definition meta_f64 (meta : gmap string string) (keys : list string) : f64 :=
  default (f64_of_Z 0) (meta_pick meta keys ≫= parse_f64).

Definition usage_summary_from_metadata (meta : gmap string string) : UsageSummary := {|
  input_tokens := meta_i64 meta ["usageInputTokens"; "usage_input_tokens"];
  output_tokens := meta_i64 meta ["usageOutputTokens"; "usage_output_tokens"];
  cache_read_tokens := meta_i64 meta ["usageCacheReadTokens"; "usage_cache_read_tokens"];
  cache_write_tokens := meta_i64 meta ["usageCacheWriteTokens"; "usage_cache_write_tokens"];
  total_calls := meta_u32 meta ["usageTotalCalls"; "usage_total_calls"];
  total_cost_usd := meta_f64 meta ["usageTotalCostUsd"; "usage_total_cost_usd"] |}.

Definition merge_usage (a b : UsageSummary) : UsageSummary := {|
  input_tokens := sat_add_i64 (input_tokens a) (input_tokens b);
  output_tokens := sat_add_i64 (output_tokens a) (output_tokens b);
  cache_read_tokens := sat_add_i64 (cache_read_tokens a) (cache_read_tokens b);
  cache_write_tokens := sat_add_i64 (cache_write_tokens a) (cache_write_tokens b);
  total_calls := Z.min u32_max (total_calls a + total_calls b);
  total_cost_usd := f64_add (total_cost_usd a) (total_cost_usd b) |}.

(** The fields written, from the metadata read before. *)
Definition usage_patch (current : gmap string string) (usage : UsageSummary) (model : string) (now : Z)
  : list (string * string) :=
  let merged := merge_usage (usage_summary_from_metadata current) usage in
  [("usageInputTokens", pretty (input_tokens merged)); ("usageOutputTokens", pretty (output_tokens merged));
   ("usageCacheReadTokens", pretty (cache_read_tokens merged));
   ("usageCacheWriteTokens", pretty (cache_write_tokens merged));
   ("usageTotalCalls", pretty (total_calls merged)); ("usageTotalCostUsd", fmt8 (total_cost_usd merged));
   ("usageTotalTokens", pretty (usage_total_tokens merged))]
  ++ option_list ((fun m => ("usageLastModel", m)) <$> trimmed (Some model))
  ++ [("usageUpdatedAtMs", pretty now)].

(** [order]: the map's order of the fields. *)
Definition apply_session_usage_delta (fk : bool) (order : list (string * string) -> list (string * string))
    (st : nat -> option string) (now : Z) (key : string) (usage : UsageSummary) (model : string) (db : Db)
  : result unit string * Db :=
  set_session_metadata_fields fk st key (order (usage_patch (get_session_metadata key db) usage model now)) db.
End usage.

Definition usage_summary_to_json (u : UsageSummary) : json := jobject [
  ("input_tokens", JInt (input_tokens u)); ("output_tokens", JInt (output_tokens u));
  ("cache_read_tokens", JInt (cache_read_tokens u)); ("cache_write_tokens", JInt (cache_write_tokens u));
  ("total_calls", JInt (total_calls u)); ("total_cost_usd", JFloat (total_cost_usd u));
  ("total_tokens", JInt (usage_total_tokens u))].

(** * Operations *)

(** What was done: a session made, a message written to one, its agent run with a
    message, its usage updated; a text sent to a channel. *)
Inductive SendEvent :=
| Created (key : string)
| Wrote (key role text : string)
| Ran (key message prompt : string) (model : option string)
| Used (key : string)
| Announced (target : AnnounceTarget) (text : string).

Record SendState := { ss_db : Db; ss_log : list SendEvent }.

Definition Act (A : Type) : Type := SendState -> result A string * SendState.

Definition ret {A} (a : A) : Act A := fun s => (Ok a, s).
Definition fail {A} (e : string) : Act A := fun s => (Err e, s).
Definition bind {A B} (m : Act A) (k : A -> Act B) : Act B :=
  fun s => match m s with (Ok a, s') => k a s' | (Err e, s') => (Err e, s') end.
Notation "'let*' x := m 'in' k" := (bind m (fun x => k))
  (at level 10, x pattern, m at level 200, k at level 200).

(** [let _ = ...]. *)
Definition attempt {A} (m : Act A) : Act unit := fun s => (Ok tt, (m s).2).
Definition reading : Act Db := fun s => (Ok (ss_db s), s).
Definition doing {A} (e : SendEvent) (f : Db -> result A string * Db) : Act A :=
  fun s => let '(r, db) := f (ss_db s) in (r, {| ss_db := db; ss_log := ss_log s ++ [e] |}).

(** What a turn gets from outside.  [sv_out]: the agent's answer, or [None] when it
    took too long; [sv_turn]: what its tools did to the database. *)
Record StepEnv := {
  sv_now : Z;
  sv_st : nat -> option string;
  sv_turn : Db -> Db;
  sv_out : option (result AgentReplyDetailed string);
}.

(** The fields of the executor that are read here; [xe_provider] is the default
    model, [xe_prompt] the system prompt for a session. *)
Record Executor := {
  xe_session_id : option string;
  xe_manager : bool;
  xe_provider : option string;
  xe_config : option AccessConfig;
  xe_prompt : option string -> string;
}.

Section send.
Variable fk : bool.
Variable rows : gmap string SessionInfo -> list SessionInfo.
Variable order : list (string * string) -> list (string * string).
Variable parse_f64 : string -> option f64.
Variable fmt8 : f64 -> string.
Variable is_digit : string -> bool.
Variable regex_escape : string -> string.
Variable regex_is_match : string -> string -> option bool.

Definition from (n : nat) (st : nat -> option string) : nat -> option string := fun k => st (n + k).

Definition ensure_session (env : StepEnv) (key : string) : Act unit :=
  let* db := reading in
  match get_session key db with
  | Some _ => ret tt
  | None => let* _ := doing (Created key) (create_session (sv_st env) key "default" (sv_now env)) in ret tt
  end.

Definition say (env : StepEnv) (n : nat) (key role text : string) : Act unit :=
  doing (Wrote key role text) (add_message fk (from n (sv_st env)) key role text (sv_now env)).

Definition use (env : StepEnv) (key : string) (out : AgentReplyDetailed) : Act unit :=
  attempt (doing (Used key) (apply_session_usage_delta parse_f64 fmt8 fk order (from 6 (sv_st env)) (sv_now env)
                               key (rd_usage out) (rd_model out))).

Definition run_agent (env : StepEnv) (key message prompt : string) (model : option string)
  : Act (option (result AgentReplyDetailed string)) :=
  doing (Ran key message prompt model) (fun db => (Ok (sv_out env), sv_turn env db)).

Definition step_prompt (x : Executor) (extra : string) (source_key source_channel : option string) : string :=
  let lines := option_list (trimmed (Some extra))
    ++ option_list ((fun v => "Source session: " +:+ v +:+ ".") <$> trimmed source_key)
    ++ option_list ((fun v => "Source channel: " +:+ v +:+ ".") <$> trimmed source_channel) in
  xe_prompt x (xe_session_id x)
  +:+ match lines with
      | [] => ""
      | _ => nl +:+ nl +:+ "## Group Chat Context" +:+ nl +:+ join nl lines
      end.

(** A turn of the agent of a session, answering a message from another one. *)
Definition run_agent_step (x : Executor) (env : StepEnv) (key message extra : string)
    (source_key source_channel : option string) : Act (option string) :=
  if negb (xe_manager x) then ret None
  else
    let* _ := ensure_session env key in
    let* db := reading in
    let model := session_model_override_from_metadata (get_session_metadata key db) in
    let* _ := say env 2 key "user" message in
    let* out := run_agent env key message (step_prompt x extra source_key source_channel) model in
    match out with
    | Some (Ok out) =>
        let* _ := say env 4 key "assistant" (rd_reply out) in
        let* _ := use env key out in
        ret (trimmed (Some (rd_reply out)))
    | _ => ret None
    end.

(** ** The conversation *)

Section conversation.
Variable x : Executor.
(** The environment of each turn; 0 is that of the announce step. *)
Variable envs : nat -> StepEnv.
Variable target display_key : string.
Variable max_turns : nat.
Variable requester requester_channel : option string.

(** The turns from [turn] on: the agent of [current] answers [incoming], which came
    from [next].  The result is the latest reply. *)
Fixpoint ping_pong (left turn : nat) (requester_key : string) (target_channel : option string)
    (current next incoming : string) : Act string :=
  match left with
  | 0 => ret incoming
  | S left' =>
      let role := if String.eqb current requester_key then "requester" else "target" in
      let prompt := build_agent_to_agent_reply_context requester requester_channel display_key target_channel
                      role turn max_turns in
      let source_channel := if String.eqb next requester_key then requester_channel else target_channel in
      let* reply := run_agent_step x (envs turn) current incoming prompt (Some next) source_channel in
      match reply with
      | None => ret incoming
      | Some text =>
          if is_reply_skip (Some text) then ret incoming
          else ping_pong left' (S turn) requester_key target_channel next current text
      end
  end.

Definition announce_reply (env : AnEnv) (target : option AnnounceTarget) (reply : option string) : Act unit :=
  match trimmed reply, target with
  | Some text, Some t =>
      if is_announce_skip (Some text) then ret tt
      else match send_announce_to_target env t text with
           | Ok _ => doing (Announced t text) (fun db => (Ok tt, db))
           | Err _ => ret tt
           end
  | _, _ => ret tt
  end.

Definition run_sessions_send_a2a_flow (env : AnEnv) (original_message : string) (round_one_reply : option string)
  : Act unit :=
  match trimmed round_one_reply with
  | None => ret tt
  | Some incoming =>
      if negb (xe_manager x) then fail "sessions_send: session manager unavailable for a2a flow"
      else
        let* db := reading in
        let announce_target := resolve_announce_target is_digit rows target display_key db in
        let target_channel := at_channel <$> announce_target in
        let* latest :=
          match requester with
          | Some r => if String.eqb r target then ret incoming
                      else ping_pong max_turns 1 r target_channel r target incoming
          | None => ret incoming
          end in
        let prompt := build_agent_to_agent_announce_context requester requester_channel display_key target_channel
                        original_message round_one_reply (Some latest) in
        let* reply := run_agent_step x (envs 0) target "Agent-to-agent announce step." prompt requester
                        requester_channel in
        announce_reply env announce_target reply
  end.
End conversation.

(** ** [sessions_send] *)

(** The background task: round one, unless it was waited for, and the conversation. *)
Record Flow := {
  fl_key : string;
  fl_text : string;
  fl_round_one : option string;
  fl_prompt : string;
  fl_model : option string;
  fl_turns : nat;
  fl_channel : option string;
}.

Definition run_flow (x : Executor) (env1 : StepEnv) (envs : nat -> StepEnv) (aenv : AnEnv) (f : Flow) : Act unit :=
  let conversation reply :=
    run_sessions_send_a2a_flow x envs (fl_key f) (fl_key f) (fl_turns f) (xe_session_id x) (fl_channel f) aenv
      (fl_text f) (Some reply) in
  match fl_round_one f with
  | Some reply => conversation reply
  | None =>
      let* out := run_agent env1 (fl_key f) (fl_text f) (fl_prompt f) (fl_model f) in
      match out with
      | Some (Ok out) =>
          let* _ := attempt (say env1 4 (fl_key f) "assistant" (rd_reply out)) in
          let* _ := use env1 (fl_key f) out in
          attempt (conversation (rd_reply out))
      | _ => ret tt
      end
  end.

(** The first session with the label that the requester may send to. *)
Definition key_of_label (ctx : SessionAccessContext) (label : string) (agent : option string) (db : Db)
  : option string :=
  head (omap (fun s =>
    let other := match agent with
                 | Some a => negb (String.eqb (resolve_agent_id_from_session_key (si_key s)) a)
                 | None => false
                 end in
    if other || negb (accessible regex_escape regex_is_match ctx Send (si_key s)) then None
    else match get_session_metadata (si_key s) db !! "label" with
         | Some v => if eq_ignore_ascii_case v label then Some (si_key s) else None
         | None => None
         end) (list_sessions rows db)).

Definition answer (key status : string) (rest : list (string * json)) : json :=
  jobject ([("action", JStr "sessions_send"); ("session_key", JStr key); ("status", JStr status)] ++ rest).

(** The answer with the session's number of messages. *)
Definition counted (key status : string) (rest : list (string * json)) : Act json :=
  let* db := reading in
  match get_session key db with
  | Some s => ret (answer key status (rest ++ [("message_count", JInt (si_message_count s))]))
  | None => fail "sessions_send: failed to load updated session"
  end.

Definition pending_delivery : json := jobject [("status", JStr "pending"); ("mode", JStr "announce")].

(** The message is in the session: who answers it. *)
Definition answer_message (x : Executor) (env : StepEnv) (run_id key text : string) (timeout : Z)
  : Act (json * option Flow) :=
  match xe_provider x with
  | None => let* v := counted key "queued" [] in ret (v, None)
  | Some _ =>
      let* db := reading in
      let channel := xe_session_id x ≫= fun sid =>
        session_metadata_pick (get_session_metadata sid db)
          ["delivery.channel"; "lastChannel"; "last_channel"; "channel"] in
      let model := session_model_override_from_metadata (get_session_metadata key db) in
      let context := build_agent_to_agent_message_context (xe_session_id x) channel key in
      let prompt := xe_prompt x (Some key)
        +:+ (if String.eqb (trim context) "" then "" else nl +:+ nl +:+ context) in
      let flow reply := {| fl_key := key; fl_text := text; fl_round_one := reply; fl_prompt := prompt;
                           fl_model := model; fl_turns := resolve_a2a_ping_pong_turns (xe_config x);
                           fl_channel := channel |} in
      if (timeout =? 0)%Z then
        let* v := counted key "accepted" [("run_id", JStr run_id); ("delivery", pending_delivery)] in
        ret (v, Some (flow None))
      else
        let* out := run_agent env key text prompt model in
        match out with
        | None => ret (answer key "timeout" [("run_id", JStr run_id);
                         ("error", JStr ("timed out after " +:+ pretty timeout +:+ "s"))], None)
        | Some (Err err) => ret (answer key "error" [("run_id", JStr run_id); ("error", JStr err)], None)
        | Some (Ok out) =>
            let* _ := say env 4 key "assistant" (rd_reply out) in
            let* _ := use env key out in
            let* v := counted key "ok" [
              ("run_id", JStr run_id); ("reply", JStr (rd_reply out));
              ("usage", usage_summary_to_json (rd_usage out)); ("model", JStr (rd_model out));
              ("delivery", pending_delivery)] in
            ret (v, Some (flow (Some (rd_reply out))))
        end
  end.

(** The session meant: its key, else the executor's own, else the one with the label. *)
Definition send_key (x : Executor) (ctx : SessionAccessContext) (v : json) (db : Db) : option string :=
  or_else (resolve_session_key (or_else (get_str "session_key" v) (get_str "sessionKey" v)) (xe_session_id x))
    (label ← trimmed (get_str "label" v);
     key_of_label ctx label
       (sanitize_session_token <$> trimmed (or_else (get_str "agent_id" v) (get_str "agentId" v))) db).

(** The answer, and the task started.  The spawning of the tasks precedes the last
    read of the count; a failing read leaves the task running, which is the same
    here because reads do not fail. *)
Definition fulfill_sessions_send (x : Executor) (env : StepEnv) (run_id : string) (v : json)
  : Act (json * option Flow) :=
  match trimmed (or_else (get_str "text" v) (get_str "message" v)) with
  | None => fail "sessions_send: text/message is empty"
  | Some text =>
      let role := default "user" (get_str "role" v) in
      let timeout := default 30%Z (or_else (get_u64 "timeout_seconds" v) (get_u64 "timeoutSeconds" v)) in
      if negb (xe_manager x) then fail "sessions_send: session manager unavailable"
      else
        let* db := reading in
        match build_session_access_context rows (xe_config x) (xe_session_id x) db with
        | None => fail "out of fuel"
        | Some ctx =>
            match send_key x ctx v db with
            | None => fail "sessions_send: missing session key (or unresolved label)"
            | Some key =>
                match check_session_access regex_escape regex_is_match ctx key Send with
                | Err err => ret (answer key "forbidden" [("error", JStr err)], None)
                | Ok _ =>
                    let* _ := ensure_session env key in
                    let* _ := say env 2 key role text in
                    if negb (eq_ignore_ascii_case role "user")
                    then let* v := counted key "sent" [] in ret (v, None)
                    else answer_message x env run_id key text timeout
                end
            end
        end
  end.

(** ** [session_status] *)

(** Whole seconds; division truncates. *)
Definition seconds (ms : Z) : string := pretty (Z.quot ms 1000).

Definition model_display (provider : option string) (meta : gmap string string) : string :=
  let set := meta !! "modelOverride" in
  default "default" (or_else (match set with
                              | Some s => if String.eqb (trim s) "" then None else Some s
                              | None => None
                              end) provider).

Definition status_answer (fmt6 : f64 -> string) (provider : option string) (now : Z) (key : string)
    (session : SessionInfo) (meta : gmap string string) (active_subagents : nat) (runtime : option Z)
    (gateway : option json) : json :=
  let idle_ms := sat_sub_i64 now (si_updated_at session) in
  let age_ms := sat_sub_i64 now (si_created_at session) in
  let usage := usage_summary_from_metadata parse_f64 meta in
  let runtime_tokens := default 0%Z runtime in
  let total := sat_add_i64 (usage_total_tokens usage) runtime_tokens in
  let status := match meta !! "terminated" with
                | Some v => if String.eqb v "true" then "terminated" else "active"
                | None => "active"
                end in
  let display := model_display provider meta in
  let text := "Session: " +:+ key +:+ nl +:+ "Model: " +:+ display +:+ nl +:+ "Status: " +:+ status
    +:+ nl +:+ "Messages: " +:+ pretty (si_message_count session)
    +:+ nl +:+ "Active subagents: " +:+ pretty active_subagents
    +:+ nl +:+ "Usage: " +:+ pretty total +:+ " tok (input " +:+ pretty (input_tokens usage) +:+ " / output "
    +:+ pretty (output_tokens usage) +:+ ", cache r" +:+ pretty (cache_read_tokens usage) +:+ " w"
    +:+ pretty (cache_write_tokens usage) +:+ ", calls " +:+ pretty (total_calls usage) +:+ ", cost $"
    +:+ fmt6 (total_cost_usd usage) +:+ ")"
    +:+ nl +:+ "Age: " +:+ seconds age_ms +:+ "s" +:+ nl +:+ "Idle: " +:+ seconds idle_ms +:+ "s" in
  jobject [("action", JStr "session_status"); ("session_key", JStr key); ("status", JStr status);
    ("agent_id", JStr (si_agent_id session)); ("message_count", JInt (si_message_count session));
    ("created_at", JInt (si_created_at session)); ("updated_at", JInt (si_updated_at session));
    ("model", JStr display); ("active_subagents", JInt (Z.of_nat active_subagents));
    ("age_ms", JInt age_ms); ("idle_ms", JInt idle_ms);
    ("usage", jobject [("session", usage_summary_to_json usage); ("session_runtime_tokens", JInt runtime_tokens);
                       ("session_total_tokens", JInt total); ("gateway", default JNull gateway)]);
    ("text", JStr text); ("metadata", jobject ((fun kv => (kv.1, JStr kv.2)) <$> map_to_list meta))].

(** [registry]: the runs, and the order of their map; [fmt6] is [format!("{:.6}")];
    [runtime]: tokens counted for the session since the start; [gateway]: its totals. *)
Definition fulfill_session_status (fmt6 : f64 -> string) (values : Runs -> list SubagentRunEntry)
    (x : Executor) (env : StepEnv) (registry : Runs) (runtime : option Z) (gateway : option json) (v : json)
  : Act json :=
  match resolve_session_key (or_else (get_str "session_key" v) (get_str "sessionKey" v)) (xe_session_id x) with
  | None => fail "session_status: missing session_key/sessionKey"
  | Some key =>
      if negb (xe_manager x) then fail "session_status: session manager unavailable"
      else
        let* db := reading in
        match build_session_access_context rows (xe_config x) (xe_session_id x) db with
        | None => fail "out of fuel"
        | Some ctx =>
            match check_session_access regex_escape regex_is_match ctx key Status with
            | Err err => ret (jobject [("action", JStr "session_status"); ("session_key", JStr key);
                                       ("status", JStr "forbidden"); ("error", JStr err)])
            | Ok _ =>
                match get_session key db with
                | None => fail ("session_status: session not found: " +:+ key)
                | Some session =>
                    let override := (fun m => if eq_ignore_ascii_case m "default" then "" else m)
                                    <$> trimmed (get_str "model" v) in
                    let* _ := match override with
                              | Some m => attempt (fun s =>
                                  let '(r, db') := set_session_metadata_field fk (sv_st env) key "modelOverride" m
                                                     (ss_db s) in
                                  (r, {| ss_db := db'; ss_log := ss_log s |}))
                              | None => ret tt
                              end in
                    let meta := get_session_metadata key db in
                    let meta := match override with Some m => <["modelOverride" := m]> meta | None => meta end in
                    ret (status_answer fmt6 (xe_provider x) (sv_now env) key session meta
                           (length (retain active (list_runs_for_requester values (sv_now env) key registry)))
                           runtime gateway)
                end
            end
        end
  end.
End send.

(** * What is touched *)

(** [m] only adds events with [P] to the log. *)
Definition emits {A} (P : SendEvent -> Prop) (m : Act A) : Prop :=
  forall s, exists l, ss_log (m s).2 = ss_log s ++ l /\ Forall P l.

Section emits.
Variable P : SendEvent -> Prop.

Lemma emits_ret {A} (a : A) : emits P (ret a).
Proof. intros s. exists []. by rewrite app_nil_r. Qed.

Lemma emits_fail {A} e : emits P (@fail A e).
Proof. intros s. exists []. by rewrite app_nil_r. Qed.

Lemma emits_bind {A B} (m : Act A) (k : A -> Act B) : emits P m -> (forall a, emits P (k a)) -> emits P (bind m k).
Proof.
  intros Hm Hk s. unfold bind. destruct (Hm s) as (l & E & F). destruct (m s) as [[a|e] s']; cbn [snd] in *.
  - destruct (Hk a s') as (l' & E' & F'). exists (l ++ l'). rewrite E', E, app_assoc.
    split; [done|by apply Forall_app].
  - by exists l.
Qed.

Lemma emits_attempt {A} (m : Act A) : emits P m -> emits P (attempt m).
Proof. intros Hm s. exact (Hm s). Qed.

Lemma emits_reading : emits P reading.
Proof. intros s. exists []. by rewrite app_nil_r. Qed.

Lemma emits_doing {A} e (f : Db -> result A string * Db) : P e -> emits P (doing e f).
Proof. intros He s. exists [e]. unfold doing. destruct (f (ss_db s)). split; [done|by repeat constructor]. Qed.
End emits.

Lemma emits_mono {A} (P Q : SendEvent -> Prop) (m : Act A) : (forall e, P e -> Q e) -> emits P m -> emits Q m.
Proof. intros H Hm s. destruct (Hm s) as (l & E & F). exists l. split; [done|]. by eapply Forall_impl. Qed.

Create HintDb sends.
#[export] Hint Resolve emits_ret emits_fail emits_reading emits_attempt : sends.

(** The events of a call that only sessions in [ok] take part in. *)
Definition within (ok : string -> Prop) (e : SendEvent) : Prop :=
  match e with
  | Created key | Wrote key _ _ | Ran key _ _ _ | Used key => ok key
  | Announced _ _ => True
  end.

Section confined.
Variable fk : bool.
Variable rows : gmap string SessionInfo -> list SessionInfo.
Variable order : list (string * string) -> list (string * string).
Variable parse_f64 : string -> option f64.
Variable fmt8 : f64 -> string.
Variable is_digit : string -> bool.
Variable regex_escape : string -> string.
Variable regex_is_match : string -> string -> option bool.
Variable x : Executor.
Variable ok : string -> Prop.

Lemma step_within env key message extra source channel : ok key ->
  emits (within ok) (run_agent_step fk order parse_f64 fmt8 x env key message extra source channel).
Proof.
  intros K. unfold run_agent_step, ensure_session, say, use, run_agent.
  destruct (negb _); [auto with sends|].
  apply emits_bind; [apply emits_bind; [auto with sends|]; intros db; destruct (get_session key db);
    [auto with sends|]; apply emits_bind; [by apply emits_doing|auto with sends]|].
  intros _. apply emits_bind; [auto with sends|]. intros db.
  apply emits_bind; [by apply emits_doing|]. intros _. apply emits_bind; [by apply emits_doing|].
  intros [[out|e]|]; [|auto with sends..].
  apply emits_bind; [by apply emits_doing|]. intros _.
  apply emits_bind; [by apply emits_attempt, emits_doing|auto with sends].
Qed.

Lemma ping_pong_within envs display max requester channel left turn rk tc current next incoming :
  ok current -> ok next ->
  emits (within ok) (ping_pong fk order parse_f64 fmt8 x envs display max requester channel left turn rk tc
                       current next incoming).
Proof.
  revert turn current next incoming. induction left as [|left IH]; intros turn current next incoming C N; cbn [ping_pong];
    [auto with sends|].
  apply emits_bind; [by apply step_within|]. intros [text|]; [|auto with sends].
  destruct (is_reply_skip _); [auto with sends|by apply IH].
Qed.

Lemma conversation_within envs key display max requester channel aenv original round_one :
  ok key -> (forall r, requester = Some r -> ok r) ->
  emits (within ok) (run_sessions_send_a2a_flow fk rows order parse_f64 fmt8 is_digit x envs key display max
                       requester channel aenv original round_one).
Proof.
  intros K R. unfold run_sessions_send_a2a_flow. destruct (trimmed round_one) as [incoming|]; [|auto with sends].
  destruct (negb _); [auto with sends|]. apply emits_bind; [auto with sends|]. intros db. cbv zeta.
  apply emits_bind.
  { destruct requester as [r|]; [|auto with sends]. destruct (String.eqb r key); [auto with sends|].
    apply ping_pong_within; [by apply R|done]. }
  intros latest. apply emits_bind; [by apply step_within|]. intros reply. unfold announce_reply.
  destruct (trimmed reply); [|auto with sends]. destruct (resolve_announce_target _ _ _ _ _); [|auto with sends].
  destruct (is_announce_skip _); [auto with sends|]. destruct (send_announce_to_target _ _ _);
    [by apply emits_doing|auto with sends].
Qed.

Lemma flow_within env1 envs aenv f : ok (fl_key f) -> (forall r, xe_session_id x = Some r -> ok r) ->
  emits (within ok) (run_flow fk rows order parse_f64 fmt8 is_digit x env1 envs aenv f).
Proof.
  intros K R. unfold run_flow, run_agent, say, use. destruct (fl_round_one f); [by apply conversation_within|].
  apply emits_bind; [by apply emits_doing|]. intros [[out|e]|]; [|auto with sends..].
  apply emits_bind; [by apply emits_attempt, emits_doing|]. intros _.
  apply emits_bind; [by apply emits_attempt, emits_doing|]. intros _.
  by apply emits_attempt, conversation_within.
Qed.
End confined.

(** Every result has [Q]. *)
Definition yields {A} (Q : A -> Prop) (m : Act A) : Prop := forall s a s', m s = (Ok a, s') -> Q a.

Lemma yields_ret {A} (Q : A -> Prop) a : Q a -> yields Q (ret a).
Proof. intros H s a' s' [= <- _]. done. Qed.

Lemma yields_bind {A B} (Q : B -> Prop) (m : Act A) k : (forall a, yields Q (k a)) -> yields Q (bind m k).
Proof. intros H s b s'. unfold bind. destruct (m s) as [[a|e] s1]; [apply H|done]. Qed.

#[export] Hint Resolve yields_ret : sends.

Section handler.
Variable fk : bool.
Variable rows : gmap string SessionInfo -> list SessionInfo.
Variable order : list (string * string) -> list (string * string).
Variable parse_f64 : string -> option f64.
Variable fmt8 : f64 -> string.
Variable is_digit : string -> bool.
Variable regex_escape : string -> string.
Variable regex_is_match : string -> string -> option bool.

Lemma counted_within P key status rest : emits P (counted key status rest).
Proof.
  unfold counted. apply emits_bind; [auto with sends|]. intros db. destruct (get_session key db); auto with sends.
Qed.
#[local] Hint Resolve counted_within : sends.

Lemma answer_within x env run_id key text timeout :
  emits (within (eq key)) (answer_message fk order parse_f64 fmt8 x env run_id key text timeout).
Proof.
  unfold answer_message, run_agent, say, use. destruct (xe_provider x); [|apply emits_bind; auto with sends].
  apply emits_bind; [auto with sends|]. intros db. cbv zeta. destruct (timeout =? 0)%Z; [apply emits_bind; auto with sends|].
  apply emits_bind; [by apply emits_doing|]. intros [[out|e]|]; [|auto with sends..].
  apply emits_bind; [by apply emits_doing|]. intros _.
  apply emits_bind; [by apply emits_attempt, emits_doing|]. intros _. apply emits_bind; auto with sends.
Qed.

Definition flow_of (key : string) (a : json * option Flow) : Prop := forall f, a.2 = Some f -> fl_key f = key.

Lemma no_flow key v : flow_of key (v, None).
Proof. intros f [=]. Qed.
#[local] Hint Resolve no_flow : sends.

Lemma answer_flow x env run_id key text timeout :
  yields (flow_of key) (answer_message fk order parse_f64 fmt8 x env run_id key text timeout).
Proof.
  unfold answer_message. destruct (xe_provider x); [|apply yields_bind; auto with sends].
  apply yields_bind. intros db. cbv zeta. destruct (timeout =? 0)%Z.
  { apply yields_bind. intros v. apply yields_ret. by intros f [= <-]. }
  apply yields_bind. intros [[out|e]|]; [|auto with sends..].
  do 3 (apply yields_bind; intros ?). apply yields_ret. by intros f [= <-].
Qed.

(** C25. A message goes only where its sender may send.  Either nothing was done and
    no task started; or the session meant is one the requester may access, only it
    took part in the call, and the conversation that follows in the background
    involves only that session and the requester's own. *)
Theorem sends_confined x env run_id v db :
  let '(r, s) := fulfill_sessions_send fk rows order parse_f64 fmt8 regex_escape regex_is_match x env run_id v
                   {| ss_db := db; ss_log := [] |} in
  (s = {| ss_db := db; ss_log := [] |} /\ forall reply f, r = Ok (reply, f) -> f = None)
  \/ exists key,
       may_access regex_escape regex_is_match rows (xe_config x) (requester_of (xe_session_id x)) key db
       /\ Forall (within (eq key)) (ss_log s)
       /\ forall reply f, r = Ok (reply, Some f) -> fl_key f = key
          /\ forall env1 envs aenv s1, exists l,
               ss_log (run_flow fk rows order parse_f64 fmt8 is_digit x env1 envs aenv f s1).2 = ss_log s1 ++ l
               /\ Forall (within (fun k => k = key \/ xe_session_id x = Some k)) l.
Proof.
  destruct (fulfill_sessions_send _ _ _ _ _ _ _ _ _ _ _ _) as [r s] eqn:E. unfold fulfill_sessions_send in E.
  destruct (trimmed _) as [text|]; [|left; by injection E as <- <-].
  destruct (negb _); [left; by injection E as <- <-|]. unfold bind at 1, reading in E. cbn [ss_db] in E.
  destruct (build_session_access_context _ _ _ _) as [ctx|] eqn:Ec; [|left; by injection E as <- <-].
  destruct (send_key _ _ _ _ _ _ _) as [key|]; [|left; by injection E as <- <-].
  destruct (check_session_access _ _ ctx key Send) as [[]|err] eqn:Ek.
  2: { left. injection E as <- <-. split; [done|]. by intros ? ? [= _ <-]. }
  right. exists key. split; [by eapply check_spec in Ek|].
  revert E. match goal with |- ?m _ = _ -> _ => set (body := m) end. intros E.
  assert (emits (within (eq key)) body) as M.
  { subst body. unfold ensure_session, say. apply emits_bind.
    { apply emits_bind; [auto with sends|]. intros db'. destruct (get_session key db'); [auto with sends|].
      apply emits_bind; [by apply emits_doing|auto with sends]. }
    intros _. apply emits_bind; [by apply emits_doing|]. intros _.
    destruct (negb _); [apply emits_bind; auto with sends|apply answer_within]. }
  assert (yields (flow_of key) body) as Y.
  { subst body. do 2 (apply yields_bind; intros ?). destruct (negb _); [apply yields_bind; auto with sends|apply answer_flow]. }
  split.
  - destruct (M {| ss_db := db; ss_log := [] |}) as (l & El & F). rewrite E in El. cbn [snd] in El. by rewrite El.
  - intros reply f ->. pose proof (Y _ _ _ E f eq_refl) as <-. split; [done|]. intros env1 envs aenv.
    apply flow_within; auto.
Qed.
End handler.

(** * The conversation after a message *)

(** What is said in a log: a session is asked, a channel told. *)
Inductive Said :=
| Asked (key message : string)
| Told (target : AnnounceTarget) (text : string).

Definition said_by (e : SendEvent) : option Said :=
  match e with
  | Ran key message _ _ => Some (Asked key message)
  | Announced target text => Some (Told target text)
  | _ => None
  end.
Definition said (s : SendState) : list Said := omap said_by (ss_log s).

(** The reply of a turn, and that it keeps the conversation going. *)
Definition heard (env : StepEnv) : option string :=
  match sv_out env with
  | Some (Ok out) => trimmed (Some (rd_reply out))
  | _ => None
  end.
Definition goes_on (env : StepEnv) : Prop :=
  exists text, heard env = Some text /\ is_reply_skip (Some text) = false.

Lemma said_bind {A B} (m : Act A) (k : A -> Act B) s r s' : bind m k s = (r, s') ->
  (exists e s1, m s = (Err e, s1) /\ r = Err e /\ s' = s1) \/ exists a s1, m s = (Ok a, s1) /\ k a s1 = (r, s').
Proof.
  unfold bind. destruct (m s) as [[a|e] s1]; [eauto|]. intros [= <- <-]. left. by exists e, s1.
Qed.

Lemma said_doing {A} e (f : Db -> result A string * Db) s r s' : doing e f s = (r, s') ->
  said s' = said s ++ option_list (said_by e).
Proof.
  unfold doing, said. destruct (f (ss_db s)). intros [= _ <-]. cbn [ss_log]. rewrite omap_app. cbn. by destruct (said_by e).
Qed.

Section talk.
Variable fk : bool.
Variable order : list (string * string) -> list (string * string).
Variable parse_f64 : string -> option f64.
Variable fmt8 : f64 -> string.
Variable x : Executor.
Hypothesis manager : xe_manager x = true.

Lemma silent_ensure env key s r s' : ensure_session env key s = (r, s') -> said s' = said s.
Proof.
  unfold ensure_session. intros [(e & s1 & [=] & _)|(db & s1 & [= <- <-] & E)]%said_bind.
  destruct (get_session key (ss_db s)); [by injection E as _ <-|].
  apply said_bind in E as [(e & s1 & E & _ & ->)|(a & s1 & E & [= _ <-])];
    apply said_doing in E; by rewrite E, app_nil_r.
Qed.

Lemma silent_say env n key role text s r s' : say fk env n key role text s = (r, s') -> said s' = said s.
Proof. intros E%said_doing. by rewrite E, app_nil_r. Qed.

Lemma silent_use env key out s r s' : use fk order parse_f64 fmt8 env key out s = (r, s') -> r = Ok tt /\ said s' = said s.
Proof.
  unfold use, attempt. destruct (doing _ _ s) as [r1 s1] eqn:E. intros [= <- <-]. apply said_doing in E.
  split; [done|]. by rewrite E, app_nil_r.
Qed.

(** A turn fails, asking its session or not, or asks it and gives what it heard. *)
Lemma step_said env key message extra source channel s r s' :
  run_agent_step fk order parse_f64 fmt8 x env key message extra source channel s = (r, s') ->
  (exists e, r = Err e /\ (said s' = said s \/ said s' = said s ++ [Asked key message]))
  \/ (r = Ok (heard env) /\ said s' = said s ++ [Asked key message]).
Proof.
  unfold run_agent_step. rewrite manager. cbn [negb].
  intros [(e & s1 & E & -> & ->)|(a & s1 & E & H)]%said_bind; apply silent_ensure in E; [eauto|].
  apply said_bind in H as [(e & s2 & [=] & _)|(db & s2 & [= <- <-] & H)].
  apply said_bind in H as [(e & s2 & E2 & -> & ->)|(a2 & s2 & E2 & H)]; apply silent_say in E2; rewrite E in E2; [eauto|].
  apply said_bind in H as [(e & s3 & [=] & _)|(out & s3 & E3 & H)].
  unfold run_agent in E3. pose proof E3 as R. apply said_doing in R. rewrite E2 in R.
  unfold doing in E3. injection E3 as <- _.
  unfold heard. destruct (sv_out env) as [[out|e]|]; [|by injection H as <- <-; right..].
  apply said_bind in H as [(e & s4 & E4 & -> & ->)|(a4 & s4 & E4 & H)]; apply silent_say in E4; rewrite R in E4; [eauto|].
  apply said_bind in H as [(e & s5 & E5 & -> & ->)|(a5 & s5 & E5 & [= <- <-])]; apply silent_use in E5 as [? E5].
  - done.
  - right. split; [done|]. by rewrite E5.
Qed.

Section turns.
Variable envs : nat -> StepEnv.
Variable asker other : string.

(** Turn [t] (from 1) asks one session, then the other, with the last reply. *)
Definition asked_at (t : nat) : string := if Nat.even t then other else asker.
Definition message_at (first : string) (t : nat) : string :=
  match t with
  | S (S _ as t') => default "" (heard (envs t'))
  | _ => first
  end.
Definition turns (first : string) (n : nat) : list Said :=
  (fun t => Asked (asked_at t) (message_at first t)) <$> seq 1 n.

Lemma turns_snoc first n : turns first (S n) = turns first n ++ [Asked (asked_at (S n)) (message_at first (S n))].
Proof. unfold turns. by rewrite seq_S, fmap_app. Qed.

(** From turn [t] on, with the turns before it behind. *)
Lemma ping_pong_turns first display max requester channel rk tc left t current next incoming s0 s r s' :
  said s = said s0 ++ turns first t -> (forall i, 1 <= i <= t -> goes_on (envs i)) ->
  current = asked_at (S t) -> next = asked_at t -> incoming = message_at first (S t) ->
  ping_pong fk order parse_f64 fmt8 x envs display max requester channel left (S t) rk tc current next incoming s
    = (r, s') ->
  exists n, t <= n <= t + left /\ (forall i, 1 <= i < n -> goes_on (envs i))
  /\ match r with
     | Ok latest => said s' = said s0 ++ turns first n /\ (n < t + left -> t < n /\ ~ goes_on (envs n))
                    /\ exists i, latest = message_at first i
     | Err _ => said s' = said s0 ++ turns first n
     end.
Proof.
  revert t current next incoming s. induction left as [|left IH]; intros t current next incoming s Hs G C N I; cbn [ping_pong].
  { intros [= <- <-]. exists t. split; [lia|]. split; [intros i Hi; apply G; lia|]. split; [done|]. split; [lia|]. by exists (S t). }
  assert (said s0 ++ turns first (S t) = said s ++ [Asked current incoming]) as T.
  { rewrite Hs, turns_snoc, C, I. by rewrite <- app_assoc. }
  intros [(e & s1 & E & -> & ->)|(reply & s1 & E & H)]%said_bind; apply step_said in E.
  - destruct E as [(e' & _ & E)|[[=] _]]. destruct E as [E|E].
    + exists t. split; [lia|]. split; [intros i Hi; apply G; lia|]. by rewrite E.
    + exists (S t). split; [lia|]. split; [intros i Hi; apply G; lia|]. by rewrite E.
  - destruct E as [(e' & [=] & _)|[[= ->] E]]. rewrite <- T in E.
    assert (~ goes_on (envs (S t)) -> ret incoming s1 = (r, s') -> exists n, t <= n <= t + S left /\
      (forall i, 1 <= i < n -> goes_on (envs i)) /\ match r with
      | Ok latest => said s' = said s0 ++ turns first n /\ (n < t + S left -> t < n /\ ~ goes_on (envs n))
                     /\ exists i, latest = message_at first i
      | Err _ => said s' = said s0 ++ turns first n end) as Stop.
    { intros Ng [= <- <-]. exists (S t). split; [lia|]. split; [intros i Hi; apply G; lia|].
      split; [done|]. split; [by split; [lia|]|]. by exists (S t). }
    destruct (heard (envs (S t))) as [text|] eqn:Eh.
    2: { apply Stop; [|done]. intros (text & Ht & _). congruence. }
    destruct (is_reply_skip (Some text)) eqn:Es.
    { apply Stop; [|done]. intros (text' & Ht & Hn). congruence. }
    apply (IH (S t)) in H as (n & Hn & Gn & R).
    + exists n. split; [lia|]. split; [done|]. destruct r; [|done]. destruct R as (R & Sn & L). split; [done|].
      split; [|done]. intros ?. destruct Sn as [? ?]; [lia|]. split; [lia|done].
    + done.
    + intros i Hi. destruct (decide (i = S t)) as [->|]; [by exists text|apply G; lia].
    + subst. unfold asked_at. replace (Nat.even (S (S t))) with (Nat.even t) by done. done.
    + by subst.
    + unfold message_at. by rewrite Eh.
Qed.
End turns.
End talk.

(** C19. The conversation two agents have after a message with an answer: the
    requester's agent and the target's are asked in turn, each with the other's
    last reply, at most [max] times and no further than the first turn without a
    reply; then the target's agent is asked once for the announcement, which is
    sent at most once and only when it says something.  A failure ends it. *)
Theorem a2a_conversation fk rows order parse_f64 fmt8 is_digit x envs key display max requester channel aenv
    original round_one first s r s' :
  xe_manager x = true -> requester <> key -> trimmed (Some round_one) = Some first ->
  run_sessions_send_a2a_flow fk rows order parse_f64 fmt8 is_digit x envs key display max (Some requester) channel
    aenv original (Some round_one) s = (r, s') ->
  exists n, n <= max /\ (forall t, 1 <= t < n -> goes_on (envs t))
  /\ match r with
     | Ok _ =>
         (n < max -> 0 < n /\ ~ goes_on (envs n))
         /\ exists told, said s' = said s ++ turns envs requester key first n
                                   ++ [Asked key "Agent-to-agent announce step."] ++ told
            /\ (told = [] \/ exists target text, told = [Told target text] /\ heard (envs 0) = Some text
                  /\ is_announce_skip (Some text) = false
                  /\ resolve_announce_target is_digit rows key display (ss_db s) = Some target)
     | Err _ => said s' = said s ++ turns envs requester key first n
                \/ said s' = said s ++ turns envs requester key first n ++ [Asked key "Agent-to-agent announce step."]
     end.
Proof.
  intros M Ne Tr. unfold run_sessions_send_a2a_flow. rewrite Tr, M. cbn [negb].
  intros [(e & s1 & [=] & _)|(db & s1 & [= <- <-] & H)]%said_bind. cbv zeta in H.
  rewrite (proj2 (String.eqb_neq _ _) Ne) in H.
  apply said_bind in H as [(e & s1 & E & -> & ->)|(latest & s1 & E & H)];
    eapply (ping_pong_turns fk order parse_f64 fmt8 x M envs requester key first) with (s0 := s) in E as (n & Hn & G & E);
    try done; try (by rewrite app_nil_r); try (intros i Hi; lia).
  { exists n. split; [lia|]. split; [done|]. by left. }
  destruct E as (E & Stop & _).
  apply said_bind in H as [(e & s2 & E2 & -> & ->)|(reply & s2 & E2 & H)]; apply step_said in E2; try done.
  { destruct E2 as [(e' & _ & E2)|[[=] _]]. exists n. split; [lia|]. split; [done|]. rewrite E, <- app_assoc in E2. exact E2. }
  destruct E2 as [(e' & [=] & _)|[[= ->] E2]].
  assert (exists told, r = Ok tt /\ said s' = said s2 ++ told
    /\ (told = [] \/ exists target text, told = [Told target text] /\ heard (envs 0) = Some text
          /\ is_announce_skip (Some text) = false
          /\ resolve_announce_target is_digit rows key display (ss_db s) = Some target)) as (told & -> & E3 & Told).
  { unfold announce_reply in H.
    assert (ret tt s2 = (r, s') -> exists told, r = Ok tt /\ said s' = said s2 ++ told
      /\ (told = [] \/ exists target text, told = [Told target text] /\ heard (envs 0) = Some text
            /\ is_announce_skip (Some text) = false
            /\ resolve_announce_target is_digit rows key display (ss_db s) = Some target)) as Nothing.
    { intros [= <- <-]. exists []. rewrite app_nil_r. auto. }
    destruct (heard (envs 0)) as [text|] eqn:Eh; [|by apply Nothing].
    assert (trimmed (Some text) = Some text) as Tt.
    { unfold heard in Eh. destruct (sv_out (envs 0)) as [[out|]|]; [|done..]. by eapply trimmed_again. }
    rewrite Tt in H. destruct (resolve_announce_target _ _ _ _ _) as [target|] eqn:Er; [|by apply Nothing].
    destruct (is_announce_skip (Some text)) eqn:Es; [by apply Nothing|].
    destruct (send_announce_to_target _ _ _); [|by apply Nothing].
    pose proof (said_doing _ _ _ _ _ H) as E3. unfold doing in H. injection H as <- _. exists [Told target text].
    split; [done|]. split; [done|]. right. by exists target, text. }
  exists n. split; [lia|]. split; [done|]. split; [intros ?; destruct Stop; [lia|]; split; [lia|done]|].
  exists told. split; [|done]. by rewrite E3, E2, E, <- !app_assoc.
Qed.

(** * Usage adds up *)

Lemma fields_put fk st n key fields db db' : put_fields fk st n key fields db = Ok db' ->
  get_session_metadata key db'
    = foldl (fun m f => if String.eqb (trim f.1) "" then m else <[trim f.1 := f.2]> m) (get_session_metadata key db) fields
  /\ (forall k, k <> key -> get_session_metadata k db' = get_session_metadata k db)
  /\ db_sessions db' = db_sessions db /\ db_messages db' = db_messages db /\ db_agents db' = db_agents db.
Proof.
  revert n db. induction fields as [|[f v] fields IH]; intros n db; cbn [put_fields foldl fst snd].
  - destruct (st n); [done|]. by intros [= <-].
  - destruct (String.eqb (trim f) ""); [apply IH|]. destruct (fk_violated fk key db); [done|].
    destruct (st n); [done|]. intros (E & O & S & Me & A)%IH. rewrite E, S, Me, A. split; [|split; [|done]].
    + f_equal. unfold put_field, get_session_metadata. cbn [db_metadata set_metadata]. by rewrite lookup_insert_eq.
    + intros k N. rewrite O by done. unfold put_field, get_session_metadata. cbn [db_metadata set_metadata].
      by rewrite lookup_insert_ne.
Qed.

(** Fields written in any order. *)
Lemma written_fields (m : gmap string string) fields k :
  Forall (fun f => trim f.1 = f.1 /\ f.1 <> "") fields -> NoDup fields.*1 ->
  foldl (fun m f => if String.eqb (trim f.1) "" then m else <[trim f.1 := f.2]> m) m fields !! k
  = match bt_get k fields with Some v => Some v | None => m !! k end.
Proof.
  intros F D. revert m. induction F as [|[f v] fields [T Ne] F IH]; intros m; [done|].
  apply NoDup_cons in D as [Nin D]. cbn [foldl fst snd bt_get] in *. rewrite T, (proj2 (String.eqb_neq _ _) Ne), (IH D).
  destruct (String.eqb_spec k f) as [->|Nk].
  - destruct (bt_get f fields) as [w|] eqn:G; [|by rewrite lookup_insert_eq]. exfalso. apply Nin.
    clear -G. induction fields as [|[g u] fields IH]; [done|]. cbn [bt_get fmap list_fmap fst] in *.
    destruct (String.eqb_spec f g) as [->|]; [by left|right; by apply IH].
  - by rewrite lookup_insert_ne.
Qed.

Lemma bt_get_perm {A} (l l' : list (string * A)) k : NoDup l.*1 -> l ≡ₚ l' -> bt_get k l = bt_get k l'.
Proof.
  intros D P. induction P as [|[f v] l l' P IH|[f v] [g w] l|l1 l2 l3 P1 IH1 P2 IH2]; cbn [bt_get fmap list_fmap fst] in *.
  - done.
  - apply NoDup_cons in D as [_ D]. by rewrite IH.
  - apply NoDup_cons in D as [N _]. destruct (String.eqb_spec k f), (String.eqb_spec k g); try done.
    subst. destruct N. by left.
  - rewrite IH1 by done. apply IH2. by rewrite <- P1.
Qed.

Section adds_up.
Variable parse_f64 : string -> option f64.
Variable fmt8 : f64 -> string.
Variable fk : bool.
Variable order : list (string * string) -> list (string * string).
Hypothesis order_perm : forall l, order l ≡ₚ l.

(** What is read back: the cost goes through its text. *)
Definition kept (u : UsageSummary) : UsageSummary := {|
  input_tokens := input_tokens u; output_tokens := output_tokens u; cache_read_tokens := cache_read_tokens u;
  cache_write_tokens := cache_write_tokens u; total_calls := total_calls u;
  total_cost_usd := default (f64_of_Z 0) (parse_f64 (fmt8 (total_cost_usd u))) |}.

Lemma patch_names current u model now :
  Forall (fun f : string * string => trim f.1 = f.1 /\ f.1 <> "") (usage_patch parse_f64 fmt8 current u model now)
  /\ NoDup (usage_patch parse_f64 fmt8 current u model now).*1.
Proof.
  unfold usage_patch. destruct (trimmed (Some model)); cbn [option_list fmap option_fmap option_map app list_fmap fst];
    (split; [repeat constructor; done|apply (bool_decide_unpack _); vm_compute; exact Logic.I]).
Qed.

Lemma calls_u32 meta keys : (0 <= meta_u32 meta keys)%Z.
Proof.
  unfold meta_u32. destruct (meta_pick meta keys ≫= parse_unsigned u32_max) as [n|] eqn:E; [|done].
  apply bind_Some in E as (s & _ & E). cbn [default]. unfold parse_unsigned in E.
  set (digits := match s with String "+" s' => s' | _ => s end) in E.
  destruct (String.eqb digits ""); [done|]. apply bind_Some in E as (d & Ed & E).
  destruct (d <=? u32_max)%Z; [|done]. injection E as <-.
  assert (forall a, (0 <= a)%Z -> forall d, parse_digits a digits = Some d -> (0 <= d)%Z) as P; [|by eapply P in Ed].
  clear. induction digits as [|c digits IH]; intros a Ha d; cbn [parse_digits]; [by intros [= <-]|].
  intros (v & Hv & E)%bind_Some. eapply IH; [|exact E]. unfold digit_value in Hv. destruct (_ && _); [|done].
  injection Hv as <-. lia.
Qed.

(** One update of the usage of a session. *)
Lemma usage_written st now key u model db db' : (0 <= total_calls u)%Z ->
  apply_session_usage_delta parse_f64 fmt8 fk order st now key u model db = (Ok tt, db') ->
  usage_summary_from_metadata parse_f64 (get_session_metadata key db')
    = kept (merge_usage (usage_summary_from_metadata parse_f64 (get_session_metadata key db)) u)
  /\ (forall k, k <> key -> get_session_metadata k db' = get_session_metadata k db).
Proof.
  intros Hc. unfold apply_session_usage_delta, set_session_metadata_fields.
  set (meta := get_session_metadata key db). destruct (patch_names meta u model now) as [F D].
  set (fields := usage_patch parse_f64 fmt8 meta u model now) in *.
  assert (order fields <> []) as Ne.
  { intros E. pose proof (order_perm fields) as P. rewrite E in P. by apply Permutation_nil_l in P. }
  destruct (order fields) as [|f0 fs] eqn:Eo; [done|]. rewrite <- Eo. clear Ne f0 fs Eo.
  destruct (put_fields _ _ _ _ _ _) as [db1|] eqn:E; [|done]. intros [= <-].
  apply fields_put in E as (E & O & _). fold meta in E. split; [|exact O].
  assert (forall k, get_session_metadata key db1 !! k = match bt_get k fields with Some v => Some v | None => meta !! k end) as L.
  { intros k. rewrite E, written_fields; [|by rewrite (order_perm fields)..].
    rewrite (bt_get_perm (order fields) fields); [done| |apply order_perm]. by rewrite (order_perm fields). }
  set (merged := merge_usage (usage_summary_from_metadata parse_f64 meta) u).
  assert (is_i64 (input_tokens merged) /\ is_i64 (output_tokens merged) /\ is_i64 (cache_read_tokens merged)
    /\ is_i64 (cache_write_tokens merged)) as (R1 & R2 & R3 & R4) by (split_and!; apply sat_add_i64_range).
  assert (0 <= total_calls merged <= u32_max)%Z as R5.
  { unfold merged, merge_usage. cbn [total_calls usage_summary_from_metadata]. pose proof (calls_u32 meta ["usageTotalCalls"; "usage_total_calls"]). unfold u32_max in *. lia. }
  unfold usage_summary_from_metadata, meta_i64, meta_u32, meta_f64, meta_pick. cbn [omap list_omap]. rewrite !L.
  unfold fields, usage_patch. cbn [app bt_get String.eqb Ascii.eqb Bool.eqb]. fold merged. cbn [head mbind option_bind].
  rewrite !parse_pretty_i64 by done. rewrite parse_pretty by done. done.
Qed.

(** The turns of a session, each with the outcomes of its statements. *)
Record UsageTurn := { ut_st : nat -> option string; ut_now : Z; ut_usage : UsageSummary; ut_model : string }.

Fixpoint record_turns (key : string) (turns : list UsageTurn) (db : Db) : option Db :=
  match turns with
  | [] => Some db
  | t :: rest =>
      match apply_session_usage_delta parse_f64 fmt8 fk order (ut_st t) (ut_now t) key (ut_usage t) (ut_model t) db with
      | (Ok _, db1) => record_turns key rest db1
      | (Err _, _) => None
      end
  end.

Lemma merged_input (a : UsageSummary) turns :
  Forall (fun t => 0 <= input_tokens (ut_usage t))%Z turns -> (0 <= input_tokens a <= i64_max)%Z ->
  input_tokens (foldl (fun a t => kept (merge_usage a (ut_usage t))) a turns)
  = Z.min i64_max (input_tokens a + foldr (fun t n => input_tokens (ut_usage t) + n)%Z 0%Z turns)%Z.
Proof.
  intros F. revert a. induction F as [|t turns Ht F IH]; intros a Ha; cbn [foldl foldr]; [lia|].
  assert (0 <= foldr (fun t n => input_tokens (ut_usage t) + n)%Z 0%Z turns)%Z.
  { clear -F. induction F; cbn [foldr]; lia. }
  assert (input_tokens (kept (merge_usage a (ut_usage t))) = Z.min i64_max (input_tokens a + input_tokens (ut_usage t))) as E.
  { cbn [kept merge_usage input_tokens]. unfold sat_add_i64, i64_min, i64_max in *. lia. }
  rewrite IH; rewrite E; unfold i64_max in *; lia.
Qed.

(** C32. The usage kept with a session adds up: after turns whose writes succeed, one
    after the other, what is read back is the merge of theirs, each cost as its
    text gives it; the input tokens are the exact sum, cut off at the largest
    [i64]; and no other session's metadata changes. *)
Theorem usage_adds_up key turns db db' :
  Forall (fun t => 0 <= total_calls (ut_usage t) /\ 0 <= input_tokens (ut_usage t))%Z turns ->
  (0 <= input_tokens (usage_summary_from_metadata parse_f64 (get_session_metadata key db)) <= i64_max)%Z ->
  record_turns key turns db = Some db' ->
  let before := usage_summary_from_metadata parse_f64 (get_session_metadata key db) in
  let after := usage_summary_from_metadata parse_f64 (get_session_metadata key db') in
  after = foldl (fun a t => kept (merge_usage a (ut_usage t))) before turns
  /\ input_tokens after
     = Z.min i64_max (input_tokens before + foldr (fun t n => input_tokens (ut_usage t) + n)%Z 0%Z turns)%Z
  /\ (forall k, k <> key -> get_session_metadata k db' = get_session_metadata k db).
Proof.
  intros F Hb R. cbv zeta.
  assert (usage_summary_from_metadata parse_f64 (get_session_metadata key db')
    = foldl (fun a t => kept (merge_usage a (ut_usage t)))
        (usage_summary_from_metadata parse_f64 (get_session_metadata key db)) turns
    /\ (forall k, k <> key -> get_session_metadata k db' = get_session_metadata k db)) as [E O].
  { clear Hb. revert db R. induction F as [|t turns [Hc _] F IH]; intros db; cbn [record_turns foldl].
    - by intros [= ->].
    - destruct (apply_session_usage_delta _ _ _ _ _ _ _ _ _ _) as [[[]|] db1] eqn:Ea; [|done].
      destruct (usage_written _ _ _ _ _ _ _ Hc Ea) as [E1 O1]. intros [E O]%IH. rewrite E, E1.
      split; [done|]. intros k N. by rewrite O, O1. }
  split; [done|]. split; [|done]. rewrite E. apply merged_input; [|done].
  eapply Forall_impl; [exact F|]. by intros t [_ ?].
Qed.
End adds_up.

(** * At work *)

Definition plain (s : string) : AgentReplyDetailed := {|
  rd_reply := s; rd_model := ""; rd_usage := {|
    input_tokens := 10; output_tokens := 1; cache_read_tokens := 0; cache_write_tokens := 0; total_calls := 1;
    total_cost_usd := f64_of_Z 0 |} |}.
Definition answering (s : string) : StepEnv := {|
  sv_now := 7; sv_st := fun _ => None; sv_turn := fun db => db; sv_out := Some (Ok (plain s)) |}.
Definition no_cost : string -> option f64 := fun _ => None.
Definition cost_text : f64 -> string := fun _ => "0.00000000".
Definition any_rows (m : gmap string SessionInfo) : list SessionInfo := (map_to_list m).*2.
Definition helper (session : option string) : Executor := {|
  xe_session_id := session; xe_manager := true; xe_provider := Some "model"; xe_config := None;
  xe_prompt := fun _ => "You are a helper." |}.

Definition two_sessions : Db :=
  let made key db := (create_session (fun _ => None) key "default" 1 db).2 in
  put_field "agent:a:subagent:1" "label" "scan"
    (put_field "agent:a:subagent:1" "spawnedBy" "agent:a:main"
       (put_field "agent:a:main" "delivery.to" "channel:C1" (put_field "agent:a:main" "delivery.channel" "slack"
          (made "agent:a:subagent:1" (made "agent:a:main" Db_empty))))).

Definition sending (session : option string) (v : json) : result (json * option Flow) string * SendState :=
  fulfill_sessions_send true any_rows (fun l => l) no_cost cost_text (fun s => s) (fun _ _ => None)
    (helper session) (answering "done") "run" v {| ss_db := two_sessions; ss_log := [] |}.

Definition written (r : result (json * option Flow) string * SendState) : list (string * string) :=
  omap (fun e => match e with Wrote key _ text => Some (key, text) | _ => None end) (ss_log r.2).

(** The label is looked up only when there is no session of one's own: else the
    message goes to oneself. *)
Definition to_scan : json := jobject [("label", JStr "scan"); ("message", JStr "go")].
Example label_ignored :
  written (sending (Some "agent:a:main") to_scan) = [("agent:a:main", "go"); ("agent:a:main", "done")].
Proof. vm_compute. reflexivity. Qed.

(** A session of another agent is refused. *)
Example other_agent_refused :
  sending (Some "agent:b:main") (jobject [("sessionKey", JStr "agent:a:main"); ("message", JStr "go")])
  = (Ok (answer "agent:a:main" "forbidden"
           [("error", JStr "Session send visibility is restricted. Set tools.sessions.visibility=all to allow cross-agent access.")], None),
     {| ss_db := two_sessions; ss_log := [] |}).
Proof. vm_compute. reflexivity. Qed.

(** Two turns, and the announcement in the target's channel. *)
Definition replies (t : nat) : StepEnv := match t with 1 => answering "why?" | 2 => answering "REPLY_SKIP" | _ => answering "all done" end.
Definition slack : AnEnv := {|
  ae_now := 7; ae_uuid := "m"; ae_channels := Some ["slack"]; ae_sent := Ok "" |}.
Definition talk : result unit string * SendState :=
  run_sessions_send_a2a_flow true any_rows (fun l => l) no_cost cost_text (fun _ => false) (helper (Some "agent:a:subagent:1"))
    replies "agent:a:main" "agent:a:main" 5 (Some "agent:a:subagent:1") None slack "go" (Some "done")
    {| ss_db := two_sessions; ss_log := [] |}.

Definition c1 : AnnounceTarget := {|
  at_channel := "slack"; at_to := "channel:C1"; at_account_id := None; at_thread_id := None |}.
Example two_turns : talk.1 = Ok tt /\ said talk.2 =
  [Asked "agent:a:subagent:1" "done"; Asked "agent:a:main" "why?";
   Asked "agent:a:main" "Agent-to-agent announce step."; Told c1 "all done"].
Proof. vm_compute. done. Qed.

Lemma a2a_conversation_witness :
  exists n, n <= 5 /\ (n < 5 -> 0 < n /\ ~ goes_on (replies n))
  /\ exists told, said talk.2 = turns replies "agent:a:subagent:1" "agent:a:main" "done" n
       ++ [Asked "agent:a:main" "Agent-to-agent announce step."] ++ told.
Proof.
  destruct (a2a_conversation true any_rows (fun l => l) no_cost cost_text (fun _ => false)
    (helper (Some "agent:a:subagent:1")) replies "agent:a:main" "agent:a:main" 5 "agent:a:subagent:1" None slack "go"
    "done" "done" {| ss_db := two_sessions; ss_log := [] |} talk.1 talk.2)
    as (n & Hn & _ & H); [reflexivity|discriminate|reflexivity|apply surjective_pairing|].
  exists n. split; [exact Hn|]. destruct talk.1 as [[]|e] eqn:E; [|vm_compute in E; discriminate].
  destruct H as [Hs (told & H & _)]. split; [exact Hs|]. exists told. exact H.
Defined.

(** Two turns at once: both read the usage before either writes it, and one is lost. *)
Definition patched (db : Db) (meta : gmap string string) (u : UsageSummary) : Db :=
  default db (match put_fields true (fun _ => None) 0 "agent:a:main" (usage_patch no_cost cost_text meta u "m" 7) db with
              | Ok db => Some db | Err _ => None end).
Example lost_usage :
  let meta := get_session_metadata "agent:a:main" two_sessions in
  let u := rd_usage (plain "") in
  let both := patched (patched two_sessions meta u) meta u in
  input_tokens (usage_summary_from_metadata no_cost (get_session_metadata "agent:a:main" both)) = 10%Z.
Proof. vm_compute. reflexivity. Qed.

Definition two_usages : list UsageTurn :=
  let t := {| ut_st := fun _ => None; ut_now := 7; ut_usage := rd_usage (plain ""); ut_model := "m" |} in [t; t].
Lemma usage_adds_up_witness : exists db', record_turns no_cost cost_text true (fun l => l) "agent:a:main" two_usages two_sessions = Some db'
  /\ input_tokens (usage_summary_from_metadata no_cost (get_session_metadata "agent:a:main" db')) = 20%Z.
Proof.
  destruct (record_turns no_cost cost_text true (fun l => l) "agent:a:main" two_usages two_sessions) as [db'|] eqn:E;
    [|vm_compute in E; discriminate].
  exists db'. split; [reflexivity|].
  rewrite (proj1 (proj2 (usage_adds_up no_cost cost_text true (fun l => l) (fun l => Permutation_refl l) "agent:a:main"
    two_usages two_sessions db' ltac:(repeat constructor; vm_compute; discriminate) ltac:(vm_compute; split; discriminate) E))).
  reflexivity.
Defined.
