(* ===== verification/SubagentCleanup.v ===== *)
(** Ending a subagent run in the gateway
    ([crates/gateway-core/src/http/agent_bridge.rs]): the task of a run, the
    clean-up flow with its announcement and retries, timers, resuming, killing and
    steering.

    Threads take steps; a step is one critical section on the registry, or what
    happens outside between two of them, whose results come from the environment. *)

From Stdlib Require Import Strings.String.
From S2P Require Import Prelude RustStr Json Usage SessionStore Gate Outbound SessionBindings SubagentRuns AnnounceQueue SubagentReport.
#[local] Open Scope string_scope.
#[local] Open Scope nat_scope.
#[local] Open Scope list_scope.

(** * Entries *)

(** The entry with new values of the fields that change after it is made. *)
Definition rebuild (e : SubagentRunEntry) (status : string) (error : option string) (ended : option Z)
    (usage : option UsageSummary) (reply suppress : option string) (count : Z) (last : option Z)
    (handled : bool) (completed : option Z) (reason : option string) (hook archive : option Z)
  : SubagentRunEntry := {|
  se_run_id := se_run_id e; se_requester_session_key := se_requester_session_key e;
  se_child_session_key := se_child_session_key e; se_label := se_label e; se_task := se_task e;
  se_model := se_model e; se_started_at_ms := se_started_at_ms e; se_ended_at_ms := ended;
  se_status := status; se_error := error; se_usage := usage; se_completion_reply := reply;
  se_spawn_mode := se_spawn_mode e; se_cleanup := se_cleanup e;
  se_thread_requested := se_thread_requested e;
  se_expects_completion_message := se_expects_completion_message e;
  se_suppress_announce_reason := suppress; se_announce_retry_count := count;
  se_last_announce_retry_at_ms := last; se_cleanup_handled := handled;
  se_cleanup_completed_at_ms := completed; se_ended_reason := reason; se_ended_hook_emitted_at_ms := hook;
  se_run_timeout_seconds := se_run_timeout_seconds e; se_archive_at_ms := archive |}.

Definition set_cleanup (handled : bool) (completed : option Z) (e : SubagentRunEntry) : SubagentRunEntry :=
  rebuild e (se_status e) (se_error e) (se_ended_at_ms e) (se_usage e) (se_completion_reply e)
    (se_suppress_announce_reason e) (se_announce_retry_count e) (se_last_announce_retry_at_ms e)
    handled completed (se_ended_reason e) (se_ended_hook_emitted_at_ms e) (se_archive_at_ms e).

Definition set_retry (count : Z) (last : option Z) (e : SubagentRunEntry) : SubagentRunEntry :=
  rebuild e (se_status e) (se_error e) (se_ended_at_ms e) (se_usage e) (se_completion_reply e)
    (se_suppress_announce_reason e) count last (se_cleanup_handled e) (se_cleanup_completed_at_ms e)
    (se_ended_reason e) (se_ended_hook_emitted_at_ms e) (se_archive_at_ms e).

Definition set_hook (at_ms : Z) (e : SubagentRunEntry) : SubagentRunEntry :=
  rebuild e (se_status e) (se_error e) (se_ended_at_ms e) (se_usage e) (se_completion_reply e)
    (se_suppress_announce_reason e) (se_announce_retry_count e) (se_last_announce_retry_at_ms e)
    (se_cleanup_handled e) (se_cleanup_completed_at_ms e) (se_ended_reason e) (Some at_ms) (se_archive_at_ms e).

(** How the task of a run ends. *)
Inductive RunEnd :=
| EndDone (reply : string) (usage : UsageSummary)
| EndFailed (err : string)
| EndTimeout.

Definition end_run (now : Z) (o : RunEnd) (e : SubagentRunEntry) : SubagentRunEntry :=
  let with_ status error usage reply reason :=
    rebuild e status error (Some now) usage reply (se_suppress_announce_reason e) (se_announce_retry_count e)
      (se_last_announce_retry_at_ms e) false None (Some reason) (se_ended_hook_emitted_at_ms e)
      (se_archive_at_ms e) in
  match o with
  | EndDone reply usage => with_ "done" (se_error e) (Some usage) (trimmed (Some reply)) "subagent-complete"
  | EndFailed err => with_ "failed" (Some err) (se_usage e) (se_completion_reply e) "subagent-error"
  | EndTimeout => with_ "timeout" (Some "subagent timed out") (se_usage e) (se_completion_reply e) "subagent-error"
  end.

(** Killed, or steered: over at once, without an announcement. *)
Definition stopped (now : Z) (status error suppress : string) (e : SubagentRunEntry) : SubagentRunEntry :=
  rebuild e status (Some error) (Some now) (se_usage e) (se_completion_reply e) (Some suppress)
    (se_announce_retry_count e) (se_last_announce_retry_at_ms e) true (Some now) (Some "subagent-killed")
    (se_ended_hook_emitted_at_ms e)
    (match se_archive_at_ms e with None => Some (sat_add_i64 now (60 * 60000)) | a => a end).
Definition killed (now : Z) : SubagentRunEntry -> SubagentRunEntry :=
  stopped now "killed" "killed by subagents tool" "killed".
Definition steered (now : Z) : SubagentRunEntry -> SubagentRunEntry :=
  stopped now "steered" "interrupted for steer restart" "steer-restart".

Definition begin_subagent_cleanup (run_id : string) (runs : Runs) : option Runs :=
  e ← runs !! run_id;
  if bool_decide (is_Some (se_cleanup_completed_at_ms e)) || se_cleanup_handled e then None
  else Some (<[run_id := set_cleanup true (se_cleanup_completed_at_ms e) e]> runs).

(** Which runs are resumed, and after how long. *)
Definition pending_cleanup (now : Z) (e : SubagentRunEntry) : option (string * Z) :=
  if active e || bool_decide (is_Some (se_cleanup_completed_at_ms e)) || se_cleanup_handled e then None
  else
    let delay := resolve_subagent_announce_retry_delay_ms (Z.max 1 (se_announce_retry_count e)) in
    let earliest := sat_add_i64 (default 0%Z (se_last_announce_retry_at_ms e)) delay in
    Some (se_run_id e, Z.max 0 (clamp_i64 (earliest - now)%Z)).

(** * The clean-up flow *)

(** Where the flow goes on after the ended hook: clean up, or nothing more (kill). *)
Definition After := option (string * Z).

Inductive FlowPc :=
| FlBegin
| FlRead
| FlChildren (e : SubagentRunEntry) (now : Z)
| FlPostpone (now : Z)
| FlAnnounce (e : SubagentRunEntry) (now : Z)
| FlGiveUp (count now : Z)
| FlRetry (count now : Z)
| FlSchedule (delay : Z)
| FlHook (k : After)
| FlHookCall (k : After) (child payload : string)
| FlHookPatch (k : After)
| FlHandle (mode : string) (now : Z)
| FlFinal (mode : string) (now : Z)
| FlDelete (child : string).

(** What tells the requester. *)
Inductive Announcement :=
| Injected (key message : string)
| Direct (target : AnnounceTarget) (text : string)
| AlreadyMade
| Queued (key : string) (item : SubagentAnnounceQueueItem).

Inductive Effect :=
| LAttempt (run_id : string)
| LAnnounced (run_id : string) (a : Announcement)
| LHook (run_id child payload : string).

Record ClState := {
  cl_runs : Runs;
  cl_timers : gset string;
  cl_handles : gmap string nat;
  cl_aborted : gset nat;
  cl_db : Db;
}.

Definition put_runs (x : Runs) (s : ClState) : ClState := {|
  cl_runs := x; cl_timers := cl_timers s; cl_handles := cl_handles s; cl_aborted := cl_aborted s; cl_db := cl_db s |}.
Definition put_timers (x : gset string) (s : ClState) : ClState := {|
  cl_runs := cl_runs s; cl_timers := x; cl_handles := cl_handles s; cl_aborted := cl_aborted s; cl_db := cl_db s |}.
Definition put_handles (x : gmap string nat) (a : gset nat) (s : ClState) : ClState := {|
  cl_runs := cl_runs s; cl_timers := cl_timers s; cl_handles := x; cl_aborted := a; cl_db := cl_db s |}.
Definition put_cdb (x : Db) (s : ClState) : ClState := {|
  cl_runs := cl_runs s; cl_timers := cl_timers s; cl_handles := cl_handles s; cl_aborted := cl_aborted s; cl_db := x |}.

(** What a step gets from outside.  [ce_seen]: the registry as the reads of the
    announcement see it, at different times; [ce_reply] is the output found or
    waited for; [ce_injected] the answer of the requester's agent ([None]: no
    model provider); [ce_delivered] the memory of announcements made. *)
Record ClEnv := {
  ce_now : Z;
  ce_st : nat -> option string;
  ce_hooks : bool;
  ce_end : RunEnd;
  ce_store : Db -> Db;
  ce_reply : option string;
  ce_active : bool;
  ce_alive : bool;
  ce_parent : option string;
  ce_siblings : nat;
  ce_injected : option (result (option string) string);
  ce_route : option AnnounceTarget * string;
  ce_delivered : bool;
  ce_sent : result (option ChannelMessage) string;
  ce_settings : SubagentAnnounceQueueSettings;
  ce_queue : option SubagentAnnounceQueueState;
}.

Definition completion_text (env : ClEnv) (e : SubagentRunEntry) (now : Z) : string :=
  build_subagent_completion_announce_text (se_label e) (se_spawn_mode e) (se_status e) (se_error e)
    (ce_reply env) (se_usage e) (clamp_i64 (default now (se_ended_at_ms e) - se_started_at_ms e)%Z).

(** Telling the requester directly; and the target, when there is one. *)
Definition announce_directly (env : ClEnv) (e : SubagentRunEntry) (key text : string) (is_subagent missing : bool)
  : option Announcement * option AnnounceTarget :=
  if bool_decide (se_suppress_announce_reason e = Some "killed") || missing then (None, None)
  else if is_subagent then
    let message := injected_message e text
      (build_subagent_announce_reply_instruction (ce_siblings env) true (se_expects_completion_message e)) in
    (match ce_injected env with
     | Some (Ok reply) =>
         if match reply with Some t => negb (is_reply_skip (Some t)) | None => true end
         then Some (Injected key message) else None
     | _ => None
     end, None)
  else
    let '(target, mode) := ce_route env in
    (if ce_delivered env then Some AlreadyMade
     else if should_defer_completion_direct_delivery (ce_siblings env) (se_spawn_mode e) mode then None
     else match target with
          | Some t => match ce_sent env with Ok _ => Some (Direct t text) | Err _ => None end
          | None => None
          end, target).

(** The announcement made, directly or by the queue of the requester. *)
Definition announce (env : ClEnv) (e : SubagentRunEntry) (now : Z) : option Announcement :=
  let '(key, is_subagent, missing) :=
    resolve_report_target (se_requester_session_key e) (ce_active env) (ce_alive env) (ce_parent env) in
  let text := completion_text env e now in
  match announce_directly env e key text is_subagent missing with
  | (Some a, _) => Some a
  | (None, Some target) =>
      if se_expects_completion_message e && negb is_subagent then
        let item := {| qi_run_id := se_run_id e; qi_prompt := text; qi_summary_line := Some (se_label e);
                       qi_enqueued_at_ms := now; qi_session_key := key; qi_target := Some target;
                       qi_origin_key := None |} in
        if (enqueue_subagent_announce (ce_now env) item (ce_settings env) (ce_queue env)).1.2
        then Some (Queued key item) else None
      else None
  | (None, None) => None
  end.

Definition hook_outcome (status : string) : string :=
  if String.eqb status "failed" then "error"
  else if String.eqb status "timeout" then "timeout"
  else if String.eqb status "killed" then "killed" else "ok".

(** The hook for an ended run, unless it is kept open or the hook was called. *)
Definition ended_hook (env : ClEnv) (o : option SubagentRunEntry) : option (string * json) :=
  if ce_hooks env then
    e ← o;
    if eq_ignore_ascii_case (se_spawn_mode e) "session" || bool_decide (is_Some (se_ended_hook_emitted_at_ms e))
    then None
    else Some (se_child_session_key e, jobject [
      ("run_id", JStr (se_run_id e)); ("status", JStr (se_status e));
      ("reason", JStr (default "subagent-complete" (se_ended_reason e)));
      ("outcome", JStr (hook_outcome (se_status e))); ("error", jopt JStr (se_error e))])
  else None.

Record Out := {
  o_next : option FlowPc;
  o_state : ClState;
  o_log : list Effect;
  o_timer : bool;
}.

Definition patch_run (run_id : string) (f : SubagentRunEntry -> SubagentRunEntry) (s : ClState) : ClState :=
  put_runs (alter f run_id (cl_runs s)) s.

Section flow.
(** Foreign keys enforced; the iteration order of the registry; the text of a JSON value. *)
Variable fk : bool.
Variable values : Runs -> list SubagentRunEntry.
Variable to_text : json -> string.

Definition goto (pc : FlowPc) (s : ClState) : Out := {| o_next := Some pc; o_state := s; o_log := []; o_timer := false |}.
Definition finish (s : ClState) : Out := {| o_next := None; o_state := s; o_log := []; o_timer := false |}.
Definition after_hook (k : After) (s : ClState) : Out :=
  match k with Some (mode, now) => goto (FlHandle mode now) s | None => finish s end.

Definition expired (e : SubagentRunEntry) (now : Z) : bool :=
  (SUBAGENT_ANNOUNCE_EXPIRY_MS <? clamp_i64 (now - default now (se_ended_at_ms e)))%Z.

(** What follows an announcement that was not made. *)
Definition retry_or_give_up (e : SubagentRunEntry) (now : Z) : FlowPc :=
  let count := Z.min u32_max (se_announce_retry_count e + 1) in
  if (SUBAGENT_MAX_ANNOUNCE_RETRY_COUNT <=? count)%Z || expired e now
  then FlGiveUp count now else FlRetry count now.

(** A timer is started unless the run has one. *)
Definition schedule_subagent_cleanup_retry (r : string) (s : ClState) : Out :=
  {| o_next := None; o_log := [];
     o_state := put_timers ({[r]} ∪ cl_timers s) s; o_timer := negb (bool_decide (r ∈ cl_timers s)) |}.

(** The second half of [finalize_subagent_cleanup], under the registry's lock. *)
Definition finalize_entry (r mode : string) (now : Z) (s : ClState) : Out :=
  if eq_ignore_ascii_case mode "delete" then
    match cl_runs s !! r with
    | Some e => goto (FlDelete (se_child_session_key e)) (put_runs (delete r (cl_runs s)) s)
    | None => finish s
    end
  else finish (patch_run r (set_cleanup true (Some now)) s).

Definition flow_step (env : ClEnv) (r : string) (pc : FlowPc) (s : ClState) : Out :=
  match pc with
  | FlBegin =>
      match begin_subagent_cleanup r (cl_runs s) with
      | Some runs => goto FlRead (put_runs runs s)
      | None => finish s
      end
  | FlRead =>
      match cl_runs s !! r with
      | None => finish s
      | Some e =>
          if bool_decide (is_Some (se_cleanup_completed_at_ms e))
             || bool_decide (se_suppress_announce_reason e = Some "steer-restart")
          then finish s
          else goto (if se_expects_completion_message e then FlChildren e (ce_now env)
                     else FlAnnounce e (ce_now env)) s
      end
  | FlChildren e now =>
      let s' := put_runs (sweep_archived_subagent_runs (ce_now env) (cl_runs s)) s in
      if 0 <? count_active_descendant_runs values (ce_now env) (se_child_session_key e) (cl_runs s)
      then goto (if expired e now then FlHook (Some ("keep", now)) else FlPostpone now) s'
      else goto (FlAnnounce e now) s'
  | FlPostpone now =>
      goto (FlSchedule SUBAGENT_MIN_ANNOUNCE_RETRY_DELAY_MS)
        (patch_run r (fun e => set_retry (se_announce_retry_count e) (Some now)
                                 (set_cleanup false (se_cleanup_completed_at_ms e) e)) s)
  | FlAnnounce e now =>
      let s' := put_cdb (ce_store env (cl_db s)) s in
      let made := announce env e now in
      let next :=
        if bool_decide (is_Some made) || negb (se_expects_completion_message e)
        then FlHook (Some (se_cleanup e, now))
        else retry_or_give_up e now in
      {| o_next := Some next; o_state := s';
         o_log := LAttempt r :: option_list (LAnnounced r <$> made); o_timer := false |}
  | FlGiveUp count now => goto (FlHook (Some ("keep", now))) (patch_run r (set_retry count (Some now)) s)
  | FlRetry count now =>
      goto (FlSchedule (resolve_subagent_announce_retry_delay_ms count))
        (patch_run r (fun e => set_cleanup false (se_cleanup_completed_at_ms e) (set_retry count (Some now) e)) s)
  | FlSchedule _ => schedule_subagent_cleanup_retry r s
  | FlHook k =>
      match ended_hook env (cl_runs s !! r) with
      | Some (child, payload) => goto (FlHookCall k child (to_text payload)) s
      | None => after_hook k s
      end
  | FlHookCall k child payload =>
      {| o_next := Some (FlHookPatch k); o_state := s; o_log := [LHook r child payload]; o_timer := false |}
  | FlHookPatch k => after_hook k (patch_run r (set_hook (ce_now env)) s)
  | FlHandle mode now => goto (FlFinal mode now) (put_handles (delete r (cl_handles s)) (cl_aborted s) s)
  | FlFinal mode now => finalize_entry r mode now s
  | FlDelete child => finish (put_cdb (remove_session fk (ce_st env) child (cl_db s)).2 s)
  end.

(** * Threads *)

(** A starter registers the abort handle of the task; the task runs the model,
    ends the run, cleans up and releases the handle; a timer sleeps and cleans up;
    kill and steer stop the task and patch the entry; resuming schedules timers. *)
Inductive ThreadPc :=
| PcRegister (task : nat)
| PcModel
| PcRelease
| PcSleep
| PcFlow (pc : FlowPc)
| PcResume (delay : Z) (rest : list (string * Z))
| PcKill (e : SubagentRunEntry)
| PcKillPatch (e : SubagentRunEntry) (now : Z)
| PcKillRemove (e : SubagentRunEntry)
| PcSteer
| PcSteerPatch (now : Z)
| PcSteerDrop.

Record Thread := { th_run : string; th_task : bool; th_pc : ThreadPc }.

Definition timer (r : string) : Thread := {| th_run := r; th_task := false; th_pc := PcSleep |}.
Definition resume_thread (todo : list (string * Z)) : option Thread :=
  match todo with
  | (r, delay) :: rest => Some {| th_run := r; th_task := false; th_pc := PcResume delay rest |}
  | [] => None
  end.

Record Step := {
  sp_thread : option Thread;
  sp_state : ClState;
  sp_log : list Effect;
  sp_timer : option Thread;
}.

Definition step_to (th : option Thread) (s : ClState) : Step :=
  {| sp_thread := th; sp_state := s; sp_log := []; sp_timer := None |}.

(** Taking the abort handle of a run, and aborting its task. *)
Definition abort_run (r : string) (s : ClState) : ClState :=
  put_handles (delete r (cl_handles s))
    (match cl_handles s !! r with Some t => {[t]} ∪ cl_aborted s | None => cl_aborted s end) s.

Definition step_thread (env : ClEnv) (th : Thread) (s : ClState) : Step :=
  let r := th_run th in
  let at_ pc := Some {| th_run := r; th_task := th_task th; th_pc := pc |} in
  match th_pc th with
  | PcRegister task => step_to None (put_handles (<[r := task]> (cl_handles s)) (cl_aborted s) s)
  | PcModel => step_to (at_ (PcFlow FlBegin)) (patch_run r (end_run (ce_now env) (ce_end env)) s)
  | PcRelease => step_to None (put_handles (delete r (cl_handles s)) (cl_aborted s) s)
  | PcSleep => step_to (at_ (PcFlow FlBegin)) (put_timers (cl_timers s ∖ {[r]}) s)
  | PcFlow pc =>
      let o := flow_step env r pc s in
      {| sp_thread := match o_next o with
                      | Some pc => at_ (PcFlow pc)
                      | None => if th_task th then at_ PcRelease else None
                      end;
         sp_state := o_state o; sp_log := o_log o;
         sp_timer := if o_timer o then Some (timer r) else None |}
  | PcResume delay rest =>
      let o := flow_step env r (FlSchedule delay) s in
      {| sp_thread := resume_thread rest; sp_state := o_state o; sp_log := [];
         sp_timer := if o_timer o then Some (timer r) else None |}
  | PcKill e => step_to (at_ (PcKillPatch e (ce_now env))) (abort_run r s)
  | PcKillPatch e now =>
      step_to (at_ (if eq_ignore_ascii_case (se_cleanup e) "delete" then PcKillRemove e else PcFlow (FlHook None)))
        (patch_run r (killed now) s)
  | PcKillRemove e =>
      step_to (at_ (PcFlow (FlHook None)))
        (put_cdb (remove_session fk (ce_st env) (se_child_session_key e) (cl_db s)).2 s)
  | PcSteer => step_to (at_ (PcSteerPatch (ce_now env))) (abort_run r s)
  | PcSteerPatch now => step_to (at_ PcSteerDrop) (patch_run r (steered now) s)
  | PcSteerDrop => step_to None (put_runs (delete r (cl_runs s)) s)
  end.

(** What starts a run. *)
Record RunSpec := {
  rs_requester : string; rs_child : string; rs_label : string; rs_task : string; rs_model : string;
  rs_timeout : Z; rs_mode : string; rs_cleanup : string; rs_thread : bool; rs_expects : bool;
  rs_archive : option Z;
}.

Definition new_entry (now : Z) (r : string) (sp : RunSpec) : SubagentRunEntry := {|
  se_run_id := r; se_requester_session_key := rs_requester sp; se_child_session_key := rs_child sp;
  se_label := rs_label sp; se_task := rs_task sp; se_model := rs_model sp; se_started_at_ms := now;
  se_ended_at_ms := None; se_status := "running"; se_error := None; se_usage := None;
  se_completion_reply := None; se_spawn_mode := rs_mode sp; se_cleanup := rs_cleanup sp;
  se_thread_requested := rs_thread sp; se_expects_completion_message := rs_expects sp;
  se_suppress_announce_reason := None; se_announce_retry_count := 0; se_last_announce_retry_at_ms := None;
  se_cleanup_handled := false; se_cleanup_completed_at_ms := None; se_ended_reason := None;
  se_ended_hook_emitted_at_ms := None; se_run_timeout_seconds := rs_timeout sp;
  se_archive_at_ms := rs_archive sp |}.

Record Conf := {
  cf_state : ClState;
  cf_threads : gmap nat Thread;
  cf_next : nat;
  cf_used : gset string;
  cf_log : list Effect;
}.

(** What happens next: a thread takes a step, or an aborted task ends; a run is
    started under an id not used before; kill and steer of a run with an entry;
    resuming what is pending; sweeping; other changes of the database. *)
Inductive Move :=
| MStep (k : nat) (env : ClEnv)
| MAbort (k : nat)
| MStart (now : Z) (r : string) (sp : RunSpec)
| MKill (r : string)
| MSteer (r : string)
| MResume (now : Z)
| MSweep (now : Z)
| MDb (db : Db).

Definition with_state (s : ClState) (c : Conf) : Conf := {|
  cf_state := s; cf_threads := cf_threads c; cf_next := cf_next c; cf_used := cf_used c; cf_log := cf_log c |}.
Definition add_thread (th : option Thread) (c : Conf) : Conf :=
  match th with
  | Some th => {| cf_state := cf_state c; cf_threads := <[cf_next c := th]> (cf_threads c);
                  cf_next := S (cf_next c); cf_used := cf_used c; cf_log := cf_log c |}
  | None => c
  end.

Definition move (m : Move) (c : Conf) : option Conf :=
  let s := cf_state c in
  match m with
  | MStep k env =>
      th ← cf_threads c !! k;
      let o := step_thread env th s in
      Some (add_thread (sp_timer o) {|
        cf_state := sp_state o; cf_threads := partial_alter (const (sp_thread o)) k (cf_threads c);
        cf_next := cf_next c; cf_used := cf_used c; cf_log := sp_log o ++ cf_log c |})
  | MAbort k =>
      if bool_decide (k ∈ cl_aborted s) then
        Some {| cf_state := s; cf_threads := delete k (cf_threads c); cf_next := cf_next c;
                cf_used := cf_used c; cf_log := cf_log c |}
      else None
  | MStart now r sp =>
      if bool_decide (r ∈ cf_used c) then None
      else
        let task := cf_next c in
        Some (add_thread (Some {| th_run := r; th_task := false; th_pc := PcRegister task |})
          (add_thread (Some {| th_run := r; th_task := true; th_pc := PcModel |}) {|
             cf_state := put_runs (<[r := new_entry now r sp]> (cl_runs s)) s;
             cf_threads := cf_threads c; cf_next := cf_next c; cf_used := {[r]} ∪ cf_used c;
             cf_log := cf_log c |}))
  | MKill r =>
      e ← cl_runs s !! r; Some (add_thread (Some {| th_run := r; th_task := false; th_pc := PcKill e |}) c)
  | MSteer r =>
      e ← cl_runs s !! r; Some (add_thread (Some {| th_run := r; th_task := false; th_pc := PcSteer |}) c)
  | MResume now => Some (add_thread (resume_thread (omap (pending_cleanup now) (values (cl_runs s)))) c)
  | MSweep now => Some (with_state (put_runs (sweep_archived_subagent_runs now (cl_runs s)) s) c)
  | MDb db => Some (with_state (put_cdb db s) c)
  end.

Inductive Reach (c : Conf) : Conf -> Prop :=
| reach_refl : Reach c c
| reach_move c' c'' m : Reach c c' -> move m c' = Some c'' -> Reach c c''.

Fixpoint run_moves (ms : list Move) (c : Conf) : option Conf :=
  match ms with
  | [] => Some c
  | m :: rest => c' ← move m c; run_moves rest c'
  end.
End flow.

(** After loading: entries from the file, no thread. *)
Definition start_conf (runs : Runs) (db : Db) : Conf := {|
  cf_state := {| cl_runs := runs; cl_timers := ∅; cl_handles := ∅; cl_aborted := ∅; cl_db := db |};
  cf_threads := ∅; cf_next := 0; cf_used := dom runs; cf_log := [] |}.

(** From after the begin of a clean-up to its end. *)
Definition cleaning (pc : ThreadPc) : bool :=
  match pc with
  | PcFlow (FlBegin | FlSchedule _ | FlDelete _ | FlHook None | FlHookCall None _ _ | FlHookPatch None) => false
  | PcFlow _ => true
  | _ => false
  end.

Definition cleans (r : string) (th : Thread) : bool := String.eqb (th_run th) r && cleaning (th_pc th).

Definition attempts (r : string) (l : list Effect) : nat :=
  length (retain (fun x => match x with LAttempt r' => String.eqb r' r | _ => false end) l).
Definition announcements (r : string) (l : list Effect) : nat :=
  length (retain (fun x => match x with LAnnounced r' _ => String.eqb r' r | _ => false end) l).

(** * Lemmas *)

(** What a thread does for a run: its model, waiting for a clean-up, cleaning. *)
Inductive Role := RModel | RWait | RHold (pc : FlowPc).

Definition flow_role (pc : FlowPc) : option Role :=
  match pc with
  | FlBegin | FlSchedule _ => Some RWait
  | _ => if cleaning (PcFlow pc) then Some (RHold pc) else None
  end.

Definition role (r : string) (th : Thread) : option Role :=
  match th_pc th with
  | PcResume _ rest => if bool_decide (r ∈ th_run th :: rest.*1) then Some RWait else None
  | PcModel => if String.eqb (th_run th) r then Some RModel else None
  | PcSleep => if String.eqb (th_run th) r then Some RWait else None
  | PcFlow pc => if String.eqb (th_run th) r then flow_role pc else None
  | _ => None
  end.

Abbreviation Roles := (nat -> option Role).
Definition roles (r : string) (threads : gmap nat Thread) : Roles := fun k => threads !! k ≫= role r.

(** No more attempts than the entry counts, and not yet three. *)
Definition budget (a : nat) (e : SubagentRunEntry) : Prop :=
  (Z.of_nat a <= se_announce_retry_count e < SUBAGENT_MAX_ANNOUNCE_RETRY_COUNT)%Z.

Definition pc_ok (pc : FlowPc) (o : option SubagentRunEntry) (a n : nat) : Prop :=
  match pc with
  | FlRead | FlPostpone _ => n = 0 /\ forall e, o = Some e -> budget a e
  | FlChildren e' _ | FlAnnounce e' _ =>
      n = 0 /\ budget a e' /\ forall e, o = Some e -> se_announce_retry_count e = se_announce_retry_count e'
  | FlRetry count _ => n = 0 /\ (Z.of_nat a <= count < SUBAGENT_MAX_ANNOUNCE_RETRY_COUNT)%Z
  | _ => True
  end.

(** What holds of a run: its entry, the roles of the threads, how often it was
    tried to announce it and how often it was. *)
Record RunInv (o : option SubagentRunEntry) (R : Roles) (a n : nat) : Prop := {
  ri_model k : R k = Some RModel ->
    (forall k', is_Some (R k') -> k' = k) /\ a = 0 /\ n = 0
    /\ forall e, o = Some e -> se_announce_retry_count e = 0%Z
         /\ (se_ended_at_ms e = None \/ is_Some (se_cleanup_completed_at_ms e));
  ri_one k k' p p' : R k = Some (RHold p) -> R k' = Some (RHold p') -> k' = k;
  ri_hold k p : R k = Some (RHold p) ->
    (forall e, o = Some e -> se_cleanup_handled e = true) /\ pc_ok p o a n;
  ri_idle e : o = Some e -> se_cleanup_completed_at_ms e = None -> se_cleanup_handled e = false ->
    budget a e /\ n = 0;
  ri_bounds : a <= 3 /\ n <= 1;
}.

(** Changes that neither begin a clean-up nor let one begin. *)
Definition tame (o o' : option SubagentRunEntry) : Prop :=
  forall e', o' = Some e' -> exists e, o = Some e
    /\ se_announce_retry_count e' = se_announce_retry_count e
    /\ (se_cleanup_handled e = true -> se_cleanup_handled e' = true)
    /\ (is_Some (se_cleanup_completed_at_ms e')
        \/ se_cleanup_completed_at_ms e' = se_cleanup_completed_at_ms e
           /\ se_cleanup_handled e' = se_cleanup_handled e /\ se_ended_at_ms e' = se_ended_at_ms e).

Definition keeps_handled (o o' : option SubagentRunEntry) : Prop :=
  forall e', o' = Some e' -> exists e, o = Some e
    /\ (se_cleanup_handled e = true -> se_cleanup_handled e' = true).
Lemma tame_handled o o' : tame o o' -> keeps_handled o o'.
Proof. intros T e' E. destruct (T e' E) as (e & ? & _ & ? & _). eauto. Qed.

Lemma tame_refl o : tame o o.
Proof. intros e' E. exists e'. auto 10. Qed.
Lemma tame_none o : tame o None.
Proof. done. Qed.

(** The other threads keep their roles. *)
Definition others (k : nat) (R R' : Roles) : Prop := forall k', k' <> k -> R' k' = R k'.

Lemma tame_pc_ok pc o o' a n : tame o o' -> pc_ok pc o a n -> pc_ok pc o' a n.
Proof.
  intros T. unfold budget.
  assert (forall P : Z -> Prop, (forall e, o = Some e -> P (se_announce_retry_count e)) ->
            forall e, o' = Some e -> P (se_announce_retry_count e)) as K.
  { intros P HP e He. destruct (T e He) as (e0 & H0 & -> & _). by apply HP. }
  destruct pc; cbn; unfold budget; try done.
  - intros [? H]. split; [done|].
    exact (K (fun z => (Z.of_nat a <= z < SUBAGENT_MAX_ANNOUNCE_RETRY_COUNT)%Z) H).
  - intros (? & ? & H). do 2 (split; [done|]). exact (K (fun z => z = se_announce_retry_count e) H).
  - intros [? H]. split; [done|].
    exact (K (fun z => (Z.of_nat a <= z < SUBAGENT_MAX_ANNOUNCE_RETRY_COUNT)%Z) H).
  - intros (? & ? & H). do 2 (split; [done|]). exact (K (fun z => z = se_announce_retry_count e) H).
Qed.

(** A thread that goes on waiting, stops, or had nothing to do with the run. *)
Lemma quiet k o o' R R' a n : RunInv o R a n -> others k R R' ->
  (R' k = None \/ (R k = Some RWait /\ R' k = Some RWait)) -> tame o o' -> RunInv o' R' a n.
Proof.
  intros [Hm H1 Hh Hi Hb] O N T.
  assert (forall k' x, R' k' = Some x -> x <> RWait -> R k' = Some x) as Hk.
  { intros k' x E Hx. destruct (decide (k' = k)) as [->|D]; [|by rewrite <- O].
    destruct N as [N|[_ N]]; congruence. }
  split; [..|done].
  - intros j E. destruct (Hm j (Hk _ _ E ltac:(done))) as (U & -> & -> & Ho).
    split; [|split; [done|split; [done|]]].
    + intros k' [x Ex]. apply U. destruct (decide (k' = k)) as [->|Hn].
      * destruct N as [N|[N _]]; [congruence|]. by rewrite N.
      * rewrite <- O by done. by rewrite Ex.
    + intros e' He'. destruct (T e' He') as (e & He & -> & _ & C). destruct (Ho e He) as [-> D].
      split; [done|]. destruct C as [C|(-> & _ & ->)]; auto.
  - intros i j p p' Ei Ej. eapply H1; by apply Hk.
  - intros j p E. destruct (Hh j p (Hk _ _ E ltac:(done))) as [A B]. split; [|by eapply tame_pc_ok].
    intros e' He'. destruct (T e' He') as (e & He & _ & C & _). auto.
  - intros e' He' C D. destruct (T e' He') as (e & He & Q & _ & [F|(F & G & _)]).
    + rewrite C in F. by destruct F.
    + unfold budget. rewrite Q. apply (Hi e); congruence.
Qed.

Section roles.
Context (k : nat) (R R' : Roles) (rest : others k R R').

Lemma rest_some k' x : R' k' = Some x -> R' k <> Some x -> k' <> k /\ R k' = Some x.
Proof. intros E N. assert (k' <> k) by congruence. split; [done|]. by rewrite <- (rest k'). Qed.

(** A thread that goes on cleaning. *)
Lemma hold_on o o' a n a' n' p p' : RunInv o R a n -> R k = Some (RHold p) -> R' k = Some (RHold p') ->
  keeps_handled o o' -> pc_ok p' o' a' n' -> a' <= 3 -> n' <= 1 -> RunInv o' R' a' n'.
Proof.
  intros [Hm H1 Hh Hi _] E E' T P A N.
  assert (forall e', o' = Some e' -> se_cleanup_handled e' = true) as Hd.
  { intros e' He'. destruct (T e' He') as (e & He & C). apply C, (proj1 (Hh k p E)), He. }
  split; [..|done].
  - intros j Ej. destruct (rest_some j _ Ej) as [Hj Ej0]; [by rewrite E'|].
    destruct (Hm j Ej0) as [U _]. destruct Hj. symmetry. apply U. by rewrite E.
  - intros i j q q'. destruct (decide (i = k)) as [->|Hi'], (decide (j = k)) as [->|Hj]; [done|..];
      try rewrite (rest i) by done; try rewrite (rest j) by done; intros Ei Ej; [by rewrite (H1 _ _ _ _ E Ej)|by rewrite (H1 _ _ _ _ E Ei)|eauto].
  - intros j q Ej. split; [done|]. destruct (decide (j = k)) as [->|Hj]; [congruence|].
    rewrite rest in Ej by done. by destruct (Hj (H1 _ _ _ _ E Ej)).
  - intros e' He' _ F. by rewrite (Hd e' He') in F.
Qed.

(** A thread that hands the clean-up back to be tried again. *)
Lemma hand_back o o' a n p : RunInv o R a n -> R k = Some (RHold p) -> R' k = Some RWait ->
  (forall e, o' = Some e -> budget a e /\ n = 0) -> RunInv o' R' a n.
Proof.
  intros [Hm H1 Hh Hi Hb] E E' B. split; [..|done].
  - intros j Ej. destruct (rest_some j _ Ej) as [Hj Ej0]; [by rewrite E'|].
    destruct (Hm j Ej0) as [U _]. destruct Hj. symmetry. apply U. by rewrite E.
  - intros i j q q' Ei Ej. apply rest_some in Ei as [_ Ei]; [|by rewrite E'].
    apply rest_some in Ej as [_ Ej]; [|by rewrite E']. eauto.
  - intros j q Ej. destruct (rest_some j _ Ej) as [Hj Ej0]; [by rewrite E'|].
    by destruct (Hj (H1 _ _ _ _ E Ej0)).
  - intros e He _ _. by apply B.
Qed.

(** A thread that begins a clean-up. *)
Lemma take_up o a n e : RunInv o R a n -> R k = Some RWait -> R' k = Some (RHold FlRead) ->
  o = Some e -> se_cleanup_completed_at_ms e = None -> se_cleanup_handled e = false ->
  RunInv (Some (set_cleanup true None e)) R' a n.
Proof.
  intros [Hm H1 Hh Hi Hb] E E' -> C F. destruct (Hi e eq_refl C F) as [B N]. split; [..|done].
  - intros j Ej. destruct (rest_some j _ Ej) as [Hj Ej0]; [by rewrite E'|].
    destruct (Hm j Ej0) as [U _]. destruct Hj. symmetry. apply U. by rewrite E.
  - intros i j q q'. destruct (decide (i = k)) as [->|Hi'], (decide (j = k)) as [->|Hj]; [done|..];
      try rewrite (rest i) by done; try rewrite (rest j) by done; intros Ei Ej; [..|eauto];
      [destruct (Hh _ _ Ej) as [G _]|destruct (Hh _ _ Ei) as [G _]];
      by rewrite (G e eq_refl) in F.
  - intros j q Ej. split; [by intros ? [= <-]|]. destruct (decide (j = k)) as [->|Hj].
    + rewrite E' in Ej. injection Ej as <-. split; [done|]. intros ? [= <-]. exact B.
    + rewrite rest in Ej by done. destruct (Hh _ _ Ej) as [G _]. by rewrite (G e eq_refl) in F.
  - intros ? [= <-] _ [=].
Qed.

(** The task of the run ends it. *)
Lemma end_up o a n now out : RunInv o R a n -> R k = Some RModel -> R' k = Some RWait ->
  RunInv (end_run now out <$> o) R' a n.
Proof.
  intros [Hm H1 Hh Hi Hb] E E'. destruct (Hm k E) as (U & -> & -> & B).
  assert (forall j x, R' j = Some x -> x <> RWait -> False) as No.
  { intros j x Ej Hx. destruct (rest_some j _ Ej) as [Hj Ej0]; [congruence|]. apply Hj, U. by rewrite Ej0. }
  split; [..|done].
  - intros j Ej. by destruct (No j _ Ej).
  - intros i j q q' Ei. by destruct (No i _ Ei).
  - intros j q Ej. by destruct (No j _ Ej).
  - intros e' (e & -> & ->)%fmap_Some _ _. destruct (B e eq_refl) as [C _]. split; [|done].
    unfold budget. replace (se_announce_retry_count (end_run now out e)) with (se_announce_retry_count e)
      by (by destruct out). rewrite C. done.
Qed.

(** A new thread that waits, or has nothing to do with the run. *)
Lemma join_in o a n : RunInv o R a n -> R k = None ->
  (R' k = None \/ (R' k = Some RWait /\ forall j, R j <> Some RModel)) -> RunInv o R' a n.
Proof.
  intros [Hm H1 Hh Hi Hb] E N.
  assert (forall j x, R' j = Some x -> x <> RWait -> j <> k /\ R j = Some x) as Back.
  { intros j x Ej Hx. apply rest_some; [done|]. destruct N as [->|[-> _]]; congruence. }
  split; [..|done|done].
  - intros j Ej. destruct (Back j _ Ej) as [Hj Ej0]; [done|]. destruct (Hm j Ej0) as (U & W).
    split; [|exact W]. intros k' [x Ex]. destruct (decide (k' = k)) as [->|Hk'].
    + destruct N as [N|[_ N]]; [congruence|]. by destruct (N j).
    + apply U. rewrite <- rest by done. eauto.
  - intros i j q q' Ei Ej. apply Back in Ei as [_ Ei]; [|done]. apply Back in Ej as [_ Ej]; [|done]. eauto.
  - intros j q Ej. apply Back in Ej as [_ Ej]; [|done]. eauto.
Qed.
End roles.

(** The new run. *)
Lemma new_run k o (R : Roles) now r sp : R k = Some RModel -> (forall k', k' <> k -> R k' = None) ->
  o = Some (new_entry now r sp) -> RunInv o R 0 0.
Proof.
  intros E N ->. split.
  - intros j Ej. assert (j = k) as -> by (destruct (decide (j = k)) as [|D]; [done|by rewrite N in Ej]).
    split; [|do 2 (split; [done|]); intros ? [= <-]; auto].
    intros k' [x Ex]. destruct (decide (k' = k)) as [|D]; [done|by rewrite N in Ex].
  - intros i j q q' Ei. destruct (decide (i = k)) as [->|D]; [congruence|by rewrite N in Ei].
  - intros j q Ej. destruct (decide (j = k)) as [->|D]; [congruence|by rewrite N in Ej].
  - intros ? [= <-] _ _. done.
  - lia.
Qed.

Lemma tame_patch r f (runs : Runs) :
  (forall e, tame (Some e) (Some (f e))) -> tame (runs !! r) (alter f r runs !! r).
Proof.
  intros T. rewrite lookup_alter_eq. destruct (runs !! r) as [e|]; [apply T|done].
Qed.
Lemma tame_sweep now (runs : Runs) r : tame (runs !! r) (sweep_archived_subagent_runs now runs !! r).
Proof. intros e [E _]%sweep_elem. rewrite E. by apply tame_refl. Qed.
Lemma tame_some e e' : se_announce_retry_count e' = se_announce_retry_count e ->
  (se_cleanup_handled e = true -> se_cleanup_handled e' = true) ->
  (is_Some (se_cleanup_completed_at_ms e')
   \/ se_cleanup_completed_at_ms e' = se_cleanup_completed_at_ms e
      /\ se_cleanup_handled e' = se_cleanup_handled e /\ se_ended_at_ms e' = se_ended_at_ms e) ->
  tame (Some e) (Some e').
Proof. intros ??? ? [= <-]. eauto. Qed.
#[local] Hint Resolve tame_refl tame_none tame_sweep tame_patch : core.
Lemma tame_stopped now st er su e : tame (Some e) (Some (stopped now st er su e)).
Proof. apply tame_some; cbn; eauto. Qed.
Lemma tame_hook now e : tame (Some e) (Some (set_hook now e)).
Proof. apply tame_some; cbn; auto. Qed.
Lemma tame_final now e : tame (Some e) (Some (set_cleanup true (Some now) e)).
Proof. apply tame_some; cbn; eauto. Qed.
#[local] Hint Resolve tame_stopped tame_hook tame_final : core.

Lemma after_hook_next k s : o_state (after_hook k s) = s /\ o_log (after_hook k s) = [] /\ o_timer (after_hook k s) = false
  /\ (o_next (after_hook k s) ≫= flow_role) = match k with Some (m, now) => Some (RHold (FlHandle m now)) | None => None end.
Proof. destruct k as [[m now]|]; done. Qed.

Ltac outs := cbn [goto finish o_next o_state o_log o_timer cl_runs put_runs put_timers put_cdb put_handles patch_run
  attempts announcements retain List.filter length Nat.add flow_role cleaning mbind option_bind after_hook] in *.

Section step.
Variable fk : bool.
Variable values : Runs -> list SubagentRunEntry.
Variable to_text : json -> string.
Abbreviation fstep := (flow_step fk values to_text).

Context (env : ClEnv) (k : nat) (R R' : Roles) (r : string).

(** A step that neither begins nor hands back. *)
Lemma calm o o' a n x : RunInv o R a n -> others k R R' -> R' k = x ->
  (x = None \/ exists p p', R k = Some (RHold p) /\ x = Some (RHold p') /\ pc_ok p' o' a n) ->
  tame o o' -> RunInv o' R' a n.
Proof.
  intros H Rest E [->|(p & p' & Ek & -> & P)] T.
  - eapply quiet; [exact H|exact Rest|by left|exact T].
  - eapply hold_on; eauto using tame_handled; apply H.
Qed.

Ltac calmly := eapply calm; [eassumption|by auto|eassumption|
  first [by left|right; eexists _, _; split; [eassumption|split; [done|exact Logic.I]]]|by auto].

Lemma sweep_count now (runs : Runs) (e : SubagentRunEntry) :
  (forall x, runs !! r = Some x -> se_announce_retry_count x = se_announce_retry_count e) ->
  forall x, sweep_archived_subagent_runs now runs !! r = Some x ->
    se_announce_retry_count x = se_announce_retry_count e.
Proof. intros H x [E _]%sweep_elem. auto. Qed.

Section flow_cases.
Context (s : ClState) (a n : nat) (H : RunInv (cl_runs s !! r) R a n).
Abbreviation after o := (RunInv (cl_runs (o_state o) !! r) R' (attempts r (o_log o) + a) (announcements r (o_log o) + n)).
Context (pc : FlowPc).
Context (E : R k = flow_role pc) (E' : R' k = o_next (fstep env r pc s) ≫= flow_role).
Context (Rest : others k R R').

Lemma run_begin : pc = FlBegin -> after (fstep env r pc s).
Proof.
  intros ->. cbn [flow_step] in *. unfold begin_subagent_cleanup in *.
  destruct (cl_runs s !! r) as [e|] eqn:L; cbn [mbind option_bind] in *.
  - destruct (_ || _) eqn:C; outs.
    + rewrite L. calmly.
    + boolean. rewrite lookup_insert_eq. assert (se_cleanup_completed_at_ms e = None) as D by (apply eq_None_not_Some; done).
      rewrite D. eapply (take_up k R R'); eauto.
  - outs. rewrite L. calmly.
Qed.

Lemma run_read : pc = FlRead -> after (fstep env r pc s).
Proof.
  intros ->. destruct (ri_hold _ _ _ _ H k FlRead E) as [_ [N B]]. cbn [flow_step] in *.
  destruct (cl_runs s !! r) as [e|] eqn:L; cbn [mbind option_bind] in *; [|outs; rewrite L; calmly].
  specialize (B e eq_refl).
  destruct (_ || _) eqn:C; outs; rewrite L; [by calmly|].
  destruct (se_expects_completion_message e); (eapply calm; [exact H|by auto|exact E'| |by auto]);
    right; eexists _, _; (do 2 (split; [done|]));
    (split; [done|]); (split; [done|]); by intros ? [= <-].
Qed.

Lemma run_children e now : pc = FlChildren e now -> after (fstep env r pc s).
Proof.
  intros ->. destruct (ri_hold _ _ _ _ H k _ E) as [_ (N & B & C)]. cbn [flow_step] in *.
  assert (forall x, sweep_archived_subagent_runs (ce_now env) (cl_runs s) !! r = Some x ->
    se_announce_retry_count x = se_announce_retry_count e) as C' by (by apply sweep_count).
  destruct (0 <? _); [destruct (expired e now)|]; outs; (eapply calm; [exact H|by auto|exact E'| |by auto]);
    right; eexists _, _; (do 2 (split; [done|])); cbn [pc_ok]; auto.
  split; [done|]. intros x Hx. unfold budget. by rewrite (C' x Hx).
Qed.

Lemma run_postpone now : pc = FlPostpone now -> after (fstep env r pc s).
Proof.
  intros ->. destruct (ri_hold _ _ _ _ H k _ E) as [_ (N & B)]. outs. cbn [flow_step] in *. outs.
  eapply (hand_back k R R'); [by auto|exact H|exact E|exact E'|].
  intros e. rewrite lookup_alter_Some. intros [(_ & x & Hx & ->)|[[] _]]; [|done].
  split; [|done]. apply (B x Hx).
Qed.

Lemma run_retry count now : pc = FlRetry count now -> after (fstep env r pc s).
Proof.
  intros ->. destruct (ri_hold _ _ _ _ H k _ E) as [_ (N & B)]. cbn [flow_step] in *. outs.
  eapply (hand_back k R R'); [by auto|exact H|exact E|exact E'|].
  intros e. rewrite lookup_alter_Some. intros [(_ & x & Hx & ->)|[[] _]]; [|done].
  split; [|done]. exact B.
Qed.

Lemma announce_counts (m : option Announcement) : attempts r (LAttempt r :: option_list (LAnnounced r <$> m)) = 1
  /\ announcements r (LAttempt r :: option_list (LAnnounced r <$> m)) = if m is Some _ then 1 else 0.
Proof. unfold attempts, announcements, retain. destruct m; cbn; by rewrite ?String.eqb_refl. Qed.

Lemma run_announce e now : pc = FlAnnounce e now -> after (fstep env r pc s).
Proof.
  intros ->. destruct (ri_hold _ _ _ _ H k _ E) as [_ (N & B & _)]. cbn [flow_step] in *; unfold retry_or_give_up in *.
  cbn [o_log o_state o_next o_timer] in *. destruct (announce_counts (announce env e now)) as [-> ->].
  subst n. unfold budget in B. change SUBAGENT_MAX_ANNOUNCE_RETRY_COUNT with 3%Z in *.
  assert (exists p', R' k = Some (RHold p')
    /\ pc_ok p' (cl_runs s !! r) (1 + a) ((if announce env e now is Some _ then 1 else 0) + 0)) as (p' & Ek & P).
  { destruct (announce env e now) as [m|], (se_expects_completion_message e); cbn in E';
      [by eexists; split; [exact E'|]..| |by eexists; split; [exact E'|]].
    destruct (_ || _) eqn:C in E'; cbn in E'; eexists; (split; [exact E'|]); [done|].
    cbn. split; [done|]. apply orb_false_iff in C as [C _]. apply Z.leb_gt in C. unfold u32_max, SUBAGENT_MAX_ANNOUNCE_RETRY_COUNT in *. lia. }
  eapply (hold_on k R R'); [by auto|exact H|exact E|exact Ek|by apply tame_handled|exact P|lia|].
  destruct (announce env e now); lia.
Qed.

Lemma run_schedule d : pc = FlSchedule d -> after (fstep env r pc s).
Proof.
  intros ->. cbn [flow_step schedule_subagent_cleanup_retry] in *. outs. eapply quiet; [exact H|exact Rest|by left|apply tame_refl].
Qed.

Lemma run_hook j : pc = FlHook j -> after (fstep env r pc s).
Proof.
  intros ->. cbn [flow_step] in *. destruct (ended_hook _ _) as [[child payload]|];
    destruct j as [[m t]|]; outs; calmly.
Qed.

Lemma run_hook_call j child payload : pc = FlHookCall j child payload -> after (fstep env r pc s).
Proof.
  intros ->. cbn [flow_step] in *. destruct j as [[m t]|]; outs; calmly.
Qed.

Lemma run_hook_patch j : pc = FlHookPatch j -> after (fstep env r pc s).
Proof.
  intros ->. cbn [flow_step] in *. destruct j as [[m t]|]; outs; calmly.
Qed.

Lemma run_final mode now : pc = FlFinal mode now -> after (fstep env r pc s).
Proof.
  intros ->. cbn [flow_step] in *; unfold finalize_entry in *. destruct (eq_ignore_ascii_case _ _); [destruct (cl_runs s !! r) eqn:L|]; outs.
  - rewrite lookup_delete_eq. calmly.
  - rewrite L. calmly.
  - calmly.
Qed.

(** A step of a flow. *)
Lemma flow_run : after (fstep env r pc s).
Proof.
  assert (exists p, p = pc) as [p P] by eauto.
  destruct p; symmetry in P;
    eauto using run_begin, run_read, run_children, run_postpone, run_announce, run_retry, run_schedule, run_hook,
      run_hook_call, run_hook_patch, run_final.
  all: rewrite P in *; cbn [flow_step] in *; outs.
  2-3: calmly.
  eapply (hold_on k R R'); [by auto|exact H|exact E|exact E'| |done|apply H|apply H].
  intros e' [(_ & e & He & ->)|[[] _]]%lookup_alter_Some; [|done]. eauto.
Qed.
End flow_cases.
End step.

Section threads.
Variable fk : bool.
Variable values : Runs -> list SubagentRunEntry.
Variable to_text : json -> string.
Abbreviation tstep := (step_thread fk values to_text).
Context (env : ClEnv) (k : nat) (R R' : Roles) (r : string).

Lemma resume_role todo : (resume_thread todo ≫= role r) = if bool_decide (r ∈ todo.*1) then Some RWait else None.
Proof. by destruct todo as [|[r' d] todo]. Qed.

(** A step of a thread of the run. *)
Lemma thread_run th s a n : th_run th = r -> RunInv (cl_runs s !! r) R a n -> R k = role r th ->
  R' k = sp_thread (tstep env th s) ≫= role r -> others k R R' ->
  RunInv (cl_runs (sp_state (tstep env th s)) !! r) R'
    (attempts r (sp_log (tstep env th s)) + a) (announcements r (sp_log (tstep env th s)) + n).
Proof.
  destruct th as [run task pc]. cbn [th_run]. intros -> H E E' O.
  unfold step_thread, role in *. cbn [th_run th_task th_pc] in *.
  assert (String.eqb r r = true) as Eq by apply String.eqb_refl.
  destruct pc; cbn [step_to sp_thread sp_state sp_log sp_timer mbind option_bind th_run th_task th_pc] in *;
    rewrite ?Eq in *.
  all: try change (attempts r [] + a) with a; try change (announcements r [] + n) with n.
  2: { cbn [patch_run cl_runs put_runs]. rewrite lookup_alter. rewrite decide_True by done.
       eapply (end_up k R R'); eauto. }
  4: { eapply (flow_run fk values to_text env k R R'); [exact H|exact E| |exact O].
       rewrite E'. destruct (o_next _) as [pc'|]; cbn; [by rewrite Eq|]. by destruct task. }
  4: { rewrite bool_decide_eq_true_2 in E by left.
       eapply quiet; [exact H|exact O| |apply tame_refl]. rewrite E', resume_role. case_bool_decide; auto. }
  all: eapply quiet; [exact H|exact O| |try (apply tame_patch; auto)]; cbn; auto.
  - destruct (eq_ignore_ascii_case _ _); cbn in E'; rewrite ?Eq in E'; auto.
  - intros e'. by apply tame_stopped.
  - intros e'. by apply tame_stopped.
  - by rewrite lookup_delete_eq.
Qed.

(** A flow leaves the entries of other runs alone, or sweeps them. *)
Lemma flow_frame run pc s : run <> r -> let o := flow_step fk values to_text env run pc s in
  tame (cl_runs s !! r) (cl_runs (o_state o) !! r) /\ attempts r (o_log o) = 0 /\ announcements r (o_log o) = 0.
Proof.
  intros Ne. assert (String.eqb run r = false) as Eq by (by apply String.eqb_neq).
  assert (forall f, alter f run (cl_runs s) !! r = cl_runs s !! r) as Alt by (intros f; by apply lookup_alter_ne).
  destruct pc; cbn [flow_step]; unfold begin_subagent_cleanup, retry_or_give_up, finalize_entry, schedule_subagent_cleanup_retry.
  1: destruct (cl_runs s !! run) as [e|] eqn:L; cbn [mbind option_bind]; [destruct (_ || _)|]; outs;
     rewrite ?lookup_insert_ne by done; auto.
  1: destruct (cl_runs s !! run) as [e|] eqn:L; [destruct (_ || _)|]; outs; auto.
  1: destruct (0 <? _); outs; auto.
  2: { outs. unfold attempts, announcements, retain. cbn [List.filter]. rewrite Eq. split; [auto|].
       destruct (announce _ _ _); cbn; by rewrite ?Eq. }
  5: destruct (ended_hook _ _) as [[??]|]; [|destruct k0 as [[??]|]]; outs; auto.
  6: destruct k0 as [[??]|]; outs; rewrite ?Alt; auto.
  7: destruct (eq_ignore_ascii_case _ _); [destruct (cl_runs s !! run)|]; outs; rewrite ?Alt, ?lookup_delete_ne by done; auto.
  all: outs; rewrite ?Alt; auto.
Qed.

(** A step of a thread of another run. *)
Lemma thread_frame th s a n : th_run th <> r -> RunInv (cl_runs s !! r) R a n -> R k = role r th ->
  R' k = sp_thread (tstep env th s) ≫= role r -> others k R R' ->
  RunInv (cl_runs (sp_state (tstep env th s)) !! r) R'
    (attempts r (sp_log (tstep env th s)) + a) (announcements r (sp_log (tstep env th s)) + n).
Proof.
  destruct th as [run task pc]. cbn [th_run]. intros Ne H E E' O.
  unfold step_thread, role in *. cbn [th_run th_task th_pc] in *.
  assert (String.eqb run r = false) as Eq by (by apply String.eqb_neq).
  destruct pc; cbn [step_to sp_thread sp_state sp_log sp_timer mbind option_bind th_run th_task th_pc] in *;
    rewrite ?Eq in *.
  all: try change (attempts r [] + a) with a; try change (announcements r [] + n) with n.
  5: { destruct (flow_frame run pc s Ne) as (T & -> & ->). eapply quiet; [exact H|exact O| |exact T].
       left. rewrite E'. destruct (o_next _); cbn; rewrite ?Eq; [done|]. by destruct task. }
  5: { eapply quiet; [exact H|exact O| |apply tame_refl]. rewrite E, E', resume_role.
       destruct (decide (r ∈ rest.*1)) as [C|C]; [right|left; by rewrite bool_decide_eq_false_2].
       by rewrite !bool_decide_eq_true_2 by (try right; done). }
  all: eapply quiet; [exact H|exact O| |]; cbn; auto.
  all: rewrite ?lookup_alter_ne, ?lookup_delete_ne by done; auto.
  left. rewrite E'. by destruct (eq_ignore_ascii_case _ _).
Qed.
End threads.

(** * Reachable configurations *)

Section reach.
Variable fk : bool.
Variable values : Runs -> list SubagentRunEntry.
Variable to_text : json -> string.
Hypothesis values_in : forall runs e, e ∈ values runs -> exists r, runs !! r = Some e.
(** The entries there at the start. *)
Variable init : gset string.

Definition known (used : gset string) (th : Thread) : Prop :=
  th_run th ∈ used /\ match th_pc th with PcResume _ rest => forall r, r ∈ rest.*1 -> r ∈ used | _ => True end.

Record Inv (c : Conf) : Prop := {
  inv_next k : cf_next c <= k -> cf_threads c !! k = None;
  inv_known k th : cf_threads c !! k = Some th -> known (cf_used c) th;
  inv_ids r e : cl_runs (cf_state c) !! r = Some e -> se_run_id e = r /\ r ∈ cf_used c;
  inv_init : init ⊆ cf_used c;
  inv_log r : r ∉ cf_used c -> attempts r (cf_log c) = 0 /\ announcements r (cf_log c) = 0;
  inv_run r : r ∉ init ->
    RunInv (cl_runs (cf_state c) !! r) (roles r (cf_threads c)) (attempts r (cf_log c)) (announcements r (cf_log c));
}.

Lemma known_role used r th : known used th -> r ∉ used -> role r th = None.
Proof.
  intros [K L] N. unfold role.
  assert (String.eqb (th_run th) r = false) as E by (apply String.eqb_neq; by intros <-).
  destruct (th_pc th); rewrite ?E; try done.
  rewrite bool_decide_eq_false_2; [done|]. intros [->|Hin]%elem_of_cons; auto.
Qed.

Definition keeps_ids (runs runs' : Runs) : Prop :=
  forall r e', runs' !! r = Some e' -> exists e, runs !! r = Some e /\ se_run_id e' = se_run_id e.

Lemma keeps_ids_refl runs : keeps_ids runs runs.
Proof. intros r e E. eauto. Qed.
Lemma keeps_ids_alter f r (runs : Runs) : (forall e, se_run_id (f e) = se_run_id e) -> keeps_ids runs (alter f r runs).
Proof.
  intros F r' e' [(<- & e & He & ->)|[_ He]]%lookup_alter_Some; [|eauto]. exists e. auto.
Qed.
Lemma keeps_ids_sweep now (runs : Runs) : keeps_ids runs (sweep_archived_subagent_runs now runs).
Proof. intros r e' [E _]%sweep_elem. eauto. Qed.
Lemma keeps_ids_delete r (runs : Runs) : keeps_ids runs (delete r runs).
Proof. intros r' e' [_ E]%lookup_delete_Some. eauto. Qed.
#[local] Hint Resolve keeps_ids_refl keeps_ids_sweep keeps_ids_delete : core.
#[local] Hint Extern 1 (keeps_ids _ (alter _ _ _)) => apply keeps_ids_alter : core.

Lemma flow_ids env run pc s : keeps_ids (cl_runs s) (cl_runs (o_state (flow_step fk values to_text env run pc s))).
Proof.
  destruct pc; cbn [flow_step]; unfold begin_subagent_cleanup, retry_or_give_up, finalize_entry, schedule_subagent_cleanup_retry.
  1: destruct (cl_runs s !! run) as [e|] eqn:L; cbn [mbind option_bind]; [destruct (_ || _)|]; outs; auto.
  1: { intros r e' [[<- <-]|[N He]]%lookup_insert_Some; eauto. }
  1: destruct (cl_runs s !! run) as [e|] eqn:L; [destruct (_ || _)|]; outs; auto.
  1: destruct (0 <? _); outs; auto.
  6: destruct (ended_hook _ _) as [[??]|]; [|destruct k as [[??]|]]; outs; auto.
  7: destruct k as [[??]|]; outs; auto.
  8: destruct (eq_ignore_ascii_case _ _); [destruct (cl_runs s !! run)|]; outs; auto.
  all: outs; auto.
Qed.

Lemma step_ids env th s : keeps_ids (cl_runs s) (cl_runs (sp_state (step_thread fk values to_text env th s))).
Proof.
  destruct th as [run task pc]. unfold step_thread. cbn [th_run th_task th_pc].
  destruct pc; cbn [step_to sp_state]; auto using flow_ids; outs; auto.
  apply keeps_ids_alter. intros e. by destruct (ce_end env).
Qed.

(** A timer is started for the thread's own run. *)
Lemma step_timer env th s t : sp_timer (step_thread fk values to_text env th s) = Some t ->
  t = timer (th_run th) /\ role (th_run th) th = Some RWait.
Proof.
  destruct th as [run task pc]. unfold step_thread, role. cbn [th_run th_task th_pc].
  destruct pc; cbn [step_to sp_timer]; try done.
  - destruct (o_timer _) eqn:T; [|done]. intros [= <-]. split; [done|]. rewrite String.eqb_refl.
    destruct pc; cbn [flow_step] in T; try done; exfalso.
    + destruct (cl_runs s !! run); [destruct (_ || _)|]; done.
    + destruct (0 <? _); done.
    + destruct (ended_hook _ _) as [[??]|]; [done|destruct k as [[??]|]; done].
    + destruct k as [[??]|]; done.
    + unfold finalize_entry in T. destruct (eq_ignore_ascii_case _ _); [destruct (cl_runs s !! run)|]; done.
  - destruct (o_timer _); [|done]. intros [= <-]. split; [done|]. rewrite bool_decide_eq_true_2; [done|by left].
Qed.

Lemma step_known env th s used t : known used th -> sp_thread (step_thread fk values to_text env th s) = Some t ->
  known used t.
Proof.
  destruct th as [run task pc]. unfold known, step_thread. cbn [th_run th_task th_pc]. intros [K L].
  destruct pc; cbn [step_to sp_thread]; try (intros [= <-]; done); try done.
  - destruct (o_next _); [by intros [= <-]|]. destruct task; by intros [= <-].
  - destruct rest as [|[r' d] rest]; [done|]. intros [= <-]. cbn. cbn in L. split; [apply L; by left|].
    intros r Hr. apply L. by right.
  - destruct (eq_ignore_ascii_case _ _); by intros [= <-].
Qed.

(** No thread starts to run a model by a step. *)
Lemma step_no_model env th s t r : sp_thread (step_thread fk values to_text env th s) = Some t ->
  role r t <> Some RModel.
Proof.
  intros E. enough (th_pc t <> PcModel) as N.
  { unfold role. destruct (th_pc t); try done; try (by destruct (String.eqb _ _)); try (by case_bool_decide).
    destruct (String.eqb _ _); [|done]. destruct pc; cbn; try done; by destruct k. }
  revert E. destruct th as [run task pc]. unfold step_thread. cbn [th_run th_task th_pc].
  destruct pc; cbn [step_to sp_thread]; try (by intros [= <-]); try done.
  - destruct (o_next _); [by intros [= <-]|]. destruct task; by intros [= <-].
  - destruct rest as [|[r' d] rest]; by intros [= <-].
  - destruct (eq_ignore_ascii_case _ _); by intros [= <-].
Qed.

Lemma step_log env th s r : th_run th <> r -> let o := step_thread fk values to_text env th s in
  attempts r (sp_log o) = 0 /\ announcements r (sp_log o) = 0.
Proof.
  destruct th as [run task pc]. unfold step_thread. cbn [th_run th_task th_pc]. intros N.
  destruct pc; cbn [step_to sp_log]; try done.
  exact (proj2 (flow_frame fk values to_text env r run pc s N)).
Qed.

Lemma attempts_app r l l' : attempts r (l ++ l') = attempts r l + attempts r l'.
Proof. unfold attempts, retain. by rewrite List.filter_app, length_app. Qed.
Lemma announcements_app r l l' : announcements r (l ++ l') = announcements r l + announcements r l'.
Proof. unfold announcements, retain. by rewrite List.filter_app, length_app. Qed.

(** A new thread that waits for runs no model runs for. *)
Lemma inv_add c th : Inv c -> known (cf_used c) th ->
  (forall r, r ∉ init -> role r th = None
     \/ (role r th = Some RWait /\ forall j, roles r (cf_threads c) j <> Some RModel)) ->
  Inv (add_thread (Some th) c).
Proof.
  intros [In Ik Ii It Il Ir] K N. assert (cf_threads c !! cf_next c = None) as F by (by apply In).
  split; cbn [add_thread cf_state cf_threads cf_next cf_used cf_log]; try done.
  - intros k L. rewrite lookup_insert_ne by lia. apply In. lia.
  - intros k t [[<- <-]|[_ E]]%lookup_insert_Some; eauto.
  - intros r Hr. eapply (join_in (cf_next c)); [|exact (Ir r Hr)| |].
    + intros k' D. unfold roles. by rewrite lookup_insert_ne by done.
    + unfold roles. by rewrite F.
    + unfold roles at 1 2. rewrite lookup_insert_eq. exact (N r Hr).
Qed.

(** A step of a thread, without the timer it may start. *)
Lemma inv_step env k th c : Inv c -> cf_threads c !! k = Some th ->
  let o := step_thread fk values to_text env th (cf_state c) in
  let c' := {| cf_state := sp_state o; cf_threads := partial_alter (const (sp_thread o)) k (cf_threads c);
               cf_next := cf_next c; cf_used := cf_used c; cf_log := sp_log o ++ cf_log c |} in
  Inv c' /\ (sp_timer o <> None -> forall j, th_run th ∉ init -> roles (th_run th) (cf_threads c') j <> Some RModel).
Proof.
  intros [In Ik Ii It Il Ir] L o c'.
  assert (forall r, r ∉ init -> roles r (cf_threads c) k = role r th) as Ek by (intros; unfold roles; by rewrite L).
  assert (forall r, roles r (cf_threads c') k = sp_thread o ≫= role r) as Ek'
    by (intros; unfold roles; cbn; by rewrite lookup_partial_alter_eq).
  assert (forall r, others k (roles r (cf_threads c)) (roles r (cf_threads c'))) as Ot
    by (intros r k' D; unfold roles; cbn; by rewrite lookup_partial_alter_ne).
  split; [split; cbn [cf_state cf_threads cf_next cf_used cf_log c']|].
  - intros j Hj. rewrite lookup_partial_alter_ne; [by apply In|]. intros ->. by rewrite In in L.
  - intros j t. destruct (decide (j = k)) as [->|D].
    + rewrite lookup_partial_alter_eq. apply step_known. by eapply Ik.
    + rewrite lookup_partial_alter_ne by done. apply Ik.
  - intros r e E. destruct (step_ids env th (cf_state c) r e E) as (e0 & E0 & ->). by apply Ii.
  - done.
  - intros r Hr. rewrite attempts_app, announcements_app. destruct (Il r Hr) as [-> ->].
    destruct (step_log env th (cf_state c) r) as [A B]; [by intros <-; apply Hr, (Ik k th)|].
    unfold o. by rewrite A, B.
  - intros r Hr. rewrite attempts_app, announcements_app.
    destruct (decide (th_run th = r)) as [E|E]; [eapply thread_run|eapply thread_frame]; eauto.
  - intros T j Hr Ej. destruct (sp_timer o) as [t|] eqn:Et; [|done].
    destruct (step_timer _ _ _ _ Et) as [_ Rw]. destruct (Ir _ Hr) as [Hm _ _ _ _].
    destruct (decide (j = k)) as [->|D].
    + rewrite Ek' in Ej. destruct (sp_thread o) as [x|] eqn:Ex; [|done]. by eapply step_no_model in Ej.
    + rewrite Ot in Ej by done. destruct (Hm j Ej) as [U _]. apply D. symmetry. apply U. by rewrite Ek, Rw.
Qed.

Lemma known_mono used used' th : used ⊆ used' -> known used th -> known used' th.
Proof. intros S [K L]. split; [by apply S|]. destruct (th_pc th); try done. intros r Hr. by apply S, L. Qed.

(** A new run. *)
Lemma inv_start c now r sp c' : Inv c -> move fk values to_text (MStart now r sp) c = Some c' -> Inv c'.
Proof.
  intros I. cbn [move]. case_bool_decide as U; [done|]. intros <-%(inj Some). cbv zeta.
  pose proof I as [In Ik Ii It Il Ir]. assert (cf_threads c !! cf_next c = None) as F by (by apply In).
  match goal with |- Inv (add_thread (Some ?th) ?c1) => change (Inv (add_thread (Some th) c1)); apply inv_add end.
  - split; cbn [add_thread cf_state cf_threads cf_next cf_used cf_log put_runs cl_runs].
    + intros k L. rewrite lookup_insert_ne by lia. apply In. lia.
    + intros k t [[<- <-]|[_ E]]%lookup_insert_Some; [split; [cbn; set_solver|done]|].
      eapply known_mono; [|by eapply Ik]. set_solver.
    + intros r' e [[<- <-]|[_ E]]%lookup_insert_Some; [split; [done|set_solver]|].
      destruct (Ii r' e E). split; [done|set_solver].
    + set_solver.
    + intros r' Hr. apply Il. set_solver.
    + intros r' Hr. destruct (decide (r' = r)) as [->|D].
      * destruct (Il r U) as [-> ->]. rewrite lookup_insert_eq. eapply (new_run (cf_next c)); [| |done]; unfold roles.
        -- rewrite lookup_insert_eq. cbn. by rewrite String.eqb_refl.
        -- intros k' N. rewrite lookup_insert_ne by done. destruct (cf_threads c !! k') eqn:E; [|done].
           cbn. eapply known_role; [by eapply Ik|done].
      * rewrite lookup_insert_ne by done. eapply (join_in (cf_next c)); [|exact (Ir r' Hr)| |]; unfold roles.
        -- intros k' N. by rewrite lookup_insert_ne by done.
        -- by rewrite F.
        -- left. rewrite lookup_insert_eq. cbn. by rewrite (proj2 (String.eqb_neq r r')) by done.
  - split; [|done]. cbn. set_solver.
  - intros r' _. by left.
Qed.

Lemma pending_in now runs x : map_Forall (fun r e => se_run_id e = r) runs ->
  x ∈ (omap (pending_cleanup now) (values runs)).*1 ->
  exists e, runs !! x = Some e /\ active e = false /\ se_cleanup_completed_at_ms e = None.
Proof.
  intros M ([y d] & -> & (e & He & P)%list_elem_of_omap)%list_elem_of_fmap. apply values_in in He as [r He].
  unfold pending_cleanup in P. destruct (_ || _) eqn:C; [done|]. boolean. injection P as <- _.
  exists e. cbn. rewrite (M r e He). split; [done|]. split; [done|]. by apply eq_None_not_Some.
Qed.

Lemma inv_move c m c' : Inv c -> move fk values to_text m c = Some c' -> Inv c'.
Proof.
  intros I. pose proof I as [In Ik Ii It Il Ir]. destruct m as [k env|k|now r sp|r|r|now|now|db]; [..|].
  - cbn [move]. destruct (cf_threads c !! k) as [th|] eqn:L; [|done]. intros <-%(inj Some).
    destruct (inv_step env k th c I L) as [I' N]. cbv zeta in *.
    destruct (sp_timer _) as [t|] eqn:T; [|exact I'].
    destruct (step_timer _ _ _ _ T) as [-> Rw].
    assert (known (cf_used c) th) as [K _] by (by eapply Ik).
    apply inv_add; [done|by split|]. intros r Hr. cbn [role timer th_pc th_run].
    destruct (String.eqb (th_run th) r) eqn:E; [|by left]. apply String.eqb_eq in E as <-.
    right. split; [done|]. intros j. by apply N.
  - cbn [move]. case_bool_decide; [|done]. intros <-%(inj Some).
    split; cbn [cf_state cf_threads cf_next cf_used cf_log]; try done.
    + intros j Hj. apply lookup_delete_None. right. by apply In.
    + intros j t [_ E]%lookup_delete_Some. by eapply Ik.
    + intros r Hr. eapply (quiet k); [exact (Ir r Hr)| |left; unfold roles; by rewrite lookup_delete_eq|apply tame_refl].
      intros k' D. unfold roles. by rewrite lookup_delete_ne by done.
  - by apply inv_start.
  - cbn [move]. destruct (cl_runs (cf_state c) !! r) as [e|] eqn:L; [|done]. intros <-%(inj Some).
    apply inv_add; [done| |by left]. split; [|done]. by eapply Ii.
  - cbn [move]. destruct (cl_runs (cf_state c) !! r) as [e|] eqn:L; [|done]. intros <-%(inj Some).
    apply inv_add; [done| |by left]. split; [|done]. by eapply Ii.
  - cbn [move]. intros <-%(inj Some). set (todo := omap _ _).
    assert (map_Forall (fun r e => se_run_id e = r) (cl_runs (cf_state c))) as M by (intros r e E; by apply Ii).
    destruct (resume_thread todo) as [th|] eqn:E; [|done].
    assert (forall r, r ∈ todo.*1 -> exists e, cl_runs (cf_state c) !! r = Some e /\ active e = false
              /\ se_cleanup_completed_at_ms e = None) as P by (intros r; by apply pending_in).
    assert (th_pc th <> PcModel /\ known (cf_used c) th) as [_ K].
    { destruct todo as [|[r d] todo']; [done|]. injection E as <-. split; [done|]. split; cbn.
      - destruct (P r) as (e & He & _); [by left|]. by eapply Ii.
      - intros r' Hr. destruct (P r') as (e & He & _); [by right|]. by eapply Ii. }
    apply inv_add; [done|done|]. intros r Hr.
    assert (role r th = if bool_decide (r ∈ todo.*1) then Some RWait else None) as Q.
    { pose proof (resume_role r todo) as Q. by rewrite E in Q. }
    rewrite Q. case_bool_decide as D; [|by left]. right. split; [done|].
    intros j Ej. destruct (ri_model _ _ _ _ (Ir r Hr) j Ej) as (_ & _ & _ & B).
    destruct (P r D) as (e & He & A & C). destruct (B e He) as [_ [B'|[? B']]]; [|congruence].
    unfold active in A. by rewrite bool_decide_eq_true_2 in A.
  - cbn [move]. intros <-%(inj Some). split; cbn [with_state cf_state cf_threads cf_next cf_used cf_log put_runs cl_runs]; try done.
    + intros r e [E _]%sweep_elem. by apply Ii.
    + intros r Hr. eapply (quiet (cf_next c)); [exact (Ir r Hr)|done| |apply tame_sweep].
      left. unfold roles. by rewrite In.
  - cbn [move]. intros <-%(inj Some). by split.
Qed.

Lemma inv_reach c c' : Inv c -> Reach fk values to_text c c' -> Inv c'.
Proof. intros I R. induction R as [|c1 c2 m _ IH E]; [done|]. by eapply inv_move. Qed.

Lemma run_moves_reach ms c c' : run_moves fk values to_text ms c = Some c' -> Reach fk values to_text c c'.
Proof.
  enough (forall c0, Reach fk values to_text c0 c -> run_moves fk values to_text ms c = Some c' ->
            Reach fk values to_text c0 c') as K by (apply K; constructor).
  revert c. induction ms as [|m ms IH]; intros c c0 R; cbn [run_moves]; [by intros [= <-]|].
  destruct (move _ _ _ m c) as [c1|] eqn:E; [|done]. apply IH. by econstructor.
Qed.
End reach.

Lemma inv_start_conf runs db : map_Forall (fun r e => se_run_id e = r) runs -> Inv (dom runs) (start_conf runs db).
Proof.
  intros M. split; cbn [start_conf cf_threads cf_next cf_used cf_log cf_state cl_runs]; try done.
  - intros r e E. split; [by apply M|]. by apply elem_of_dom_2 in E.
  - intros r Hr. apply not_elem_of_dom in Hr. rewrite Hr. split; [..|cbn; lia]; intros *; unfold roles;
      rewrite ?lookup_empty; done.
Qed.

Lemma cleans_role r th : cleans r th = true -> exists p, role r th = Some (RHold p).
Proof.
  unfold cleans, role. intros [E C]%andb_true_iff. rewrite E.
  destruct (th_pc th); cbn [cleaning] in C; try done. destruct pc; cbn in *; eauto; try done; destruct k; eauto; done.
Qed.

(** C13. However the tasks of the runs, the timers, kills, steers, resumes, sweeps
    and aborts interleave, of a run started since the registry was loaded at most
    one thread does the clean-up at a time, its end is tried to be announced at
    most three times and announced at most once. *)
Theorem cleanup_exclusive fk values to_text runs db c r :
  (forall runs e, e ∈ values runs -> exists k, runs !! k = Some e) ->
  map_Forall (fun k e => se_run_id e = k) runs ->
  Reach fk values to_text (start_conf runs db) c -> r ∉ dom runs ->
  (forall i j th th', cf_threads c !! i = Some th -> cf_threads c !! j = Some th' ->
     cleans r th = true -> cleans r th' = true -> i = j)
  /\ attempts r (cf_log c) <= 3 /\ announcements r (cf_log c) <= 1.
Proof.
  intros V M R N. destruct (inv_reach fk values to_text V (dom runs) _ c (inv_start_conf runs db M) R) as [_ _ _ _ _ I].
  destruct (I r N) as [_ H1 _ _ B]. split; [|exact B].
  intros i j th th' Ei Ej (p & Hp)%cleans_role (p' & Hp')%cleans_role.
  eapply (H1 j i); unfold roles; rewrite ?Ei, ?Ej; cbn; eauto.
Qed.

(** * Examples *)

Definition ten_past : ClEnv := {|
  ce_now := 10; ce_st := all_ok; ce_hooks := true; ce_end := EndDone "found it" UsageSummary_default;
  ce_store := id; ce_reply := Some "found it"; ce_active := false; ce_alive := true; ce_parent := None;
  ce_siblings := 0; ce_injected := None; ce_route := (Some (tg "slack"), "default"); ce_delivered := false;
  ce_sent := Ok None; ce_settings := set_of Collect 5 Old; ce_queue := None |}.
(** Nobody to tell. *)
Definition nowhere : ClEnv := {|
  ce_now := 10; ce_st := all_ok; ce_hooks := true; ce_end := EndDone "found it" UsageSummary_default;
  ce_store := id; ce_reply := Some "found it"; ce_active := false; ce_alive := true; ce_parent := None;
  ce_siblings := 0; ce_injected := None; ce_route := (None, "none"); ce_delivered := false;
  ce_sent := Ok None; ce_settings := set_of Collect 5 Old; ce_queue := None |}.

Definition scan : RunSpec := {|
  rs_requester := "main"; rs_child := "agent:a:subagent:1"; rs_label := "scan"; rs_task := "scan"; rs_model := "m";
  rs_timeout := 300; rs_mode := "run"; rs_cleanup := "keep"; rs_thread := false; rs_expects := true;
  rs_archive := Some 1000000%Z |}.

Definition no_text : json -> string := fun _ => "{}".
Definition play (ms : list Move) (runs : Runs) : option Conf :=
  run_moves true some_values no_text ms (start_conf runs Db_empty).
Definition summary (r : string) (c : Conf)
  : nat * nat * nat * nat * option (string * bool * option Z * Z) :=
  (attempts r (cf_log c), announcements r (cf_log c),
   length (retain (fun x => match x with LHook _ _ _ => true | _ => false end) (cf_log c)),
   size (cf_threads c),
   (fun e => (se_status e, se_cleanup_handled e, se_cleanup_completed_at_ms e, se_announce_retry_count e))
     <$> cl_runs (cf_state c) !! r).
Definition times (n k : nat) (env : ClEnv) : list Move := repeat (MStep k env) n.

(** Thread 0 is the task of the run, thread 1 registers its handle. *)
Definition one_run : list Move := MStart 1 "r" scan :: times 1 1 ten_past ++ times 11 0 ten_past.

Lemma some_values_in runs e : e ∈ some_values runs -> exists k, runs !! k = Some e.
Proof.
  intros ([k x] & -> & H)%list_elem_of_fmap. apply elem_of_map_to_list in H. eauto.
Qed.

Lemma cleanup_exclusive_witness : exists c, play one_run ∅ = Some c /\ attempts "r" (cf_log c) = 1
  /\ attempts "r" (cf_log c) <= 3 /\ announcements "r" (cf_log c) <= 1.
Proof.
  assert (exists c, play one_run ∅ = Some c /\ attempts "r" (cf_log c) = 1) as (c & E & A).
  { eexists. split; [vm_compute; reflexivity|vm_compute; reflexivity]. }
  exists c. split; [exact E|]. split; [exact A|].
  apply (cleanup_exclusive true some_values no_text ∅ Db_empty c "r" some_values_in).
  - done.
  - exact (run_moves_reach true some_values no_text _ _ _ E).
  - done.
Defined.

(** Announced at once; and three times in vain, with timers in between. *)
Example announced_at_once : summary "r" <$> play one_run ∅ = Some (1, 1, 1, 0, Some ("done", true, Some 10%Z, 0%Z)).
Proof. vm_compute. done. Qed.
Definition failing : list Move := MStart 1 "r" scan :: times 1 1 nowhere ++ times 7 0 nowhere.
Example given_up_after_three :
  summary "r" <$> play (failing ++ times 7 2 nowhere ++ times 11 3 nowhere) ∅
    = Some (3, 0, 1, 1, Some ("done", true, Some 10%Z, 3%Z)).
Proof. vm_compute. done. Qed.

(** The hook of an ended run is called twice when a kill comes between its check and its mark. *)
Example ended_hook_twice :
  summary "r" <$> play (MStart 1 "r" scan :: times 6 0 ten_past ++ MKill "r" :: times 5 2 ten_past ++ times 1 0 ten_past) ∅
    = Some (1, 1, 2, 2, Some ("killed", true, Some 10%Z, 0%Z)).
Proof. vm_compute. done. Qed.

(** A task that ends its run after the kill undoes what the kill wrote. *)
Example end_undoes_kill :
  summary "r" <$> play (MStart 1 "r" scan :: times 1 1 ten_past ++ MKill "r" :: times 2 2 ten_past) ∅
    = Some (0, 0, 0, 2, Some ("killed", true, Some 10%Z, 0%Z))
  /\ summary "r" <$> play (MStart 1 "r" scan :: times 1 1 ten_past ++ MKill "r" :: times 2 2 ten_past ++ times 1 0 ten_past) ∅
    = Some (0, 0, 0, 2, Some ("done", false, None, 0%Z)).
Proof. vm_compute. done. Qed.

(** A handle registered after the task ended stays. *)
Example handle_stays :
  (fun c => map_to_list (cl_handles (cf_state c))) <$>
    play (MStart 1 "r" scan :: times 11 0 ten_past ++ times 1 1 ten_past) ∅ = Some [("r", 0)].
Proof. vm_compute. done. Qed.

(** A clean-up that had begun when the gateway stopped is never resumed. *)
Example begun_not_resumed :
  (fun c => size (cf_threads c)) <$>
    play [MResume 100000] {["r" := set_cleanup true None (sample_run "r" "main" "s" 1 (Some 2%Z) None)]} = Some 0
  /\ (fun c => size (cf_threads c)) <$>
    play [MResume 100000] {["r" := sample_run "r" "main" "s" 1 (Some 2%Z) None]} = Some 1.
Proof. vm_compute. done. Qed.
