(* ===== verification/SubagentSpawn.v ===== *)
(** Spawning subagents from the gateway
    ([crates/gateway-core/src/http/agent_bridge.rs]): the limits and the model of
    a subagent, how deep a session is, the [sessions_spawn] tool.

    A spawn is checked and its session prepared first, then its run is started;
    the registry may change in between. *)

From Stdlib Require Import Strings.String.
From stdpp Require Import pretty.
From S2P Require Import Prelude RustStr Json Parse SessionStore SessionBindings SessionAccess SubagentRuns SubagentCleanup.
#[local] Open Scope string_scope.
#[local] Open Scope nat_scope.
#[local] Open Scope list_scope.
#[local] Open Scope rust_scope.

(** * Configuration *)

Definition DEFAULT_SUBAGENT_MAX_SPAWN_DEPTH : Z := 1.
Definition DEFAULT_SUBAGENT_MAX_CHILDREN_PER_AGENT : Z := 5.

(** [agents]: that part of the configuration, when both are there. *)
Definition at_path (path : list string) (agents : option json) : option json := agents ≫= pointer path.

Definition positive_at (path : list string) (agents : option json) : option Z :=
  raw ← at_path path agents ≫= as_i64;
  if (0 <? raw)%Z then Some raw else None.

(** [as u32] wraps; [as usize] does not. *)
Definition resolve_subagent_limits (agents : option json) : Z * Z :=
  (Z.max 1 (default DEFAULT_SUBAGENT_MAX_SPAWN_DEPTH
     ((fun raw => raw mod 2 ^ 32) <$> positive_at ["defaults"; "subagents"; "maxSpawnDepth"] agents)),
   Z.max 1 (default DEFAULT_SUBAGENT_MAX_CHILDREN_PER_AGENT
     (positive_at ["defaults"; "subagents"; "maxChildrenPerAgent"] agents)))%Z.

Definition resolve_subagent_archive_after_ms (agents : option json) : option Z :=
  let minutes := default 60%Z (at_path ["defaults"; "subagents"; "archiveAfterMinutes"] agents ≫= as_i64) in
  if (minutes <=? 0)%Z then None else Some (clamp_i64 (minutes * 60000)).

(** The entry of an agent in the list, by its sanitized identifier. *)
Definition agent_entry (id : string) (agents : option json) : option json :=
  list ← at_path ["list"] agents ≫= as_array;
  find_first (fun entry => bool_decide (sanitize_session_token <$> get_str "id" entry = Some (sanitize_session_token id)))
    list.

Definition allowed_token (v : string) : string := if String.eqb v "*" then "*" else sanitize_session_token v.

Definition resolve_subagent_allow_agents (requester_agent_id : string) (agents : option json) : list string :=
  default [] (entry ← agent_entry requester_agent_id agents;
              arr ← pointer ["subagents"; "allowAgents"] entry ≫= as_array;
              Some (allowed_token <$> trimmed_strings arr)).

Definition resolve_subagent_model_hint (target_agent_id : string) (agents : option json) : option string :=
  let entry := agent_entry target_agent_id agents in
  or_else (entry ≫= fun e => trimmed (pointer ["subagents"; "model"] e ≫= as_str))
    (or_else (trimmed (at_path ["defaults"; "subagents"; "model"] agents ≫= as_str))
       (entry ≫= fun e => trimmed (get_str "model" e))).

Definition is_agent_allowed_by_allowlist (allow_agents : list string) (target_agent : string) : bool :=
  match allow_agents with
  | [] => false
  | _ => existsb (fun v => String.eqb v "*"
                    || String.eqb (sanitize_session_token v) (sanitize_session_token target_agent)) allow_agents
  end.

(** * Depth *)

Definition parse_spawn_depth_meta (meta : gmap string string) : option Z :=
  raw ← trimmed (or_else (meta !! "spawnDepth") (meta !! "spawn_depth"));
  parse_unsigned u32_max raw.

Definition spawner (meta : gmap string string) : option string :=
  trimmed (or_else (meta !! "spawnedBy") (meta !! "parentSessionKey")).

(** The walk to the spawning sessions; [None] is out of fuel. *)
Fixpoint depth_from (fuel : nat) (db : Db) (depth : Z) (visited : gset string) (current : string) : option Z :=
  match fuel with
  | 0 => None
  | S fuel' =>
      if bool_decide (current ∈ visited) then Some depth
      else
        let meta := get_session_metadata current db in
        match parse_spawn_depth_meta meta with
        | Some explicit => Some (Z.max depth explicit)
        | None =>
            match spawner meta with
            | Some parent => depth_from fuel' db (Z.min u32_max (depth + 1)) ({[current]} ∪ visited) parent
            | None => Some (if (depth =? 0)%Z && contains current ":subagent:" then 1%Z else depth)
            end
        end
  end.

Definition depth_fuel (db : Db) : nat := S (S (size (db_metadata db))).

Definition resolve_spawn_depth (requester_session_key : string) (db : Db) : Z :=
  match parse_spawn_depth_meta (get_session_metadata requester_session_key db) with
  | Some explicit => Z.max explicit 0
  | None => default 0%Z (depth_from (depth_fuel db) db 0 ∅ requester_session_key)
  end.

(** * The request *)

Definition SUBAGENT_SPAWN_ACCEPTED_NOTE : string :=
  "auto-announces on completion, do not poll/sleep. The response will be sent back as an user message.".
Definition SUBAGENT_SPAWN_SESSION_ACCEPTED_NOTE : string :=
  "thread-bound session stays active after this task; continue in-thread for follow-ups.".

Record SpawnEnv := {
  ev_now : Z;
  ev_session_id : option string;
  ev_agents : option json;
  ev_default_model : option string;
  ev_hook : option (string -> json -> result (option json) string);
  ev_manager : bool;
  ev_uuid : string;
  ev_binding_uuid : string;
  ev_rows : gmap string SessionInfo -> list SessionInfo;
  ev_st : nat -> nat -> option string;
}.

(** What a request asks for, and a hook may change. *)
Record SpawnAsk := {
  sk_label : string;
  sk_task : string;
  sk_model : string;
  sk_mode : string;
  sk_cleanup : string;
  sk_thread : bool;
  sk_binding_ready : bool;
  sk_target : option AnnounceTarget;
}.

Definition spawn_mode_of (v : string) : string := if eq_ignore_ascii_case v "session" then "session" else "run".
Definition cleanup_of (v : string) : string := if eq_ignore_ascii_case v "delete" then "delete" else "keep".

Definition spawn_refused (status error : string) : json :=
  jobject [("action", JStr "sessions_spawn"); ("status", JStr status); ("error", JStr error)].

Definition target_agent_of (v : json) : string :=
  sanitize_session_token (default "default" (trimmed (or_else (get_str "agent_id" v) (get_str "agentId" v)))).

Definition timeout_of (v : json) : Z :=
  default 300%Z (or_else (get_u64 "run_timeout_seconds" v)
    (or_else (get_u64 "runTimeoutSeconds" v) (get_u64 "timeoutSeconds" v))).

Definition expects_of (v : json) : bool :=
  default true (or_else (get_bool "expectsCompletionMessage" v) (get_bool "expects_completion_message" v)).

Definition ask_of (env : SpawnEnv) (v : json) (task : string) : SpawnAsk :=
  let target := target_agent_of v in
  let thread := default false (get_bool "thread" v) in
  let mode := default (if thread then "session" else "run") (spawn_mode_of <$> trimmed (get_str "mode" v)) in
  {| sk_label := default target (trimmed (get_str "label" v)); sk_task := task;
     sk_model := default "default" (or_else (trimmed (get_str "model" v))
       (or_else (resolve_subagent_model_hint target (ev_agents env)) (ev_default_model env)));
     sk_mode := mode;
     sk_cleanup := if String.eqb mode "session" then "keep"
                   else default "keep" (cleanup_of <$> trimmed (get_str "cleanup" v));
     sk_thread := thread; sk_binding_ready := negb thread; sk_target := None |}.

Definition session_needs_thread : json := spawn_refused "error"
  ("mode=" +:+ chr1 34 +:+ "session" +:+ chr1 34
   +:+ " requires thread=true so the subagent can stay bound to a thread.").

Definition requester_of_spawn (env : SpawnEnv) : string := default "agent:default:main" (ev_session_id env).

Definition disallowed (env : SpawnEnv) (target : string) : option json :=
  let requester_agent := resolve_agent_id_from_session_key (requester_of_spawn env) in
  let allow := resolve_subagent_allow_agents requester_agent (ev_agents env) in
  if String.eqb target requester_agent || is_agent_allowed_by_allowlist allow target then None
  else
    let names := sanitize_session_token <$> retain (fun v => negb (String.eqb v "*")) allow in
    Some (spawn_refused "forbidden" ("agentId is not allowed for sessions_spawn (allowed: "
            +:+ (match names with [] => "none" | _ => join ", " names end) +:+ ")")).

(** ** The hook *)

Definition hook_config (env : SpawnEnv) (v : json) (key target : string) (a : SpawnAsk) : json :=
  jobject [("child_session_key", JStr key); ("requester_session_key", JStr (requester_of_spawn env));
           ("agent_id", JStr target); ("label", JStr (sk_label a)); ("task", JStr (sk_task a));
           ("model", JStr (sk_model a)); ("timeout_seconds", JInt (timeout_of v));
           ("thread", JBool (sk_thread a)); ("mode", JStr (sk_mode a)); ("cleanup", JStr (sk_cleanup a))].

Definition hook_target (value : json) : option AnnounceTarget :=
  o ← or_else (get "deliveryTarget" value) (or_else (get "boundDeliveryTarget" value)
        (or_else (get "origin" value) (or_else (get "requesterOrigin" value)
          (if bool_decide (is_Some (get "channel" value)) || bool_decide (is_Some (get "to" value))
           then Some value else None))));
  parse_subagent_delivery_target_from_hook o.

(** What the hook's reply changes, or the error it gives. *)
Definition apply_hook (value : json) (a : SpawnAsk) : result SpawnAsk string :=
  if sk_thread a && String.eqb (to_ascii_lowercase (trim (default "" (get_str "status" value)))) "error"
  then Err (default "Failed to prepare thread binding for this subagent session." (trimmed (get_str "error" value)))
  else Ok {|
    sk_label := default (sk_label a) (trimmed (get_str "label" value));
    sk_task := default (sk_task a) (trimmed (get_str "task" value));
    sk_model := default (sk_model a) (trimmed (get_str "model" value));
    sk_mode := default (sk_mode a) (spawn_mode_of <$> trimmed (get_str "mode" value));
    sk_cleanup := default (sk_cleanup a) (cleanup_of <$> trimmed (get_str "cleanup" value));
    sk_thread := default (sk_thread a) (get_bool "thread" value);
    sk_binding_ready := if sk_thread a then default false (get_bool "threadBindingReady" value) else sk_binding_ready a;
    sk_target := or_else (hook_target value) (sk_target a) |}.

(** A spawn that is not accepted: an error of the call, or a reply that refuses. *)
Inductive Refusal :=
| CallError (e : string)
| Refused (reply : json).

Definition call_hook (env : SpawnEnv) (v : json) (key target : string) (a : SpawnAsk) : result SpawnAsk Refusal :=
  match ev_hook env with
  | Some hook =>
      match hook target (hook_config env v key target a) with
      | Err e => Err (CallError ("subagent_spawning hook failed: " +:+ e))
      | Ok None => Ok a
      | Ok (Some value) =>
          match apply_hook value a with
          | Ok a' => Ok a'
          | Err e => Err (Refused (spawn_refused "error" e))
          end
      end
  | None =>
      if sk_thread a then Err (Refused (spawn_refused "error"
        "thread=true is unavailable because no channel plugin registered subagent_spawning hooks."))
      else Ok a
  end.

(** * Preparing the session *)

Section spawn.
Variable fk : bool.
Variable ser : list SessionBindingRecord -> string.
Variable de : string -> option (list SessionBindingRecord).
Variable is_digit : string -> bool.
Variable values : Runs -> list SubagentRunEntry.

(** The n-th write of a field; its outcome is dropped. *)
Definition write_field (env : SpawnEnv) (key : string) (db : Db) (w : nat * string * string) : Db :=
  let '(n, field, value) := w in (set_session_metadata_field fk (ev_st env n) key field value db).2.

Definition session_fields (parent : option string) (depth : Z) (timeout : Z) (a : SpawnAsk) : list (nat * string * string) :=
  match parent with Some p => [(1, "spawnedBy", p); (2, "parentSessionKey", p)] | None => [] end
  ++ [(3, "targetKind", "subagent"); (4, "subagentLabel", sk_label a); (5, "label", sk_label a);
      (6, "subagentTask", sk_task a); (7, "spawnDepth", pretty depth); (8, "spawnMode", sk_mode a);
      (9, "cleanupPolicy", sk_cleanup a); (10, "threadRequested", if sk_thread a then "true" else "false");
      (11, "runTimeoutSeconds", pretty timeout)]
  ++ if String.eqb (sk_model a) "" then [] else [(12, "modelOverride", sk_model a)].

Definition delivery_fields (t : AnnounceTarget) : list (nat * string * string) :=
  [(13, "delivery.channel", at_channel t); (14, "delivery.to", at_to t)]
  ++ match trimmed (at_account_id t) with Some x => [(15, "delivery.accountId", x)] | None => [] end
  ++ match trimmed (at_thread_id t) with Some x => [(16, "delivery.threadId", x)] | None => [] end.

Definition bind_thread (env : SpawnEnv) (key : string) (a : SpawnAsk) (db : Db) : Db :=
  if sk_thread a && sk_binding_ready a then
    let requester := requester_of_spawn env in
    match or_else (sk_target a) (resolve_announce_target is_digit (ev_rows env) requester requester db) with
    | Some t =>
        let db1 := foldl (write_field env key) db (delivery_fields t) in
        (upsert_session_binding ser de fk (ev_st env 17) (ev_st env 18) (ev_now env) (ev_binding_uuid env)
           key "subagent" t db1).2
    | None => db
    end
  else db.

(** A spawn that was accepted: its session is there. *)
Record Plan := {
  pl_key : string;
  pl_ask : SpawnAsk;
  pl_agent_id : string;
  pl_depth : Z;
  pl_max_depth : Z;
  pl_channel : option string;
}.

Definition depth_refused (depth max : Z) : Refusal := Refused (spawn_refused "forbidden"
  ("sessions_spawn is not allowed at this depth (current depth: " +:+ pretty depth +:+ ", max: " +:+ pretty max +:+ ")")).
Definition children_refused (active : nat) (max : Z) : Refusal := Refused (spawn_refused "forbidden"
  ("sessions_spawn has reached max active children for this session ("
   +:+ pretty active +:+ "/" +:+ pretty max +:+ ")")).

Definition child_key (target uuid : string) : string := "agent:" +:+ target +:+ ":subagent:" +:+ uuid.

(** The request with its defaults, checked, and as the hook changed it. *)
Definition ask_checked (env : SpawnEnv) (v : json) : result SpawnAsk Refusal :=
  let target := target_agent_of v in
  let task := trim (default "" (or_else (get_str "task" v) (get_str "prompt" v))) in
  if String.eqb task "" then Err (CallError "sessions_spawn: missing task/prompt")
  else
    let a := ask_of env v task in
    if String.eqb (sk_mode a) "session" && negb (sk_thread a) then Err (Refused session_needs_thread)
    else
      match disallowed env target with
      | Some reply => Err (Refused reply)
      | None =>
          let? a := call_hook env v (child_key target (ev_uuid env)) target a in
          if String.eqb (sk_mode a) "session" && negb (sk_thread a) then Err (Refused session_needs_thread)
          else if sk_thread a && negb (sk_binding_ready a) then Err (Refused (spawn_refused "error"
            "Unable to create or bind a thread for this subagent session. Session mode is unavailable for this target."))
          else
            let a := {| sk_label := sk_label a; sk_task := sk_task a; sk_model := sk_model a; sk_mode := sk_mode a;
                        sk_cleanup := if String.eqb (sk_mode a) "session" then "keep" else sk_cleanup a;
                        sk_thread := sk_thread a; sk_binding_ready := sk_binding_ready a; sk_target := sk_target a |} in
            if String.eqb (trim (sk_task a)) ""
            then Err (CallError "sessions_spawn: task was cleared by subagent_spawning hook")
            else if negb (ev_manager env) then Err (CallError "sessions_spawn: session manager unavailable")
            else Ok a
      end.

Definition prepare_spawn (env : SpawnEnv) (v : json) (runs : Runs) (db : Db) : result Plan Refusal * Db :=
  let target := target_agent_of v in
  let key := child_key target (ev_uuid env) in
  let requester := requester_of_spawn env in
  match ask_checked env v with
  | Err e => (Err e, db)
  | Ok a =>
      let '(max_depth, max_children) := resolve_subagent_limits (ev_agents env) in
      let depth := resolve_spawn_depth requester db in
      let active := count_active_children_for_requester values (ev_now env) requester runs in
      if (max_depth <=? depth)%Z then (Err (depth_refused depth max_depth), db)
      else if (max_children <=? Z.of_nat active)%Z then (Err (children_refused active max_children), db)
      else
        let child_depth := Z.min u32_max (depth + 1) in
        match create_session (ev_st env 0) key target (ev_now env) db with
        | (Err e, db1) => (Err (CallError e), db1)
        | (Ok created, db1) =>
            let parent := or_else (get_str "parent_session_key" v) (ev_session_id env) in
            let db2 := foldl (write_field env key) db1 (session_fields parent child_depth (timeout_of v) a) in
            let db3 := bind_thread env key a db2 in
            match (if String.eqb (sk_task a) "" then (Ok tt, db3)
                   else add_message fk (ev_st env 19) key "user" (sk_task a) (ev_now env) db3) with
            | (Err e, db4) => (Err (CallError e), db4)
            | (Ok _, db4) =>
                (Ok {| pl_key := key; pl_ask := a; pl_agent_id := si_agent_id created; pl_depth := child_depth;
                       pl_max_depth := max_depth;
                       pl_channel := session_metadata_pick (get_session_metadata requester db4)
                         ["delivery.channel"; "lastChannel"; "last_channel"; "channel"] |}, db4)
            end
        end
  end.

(** * Starting the run *)

Definition spec_of (env : SpawnEnv) (v : json) (p : Plan) : RunSpec :=
  let a := pl_ask p in {|
  rs_requester := requester_of_spawn env; rs_child := pl_key p; rs_label := sk_label a; rs_task := sk_task a;
  rs_model := sk_model a; rs_timeout := timeout_of v; rs_mode := sk_mode a; rs_cleanup := sk_cleanup a;
  rs_thread := sk_thread a; rs_expects := expects_of v;
  rs_archive := if eq_ignore_ascii_case (sk_mode a) "session" then None
                else sat_add_i64 (ev_now env) <$> resolve_subagent_archive_after_ms (ev_agents env) |}.

Definition accepted_reply (v : json) (run_id : string) (p : Plan) : json :=
  let a := pl_ask p in
  jobject [("action", JStr "sessions_spawn"); ("status", JStr "accepted"); ("run_id", JStr run_id);
           ("session_key", JStr (pl_key p)); ("session_id", default (JStr (pl_key p)) (get "session_id" v));
           ("agent_id", JStr (pl_agent_id p)); ("label", JStr (sk_label a)); ("task", JStr (sk_task a));
           ("model", JStr (sk_model a)); ("model_applied", JBool (negb (String.eqb (trim (sk_model a)) "")));
           ("mode", JStr (sk_mode a)); ("cleanup", JStr (sk_cleanup a)); ("thread", JBool (sk_thread a));
           ("expectsCompletionMessage", JBool (expects_of v));
           ("note", JStr (if String.eqb (sk_mode a) "session" then SUBAGENT_SPAWN_SESSION_ACCEPTED_NOTE
                          else SUBAGENT_SPAWN_ACCEPTED_NOTE));
           ("prompt_queued", JBool true)].

(** The run inserted under a new identifier, when there is a model provider. *)
Definition finish_spawn (env : SpawnEnv) (v : json) (run_id : string) (p : Plan) (runs : Runs) (db : Db)
  : json * Runs * Db :=
  let swept := sweep_archived_subagent_runs (ev_now env) runs in
  match ev_default_model env with
  | None =>
      (jobject [("action", JStr "sessions_spawn"); ("status", JStr "error"); ("session_key", JStr (pl_key p));
                ("error", JStr "subagent run requires llm provider")], swept,
       (remove_session fk (ev_st env 20) (pl_key p) db).2)
  | Some _ =>
      (accepted_reply v run_id p, <[run_id := new_entry (ev_now env) run_id (spec_of env v p)]> swept,
       write_field env (pl_key p) db (21, "subagentRunId", run_id))
  end.

(** The whole call, when nothing happens in between. *)
Definition fulfill_sessions_spawn (env : SpawnEnv) (v : json) (run_id : string) (runs : Runs) (db : Db)
  : result json string * Runs * Db :=
  match prepare_spawn env v runs db with
  | (Err (CallError e), db1) => (Err e, runs, db1)
  | (Err (Refused reply), db1) => (Ok reply, runs, db1)
  | (Ok p, db1) =>
      let '(reply, runs', db2) := finish_spawn env v run_id p runs db1 in (Ok reply, runs', db2)
  end.
End spawn.

(** * Lemmas *)

(** ** The walk ends *)

Lemma metadata_there (db : Db) key field x : get_session_metadata key db !! field = Some x -> key ∈ dom (db_metadata db).
Proof.
  unfold get_session_metadata. destruct (db_metadata db !! key) as [m|] eqn:E; [by intros _; apply elem_of_dom_2 in E|].
  cbn. by rewrite lookup_empty.
Qed.

Lemma spawner_there db key p : spawner (get_session_metadata key db) = Some p -> key ∈ dom (db_metadata db).
Proof.
  intros (_ & r & E & _)%trimmed_Some. unfold or_else in E.
  destruct (get_session_metadata key db !! "spawnedBy") eqn:E1; eauto using metadata_there.
Qed.

Lemma parse_unsigned_range max s n : parse_unsigned max s = Some n -> (n <= max)%Z.
Proof.
  unfold parse_unsigned. destruct (String.eqb _ ""); [done|]. destruct (parse_digits 0 _) as [m|]; cbn; [|done].
  destruct (Z.leb_spec m max); [|done]. by intros [= <-].
Qed.

Lemma depth_from_total fuel db depth visited current : (0 <= depth)%Z ->
  size (dom (db_metadata db) ∖ visited) + 2 <= fuel ->
  exists d, depth_from fuel db depth visited current = Some d /\ (0 <= d)%Z.
Proof.
  revert depth visited current. induction fuel as [|fuel IH]; intros depth visited current Hd L; [lia|].
  cbn [depth_from]. case_bool_decide as V; [eauto|].
  destruct (parse_spawn_depth_meta _) as [d|]; [eexists; split; [done|lia]|].
  destruct (spawner _) as [p|] eqn:E; [|destruct (_ && _); eauto with lia].
  apply IH; [unfold u32_max; lia|]. apply spawner_there in E.
  assert (size (dom (db_metadata db) ∖ ({[current]} ∪ visited)) < size (dom (db_metadata db) ∖ visited)); [|lia].
  apply subset_size. set_solver.
Qed.

(** Twice more than the sessions with metadata is enough. *)
Lemma depth_walk_total db key : exists d, depth_from (depth_fuel db) db 0 ∅ key = Some d /\ (0 <= d)%Z.
Proof.
  apply depth_from_total; [done|]. unfold depth_fuel. rewrite difference_empty_L, size_dom. lia.
Qed.

Lemma resolve_spawn_depth_nonneg key db : (0 <= resolve_spawn_depth key db)%Z.
Proof.
  unfold resolve_spawn_depth. destruct (parse_spawn_depth_meta _); [lia|].
  destruct (depth_walk_total db key) as (d & -> & ?). done.
Qed.

Lemma limits_range agents : let '(d, n) := resolve_subagent_limits agents in (1 <= d <= u32_max)%Z /\ (1 <= n)%Z.
Proof.
  unfold resolve_subagent_limits, DEFAULT_SUBAGENT_MAX_SPAWN_DEPTH, u32_max.
  destruct (positive_at ["defaults"; "subagents"; "maxSpawnDepth"] agents) as [d|]; cbn; [|lia].
  pose proof (Z.mod_pos_bound d (2 ^ 32) ltac:(lia)). lia.
Qed.

(** ** Writes of metadata *)

Section writes.
Variable fk : bool.

Lemma put_field_other key field value db k : k <> key ->
  get_session_metadata k (put_field key field value db) = get_session_metadata k db.
Proof. intros N. unfold get_session_metadata, put_field. cbn. by rewrite lookup_insert_ne. Qed.
Lemma put_field_field key field value db f : f <> field ->
  get_session_metadata key (put_field key field value db) !! f = get_session_metadata key db !! f.
Proof. intros N. unfold get_session_metadata at 1, put_field. cbn. by rewrite lookup_insert_eq; cbn; rewrite lookup_insert_ne. Qed.

(** A write leaves the sessions, the other sessions' fields and the other fields. *)
Record writes_only (key : string) (fields : list string) (db db' : Db) : Prop := {
  wo_sessions : db_sessions db' = db_sessions db;
  wo_keys k : k <> key -> get_session_metadata k db' = get_session_metadata k db;
  wo_fields f : f ∉ fields -> get_session_metadata key db' !! f = get_session_metadata key db !! f;
}.

Lemma writes_only_refl key fields db : writes_only key fields db db.
Proof. done. Qed.
Lemma writes_only_trans key fs db1 db2 db3 :
  writes_only key fs db1 db2 -> writes_only key fs db2 db3 -> writes_only key fs db1 db3.
Proof.
  intros [A B C] [A' B' C']. split; [congruence| |].
  - intros k N. by rewrite B', B.
  - intros f N. by rewrite C', C.
Qed.
Lemma writes_only_weaken key fs fs' db db' : fs ⊆ fs' -> writes_only key fs db db' -> writes_only key fs' db db'.
Proof. intros S [A B C]. split; auto. Qed.

Lemma set_field_writes st key field value db : writes_only key [trim field] db (set_session_metadata_field fk st key field value db).2.
Proof.
  unfold set_session_metadata_field. destruct (String.eqb _ ""); [apply writes_only_refl|].
  destruct (fk_violated _ _ _); [apply writes_only_refl|]. unfold exec. destruct (st 0); [apply writes_only_refl|].
  split; cbn [snd]; [done|by intros; apply put_field_other|]. intros f N. apply put_field_field. set_solver.
Qed.

Definition names (ws : list (nat * string * string)) : list string := (fun w => trim w.1.2) <$> ws.

Lemma fields_write env key ws db : writes_only key (names ws) db (foldl (write_field fk env key) db ws).
Proof.
  revert db. induction ws as [|[[n f] v] ws IH]; intros db; cbn [foldl]; [apply writes_only_refl|].
  eapply writes_only_trans; [|eapply writes_only_weaken; [|apply IH]].
  - eapply writes_only_weaken; [|apply set_field_writes]. cbn. set_solver.
  - cbn. set_solver.
Qed.
End writes.

(** ** Prepared sessions *)

Section prepared.
Variable fk : bool.
Variable ser : list SessionBindingRecord -> string.
Variable de : string -> option (list SessionBindingRecord).
Variable is_digit : string -> bool.
Variable values : Runs -> list SubagentRunEntry.

Definition binding_fields : list string :=
  ["delivery.channel"; "delivery.to"; "delivery.accountId"; "delivery.threadId"; "deliveryBindings";
   "subagentDeliveryBindings"].

Lemma bind_thread_writes env key a db : writes_only key binding_fields db (bind_thread fk ser de is_digit env key a db).
Proof.
  unfold bind_thread. destruct (_ && _); [|apply writes_only_refl]. destruct (or_else _ _) as [t|]; [|apply writes_only_refl].
  eapply (writes_only_trans key _ _ (foldl (write_field fk env key) db (delivery_fields t))).
  - eapply writes_only_weaken; [|apply fields_write].
    unfold delivery_fields, names, binding_fields.
    destruct (trimmed (at_account_id t)), (trimmed (at_thread_id t)); cbn; set_solver.
  - unfold upsert_session_binding. destruct (upsert _ _ _ _ _ _) as [[item l]|]; [|apply writes_only_refl].
    cbn [snd]. unfold write_session_bindings. eapply writes_only_trans; eapply (writes_only_weaken key [_]).
    2: eapply (set_field_writes fk _ key "deliveryBindings"). 3: eapply (set_field_writes fk _ key "subagentDeliveryBindings").
    + change (trim "deliveryBindings") with "deliveryBindings". unfold binding_fields. set_solver.
    + change (trim "subagentDeliveryBindings") with "subagentDeliveryBindings". unfold binding_fields. set_solver.
Qed.

Lemma create_session_db st key agent now db s db' : create_session st key agent now db = (Ok s, db') ->
  db_metadata db' = db_metadata db /\ is_Some (db_sessions db' !! key).
Proof.
  unfold create_session, exec. destruct (st 0); [done|]. destruct (st 1); [done|].
  destruct (db_sessions (update_session _ _ _) !! key) eqn:E; [|done]. intros [= _ <-].
  split; [by destruct (db_sessions db !! key)|]. rewrite E. eauto.
Qed.

Lemma add_message_metadata st key role content now db :
  db_metadata (add_message fk st key role content now db).2 = db_metadata db.
Proof. unfold add_message, exec. destruct (fk_violated _ _ _); [done|]. destruct (st 0); [done|]. by destruct (st 1). Qed.

Definition after_depth : list string :=
  ["spawnMode"; "cleanupPolicy"; "threadRequested"; "runTimeoutSeconds"; "modelOverride"].

(** A field written into a session that exists, when its write succeeds and no later one has its name. *)
Lemma written_once env key pre n f v post db : trim f = f -> f <> "" -> ev_st env n 0 = None ->
  is_Some (db_sessions db !! key) -> f ∉ names post ->
  get_session_metadata key (foldl (write_field fk env key) db (pre ++ (n, f, v) :: post)) !! f = Some v.
Proof.
  intros Ht Hne St [s Hs] N. rewrite foldl_app. cbn [foldl].
  rewrite (wo_fields _ _ _ _ (fields_write fk env key post _)) by done.
  pose proof (wo_sessions _ _ _ _ (fields_write fk env key pre db)) as E.
  revert E. generalize (foldl (write_field fk env key) db pre). intros db1 E.
  unfold write_field, set_session_metadata_field. rewrite Ht, (proj2 (String.eqb_neq _ _) Hne).
  unfold fk_violated. rewrite E, Hs, bool_decide_false, andb_false_r by done. unfold exec. rewrite St. cbn [snd].
  unfold get_session_metadata at 1, put_field. cbn. by rewrite lookup_insert_eq; cbn; rewrite lookup_insert_eq.
Qed.

Lemma session_fields_depth parent depth timeout a : exists pre post,
  session_fields parent depth timeout a = pre ++ (7, "spawnDepth", pretty depth) :: post /\ names post ⊆ after_depth.
Proof.
  exists (match parent with Some p => [(1, "spawnedBy", p); (2, "parentSessionKey", p)] | None => [] end
          ++ [(3, "targetKind", "subagent"); (4, "subagentLabel", sk_label a); (5, "label", sk_label a);
              (6, "subagentTask", sk_task a)]).
  eexists. split; [unfold session_fields; rewrite <- app_assoc; cbn [app]; reflexivity|].
  unfold names, after_depth. destruct (String.eqb (sk_model a) ""); vm_compute (trim _); set_solver.
Qed.

Lemma depth_written env key parent depth timeout a db :
  ev_st env 7 0 = None -> is_Some (db_sessions db !! key) ->
  get_session_metadata key (foldl (write_field fk env key) db (session_fields parent depth timeout a)) !! "spawnDepth"
    = Some (pretty depth).
Proof.
  intros St Hs. destruct (session_fields_depth parent depth timeout a) as (pre & post & -> & N).
  apply written_once; [done|done|done|done|]. intros H%N. revert H. unfold after_depth. set_solver.
Qed.

Abbreviation prepare := (prepare_spawn fk ser de is_digit values).

(** What an accepted spawn has checked, and left in the database. *)
Lemma prepared env v runs db p db' : prepare env v runs db = (Ok p, db') ->
  let requester := requester_of_spawn env in
  let '(max_depth, max_children) := resolve_subagent_limits (ev_agents env) in
  pl_key p = child_key (target_agent_of v) (ev_uuid env)
  /\ pl_depth p = (resolve_spawn_depth requester db + 1)%Z /\ (pl_depth p <= max_depth)%Z
  /\ (Z.of_nat (count_active_children_for_requester values (ev_now env) requester runs) < max_children)%Z
  /\ ask_checked env v = Ok (pl_ask p)
  /\ (forall k, k <> pl_key p -> get_session_metadata k db' = get_session_metadata k db)
  /\ (ev_st env 7 0 = None ->
      parse_spawn_depth_meta (get_session_metadata (pl_key p) db') = Some (pl_depth p)).
Proof.
  unfold prepare_spawn. cbv zeta. destruct (ask_checked env v) as [a|] eqn:A; [|done].
  pose proof (limits_range (ev_agents env)) as L.
  destruct (resolve_subagent_limits (ev_agents env)) as [max_depth max_children].
  set (key := child_key _ _). set (requester := requester_of_spawn env).
  destruct (Z.leb_spec max_depth (resolve_spawn_depth requester db)) as [|D]; [done|].
  destruct (Z.leb_spec max_children
    (Z.of_nat (count_active_children_for_requester values (ev_now env) requester runs))) as [|C]; [done|].
  pose proof (resolve_spawn_depth_nonneg requester db) as Nn.
  rewrite (Z.min_r u32_max) by lia.
  destruct (create_session _ _ _ _ _) as [[created|] db1] eqn:E1; [|done].
  apply create_session_db in E1 as [M1 S1].
  set (d := (resolve_spawn_depth requester db + 1)%Z) in *.
  set (ws := session_fields _ _ _ _). set (db2 := foldl _ db1 ws). set (db3 := bind_thread _ _ _ _ _ _ _ _).
  pose proof (fields_write fk env key ws db1 : writes_only key _ db1 db2) as W2.
  pose proof (bind_thread_writes env key a db2 : writes_only key _ db2 db3) as W3.
  intros H.
  assert (pl_key p = key /\ pl_depth p = d /\ pl_ask p = a /\ db_metadata db' = db_metadata db3) as (-> & -> & -> & M).
  { destruct (String.eqb (sk_task a) ""); [by injection H as <- <-|].
    pose proof (add_message_metadata (ev_st env 19) key "user" (sk_task a) (ev_now env) db3) as M.
    destruct (add_message _ _ _ _ _ _ _) as [[[]|] db4]; [|done]. by injection H as <- <-. }
  assert (forall k, get_session_metadata k db' = get_session_metadata k db3) as M'
    by (intros k; unfold get_session_metadata; by rewrite M).
  split; [done|]. split; [done|]. split; [lia|]. split; [done|]. split; [done|]. split.
  - intros k N. rewrite M', (wo_keys _ _ _ _ W3) by done. rewrite (wo_keys _ _ _ _ W2) by done.
    unfold get_session_metadata. by rewrite M1.
  - intros St. unfold parse_spawn_depth_meta. rewrite M'.
    rewrite (wo_fields _ _ _ _ W3) by (unfold binding_fields; set_solver).
    unfold db2, ws. rewrite depth_written by done. cbn [or_else].
    rewrite trimmed_pretty by lia. cbn [mbind option_bind]. apply parse_pretty. lia.
Qed.
End prepared.

(** * Nesting *)

Section nesting.
Variable fk : bool.
Variable ser : list SessionBindingRecord -> string.
Variable de : string -> option (list SessionBindingRecord).
Variable is_digit : string -> bool.
Variable values : Runs -> list SubagentRunEntry.
Variable agents : option json.

(** The registry, the database, and how deep each spawned session really is. *)
Record Nest := { ne_runs : Runs; ne_db : Db; ne_gen : gmap string nat }.

Definition generation (key : string) (s : Nest) : nat := default 0 (ne_gen s !! key).

(** A spawn is accepted, under a new key and with its depth written; or anything
    else happens that leaves the recorded depths of spawned sessions. *)
Inductive NestStep (s : Nest) : Nest -> Prop :=
| nest_spawn env v p db :
    ev_agents env = agents -> ev_st env 7 0 = None ->
    prepare_spawn fk ser de is_digit values env v (ne_runs s) (ne_db s) = (Ok p, db) ->
    ne_gen s !! pl_key p = None ->
    NestStep s {| ne_runs := ne_runs s; ne_db := db;
                  ne_gen := <[pl_key p := S (generation (requester_of_spawn env) s)]> (ne_gen s) |}
| nest_other runs db :
    (forall k, is_Some (ne_gen s !! k) -> parse_spawn_depth_meta (get_session_metadata k db)
       = parse_spawn_depth_meta (get_session_metadata k (ne_db s))) ->
    NestStep s {| ne_runs := runs; ne_db := db; ne_gen := ne_gen s |}.

Definition nested_ok (s : Nest) : Prop :=
  forall k n, ne_gen s !! k = Some n -> exists d,
    parse_spawn_depth_meta (get_session_metadata k (ne_db s)) = Some d
    /\ (Z.of_nat n <= d <= (resolve_subagent_limits agents).1)%Z.

Lemma generation_below s key : nested_ok s -> (Z.of_nat (generation key s) <= resolve_spawn_depth key (ne_db s))%Z.
Proof.
  intros I. unfold generation. destruct (ne_gen s !! key) as [n|] eqn:E; cbn.
  - destruct (I key n E) as (d & Hd & ?). unfold resolve_spawn_depth. rewrite Hd. lia.
  - apply resolve_spawn_depth_nonneg.
Qed.

Lemma nest_step s s' : nested_ok s -> NestStep s s' -> nested_ok s'.
Proof.
  intros I [env v p db Ea St P F|runs db H].
  - apply prepared in P. rewrite Ea in P. destruct (resolve_subagent_limits agents) as [md mc] eqn:L.
    destruct P as (_ & D & Le & _ & _ & K & W). pose proof (generation_below s (requester_of_spawn env) I).
    intros k n. cbn [ne_gen ne_db]. intros [[<- <-]|[N E]]%lookup_insert_Some.
    + exists (pl_depth p). split; [by apply W|]. rewrite L. cbn. lia.
    + rewrite K by done. by apply I.
  - intros k n E. cbn [ne_gen ne_db] in *. rewrite H by eauto. by apply I.
Qed.

End nesting.

(** * What an accepted spawn has passed *)

Lemma ask_checked_ok env v a : ask_checked env v = Ok a ->
  disallowed env (target_agent_of v) = None
  /\ (sk_mode a = "session" -> sk_thread a = true /\ sk_cleanup a = "keep")
  /\ (sk_thread a = true -> sk_binding_ready a = true) /\ trim (sk_task a) <> "".
Proof.
  unfold ask_checked. cbv zeta. destruct (String.eqb _ "") eqn:T; [done|].
  destruct (String.eqb (sk_mode (ask_of _ _ _)) _ && _); [done|].
  destruct (disallowed _ _); [done|]. destruct (call_hook _ _ _ _ _) as [a1|]; [|done].
  cbn [rbind]. destruct (String.eqb (sk_mode a1) "session" && negb (sk_thread a1)) eqn:S1; [done|].
  destruct (sk_thread a1 && negb (sk_binding_ready a1)) eqn:S2; [done|]. cbn [sk_task].
  destruct (String.eqb (trim (sk_task a1)) "") eqn:S3; [done|].
  destruct (ev_manager env); cbn [negb]; [|done]. intros [= <-].
  cbn [sk_mode sk_thread sk_cleanup sk_binding_ready sk_task].
  split; [done|]. split; [|split].
  - intros E. rewrite E in *. split; [|done]. by destruct (sk_thread a1).
  - intros Ht. rewrite Ht in S2. by destruct (sk_binding_ready a1).
  - by apply String.eqb_neq.
Qed.

(** C20. An accepted spawn is for the requester's own agent or one it may spawn; the
    requester is not too deep and has not too many active children; a session
    stays bound to a thread and is kept; the task is not blank.  The new run has
    the requester's key and the session's. *)
Theorem spawn_accepted fk ser de is_digit values env v runs db p db' :
  prepare_spawn fk ser de is_digit values env v runs db = (Ok p, db') ->
  let requester := requester_of_spawn env in
  let agent := resolve_agent_id_from_session_key requester in
  (target_agent_of v = agent
   \/ is_agent_allowed_by_allowlist (resolve_subagent_allow_agents agent (ev_agents env)) (target_agent_of v) = true)
  /\ (resolve_spawn_depth requester db < (resolve_subagent_limits (ev_agents env)).1)%Z
  /\ (Z.of_nat (count_active_children_for_requester values (ev_now env) requester runs)
      < (resolve_subagent_limits (ev_agents env)).2)%Z
  /\ (sk_mode (pl_ask p) = "session" -> sk_thread (pl_ask p) = true /\ sk_cleanup (pl_ask p) = "keep")
  /\ (sk_thread (pl_ask p) = true -> sk_binding_ready (pl_ask p) = true)
  /\ trim (sk_task (pl_ask p)) <> ""
  /\ forall run_id, ev_default_model env <> None ->
       exists e, (finish_spawn fk env v run_id p runs db').1.2 !! run_id = Some e
         /\ se_requester_session_key e = requester
         /\ se_child_session_key e = child_key (target_agent_of v) (ev_uuid env) /\ active e = true.
Proof.
  intros P%prepared. cbv zeta in *. destruct (resolve_subagent_limits (ev_agents env)) as [md mc].
  cbn [fst snd]. destruct P as (Ek & D & Le & C & A & _ & _). apply ask_checked_ok in A as (Dis & M & B & T).
  split; [|split; [lia|]]; [|split; [done|]; split; [done|]; split; [done|]; split; [done|]].
  - unfold disallowed in Dis. destruct (String.eqb_spec (target_agent_of v)
      (resolve_agent_id_from_session_key (requester_of_spawn env))) as [|N]; [by left|].
    destruct (is_agent_allowed_by_allowlist _ _); [by right|done].
  - intros run_id. unfold finish_spawn. destruct (ev_default_model env); [|done]. intros _.
    eexists. split; [apply lookup_insert_eq|]. cbn. by rewrite Ek.
Qed.

(** * Examples *)

Definition depth_two : json := jobject [("defaults", jobject [("subagents", jobject
  [("maxSpawnDepth", JInt 2); ("maxChildrenPerAgent", JInt 1)])])].
Definition spawning (session uuid : string) : SpawnEnv := {|
  ev_now := 10; ev_session_id := Some session; ev_agents := Some depth_two; ev_default_model := Some "m";
  ev_hook := None; ev_manager := true; ev_uuid := uuid; ev_binding_uuid := "b";
  ev_rows := fun m => (map_to_list m).*2; ev_st := fun _ _ => None |}.
Definition ask_scan : json := jobject [("task", JStr " scan ")].
Definition no_digit : string -> bool := fun _ => false.
Definition no_ser : list SessionBindingRecord -> string := fun _ => "".
Definition no_de : string -> option (list SessionBindingRecord) := fun _ => None.
Definition prepared_by (session uuid : string) (runs : Runs) (db : Db) : result Plan Refusal * Db :=
  prepare_spawn true no_ser no_de no_digit some_values (spawning session uuid) ask_scan runs db.
Definition after_one : Db := (prepared_by "main" "1" ∅ Db_empty).2.
Definition after_two : Db := (prepared_by "agent:default:subagent:1" "2" ∅ after_one).2.
Definition depth_of (r : result Plan Refusal * Db) : option Z :=
  match r.1 with Ok p => Some (pl_depth p) | Err _ => None end.

(** Two deep, and not three. *)
Example nest_twice :
  depth_of (prepared_by "main" "1" ∅ Db_empty) = Some 1%Z
  /\ depth_of (prepared_by "agent:default:subagent:1" "2" ∅ after_one) = Some 2%Z
  /\ (prepared_by "agent:default:subagent:2" "3" ∅ after_two).1 = Err (depth_refused 2 2).
Proof. vm_compute. done. Qed.

(** Both of two concurrent spawns pass the check for at most one active child. *)
Example children_checked_apart :
  depth_of (prepared_by "main" "1" ∅ Db_empty) = Some 1%Z /\ depth_of (prepared_by "main" "2" ∅ after_one) = Some 1%Z
  /\ (prepared_by "main" "2" {["r" := sample_run "r" "main" "agent:default:subagent:1" 1 None None]} after_one).1
     = Err (children_refused 1 1).
Proof. vm_compute. done. Qed.

(** Without a depth of its own a session counts its spawner's, not one more. *)
Definition unmarked : Db := put_field "agent:a:subagent:9" "spawnedBy" "agent:default:subagent:2" after_two.
Example walk_undercounts :
  resolve_spawn_depth "agent:default:subagent:2" unmarked = 2%Z
  /\ resolve_spawn_depth "agent:a:subagent:9" unmarked = 2%Z.
Proof. vm_compute. done. Qed.

(** A limit of [2^32] wraps to none, and counts as one. *)
Example limit_wraps :
  resolve_subagent_limits (Some (jobject [("defaults", jobject [("subagents", jobject
    [("maxSpawnDepth", JInt 4294967296)])])])) = (1, 5)%Z.
Proof. vm_compute. done. Qed.

Lemma spawn_accepted_witness : exists p db', prepared_by "main" "1" ∅ Db_empty = (Ok p, db') /\ trim (sk_task (pl_ask p)) <> "".
Proof.
  destruct (prepared_by "main" "1" ∅ Db_empty) as [[p|e] db'] eqn:E; [|by vm_compute in E].
  destruct (spawn_accepted true no_ser no_de no_digit some_values (spawning "main" "1") ask_scan ∅ Db_empty p db' E)
    as (_ & _ & _ & _ & _ & T & _).
  exists p, db'. split; [reflexivity|exact T].
Defined.

Definition key_is (key : string) (r : result Plan Refusal * Db) : Prop :=
  match r.1 with Ok p => pl_key p = key | Err _ => False end.

