(* ===== verification/SubagentTool.v ===== *)
(** The [subagents] tool of an agent
    ([crates/gateway-core/src/http/agent_bridge.rs], [fulfill_subagents]): help,
    agents, list, info, log, send, kill, steer, spawn, focus and unfocus.

    A call is run here from its start to its end; what other tasks do between its
    steps is in [SubagentCleanup], whose steps the calls are made of. *)

From Stdlib Require Import Strings.String.
From stdpp Require Import pretty.
From S2P Require Import Prelude RustStr F64 Json Sorting Usage Parse SessionStore Outbound SessionBindings SessionAccess SubagentRuns AnnounceQueue SubagentReport SessionsSend SubagentCleanup SubagentSpawn.
#[local] Open Scope string_scope.
#[local] Open Scope nat_scope.
#[local] Open Scope list_scope.
#[local] Open Scope rust_scope.

(** * What a call gets and gives *)

(** [te_field]: the outcomes of the statements of a metadata write, the n-th of the
    call; [te_run_id] and [te_uuid] new identifiers. *)
Record ToolEnv := {
  te_cl : ClEnv;
  te_field : nat -> nat -> option string;
  te_run_id : string;
  te_uuid : string;
  te_step : StepEnv;
  te_spawn : SpawnEnv;
  te_exec : Executor;
}.
Definition te_now (env : ToolEnv) : Z := ce_now (te_cl env).

(** The answer, the state, and what was logged. *)
Definition Outcome : Type := result json string * ClState * list Effect.
Definition say_ok (v : json) (s : ClState) : Outcome := (Ok v, s, []).
Definition say_err (e : string) (s : ClState) : Outcome := (Err e, s, []).

Definition tool_requester (env : ToolEnv) : string := default "agent:default:main" (xe_session_id (te_exec env)).

(** [as i64] and the wrapping product. *)
Definition recent_minutes_of (v : json) : Z :=
  default 30%Z (or_else (get_u64 "recent_minutes" v) (get_u64 "recentMinutes" v)).
Definition recent_cutoff_ms (now minutes : Z) : Z := sat_sub_i64 now (wrap_i64 (wrap_i64 minutes * 60000)).

(** The target: with or without the second spelling of the session's key. *)
Definition short_target (v : json) : option string :=
  trimmed (or_else (get_str "target" v) (get_str "session_key" v)).
Definition long_target (v : json) : option string :=
  trimmed (or_else (get_str "target" v) (or_else (get_str "session_key" v) (get_str "sessionKey" v))).
Definition message_of (v : json) : option string := trimmed (get_str "message" v).

Definition build_subagents_help_text : string :=
  let q s := chr1 34 +:+ s +:+ chr1 34 in
  let action name rest := "- subagents { action: " +:+ q name +:+ rest +:+ " }" in
  join nl ["Subagents"; "Usage:"; action "help" ""; action "agents" ""; action "list" "";
    action "info" (", target: " +:+ q "<id|#>");
    action "log" (", target: " +:+ q "<id|#>" +:+ ", limit: 20, includeTools: false");
    action "send" (", target: " +:+ q "<id|#>" +:+ ", message: " +:+ q "...");
    action "steer" (", target: " +:+ q "<id|#>" +:+ ", message: " +:+ q "...");
    action "kill" (", target: " +:+ q "<id|#|all>");
    action "spawn" (", agentId: " +:+ q "research" +:+ ", task: " +:+ q "...");
    action "focus" (", target: " +:+ q "<label|session>" +:+ ", channel: " +:+ q "discord" +:+ ", to: "
                    +:+ q "channel:123" +:+ ", threadId: " +:+ q "456");
    action "unfocus" (", target: " +:+ q "<session>" +:+ ", bindingId: " +:+ q "<optional>");
    ""; "Targets: support list index (#), runId/session prefix, label, or full session key."].

Section tool.
Variable fk : bool.
Variable ser : list SessionBindingRecord -> string.
Variable de : string -> option (list SessionBindingRecord).
Variable is_digit : string -> bool.
Variable values : Runs -> list SubagentRunEntry.
Variable rows : gmap string SessionInfo -> list SessionInfo.
Variable to_text : json -> string.
Variable order : list (string * string) -> list (string * string).
Variable parse_f64 : string -> option f64.
Variable fmt8 : f64 -> string.

(** * Listings *)

Definition is_active_binding (b : SessionBindingRecord) : bool := eq_ignore_ascii_case (sb_status b) "active".

(** [max_by_key]: the last of the latest. *)
Definition latest_binding (l : list SessionBindingRecord) : option SessionBindingRecord :=
  foldl (fun o b => match o with
                    | Some a => if (sb_bound_at_ms a <=? sb_bound_at_ms b)%Z then Some b else o
                    | None => Some b
                    end) None l.

Definition binding_text (now : Z) (db : Db) (run : SubagentRunEntry) : string :=
  match latest_binding (retain is_active_binding (read_session_bindings de now (se_child_session_key run) db)) with
  | Some b => let conversation := trim (sc_conversation_id (sb_conversation b)) in
              if String.eqb conversation "" then "bound" else "thread:" +:+ conversation
  | None => "unbound"
  end.

Definition binding_line (b : SessionBindingRecord) : string :=
  let label := default (sb_target_session_key b) (trimmed (sb_metadata b ≫= get_str "label")) in
  "- " +:+ label +:+ " (thread:" +:+ sc_conversation_id (sb_conversation b) +:+ ", session:"
  +:+ sb_target_session_key b +:+ ")".

Definition subagents_agents (now : Z) (requester : string) (runs : list SubagentRunEntry) (db : Db) : json :=
  let run_lines := imap (fun i r => pretty (S i) +:+ ". " +:+ se_label r +:+ " (" +:+ binding_text now db r +:+ ")") runs in
  let others := retain (fun b => is_active_binding b && negb (eq_ignore_ascii_case (sb_target_kind b) "subagent"))
                  (read_session_bindings de now requester db) in
  let lines := ["agents:"; "-----"] ++ (match runs with [] => ["(none)"] | _ => run_lines end)
    ++ match others with [] => [] | _ => [""; "acp/session bindings:"; "-----"] ++ (binding_line <$> others) end in
  jobject [("action", JStr "subagents_agents"); ("requester_session_key", JStr requester);
           ("runs", JInt (Z.of_nat (length runs))); ("text", JStr (join nl lines))].

Definition run_row (index : nat) (runtime : Z) (r : SubagentRunEntry) (ended : list (string * json)) : json :=
  jobject ([("index", JInt (Z.of_nat index)); ("run_id", JStr (se_run_id r));
    ("session_key", JStr (se_child_session_key r)); ("label", JStr (se_label r)); ("task", JStr (se_task r));
    ("model", JStr (se_model r)); ("mode", JStr (se_spawn_mode r)); ("cleanup", JStr (se_cleanup r));
    ("thread_requested", JBool (se_thread_requested r)); ("run_timeout_seconds", JInt (se_run_timeout_seconds r));
    ("archive_at_ms", jopt JInt (se_archive_at_ms r)); ("cleanup_handled", JBool (se_cleanup_handled r));
    ("cleanup_completed_at_ms", jopt JInt (se_cleanup_completed_at_ms r));
    ("announce_retry_count", JInt (se_announce_retry_count r));
    ("last_announce_retry_at_ms", jopt JInt (se_last_announce_retry_at_ms r)); ("status", JStr (se_status r));
    ("runtime_ms", JInt runtime); ("started_at_ms", JInt (se_started_at_ms r))]
    ++ ended ++ [("usage", jopt usage_summary_to_json (se_usage r))]).

Definition usage_suffix (r : SubagentRunEntry) : string :=
  match se_usage r with Some u => ", " +:+ pretty (usage_total_tokens u) +:+ " tok" | None => "" end.

Definition recently_ended (cutoff : Z) (r : SubagentRunEntry) : bool :=
  match se_ended_at_ms r with Some ended => (cutoff <=? ended)%Z | None => false end.

Definition subagents_list (now minutes : Z) (requester : string) (runs : list SubagentRunEntry) : json :=
  let running := retain active runs in
  let recent := retain (recently_ended (recent_cutoff_ms now minutes)) runs in
  let runtime r := sat_sub_i64 (default now (se_ended_at_ms r)) (se_started_at_ms r) in
  let active_line i r := pretty (S i) +:+ ". " +:+ se_label r +:+ " (" +:+ se_model r +:+ ", "
    +:+ pretty (runtime r) +:+ " ms) " +:+ se_status r +:+ usage_suffix r in
  let recent_line i r := pretty (S i) +:+ ". " +:+ se_label r +:+ " (" +:+ se_model r +:+ ") "
    +:+ se_status r +:+ usage_suffix r in
  let shown line l := match l with [] => ["(none)"] | _ => imap line l end in
  let lines := "active subagents:" :: shown active_line running
    ++ [""; "recent (last " +:+ pretty minutes +:+ "m):"] ++ shown recent_line recent in
  jobject [("action", JStr "subagents_list"); ("requester_session_key", JStr requester);
           ("total", JInt (Z.of_nat (length runs)));
           ("active", JArr (imap (fun i r => run_row (S i) (runtime r) r []) running));
           ("recent", JArr (imap (fun i r => run_row (S i) (runtime r) r
                                   [("ended_at_ms", jopt JInt (se_ended_at_ms r))]) recent));
           ("text", JStr (join nl lines))].

Definition outcome_text (r : SubagentRunEntry) : string :=
  let status := se_status r in
  if String.eqb status "failed" then
    match trimmed (se_error r) with Some e => "error (" +:+ e +:+ ")" | None => "error" end
  else if String.eqb status "done" then "ok"
  else status.

Definition subagents_info (now : Z) (target : string) (run : SubagentRunEntry) (db : Db) : json :=
  let ended := default now (se_ended_at_ms run) in
  let runtime := Z.max 0 (sat_sub_i64 ended (se_started_at_ms run)) in
  let meta := get_session_metadata (se_child_session_key run) db in
  let field k := default "n/a" (meta !! k) in
  let session_id := match get_session (se_child_session_key run) db with
                    | Some s => if String.eqb (si_key s) "" then "n/a" else si_key s
                    | None => "n/a"
                    end in
  let lines := ["subagent info"; "Status: " +:+ se_status run; "Label: " +:+ se_label run;
    "Task: " +:+ se_task run; "Run: " +:+ se_run_id run; "Session: " +:+ se_child_session_key run;
    "SessionId: " +:+ session_id; "Runtime: " +:+ pretty (runtime / 1000)%Z +:+ "s";
    "StartedAtMs: " +:+ pretty (se_started_at_ms run);
    "EndedAtMs: " +:+ default "n/a" (pretty <$> se_ended_at_ms run); "Cleanup: " +:+ se_cleanup run;
    "Outcome: " +:+ outcome_text run;
    "Delivery: channel=" +:+ field "delivery.channel" +:+ " to=" +:+ field "delivery.to"
    +:+ " thread=" +:+ field "delivery.threadId"] in
  jobject [("action", JStr "subagents_info"); ("target", JStr target);
    ("run", jobject [("run_id", JStr (se_run_id run)); ("session_key", JStr (se_child_session_key run));
       ("status", JStr (se_status run)); ("label", JStr (se_label run)); ("task", JStr (se_task run));
       ("runtime_ms", JInt runtime); ("started_at_ms", JInt (se_started_at_ms run));
       ("ended_at_ms", jopt JInt (se_ended_at_ms run)); ("cleanup", JStr (se_cleanup run));
       ("model", JStr (se_model run)); ("thread_requested", JBool (se_thread_requested run));
       ("spawn_mode", JStr (se_spawn_mode run)); ("run_timeout_seconds", JInt (se_run_timeout_seconds run));
       ("usage", jopt usage_summary_to_json (se_usage run))]);
    ("text", JStr (join nl lines))].

Definition log_line (include_tools : bool) (m : SessionMessage) : option string :=
  let role := to_ascii_lowercase (trim (sm_role m)) in
  let tool := String.eqb role "tool" || String.eqb role "toolresult" in
  if tool && negb include_tools then None
  else
    text ← trimmed (Some (sm_content m));
    Some ((if String.eqb role "assistant" then "Assistant" else if String.eqb role "system" then "System"
           else if tool then "Tool" else "User") +:+ ": " +:+ text).

Definition subagents_log (v : json) (target : string) (run : SubagentRunEntry) (db : Db) : json :=
  let limit := Z.max 1 (Z.min 200 (default 20%Z (get_u64 "limit" v))) in
  let include_tools := default false (or_else (get_bool "include_tools" v) (get_bool "includeTools" v)) in
  let lines := omap (log_line include_tools) (rev (get_messages (se_child_session_key run) limit db)) in
  let header := "subagent log: " +:+ se_label run in
  let text := match lines with [] => header +:+ nl +:+ "(no messages)" | _ => join nl (header :: lines) end in
  jobject [("action", JStr "subagents_log"); ("target", JStr target);
           ("session_key", JStr (se_child_session_key run)); ("limit", JInt limit);
           ("include_tools", JBool include_tools); ("lines", jstrs lines); ("text", JStr text)].

(** * Sending *)

Definition send_prompt : string :=
  "Subagent direct message from orchestrator. Reply with actionable output for this subagent session only.".

Definition subagents_send (env : ToolEnv) (target message : string) (run : SubagentRunEntry) (s : ClState) : Outcome :=
  match xe_provider (te_exec env) with
  | None => say_err "subagents_send: llm provider unavailable" s
  | Some _ =>
      let '(r, st) := run_agent_step fk order parse_f64 fmt8 (te_exec env) (te_step env) (se_child_session_key run)
                        message send_prompt (Some (tool_requester env)) None {| ss_db := cl_db s; ss_log := [] |} in
      let s' := put_cdb (ss_db st) s in
      match r with
      | Err e => say_err e s'
      | Ok reply =>
          let text := default ("sent to " +:+ se_label run +:+ " (no reply yet)") (trimmed reply) in
          say_ok (jobject [("action", JStr "subagents_send"); ("target", JStr target); ("run_id", JStr (se_run_id run));
            ("session_key", JStr (se_child_session_key run));
            ("status", JStr (if bool_decide (is_Some reply) then "ok" else "timeout"));
            ("reply", jopt JStr reply); ("text", JStr text)]) s'
      end
  end.

(** * Killing *)

(** A thread on its own, to its end. *)
Fixpoint run_alone (fuel : nat) (env : ClEnv) (th : Thread) (s : ClState) : ClState * list Effect :=
  match fuel with
  | 0 => (s, [])
  | S fuel' =>
      let o := step_thread fk values to_text env th s in
      match sp_thread o with
      | None => (sp_state o, sp_log o)
      | Some th' => let '(s', l) := run_alone fuel' env th' (sp_state o) in (s', sp_log o ++ l)
      end
  end.

(** At most six steps: abort, patch, remove the session, read, call and record the hook. *)
Definition kill_run_entry (env : ClEnv) (run : SubagentRunEntry) (s : ClState) : ClState * list Effect :=
  run_alone 6 env {| th_run := se_run_id run; th_task := false; th_pc := PcKill run |} s.

Definition insert_run (e : SubagentRunEntry) (m : Runs) : Runs := <[se_run_id e := e]> m.

(** The run and the active ones below its session. *)
Definition to_kill_from (now : Z) (runs : Runs) (m : Runs) (run : SubagentRunEntry) : Runs :=
  foldl (fun m e => if active e then insert_run e m else m) (insert_run run m)
    (default [] (collect_descendant_runs values now (se_child_session_key run) runs)).

Definition to_kill (now : Z) (runs : Runs) (roots : list SubagentRunEntry) : Runs :=
  foldl (to_kill_from now runs) ∅ roots.

Definition mark_terminated (st : nat -> option string) (key : string) (s : ClState) : ClState :=
  put_cdb (set_session_metadata_field fk st key "terminated" "true" (cl_db s)).2 s.

(** Each run killed, and its session marked. *)
Fixpoint kill_all (env : ToolEnv) (n : nat) (l : list SubagentRunEntry) (s : ClState) : ClState * list Effect :=
  match l with
  | [] => (s, [])
  | run :: rest =>
      let '(s1, l1) := kill_run_entry (te_cl env) run s in
      let '(s2, l2) := kill_all env (S n) rest (mark_terminated (te_field env n) (se_child_session_key run) s1) in
      (s2, l1 ++ l2)
  end.

Definition kill_runs (env : ToolEnv) (roots : list SubagentRunEntry) (s : ClState)
  : list SubagentRunEntry * ClState * list Effect :=
  let l := values (to_kill (te_now env) (cl_runs s) roots) in
  let '(s', log) := kill_all env 0 l s in (l, s', log).

Definition already_finished (action target : string) (run : SubagentRunEntry) : json :=
  jobject [("action", JStr action); ("target", JStr target); ("run_id", JStr (se_run_id run));
           ("session_key", JStr (se_child_session_key run)); ("status", JStr "done");
           ("text", JStr (se_label run +:+ " is already finished."))].

Definition subagents_kill_all (env : ToolEnv) (runs : list SubagentRunEntry) (s : ClState) : Outcome :=
  let '(l, s', log) := kill_runs env (retain active runs) s in
  let killed := length l in
  (Ok (jobject [("action", JStr "subagents_kill"); ("target", JStr "all"); ("killed", JInt (Z.of_nat killed));
                ("labels", jstrs (se_label <$> l));
                ("text", JStr (if killed =? 0 then "no running subagents to kill."
                               else "killed " +:+ pretty killed +:+ " subagent(s)."))]), s', log).

Definition subagents_kill (env : ToolEnv) (target : string) (run : SubagentRunEntry) (s : ClState) : Outcome :=
  if negb (active run) then say_ok (already_finished "subagents_kill" target run) s
  else
    let '(l, s', log) := kill_runs env [run] s in
    let cascade := length l - 1 in
    (Ok (jobject [("action", JStr "subagents_kill"); ("target", JStr target); ("run_id", JStr (se_run_id run));
                  ("session_key", JStr (se_child_session_key run)); ("label", JStr (se_label run));
                  ("status", JStr "ok"); ("cascade_killed", JInt (Z.of_nat cascade));
                  ("text", JStr (if 0 <? cascade then "killed (+" +:+ pretty cascade +:+ " descendant)." else "killed"))]),
     mark_terminated (te_field env (length l)) (se_child_session_key run) s', log).

(** * Steering *)

(** The run is stopped, the message is added to its session, and a new run is
    started there in its place. *)
Definition subagents_steer (env : ToolEnv) (target message : string) (run : SubagentRunEntry) (s : ClState) : Outcome :=
  let now := te_now env in
  let child := se_child_session_key run in
  if negb (active run) then say_ok (already_finished "subagents_steer" target run) s
  else if bool_decide (xe_session_id (te_exec env) = Some child) then
    say_ok (jobject [("action", JStr "subagents_steer"); ("target", JStr target); ("run_id", JStr (se_run_id run));
                     ("session_key", JStr child); ("status", JStr "forbidden");
                     ("error", JStr "subagents cannot steer themselves")]) s
  else
    let s1 := patch_run (se_run_id run) (steered now) (abort_run (se_run_id run) s) in
    let '(r, db) := add_message fk (te_field env 0) child "user" message now (cl_db s1) in
    let s2 := put_cdb db s1 in
    match r with
    | Err e => say_err e s2
    | Ok _ =>
        let s3 := put_runs (sweep_archived_subagent_runs now (cl_runs s2)) s2 in
        match xe_provider (te_exec env) with
        | None => say_err "subagent run requires llm provider" s3
        | Some _ =>
            let archive := if eq_ignore_ascii_case (se_spawn_mode run) "session" then None
                           else sat_add_i64 now <$> resolve_subagent_archive_after_ms (ev_agents (te_spawn env)) in
            let spec := {| rs_requester := tool_requester env; rs_child := child; rs_label := se_label run;
                           rs_task := message; rs_model := se_model run; rs_timeout := se_run_timeout_seconds run;
                           rs_mode := se_spawn_mode run; rs_cleanup := se_cleanup run;
                           rs_thread := se_thread_requested run; rs_expects := se_expects_completion_message run;
                           rs_archive := archive |} in
            let runs := <[te_run_id env := new_entry now (te_run_id env) spec]> (cl_runs s3) in
            let runs := if String.eqb (te_run_id env) (se_run_id run) then runs else delete (se_run_id run) runs in
            say_ok (jobject [("action", JStr "subagents_steer"); ("target", JStr target);
                             ("run_id", JStr (te_run_id env)); ("session_key", JStr child);
                             ("label", JStr (se_label run)); ("status", JStr "accepted"); ("mode", JStr "restart");
                             ("text", JStr "steered")]) (put_runs runs s3)
        end
    end.

(** * Focus *)

Definition kind_of_key (key : string) : string := if contains key ":subagent:" then "subagent" else "acp".

(** The session meant: that of a run, a session's key, or the only one with the label. *)
Definition focus_session (now minutes : Z) (runs : list SubagentRunEntry) (target : string) (db : Db)
  : result (string * string) string :=
  match resolve_subagent_target now runs target minutes with
  | Ok run => Ok (se_child_session_key run, "subagent")
  | Err _ =>
      if bool_decide (is_Some (get_session target db)) then Ok (target, kind_of_key target)
      else
        match to_set (omap (fun s =>
                label ← get_session_metadata (si_key s) db !! "label";
                if eq_ignore_ascii_case (trim label) target then Some (si_key s) else None)
                (list_sessions rows db)) with
        | [] => Err ("subagents_focus: unable to resolve target " +:+ target)
        | [key] => Ok (key, kind_of_key key)
        | _ => Err ("subagents_focus: ambiguous target " +:+ target)
        end
  end.

Definition focus_kind (v : json) (dflt : string) : string :=
  match trimmed (or_else (get_str "target_kind" v) (get_str "targetKind" v)) with
  | Some k => if eq_ignore_ascii_case k "acp" then "acp" else "subagent"
  | None => dflt
  end.

(** Where the session's results go from now on: what the call says, the rest from
    the requester's own target. *)
Definition focus_target (v : json) (requester : string) (db : Db) : result AnnounceTarget string :=
  let channel := get_str "channel" v ≫= fun c =>
    let c := normalize_channel_alias c in if String.eqb (trim c) "" then None else Some c in
  let to := trimmed (get_str "to" v) in
  let account := trimmed (or_else (get_str "account_id" v) (get_str "accountId" v)) in
  let thread := trimmed (or_else (get_str "thread_id" v) (get_str "threadId" v)) in
  let other := match channel, to with
               | Some _, Some _ => None
               | _, _ => resolve_announce_target is_digit rows requester requester db
               end in
  let channel := or_else channel (at_channel <$> other) in
  let to := or_else to (at_to <$> other) in
  let account := or_else account (other ≫= at_account_id) in
  let thread := or_else thread (other ≫= at_thread_id) in
  let to := or_else to ((fun t => "channel:" +:+ t) <$> trimmed thread) in
  match trimmed channel with
  | None => Err "subagents_focus: missing channel"
  | Some channel =>
      match trimmed to with
      | None => Err "subagents_focus: missing to/threadId"
      | Some to => Ok {| at_channel := channel; at_to := to; at_account_id := account; at_thread_id := thread |}
      end
  end.

Definition set_field (st : nat -> option string) (key : string) (db : Db) (f : string * string) : Db :=
  (set_session_metadata_field fk st key f.1 f.2 db).2.

(** The fields written, each by its own statement, and the binding. *)
Definition focus_fields (t : AnnounceTarget) : list (string * string) :=
  [("delivery.channel", at_channel t); ("delivery.to", at_to t)]
  ++ option_list ((fun a => ("delivery.accountId", a)) <$> trimmed (at_account_id t))
  ++ option_list ((fun a => ("delivery.threadId", a)) <$> trimmed (at_thread_id t)).

Definition focus (env : ToolEnv) (key kind : string) (t : AnnounceTarget) (db : Db)
  : option SessionBindingRecord * Db :=
  let db1 := foldl (set_field (te_field env 0) key) db (focus_fields t) in
  upsert_session_binding ser de fk (te_field env 1) (te_field env 2) (te_now env) (te_uuid env) key kind t db1.

Definition subagents_focus (env : ToolEnv) (v : json) (target : string) (runs : list SubagentRunEntry) (s : ClState)
  : Outcome :=
  match focus_session (te_now env) (recent_minutes_of v) runs target (cl_db s) with
  | Err e => say_err e s
  | Ok (key, dflt) =>
      let kind := focus_kind v dflt in
      match focus_target v (tool_requester env) (cl_db s) with
      | Err e => say_err e s
      | Ok t =>
          let '(binding, db) := focus env key kind t (cl_db s) in
          say_ok (jobject [("action", JStr "subagents_focus"); ("status", JStr "accepted"); ("target", JStr target);
            ("target_kind", JStr kind); ("target_session_key", JStr key);
            ("delivery", jobject [("channel", JStr (at_channel t)); ("to", JStr (at_to t));
                                  ("account_id", jopt JStr (at_account_id t));
                                  ("thread_id", jopt JStr (at_thread_id t))]);
            ("binding", jopt (fun b => jobject [("binding_id", JStr (sb_binding_id b)); ("status", JStr (sb_status b));
                                                ("bound_at_ms", JInt (sb_bound_at_ms b))]) binding);
            ("text", JStr "focus binding updated")]) (put_cdb db s)
      end
  end.

Definition inactive (b : SessionBindingRecord) : SessionBindingRecord := {|
  sb_binding_id := sb_binding_id b; sb_target_session_key := sb_target_session_key b;
  sb_target_kind := sb_target_kind b; sb_conversation := sb_conversation b; sb_status := "inactive";
  sb_bound_at_ms := sb_bound_at_ms b; sb_expires_at_ms := sb_expires_at_ms b; sb_metadata := sb_metadata b |}.

Definition unfocused (id : option string) (b : SessionBindingRecord) : bool :=
  is_active_binding b && match id with Some i => String.eqb (sb_binding_id b) i | None => true end.

(** How many bindings were changed, and the database. *)
Definition unfocus (env : ToolEnv) (key : string) (id : option string) (db : Db) : nat * Db :=
  let bindings := read_session_bindings de (te_now env) key db in
  let changed := length (retain (unfocused id) bindings) in
  (changed, if changed =? 0 then db
            else write_session_bindings ser fk (te_field env 0) (te_field env 1) key
                   ((fun b => if unfocused id b then inactive b else b) <$> bindings) db).

Definition subagents_unfocus (env : ToolEnv) (v : json) (s : ClState) : Outcome :=
  let key := default (tool_requester env) (long_target v) in
  let id := trimmed (or_else (get_str "binding_id" v) (get_str "bindingId" v)) in
  let '(changed, db) := unfocus env key id (cl_db s) in
  say_ok (jobject [("action", JStr "subagents_unfocus"); ("target_session_key", JStr key);
    ("binding_id", jopt JStr id); ("changed", JInt (Z.of_nat changed));
    ("status", JStr (if 0 <? changed then "ok" else "noop"));
    ("text", JStr (if 0 <? changed then "unfocused " +:+ pretty changed +:+ " binding(s)."
                   else "no active bindings matched."))]) (put_cdb db s).

(** * The call *)

(** The clean-ups that are due get timers; runs that have one keep it. *)
Definition resume_pending (now : Z) (s : ClState) : ClState :=
  let s1 := put_runs (sweep_archived_subagent_runs now (cl_runs s)) s in
  put_timers (list_to_set (omap (pending_cleanup now) (values (cl_runs s1))).*1 ∪ cl_timers s1) s1.

Definition missing_target (name : string) : string := name +:+ ": missing target".

(** A call about a run, which has to be found. *)
Definition with_run (env : ToolEnv) (v : json) (name : string) (target : option string)
    (runs : list SubagentRunEntry) (s : ClState) (k : string -> SubagentRunEntry -> Outcome) : Outcome :=
  match target with
  | None => say_err (missing_target name) s
  | Some target =>
      match resolve_subagent_target (te_now env) runs target (recent_minutes_of v) with
      | Err e => say_err e s
      | Ok run => k target run
      end
  end.

(** The message comes after the target and before the search for the run. *)
Definition with_message (v : json) (name : string) (target : option string) (s : ClState)
    (k : string -> Outcome) : Outcome :=
  match target with
  | None => say_err (missing_target name) s
  | Some _ => match message_of v with
              | None => say_err (name +:+ ": missing message") s
              | Some message => k message
              end
  end.

Definition spawn_payload (v : json) : json :=
  match v with JObj m => JObj (bt_insert "action" (JStr "sessions_spawn") m) | _ => v end.

Definition fulfill_subagents (env : ToolEnv) (v : json) (s : ClState) : Outcome :=
  let now := te_now env in
  let requester := tool_requester env in
  let s := resume_pending now s in
  let runs := list_runs_for_requester values now requester (cl_runs s) in
  let s := put_runs (sweep_archived_subagent_runs now (cl_runs s)) s in
  if negb (xe_manager (te_exec env)) then say_err "subagents: session manager unavailable" s
  else
    let db := cl_db s in
    let action := default "" (get_str "action" v) in
    if String.eqb action "subagents_help" then
      say_ok (jobject [("action", JStr "subagents_help"); ("text", JStr build_subagents_help_text)]) s
    else if String.eqb action "subagents_agents" then say_ok (subagents_agents now requester runs db) s
    else if String.eqb action "subagents_list" then
      say_ok (subagents_list now (recent_minutes_of v) requester runs) s
    else if String.eqb action "subagents_info" then
      with_run env v "subagents_info" (long_target v) runs s (fun target run => say_ok (subagents_info now target run db) s)
    else if String.eqb action "subagents_log" then
      with_run env v "subagents_log" (long_target v) runs s (fun target run => say_ok (subagents_log v target run db) s)
    else if String.eqb action "subagents_send" then
      with_message v "subagents_send" (long_target v) s (fun message =>
      with_run env v "subagents_send" (long_target v) runs s (fun target run => subagents_send env target message run s))
    else if String.eqb action "subagents_kill" then
      match short_target v with
      | Some "all" | Some "*" => subagents_kill_all env runs s
      | target => with_run env v "subagents_kill" target runs s (fun target run => subagents_kill env target run s)
      end
    else if String.eqb action "subagents_steer" then
      with_message v "subagents_steer" (short_target v) s (fun message =>
      with_run env v "subagents_steer" (short_target v) runs s (fun target run => subagents_steer env target message run s))
    else if String.eqb action "subagents_spawn" then
      let '(r, runs', db') := fulfill_sessions_spawn fk ser de is_digit values (te_spawn env) (spawn_payload v)
                                (te_run_id env) (cl_runs s) db in
      (r, put_cdb db' (put_runs runs' s), [])
    else if String.eqb action "subagents_focus" then
      match long_target v with
      | None => say_err (missing_target "subagents_focus") s
      | Some target => subagents_focus env v target runs s
      end
    else if String.eqb action "subagents_unfocus" then subagents_unfocus env v s
    else say_ok v s.
End tool.

(** * Killing reaches every active run below *)

(** [e] killed, its ended hook recorded or not. *)
Definition killed_as (now : Z) (e e' : SubagentRunEntry) : Prop := e' = killed now e \/ e' = set_hook now (killed now e).

Section kills.
Variable fk : bool.
Variable values : Runs -> list SubagentRunEntry.
Variable to_text : json -> string.
Hypothesis values_perm : forall m, values m ≡ₚ (map_to_list m).*2.

Ltac alone := cbn [Nat.add run_alone step_thread th_pc th_run th_task flow_step after_hook finish goto step_to
  o_next o_state o_log o_timer sp_thread sp_state sp_log fst snd] in *.

(** The registry after a kill: only the run's entry changed. *)
Lemma kill_entry_runs env run s k :
  match cl_runs s !! k with
  | Some e => exists e', cl_runs (kill_run_entry fk values to_text env run s).1 !! k = Some e'
                /\ if bool_decide (k = se_run_id run) then killed_as (ce_now env) e e' else e' = e
  | None => cl_runs (kill_run_entry fk values to_text env run s).1 !! k = None
  end.
Proof.
  set (r := se_run_id run).
  assert (exists m, cl_runs (kill_run_entry fk values to_text env run s).1 = m
    /\ (m = alter (killed (ce_now env)) r (cl_runs s)
        \/ m = alter (set_hook (ce_now env)) r (alter (killed (ce_now env)) r (cl_runs s)))) as (m & -> & Hm).
  { eexists. split; [reflexivity|]. unfold kill_run_entry. fold r.
    alone. destruct (eq_ignore_ascii_case (se_cleanup run) "delete"); alone;
      (destruct (ended_hook _ _) as [[child payload]|]; alone; [by right|by left]). }
  destruct (cl_runs s !! k) as [e|] eqn:E.
  - case_bool_decide as Hk.
    + subst k. destruct Hm as [-> | ->]; [exists (killed (ce_now env) e)|exists (set_hook (ce_now env) (killed (ce_now env) e))];
        rewrite !lookup_alter_eq, E; (split; [done|]); unfold killed_as; auto.
    + exists e. split; [|done]. destruct Hm as [-> | ->]; by rewrite !lookup_alter_ne.
  - destruct (decide (r = k)) as [<-|Hk]; destruct Hm as [-> | ->];
      rewrite ?lookup_alter_eq, ?lookup_alter_ne by done; rewrite ?E; done.
Qed.

Lemma kill_all_spec env n l s k : NoDup (se_run_id <$> l) ->
  match cl_runs s !! k with
  | Some e => exists e', cl_runs (kill_all fk values to_text env n l s).1 !! k = Some e'
                /\ if bool_decide (k ∈ se_run_id <$> l) then killed_as (te_now env) e e' else e' = e
  | None => cl_runs (kill_all fk values to_text env n l s).1 !! k = None
  end.
Proof.
  revert n s. induction l as [|run l IH]; intros n s Hn; cbn [kill_all].
  - cbn [fst]. destruct (cl_runs s !! k) as [e|]; [|done]. exists e. by rewrite bool_decide_false by apply not_elem_of_nil.
  - apply NoDup_cons in Hn as [Hr Hn]. pose proof (kill_entry_runs (te_cl env) run s k) as H1.
    destruct (kill_run_entry _ _ _ _ run s) as [s1 l1]. cbn [fst] in H1.
    specialize (IH (S n) (mark_terminated fk (te_field env n) (se_child_session_key run) s1) Hn).
    destruct (kill_all _ _ _ _ _ l _) as [s2 l2]. cbn [fst mark_terminated put_cdb cl_runs] in *.
    destruct (cl_runs s !! k) as [e|].
    + destruct H1 as (e1 & E1 & H1). rewrite E1 in IH. destruct IH as (e2 & E2 & H2). exists e2. split; [done|].
      case_bool_decide as Hk.
      * subst k. rewrite bool_decide_false in H2 by done. subst e2. rewrite bool_decide_true by by left. done.
      * subst e1. destruct (decide (k ∈ se_run_id <$> l)).
        -- rewrite bool_decide_true in H2 by done. by rewrite bool_decide_true by by right.
        -- rewrite bool_decide_false in H2 by done. rewrite bool_decide_false; [done|]. cbn [fmap list_fmap].
           by rewrite elem_of_cons; intros [].
    + by rewrite H1 in IH.
Qed.

Lemma values_ids (m : Runs) : map_Forall (fun k e => se_run_id e = k) m -> NoDup (se_run_id <$> values m).
Proof.
  intros Hk. rewrite (values_perm _), <- list_fmap_compose.
  erewrite (list_fmap_ext (se_run_id ∘ snd) fst); [apply NoDup_fst_map_to_list|].
  intros i [k x] Hx%list_elem_of_lookup_2%elem_of_map_to_list. exact (Hk _ _ Hx).
Qed.

(** Entries of the registry added to a part of it. *)
Lemma insert_entries (p : SubagentRunEntry -> bool) (runs : Runs) l m :
  (forall e, e ∈ l -> runs !! se_run_id e = Some e) -> m ⊆ runs ->
  foldl (fun m e => if p e then insert_run e m else m) m l ⊆ runs
  /\ forall e, runs !! se_run_id e = Some e ->
       foldl (fun m e => if p e then insert_run e m else m) m l !! se_run_id e = Some e
       <-> m !! se_run_id e = Some e \/ e ∈ l /\ p e = true.
Proof.
  revert m. induction l as [|x l IH]; intros m Hl Hm; cbn [foldl].
  - split; [done|]. intros e _. rewrite elem_of_nil. tauto.
  - assert (runs !! se_run_id x = Some x) as Hx by (apply Hl; by left).
    destruct (p x) eqn:Px.
    + destruct (IH (insert_run x m)) as [Hs He]; [intros e ?; apply Hl; by right|by apply insert_subseteq_l|].
      split; [done|]. intros e R. rewrite He by done. unfold insert_run. rewrite lookup_insert_Some, elem_of_cons.
      split; [intros [[[_ ->]|[_ ?]]|[? ?]]; auto|].
      intros [E|[[->|?] ?]]; auto.
      destruct (decide (se_run_id x = se_run_id e)) as [Eq|]; [|by auto]. left; left. split; [done|]. congruence.
    + destruct (IH m) as [Hs He]; [intros e ?; apply Hl; by right|done|].
      split; [done|]. intros e R. rewrite He by done. rewrite elem_of_cons.
      split; [intros [?|[]]; auto|]. intros [?|[[->|?] ?]]; auto. congruence.
Qed.

Section cascade.
Context (now : Z) (runs : Runs).
Hypothesis keyed : map_Forall (fun k e => se_run_id e = k) runs.
Let snapshot := values (sweep_archived_subagent_runs now runs).

(** [e] is the root, or an active run below its session. *)
Definition in_tree (root e : SubagentRunEntry) : Prop :=
  e = root \/ active e = true /\ rtc (spawns snapshot) (se_child_session_key root) (se_requester_session_key e).

Lemma to_kill_from_spec m root : m ⊆ runs -> runs !! se_run_id root = Some root ->
  to_kill_from values now runs m root ⊆ runs
  /\ forall e, runs !! se_run_id e = Some e ->
       to_kill_from values now runs m root !! se_run_id e = Some e <-> m !! se_run_id e = Some e \/ in_tree root e.
Proof.
  intros Hm Hr. unfold to_kill_from.
  destruct (collect_descendants values now (se_child_session_key root) runs values_perm keyed) as (out & -> & _ & Ho & _).
  cbn [default]. destruct (insert_entries active runs out (insert_run root m)) as [Hs He].
  - intros e [H _]%Ho. by apply sweep_elem in H as [H _].
  - by apply insert_subseteq_l.
  - split; [done|]. intros e R. rewrite He by done. unfold insert_run. rewrite lookup_insert_Some, Ho. unfold in_tree.
    split.
    + intros [[[_ ->]|[_ ?]]|[[? ?] ?]]; auto.
    + intros [E|[->|[A T]]]; auto.
      * destruct (decide (se_run_id root = se_run_id e)) as [Eq|]; [|by auto]. left; left. split; [done|]. congruence.
      * right. split; [|done]. split; [|done]. by apply sweep_keeps_active.
Qed.

Lemma to_kill_spec roots : (forall e, e ∈ roots -> runs !! se_run_id e = Some e) ->
  to_kill values now runs roots ⊆ runs
  /\ forall e, runs !! se_run_id e = Some e ->
       to_kill values now runs roots !! se_run_id e = Some e <-> exists root, root ∈ roots /\ in_tree root e.
Proof.
  intros Hl. unfold to_kill.
  assert (forall m, m ⊆ runs -> foldl (to_kill_from values now runs) m roots ⊆ runs
    /\ forall e, runs !! se_run_id e = Some e ->
       foldl (to_kill_from values now runs) m roots !! se_run_id e = Some e
       <-> m !! se_run_id e = Some e \/ exists root, root ∈ roots /\ in_tree root e) as H.
  { induction roots as [|r roots IH]; intros m Hm; cbn [foldl].
    - split; [done|]. intros e _. setoid_rewrite elem_of_nil. naive_solver.
    - destruct (to_kill_from_spec m r Hm) as [Hs He]; [apply Hl; by left|].
      destruct (IH ltac:(intros e ?; apply Hl; by right) _ Hs) as [Hs' He']. split; [done|].
      intros e R. rewrite He', He by done. setoid_rewrite elem_of_cons. naive_solver. }
  destruct (H ∅ (map_empty_subseteq _)) as [Hs He]. split; [done|]. intros e R. rewrite He by done.
  rewrite lookup_empty. naive_solver.
Qed.
End cascade.
End kills.


Definition tool_env (session : string) : ToolEnv := {|
  te_cl := nowhere; te_field := fun _ _ => None; te_run_id := "new"; te_uuid := "u";
  te_step := answering "hello"; te_spawn := spawning session "u"; te_exec := helper (Some session) |}.
Definition with_runs (runs : Runs) (db : Db) : ClState := {|
  cl_runs := runs; cl_timers := ∅; cl_handles := ∅; cl_aborted := ∅; cl_db := db |}.
Definition some_text (v : json) : string := "".
Definition run_a : SubagentRunEntry := sample_run "a" "root" "s1" 1 None None.

Definition killed_runs : list SubagentRunEntry * ClState * list Effect :=
  kill_runs true some_values some_text (tool_env "root") [run_a] (with_runs cyclic_runs Db_empty).


(** An active run below an ended one stays: "all" descends from active runs only. *)
Example orphan_survives_kill_all :
  let runs : Runs := {["p" := sample_run "p" "root" "s1" 1 (Some 5%Z) None; "q" := sample_run "q" "s1" "s2" 2 None None]} in
  let s := with_runs runs Db_empty in
  let o := subagents_kill_all true some_values some_text (tool_env "root") (list_runs_for_requester some_values 10 "root" runs) s in
  (active <$> cl_runs o.1.2 !! "q") = Some true
  /\ count_active_descendant_runs some_values 10 "root" runs = 1.
Proof. vm_compute. done. Qed.

(** The list numbers the recent runs from one; a target counts them after the active ones. *)
Example recent_index_differs :
  let runs := [sample_run "x" "root" "s1" 2 None None; sample_run "y" "root" "s2" 1 (Some 5%Z) None] in
  (get "recent" (subagents_list 10 30 "root" runs) ≫= as_array) = Some [run_row 1 4 (sample_run "y" "root" "s2" 1 (Some 5%Z) None) [("ended_at_ms", JInt 5)]]
  /\ (fun r => match r with Ok e => se_run_id e | Err m => m end) (resolve_subagent_target 10 runs "1" 30) = "x".
Proof. vm_compute. done. Qed.

(** The session is gone: the run has been stopped, and nothing restarts it. *)
Example steer_fails_stopped :
  let s := with_runs {["a" := run_a]} Db_empty in
  let o := subagents_steer true (tool_env "root") "1" "go on" run_a s in
  (exists e, o.1.1 = Err e) /\ (se_status <$> cl_runs o.1.2 !! "a") = Some "steered" /\ size (cl_runs o.1.2) = 1.
Proof. vm_compute. split; [by eexists|done]. Qed.

(** A text for lists of at most one binding, without its time and metadata. *)
Definition one_bound (b : SessionBindingRecord) : SessionBindingRecord := {|
  sb_binding_id := "u"; sb_target_session_key := "s1"; sb_target_kind := "subagent";
  sb_conversation := sb_conversation b; sb_status := sb_status b; sb_bound_at_ms := 10; sb_expires_at_ms := None;
  sb_metadata := None |}.
Definition one_ser (l : list SessionBindingRecord) : string :=
  match l with [b] => sb_status b +:+ "," +:+ sc_conversation_id (sb_conversation b) | _ => "" end.

(** Focused and unfocused, the session has no binding and keeps the target of its deliveries. *)
Example unfocus_keeps_target :
  let db := (create_session (fun _ => None) "s1" "default" 1 Db_empty).2 in
  let focused := focus true one_ser no_de (tool_env "root") "s1" "subagent" c1 db in
  let de_of b s := if String.eqb s "active,C1" then Some [one_bound b]
                   else if String.eqb s "inactive,C1" then Some [inactive (one_bound b)] else no_de s in
  match focused.1 with
  | Some b => let db' := (unfocus true one_ser (de_of b) (tool_env "root") "s1" None focused.2).2 in
      (unfocus true one_ser (de_of b) (tool_env "root") "s1" None focused.2).1 = 1
      /\ read_session_bindings (de_of b) 10 "s1" db' = []
      /\ get_session_metadata "s1" db' !! "delivery.to" = Some (at_to c1)
  | None => False
  end.
Proof. vm_compute. done. Qed.
