(* ===== verification/Pipeline.v ===== *)
(** The message pipeline of the gateway
    ([crates/gateway-core/src/pipeline.rs]): the agent a message is for, the
    settings of the queue, skills, one turn, and [process_message], whose calls for
    one session share its queue and its run lock.

    The environment of a turn holds what the agent, the skills, the memory and the
    channel answer. *)

From Stdlib Require Import Strings.String.
From S2P Require Import Prelude RustStr Json Parse EchoTracker Routing ReplyQueue SessionStore Heartbeat.
#[local] Open Scope string_scope.
#[local] Open Scope nat_scope.
#[local] Open Scope list_scope.

(** * Bindings *)

Inductive AgentBinding :=
| BPeer (channel peer_id agent_id : string)
| BGuildRoles (channel guild_id : string) (role_ids : list string) (agent_id : string)
| BGuild (channel guild_id agent_id : string)
| BTeam (channel team_id agent_id : string)
| BAccount (channel account_id agent_id : string)
| BChannel (channel agent_id : string)
| BDefault (agent_id : string).

Definition binding_agent_id (b : AgentBinding) : string :=
  match b with
  | BPeer _ _ a | BGuildRoles _ _ _ a | BGuild _ _ a | BTeam _ _ a | BAccount _ _ a | BChannel _ a | BDefault a => a
  end.

Definition priority (b : AgentBinding) : nat :=
  match b with
  | BPeer _ _ _ => 1 | BGuildRoles _ _ _ _ => 2 | BGuild _ _ _ => 3 | BTeam _ _ _ => 4
  | BAccount _ _ _ => 5 | BChannel _ _ => 6 | BDefault _ => 7
  end.

Record MessageContext := {
  mx_channel : string;
  mx_peer_id : string;
  mx_guild_id : option string;
  mx_team_id : option string;
  mx_account_id : option string;
  mx_role_ids : list string;
}.

Definition binding_matches (c : MessageContext) (b : AgentBinding) : bool :=
  let is_ (o : option string) s := bool_decide (o = Some s) in
  match b with
  | BPeer ch p _ => String.eqb ch (mx_channel c) && String.eqb p (mx_peer_id c)
  | BGuildRoles ch g roles _ =>
      String.eqb ch (mx_channel c) && is_ (mx_guild_id c) g && negb (bool_decide (roles = []))
      && forallb (fun r => bool_decide (r ∈ mx_role_ids c)) roles
  | BGuild ch g _ => String.eqb ch (mx_channel c) && is_ (mx_guild_id c) g
  | BTeam ch t _ => String.eqb ch (mx_channel c) && is_ (mx_team_id c) t
  | BAccount ch a _ => String.eqb ch (mx_channel c) && is_ (mx_account_id c) a
  | BChannel ch _ => String.eqb ch (mx_channel c)
  | BDefault _ => true
  end.

(** The first of the matching bindings with the lowest priority. *)
Definition better (c : MessageContext) (best : option AgentBinding) (b : AgentBinding) : option AgentBinding :=
  if binding_matches c b then
    match best with
    | Some b0 => if priority b <? priority b0 then Some b else Some b0
    | None => Some b
    end
  else best.
Definition resolve_agent_for_message (bindings : list AgentBinding) (c : MessageContext) : option string :=
  binding_agent_id <$> foldl (better c) None bindings.

(** * Settings of the queue *)

Record QueueRuntimeSettings := {
  qr_mode : QueueMode;
  qr_collect_window_ms : Z;
  qr_debounce_ms : Z;
  qr_cap : Z;
  qr_drop_policy : QueueDropPolicy;
}.

Definition QueueRuntimeSettings_default : QueueRuntimeSettings := {|
  qr_mode := Followup; qr_collect_window_ms := 2000; qr_debounce_ms := 0; qr_cap := u64_max;
  qr_drop_policy := Summarize |}.

Definition queue_mode_from_str (raw : string) : QueueMode :=
  let s := to_ascii_lowercase (trim raw) in
  if String.eqb s "interrupt" then Interrupt
  else if String.eqb s "steer" then Steer
  else if String.eqb s "collect" then Collect
  else if existsb (String.eqb s) ["steerbacklog"; "steer-backlog"; "steer+backlog"] then SteerBacklog
  else Followup.

Definition queue_drop_policy_from_str (raw : string) : QueueDropPolicy :=
  let s := to_ascii_lowercase (trim raw) in
  if existsb (String.eqb s) ["old"; "drop-old"] then Old
  else if existsb (String.eqb s) ["new"; "drop-new"] then New
  else Summarize.

Definition pointer_u64 (messages : json) (ptr : string) : option Z := json_pointer ptr messages ≫= as_u64.
Definition pointer_str (messages : json) (ptr : string) : option string := json_pointer ptr messages ≫= as_str.

Definition metadata_pick_non_empty (metadata : gmap string string) (keys : list string) : option string :=
  trimmed (head (omap (fun key => metadata !! key) keys)).

Definition clamp (lo hi x : Z) : Z := Z.max lo (Z.min hi x).

Definition per_channel {A} (f : json -> string -> option A) (m : json) (channel field scalar dflt : string) : option A :=
  or_else (f m ("/queue/byChannel/" +:+ channel +:+ field)) (or_else (f m (scalar +:+ channel)) (f m dflt)).

(** [messages]: that part of the configuration, when both are there. *)
Definition resolve_queue_runtime_settings (messages : option json) (channel : string) : QueueRuntimeSettings :=
  match messages with
  | None => QueueRuntimeSettings_default
  | Some m =>
      {| qr_mode := queue_mode_from_str (default "followup"
           (per_channel pointer_str m channel "/mode" "/queue/byChannel/" "/queue/mode"));
         qr_collect_window_ms := clamp 1 60000 (default 2000%Z
           (per_channel pointer_u64 m channel "/collectWindowMs" "/queue/collectWindowMsByChannel/" "/queue/collectWindowMs"));
         qr_debounce_ms := clamp 0 60000 (default 0%Z
           (per_channel pointer_u64 m channel "/debounceMs" "/queue/debounceMsByChannel/" "/queue/debounceMs"));
         qr_cap := match per_channel pointer_u64 m channel "/cap" "/queue/capByChannel/" "/queue/cap" with
                   | Some v => if (0 <? v)%Z then v else u64_max
                   | None => u64_max
                   end;
         qr_drop_policy := queue_drop_policy_from_str (default "summarize"
           (per_channel pointer_str m channel "/dropPolicy" "/queue/dropPolicyByChannel/" "/queue/dropPolicy")) |}
  end.

(** * Contexts *)

Section contexts.
(** The metadata as a JSON object, and back. *)
Variable to_raw : gmap string string -> string.
Variable of_raw : string -> gmap string string.

Definition flag_set (metadata : gmap string string) (key : string) : bool :=
  bool_decide (metadata !! key = Some "true").

Definition build_finalized_context (now : Z) (channel chat_id text session_id : string)
    (metadata : gmap string string) : FinalizedMsgContext :=
  finalize_inbound_context {|
    mc_body := text; mc_raw_body := Some text; mc_from := default chat_id (metadata !! "user_id");
    mc_from_name := metadata !! "user_name"; mc_to := chat_id; mc_provider := channel;
    mc_surface := Some channel; mc_chat_type := if flag_set metadata "is_group" then Group else Direct;
    mc_session_key := session_id; mc_message_id := metadata !! "message_id";
    mc_thread_id := metadata !! "thread_id"; mc_was_mentioned := flag_set metadata "was_mentioned";
    mc_media_paths := []; mc_timestamp_ms := Z.max 0 now; mc_raw := to_raw metadata |}.

Definition finalized_metadata (ctx : FinalizedMsgContext) : gmap string string := of_raw (mc_raw (fm_ctx ctx)).

Definition two_lines : string := nl +:+ nl.

Definition build_collect_prompt (batch : list FinalizedMsgContext) (summary : option string) : string :=
  join two_lines ("[Queued messages while agent was busy]"
    :: option_list (trimmed summary)
    ++ imap (fun i item => trim ("---" +:+ nl +:+ "Queued #" +:+ pretty (S i) +:+ nl
                                 +:+ trim (body_for_agent item))) batch).

Definition with_bodies (agent commands : string) (authorized : bool) (ctx : FinalizedMsgContext) : FinalizedMsgContext := {|
  fm_ctx := fm_ctx ctx; body_for_agent := agent; body_for_commands := commands;
  conversation_label := conversation_label ctx; command_authorized := authorized; sender_label := sender_label ctx |}.

Definition build_collect_context (batch : list FinalizedMsgContext) (summary : option string)
  : option FinalizedMsgContext :=
  let prompt := build_collect_prompt batch summary in
  with_bodies prompt prompt false <$> last batch.

Definition prepend_summary_prompt (summary_prompt : string) (ctx : FinalizedMsgContext) : FinalizedMsgContext :=
  let summary := trim summary_prompt in
  if String.eqb summary "" then ctx
  else
    let body := trim (body_for_agent ctx) in
    with_bodies (if String.eqb body "" then summary else summary +:+ two_lines +:+ body)
      (body_for_commands ctx) (command_authorized ctx) ctx.

(** * Skills *)

(** At the first white space: what is before and what is behind. *)
Fixpoint cut_space (l : list string) : list string * option (list string) :=
  match l with
  | [] => ([], None)
  | c :: l' => if is_whitespace c then ([], Some l')
               else let '(a, b) := cut_space l' in (c :: a, b)
  end.
Definition split_once_space (s : string) : string * string :=
  let '(a, b) := cut_space (chars s) in (trim (str_concat a), trim (str_concat (default [] b))).

Definition parse_skill_invocation (text : string) : option (string * string) :=
  let t := trim text in
  if negb (starts_with t "/") then None
  else
    let body := trim (trim_start_char "/" t) in
    if String.eqb body "" then None
    else
      let '(head, tail) := split_once_space body in
      if eq_ignore_ascii_case head "skill"
      then Some (if String.eqb tail "" then ("", "") else split_once_space tail)
      else Some (head, tail).

End contexts.

Record SkillDef := { sd_id : string; sd_name : string; sd_description : string }.
Record SkillInput := {
  in_name : string;
  in_description : string;
  in_parameters : gmap string json;
  in_user_id : option string;
  in_session_id : string;
  in_metadata : gmap string string;
}.
Record SkillOutput := { ou_success : bool; ou_result : option json; ou_error : option string }.

(** What a turn meets. *)
Record TurnEnv := {
  te_model : string;
  te_bindings : option (list AgentBinding);
  te_skills : option (list SkillDef);
  te_execute : string -> SkillInput -> option SkillOutput;
  te_parse : string -> option json;
  te_pretty : json -> string;
  te_prompt : option string;
  te_hatching_prompt : string;
  te_agent : string -> string -> string -> result (string * Z) string;
  te_identity : option (bool * bool);
  te_workspace : bool;
  te_tools : bool;
  te_memory : bool;
  te_flush : MemoryFlushConfig;
  te_flush_run : result string string;
  te_evolution : EvolutionConfig;
  te_evolution_init : bool;
  te_evolution_run : bool;
  te_saved : bool;
  te_today : string;
  te_capture_enabled : bool;
  te_capture_min : Z;
  te_capture_max : Z;
  te_stored : bool;
  te_channels : option (list string);
  te_send : result unit string;
}.

Definition skill_matches (requested : string) (d : SkillDef) : bool :=
  eq_ignore_ascii_case (sd_id d) requested || eq_ignore_ascii_case (sd_name d) requested
  || String.eqb (str_replace (sd_id d) "_" "-") (to_ascii_lowercase requested).

Definition skill_parameters (parse : string -> option json) (raw_args : string) : gmap string json :=
  if String.eqb raw_args "" then ∅
  else if starts_with raw_args "{" then
    match parse raw_args with
    | Some (JObj m) => list_to_map m
    | Some v => {["value" := v]}
    | None => {["command" := JStr raw_args]}
    end
  else {["command" := JStr raw_args]}.

Definition try_execute_skill (env : TurnEnv) (session_id command_text : string) (metadata : gmap string string)
  : option string :=
  '(requested, raw_args) ← parse_skill_invocation command_text;
  defs ← te_skills env;
  if String.eqb requested "" then Some "Usage: /skill <id> [json|text args]"
  else
    def ← find_first (skill_matches requested) defs;
    let input := {|
      in_name := sd_name def; in_description := sd_description def;
      in_parameters := skill_parameters (te_parse env) raw_args; in_user_id := metadata !! "user_id";
      in_session_id := session_id;
      in_metadata := <["channel" := default "" (metadata !! "channel")]>
        (match metadata !! "permissions" with Some p => {["permissions" := p]} | None => ∅ end) |} in
    Some (match te_execute env (sd_id def) input with
          | None => "Skill not found: " +:+ requested
          | Some out =>
              if negb (ou_success out) then default "Skill failed" (ou_error out)
              else match ou_result out with
                   | Some (JStr s) => s
                   | Some v => te_pretty env v
                   | None => "Skill executed."
                   end
          end).

(** * One turn *)

Inductive PipeEffect :=
| PAgent (model prompt text : string)
| PSkill (reply : string)
| PFlush (reply : string)
| PEvolve
| PBackup
| PMemory (source text : string)
| PSent (channel text : string) (metadata : gmap string string).

Record PipeState := {
  ps_counters : Counters;
  ps_echo : EchoTracker;
  ps_evolution : EvolutionState;
  ps_hatching : bool;
  ps_log : list PipeEffect;
}.

Definition p_counters (x : Counters) (s : PipeState) : PipeState := {|
  ps_counters := x; ps_echo := ps_echo s; ps_evolution := ps_evolution s; ps_hatching := ps_hatching s; ps_log := ps_log s |}.
Definition p_echo (x : EchoTracker) (s : PipeState) : PipeState := {|
  ps_counters := ps_counters s; ps_echo := x; ps_evolution := ps_evolution s; ps_hatching := ps_hatching s; ps_log := ps_log s |}.
Definition p_evolution (x : EvolutionState) (s : PipeState) : PipeState := {|
  ps_counters := ps_counters s; ps_echo := ps_echo s; ps_evolution := x; ps_hatching := ps_hatching s; ps_log := ps_log s |}.
Definition p_hatched (s : PipeState) : PipeState := {|
  ps_counters := ps_counters s; ps_echo := ps_echo s; ps_evolution := ps_evolution s; ps_hatching := false; ps_log := ps_log s |}.
Definition p_note (x : PipeEffect) (s : PipeState) : PipeState := {|
  ps_counters := ps_counters s; ps_echo := ps_echo s; ps_evolution := ps_evolution s; ps_hatching := ps_hatching s;
  ps_log := x :: ps_log s |}.

Definition default_prompt : string := "You are a helpful assistant. Respond in the user's language.".

(** The reply and the tokens used; a hatching turn that succeeds ends the hatching
    once the identity has a name and more. *)
Definition run_agent (env : TurnEnv) (text : string) (s : PipeState) : result (string * Z) string * PipeState :=
  let prompt := if ps_hatching s then te_hatching_prompt env
                else default default_prompt (if te_workspace env then te_prompt env else None) in
  let s := p_note (PAgent (te_model env) prompt text) s in
  match te_agent env (te_model env) prompt text with
  | Err e => (Err e, s)
  | Ok out =>
      (Ok out, if ps_hatching s && te_workspace env && bool_decide (te_identity env = Some (true, true))
               then p_hatched s else s)
  end.

Definition SILENT_REPLY_TOKEN : string := "MEMORY_FLUSH_OK".

Definition try_memory_flush (env : TurnEnv) (session_id : string) (total_tokens compaction_count : Z) (s : PipeState)
  : PipeState :=
  if negb (mf_enabled (te_flush env)) then s
  else if negb (should_run_memory_flush total_tokens 128000 (te_flush env)
                  (last_flush_compaction_count (ps_counters s) session_id) compaction_count) then s
  else if negb (te_tools env) then s
  else
    match te_flush_run env with
    | Err _ => s
    | Ok reply =>
        let t := trim reply in
        let s := p_note (PFlush reply) s in
        let s := if existsb (String.eqb t) [SILENT_REPLY_TOKEN; HEARTBEAT_OK_TOKEN; ""] || negb (te_memory env) then s
                 else p_note (PMemory ("memory_flush:" +:+ session_id) t) s in
        p_counters (set_last_flush_compaction_count session_id compaction_count (ps_counters s)) s
    end.

Definition evolved (today : string) (e : EvolutionState) : EvolutionState := {|
  message_count := message_count e; last_evolved_at_message := message_count e;
  last_evolved_date := Some today; evolution_count := wadd (evolution_count e) 1 |}.

Definition try_evolution (env : TurnEnv) (usage_tokens : Z) (s : PipeState) : PipeState :=
  if negb (te_workspace env) || negb (te_tools env) then s
  else
    let save e s := if te_saved env then p_evolution e s else s in
    let e := evolution_tick usage_tokens (te_evolution env) (ps_evolution s) in
    if negb (should_run_evolution e (te_evolution env)) then save e s
    else
      let s := p_note PBackup s in
      if negb (te_evolution_init env) then save e s
      else
        let s := p_note PEvolve s in
        save (if te_evolution_run env then evolved (te_today env) e else e) s.

Definition should_capture (env : TurnEnv) (count : Z) : bool :=
  te_capture_enabled env && (te_capture_min env <=? count)%Z && (count <=? te_capture_max env)%Z.

Definition auto_capture (env : TurnEnv) (session_id reply : string) (s : PipeState) : PipeState :=
  if te_memory env then
    let '(n, c) := bump_auto_capture_count session_id (ps_counters s) in
    let s := p_counters c s in
    if should_capture env n && negb (String.eqb (trim reply) "")
    then p_note (PMemory ("auto_capture:" +:+ session_id) (trim reply)) s else s
  else s.

Definition send_reply (env : TurnEnv) (channel reply : string) (metadata : gmap string string) (s : PipeState)
  : result unit string * PipeState :=
  match te_channels env with
  | None => (Err "No channel manager", s)
  | Some names =>
      if bool_decide (channel ∈ names) then
        match te_send env with
        | Ok _ => (Ok tt, p_note (PSent channel reply metadata) s)
        | Err e => (Err ("Send error: " +:+ e), s)
        end
      else (Err (channel +:+ " channel not found"), s)
  end.

Section turn.
Context `{UnicodeCase}.
Variable of_raw : string -> gmap string string.

Definition roles_of (metadata : gmap string string) : list string :=
  match metadata !! "role_ids" with
  | Some r => retain (fun x => negb (String.eqb x "")) (trim <$> split_char ","%char r)
  | None => []
  end.

Definition binding_context (channel chat_id : string) (metadata : gmap string string) : MessageContext := {|
  mx_channel := channel; mx_peer_id := default chat_id (metadata !! "user_id"); mx_guild_id := metadata !! "guild_id";
  mx_team_id := metadata !! "team_id"; mx_account_id := metadata !! "account_id"; mx_role_ids := roles_of metadata |}.

Definition agent_of (env : TurnEnv) (channel chat_id : string) (metadata : gmap string string) : string :=
  default "channel-agent" (te_bindings env ≫= fun bs =>
    resolve_agent_for_message bs (binding_context channel chat_id metadata)).

(** After an agent turn: the counters, the memory flush and the evolution. *)
Definition after_agent (env : TurnEnv) (session_id : string) (usage_tokens : Z) (s : PipeState) : PipeState :=
  if te_workspace env && te_tools env then
    let '(total, c) := add_session_usage_tokens session_id usage_tokens (ps_counters s) in
    let '(count, c) := bump_session_turn_count session_id c in
    try_evolution env usage_tokens (try_memory_flush env session_id total count (p_counters c s))
  else s.

(** The reply is captured, remembered as the agent's own, and sent. *)
Definition deliver (env : TurnEnv) (channel session_id text : string) (metadata : gmap string string) (s : PipeState)
  : result string string * PipeState :=
  let s := auto_capture env session_id text s in
  let '(sent, s) := send_reply env channel text metadata (p_echo (remember text (ps_echo s)) s) in
  (match sent with Ok _ => Ok text | Err e => Err e end, s).

Definition process_single_message (env : TurnEnv) (channel session_id : string) (m : FinalizedMsgContext) (s : PipeState)
  : result string string * PipeState :=
  let metadata := finalized_metadata of_raw m in
  match try_execute_skill env session_id (body_for_commands m) metadata with
  | Some text => deliver env channel session_id text metadata (p_note (PSkill text) s)
  | None =>
      match run_agent env (body_for_agent m) s with
      | (Err e, s) => (Err e, s)
      | (Ok (text, tokens), s) => deliver env channel session_id text metadata (after_agent env session_id tokens s)
      end
  end.
End turn.

(** * The calls for a session *)

(** A turn, and the messages it answers. *)
Record Turn := { tu_ctx : FinalizedMsgContext; tu_messages : list FinalizedMsgContext }.

Inductive WorkerPc :=
| WConfigure (m : FinalizedMsgContext)
| WEnqueue (m : FinalizedMsgContext)
| WLock (batch : list FinalizedMsgContext)
| WWait (batch : list FinalizedMsgContext)
| WSummary (batch : list FinalizedMsgContext)
| WTurns (todo : list Turn)
| WNext
| WWindow
| WDebounce (collect : bool)
| WTake (collect : bool).

Record Worker := {
  wk_channel : string;
  wk_settings : QueueRuntimeSettings;
  wk_first : option string;
  wk_pc : WorkerPc;
}.

Definition at_pc (pc : WorkerPc) (w : Worker) : Worker := {|
  wk_channel := wk_channel w; wk_settings := wk_settings w; wk_first := wk_first w; wk_pc := pc |}.
Definition replied (text : string) (w : Worker) : Worker := {|
  wk_channel := wk_channel w; wk_settings := wk_settings w;
  wk_first := match wk_first w with None => Some text | o => o end; wk_pc := wk_pc w |}.

(** A session: its queue, the run lock with the workers that hold or wait for it in
    order, the workers, what was offered and answered so far, what was returned. *)
Record Session := {
  pq_queue : MessageQueue;
  pq_lock : list nat;
  pq_workers : gmap nat Worker;
  pq_next : nat;
  pq_state : PipeState;
  pq_offered : list FinalizedMsgContext;
  pq_turns : list Turn;
  pq_returned : list (result string string);
}.

Definition set_queue (q : MessageQueue) (s : Session) : Session := {|
  pq_queue := q; pq_lock := pq_lock s; pq_workers := pq_workers s; pq_next := pq_next s; pq_state := pq_state s;
  pq_offered := pq_offered s; pq_turns := pq_turns s; pq_returned := pq_returned s |}.
Definition set_lock (l : list nat) (s : Session) : Session := {|
  pq_queue := pq_queue s; pq_lock := l; pq_workers := pq_workers s; pq_next := pq_next s; pq_state := pq_state s;
  pq_offered := pq_offered s; pq_turns := pq_turns s; pq_returned := pq_returned s |}.
Definition set_worker (k : nat) (w : Worker) (s : Session) : Session := {|
  pq_queue := pq_queue s; pq_lock := pq_lock s; pq_workers := <[k := w]> (pq_workers s); pq_next := pq_next s;
  pq_state := pq_state s; pq_offered := pq_offered s; pq_turns := pq_turns s; pq_returned := pq_returned s |}.
Definition offer (m : FinalizedMsgContext) (s : Session) : Session := {|
  pq_queue := pq_queue s; pq_lock := pq_lock s; pq_workers := pq_workers s; pq_next := pq_next s; pq_state := pq_state s;
  pq_offered := pq_offered s ++ [m]; pq_turns := pq_turns s; pq_returned := pq_returned s |}.
Definition answered (t : Turn) (p : PipeState) (s : Session) : Session := {|
  pq_queue := pq_queue s; pq_lock := pq_lock s; pq_workers := pq_workers s; pq_next := pq_next s; pq_state := p;
  pq_offered := pq_offered s; pq_turns := pq_turns s ++ [t]; pq_returned := pq_returned s |}.
(** The worker returns; a lock it holds or waits for is given up. *)
Definition return_ (k : nat) (r : result string string) (s : Session) : Session := {|
  pq_queue := pq_queue s; pq_lock := retain (fun j => negb (j =? k)) (pq_lock s); pq_workers := delete k (pq_workers s);
  pq_next := pq_next s; pq_state := pq_state s; pq_offered := pq_offered s; pq_turns := pq_turns s;
  pq_returned := pq_returned s ++ [r] |}.

Definition configure (c : QueueRuntimeSettings) (q : MessageQueue) : MessageQueue :=
  set_drop_policy (qr_drop_policy c) (set_cap (qr_cap c) (set_debounce_ms (qr_debounce_ms c)
    (set_collect_window_ms (qr_collect_window_ms c) (set_mode (qr_mode c) q)))).

Definition single (m : FinalizedMsgContext) : Turn := {| tu_ctx := m; tu_messages := [m] |}.

(** The turns a batch is answered in. *)
Definition turns_of (mode : QueueMode) (batch : list FinalizedMsgContext) (summary : option string) : list Turn :=
  let merge := match mode with Collect => (1 <? length batch) || bool_decide (is_Some summary) | _ => false end in
  match (if merge then build_collect_context batch summary else None) with
  | Some ctx => [{| tu_ctx := ctx; tu_messages := batch |}]
  | None =>
      match batch, summary with
      | m :: rest, Some text => {| tu_ctx := prepend_summary_prompt text m; tu_messages := [m] |} :: map single rest
      | _, _ => map single batch
      end
  end.

Definition debounce_due (now : Z) (q : MessageQueue) : bool :=
  (q_debounce_ms q =? 0)%Z || bool_decide (q_pending q = [])
  || (sat_add (q_last_enqueued_at_ms q) (q_debounce_ms q) <=? now)%Z.

Section workers.
Context `{UnicodeCase}.
Variable of_raw : string -> gmap string string.
Variable session_id : string.

(** A step of worker [k]: up to the next lock or wait.  [None]: it has to wait. *)
Definition worker_step (env : TurnEnv) (now : Z) (k : nat) (w : Worker) (s : Session) : option Session :=
  let q := pq_queue s in
  let go pc s := Some (set_worker k (at_pc pc w) s) in
  match wk_pc w with
  | WConfigure m => go (WEnqueue m) (set_queue (configure (wk_settings w) q) s)
  | WEnqueue m =>
      let '(action, q') := enqueue now m q in
      let s := offer m (set_queue q' s) in
      match action with
      | RunNow m' | Interrupted m' => go (WLock [m']) s
      | Collected batch => go (WLock batch) s
      | Queued => Some (return_ k (Ok "queued") s)
      end
  | WLock batch => go (WWait batch) (set_lock (pq_lock s ++ [k]) s)
  | WWait batch => if bool_decide (head (pq_lock s) = Some k) then go (WSummary batch) s else None
  | WSummary batch =>
      let '(summary, q') := take_summary_prompt "message" q in
      go (WTurns (turns_of (qr_mode (wk_settings w)) batch summary)) (set_queue q' s)
  | WTurns [] => go WNext s
  | WTurns (t :: rest) =>
      match process_single_message of_raw env (wk_channel w) session_id (tu_ctx t) (pq_state s) with
      | (Ok text, p) => Some (set_worker k (at_pc (WTurns rest) (replied text w)) (answered t p s))
      | (Err e, p) => Some (return_ k (Err e) (answered t p s))
      end
  | WNext =>
      match q_mode q, q_pending q with
      | Collect, _ :: _ => go WWindow (set_queue (mark_run_complete q) s)
      | _, [] => go (WTake false) s
      | _, _ => go (WDebounce false) s
      end
  | WWindow => go (WDebounce true) s
  | WDebounce c => if debounce_due now q then go (WTake c) s else None
  | WTake c =>
      let '(next, q') := if c then take_collect_batch q
                         else let '(o, q') := complete_and_take_next q in ((fun m => [m]) <$> o, q') in
      let s := set_queue q' s in
      match next with
      | Some batch => go (WSummary batch) s
      | None => Some (return_ k (Ok (default "queued" (wk_first w))) s)
      end
  end.

(** A call arrives, a worker takes a step, or other sessions change the shared state. *)
Inductive SessionMove :=
| SArrive (channel : string) (c : QueueRuntimeSettings) (m : FinalizedMsgContext)
| SStep (k : nat) (env : TurnEnv) (now : Z)
| SOther (p : PipeState).

Definition session_move (mv : SessionMove) (s : Session) : option Session :=
  match mv with
  | SArrive channel c m =>
      let w := {| wk_channel := channel; wk_settings := c; wk_first := None; wk_pc := WConfigure m |} in
      Some {| pq_queue := pq_queue s; pq_lock := pq_lock s; pq_workers := <[pq_next s := w]> (pq_workers s);
              pq_next := S (pq_next s); pq_state := pq_state s; pq_offered := pq_offered s; pq_turns := pq_turns s;
              pq_returned := pq_returned s |}
  | SStep k env now => w ← pq_workers s !! k; worker_step env now k w s
  | SOther p =>
      Some {| pq_queue := pq_queue s; pq_lock := pq_lock s; pq_workers := pq_workers s; pq_next := pq_next s;
              pq_state := p; pq_offered := pq_offered s; pq_turns := pq_turns s; pq_returned := pq_returned s |}
  end.

(** Runs whose calls have settings in [ok]. *)
Inductive Served (ok : QueueRuntimeSettings -> Prop) (s0 : Session) : Session -> Prop :=
| served_start : Served ok s0 s0
| served_move s s' mv : Served ok s0 s ->
    match mv with SArrive _ c _ => ok c | _ => True end -> session_move mv s = Some s' -> Served ok s0 s'.

Fixpoint serve (mvs : list SessionMove) (s : Session) : option Session :=
  match mvs with
  | [] => Some s
  | mv :: rest => s' ← session_move mv s; serve rest s'
  end.
End workers.

(** A call of [process_message]: the session it is for, and its arrival there.
    Without a model provider it fails before. *)
Definition process_message_call (to_raw : gmap string string -> string) (messages : option json) (scope : DmScope)
    (links : option IdentityLinks) (has_provider : bool) (now : Z) (channel chat_id text : string)
    (metadata : gmap string string) : result (string * SessionMove) string :=
  if negb has_provider then Err "No LLM provider configured"
  else
    let session_id := build_session_id channel chat_id (flag_set metadata "is_group") scope links None in
    Ok (session_id, SArrive channel (resolve_queue_runtime_settings messages channel)
                      (build_finalized_context to_raw now channel chat_id text session_id metadata)).

Definition new_session (mode : QueueMode) (p : PipeState) : Session := {|
  pq_queue := queue_new mode; pq_lock := []; pq_workers := ∅; pq_next := 0; pq_state := p; pq_offered := [];
  pq_turns := []; pq_returned := [] |}.

(** * Lemmas *)

(** ** Bindings *)

Lemma better_spec c bindings best :
  match foldl (better c) best bindings with
  | Some b => (best = Some b \/ b ∈ bindings /\ binding_matches c b = true)
      /\ (forall b', best = Some b' -> priority b <= priority b')
      /\ (forall b', b' ∈ bindings -> binding_matches c b' = true -> priority b <= priority b')
  | None => best = None /\ forall b', b' ∈ bindings -> binding_matches c b' = false
  end.
Proof.
  revert best. induction bindings as [|b bindings IH]; intros best; cbn [foldl].
  - destruct best as [b|]; [|split; [done|by intros ? ?%not_elem_of_nil]].
    split; [by left|]. split; [by intros ? [= <-]|]. by intros ? ?%not_elem_of_nil.
  - specialize (IH (better c best b)).
    assert (better c best b = None -> best = None /\ binding_matches c b = false) as E.
    { unfold better. destruct (binding_matches c b); [|done]. destruct best as [b0|]; [|done]. by destruct (_ <? _). }
    assert (forall b1, better c best b = Some b1 ->
      (best = Some b1 \/ b1 = b /\ binding_matches c b = true)
      /\ (forall b', best = Some b' -> priority b1 <= priority b')
      /\ (binding_matches c b = true -> priority b1 <= priority b)) as S.
    { intros b1. unfold better. destruct (binding_matches c b); [|intros ->; split; [by left|]; split; [by intros ? [= <-]|done]].
      destruct best as [b0|]; [|intros [= <-]; split; [by right|]; done].
      destruct (Nat.ltb_spec (priority b) (priority b0)); intros [= <-].
      - split; [by right|]. split; [intros ? [= <-]; lia|done].
      - split; [by left|]. split; [by intros ? [= <-]|done]. }
    destruct (foldl (better c) (better c best b) bindings) as [b1|].
    + destruct IH as (I1 & I2 & I3). destruct (better c best b) as [b2|] eqn:B.
      * destruct (S b2 eq_refl) as (S1 & S2 & S3). pose proof (I2 b2 eq_refl). split; [|split].
        -- destruct I1 as [[= ->]|[H1 H2]]; [destruct S1 as [->|[-> H1]]; [by left|right]|right]; (split; [set_solver|done]).
        -- intros b' Hb. etrans; [done|]. by apply S2.
        -- intros b' [->|Hb]%elem_of_cons M; [|by apply I3]. etrans; [done|]. by apply S3.
      * destruct (E eq_refl) as [-> N]. split; [|split; [done|]].
        -- right. destruct I1 as [[=]|[H1 H2]]. split; [set_solver|done].
        -- intros b' [->|Hb]%elem_of_cons M; [congruence|by apply I3].
    + destruct IH as [B I]. destruct (E B) as [-> N]. split; [done|].
      intros b' [->|Hb]%elem_of_cons; [done|by apply I].
Qed.

(** ** Queues *)

Definition uncapped (q : MessageQueue) : Prop := q_cap q = u64_max /\ q_mode q <> Interrupt.

Lemma push_uncapped now m q : q_cap q = u64_max ->
  push_pending now m q = (true, q_set (q_pending q ++ [m]) (q_has_active_run q) (q_stamp now q)).
Proof. intros C. unfold push_pending, over_cap. cbn [q_cap q_stamp]. by rewrite C. Qed.

Lemma enqueue_uncapped now m q : uncapped q ->
  enqueue now m q = if q_has_active_run q
                    then (Queued, q_set (q_pending q ++ [m]) true (q_stamp now q))
                    else (RunNow m, q_set (q_pending q) true q).
Proof.
  intros [C M]. unfold enqueue. destruct (q_has_active_run q) eqn:A; [|done]. cbn [negb].
  rewrite (push_uncapped now m q C), A. by destruct (q_mode q).
Qed.

Lemma drop_front_keeps q n : q_has_active_run (Nat.iter n drop_front q) = q_has_active_run q
  /\ q_mode (Nat.iter n drop_front q) = q_mode q.
Proof.
  induction n as [|n IH]; [done|]. change (Nat.iter (S n) drop_front q) with (drop_front (Nat.iter n drop_front q)).
  destruct IH as [<- <-]. generalize (Nat.iter n drop_front q). intros q'.
  unfold drop_front. destruct (q_pending q'); [done|]. by destruct (decide _).
Qed.

Lemma push_keeps now m q : q_has_active_run (push_pending now m q).2 = q_has_active_run q
  /\ q_mode (push_pending now m q).2 = q_mode q.
Proof.
  unfold push_pending. destruct (over_cap _); [|done]. destruct (decide _); [done|]. cbn.
  destruct (drop_front_keeps (q_stamp now q) (Z.to_nat (sat_sub (Z.of_nat (length (q_pending q))) (q_cap q) + 1))) as [A B].
  cbn in A, B. by rewrite A, B.
Qed.

Lemma take_summary_keeps noun q : let q' := (take_summary_prompt noun q).2 in
  q_pending q' = q_pending q /\ q_has_active_run q' = q_has_active_run q /\ q_cap q' = q_cap q /\ q_mode q' = q_mode q.
Proof. unfold take_summary_prompt. by destruct (_ || _). Qed.

(** ** Turns *)

Lemma turns_of_messages mode batch summary : concat (tu_messages <$> turns_of mode batch summary) = batch.
Proof.
  assert (concat (tu_messages <$> map single batch) = batch) as S.
  { induction batch as [|m l IH]; [done|]. cbn. by rewrite IH. }
  unfold turns_of. cbv zeta.
  match goal with |- context [match ?x with Some _ => _ | None => _ end] => destruct x end; [cbn; apply app_nil_r|].
  by destruct batch as [|m rest], summary.
Qed.

Lemma turns_of_single mode batch summary : mode <> Collect -> Forall (fun t => length (tu_messages t) = 1) (turns_of mode batch summary).
Proof.
  intros N. assert (forall l, Forall (fun t => length (tu_messages t) = 1) (map single l)) as S
    by (intros l; apply Forall_map, Forall_true; done).
  unfold turns_of. destruct mode; try done; destruct batch as [|m rest], summary; try (by apply S);
    (constructor; [done|by apply S]).
Qed.

(** ** What the workers hold *)

Definition held (w : Worker) : list FinalizedMsgContext :=
  match wk_pc w with
  | WLock batch | WWait batch | WSummary batch => batch
  | WTurns todo => concat (tu_messages <$> todo)
  | _ => []
  end.
(** Past the queue: its message is accepted, and it will look at the queue again. *)
Definition live (w : Worker) : bool := match wk_pc w with WConfigure _ | WEnqueue _ => false | _ => true end.

Definition held_all (ws : gmap nat Worker) : list FinalizedMsgContext := concat (held <$> (map_to_list ws).*2).

Lemma held_put ws k w : ws !! k = None -> held_all (<[k := w]> ws) ≡ₚ held w ++ held_all ws.
Proof. intros N. unfold held_all. by rewrite (map_to_list_insert ws k w N). Qed.
Lemma held_take ws k w : ws !! k = Some w -> held_all ws ≡ₚ held w ++ held_all (delete k ws).
Proof.
  intros E. rewrite <- (held_put (delete k ws) k w) by apply lookup_delete_eq.
  by rewrite insert_delete_id.
Qed.
Lemma held_set ws k w : held_all (<[k := w]> ws) ≡ₚ held w ++ held_all (delete k ws).
Proof. rewrite <- insert_delete_eq. apply held_put, lookup_delete_eq. Qed.

Definition done (s : Session) : list FinalizedMsgContext := concat (tu_messages <$> pq_turns s).

Lemma answered_done t p s : done (answered t p s) = done s ++ tu_messages t.
Proof. unfold done. cbn [answered pq_turns]. rewrite fmap_app, concat_app. cbn. by rewrite app_nil_r. Qed.

Definition succeeded (s : Session) : Prop := Forall (fun r => exists text, r = Ok text) (pq_returned s).

Section service.
Context `{UnicodeCase}.
Variable of_raw : string -> gmap string string.
Variable session_id : string.

Lemma step_returned env now k w s s' : worker_step of_raw session_id env now k w s = Some s' ->
  exists l, pq_returned s' = pq_returned s ++ l.
Proof.
  unfold worker_step. intros E. destruct (wk_pc w) as [m|m|b|b|b|[|t todo]| | |c|c].
  all: try (injection E as <-; exists []; by rewrite app_nil_r).
  - destruct (enqueue _ _ _) as [[] q']; injection E as <-; cbn; eauto; exists []; by rewrite app_nil_r.
  - destruct (bool_decide _); [|done]. injection E as <-. exists []. by rewrite app_nil_r.
  - destruct (take_summary_prompt _ _). injection E as <-. exists []. by rewrite app_nil_r.
  - destruct (process_single_message _ _ _ _ _ _) as [[] p]; injection E as <-; cbn; eauto. exists []. by rewrite app_nil_r.
  - destruct (q_mode _), (q_pending _); injection E as <-; exists []; by rewrite app_nil_r.
  - destruct (debounce_due _ _); [|done]. injection E as <-. exists []. by rewrite app_nil_r.
  - destruct (if c then _ else _) as [[] q']; injection E as <-; cbn; eauto. exists []. by rewrite app_nil_r.
Qed.

Lemma returned_grows mv s s' : session_move of_raw session_id mv s = Some s' -> exists l, pq_returned s' = pq_returned s ++ l.
Proof.
  destruct mv; cbn [session_move]; [intros [= <-]; exists []; cbn; by rewrite app_nil_r| |intros [= <-]; exists []; cbn; by rewrite app_nil_r].
  destruct (pq_workers s !! k) as [w|]; [|by intros [=]]. apply step_returned.
Qed.

Lemma succeeded_before mv s s' : session_move of_raw session_id mv s = Some s' -> succeeded s' -> succeeded s.
Proof. intros (l & E)%returned_grows. unfold succeeded. rewrite E, Forall_app. tauto. Qed.

(** ** Every message has its place *)

Definition uncapped_settings (c : QueueRuntimeSettings) : Prop := qr_cap c = u64_max /\ qr_mode c <> Interrupt.

Record Books (s : Session) : Prop := {
  bk_next k : pq_next s <= k -> pq_workers s !! k = None;
  bk_queue : uncapped (pq_queue s);
  bk_settings k w : pq_workers s !! k = Some w -> uncapped_settings (wk_settings w);
  bk_live : q_has_active_run (pq_queue s) = true \/ q_pending (pq_queue s) <> [] ->
    exists k w, pq_workers s !! k = Some w /\ live w = true;
  bk_sum : pq_offered s ≡ₚ done s ++ held_all (pq_workers s) ++ q_pending (pq_queue s);
}.

Lemma books_put s s' k w w' : Books s -> pq_workers s !! k = Some w ->
  pq_workers s' = <[k := w']> (pq_workers s) -> pq_next s' = pq_next s -> uncapped (pq_queue s') ->
  wk_settings w' = wk_settings w ->
  (live w' = true \/ live w = false /\ q_has_active_run (pq_queue s') = q_has_active_run (pq_queue s)
                     /\ q_pending (pq_queue s') = q_pending (pq_queue s)) ->
  (forall hd, pq_offered s ≡ₚ done s ++ (held w ++ hd) ++ q_pending (pq_queue s) ->
     pq_offered s' ≡ₚ done s' ++ (held w' ++ hd) ++ q_pending (pq_queue s')) -> Books s'.
Proof.
  intros [Bn Bq Bw Bl Bs] E Ew En U St L S. split.
  - intros j Hj. rewrite Ew. rewrite lookup_insert_ne; [apply Bn; lia|]. intros ->. rewrite Bn in E; [done|lia].
  - exact U.
  - intros j x. rewrite Ew. intros [[<- <-]|[_ Hx]]%lookup_insert_Some; [rewrite St|]; eauto.
  - rewrite Ew. destruct L as [L|(L & -> & ->)].
    + intros _. exists k, w'. by rewrite lookup_insert_eq.
    + intros (j & x & Hx & Lx)%Bl. exists j, x. rewrite lookup_insert_ne; [done|]. intros ->. congruence.
  - rewrite Ew, held_set. apply S. rewrite Bs. f_equiv. by rewrite (held_take _ k w) by done.
Qed.

Lemma books_drop s s' k w : Books s -> pq_workers s !! k = Some w ->
  pq_workers s' = delete k (pq_workers s) -> pq_next s' = pq_next s -> uncapped (pq_queue s') ->
  (q_has_active_run (pq_queue s') = true \/ q_pending (pq_queue s') <> [] ->
     live w = false /\ q_has_active_run (pq_queue s) = true) ->
  (forall hd, pq_offered s ≡ₚ done s ++ (held w ++ hd) ++ q_pending (pq_queue s) ->
     pq_offered s' ≡ₚ done s' ++ hd ++ q_pending (pq_queue s')) -> Books s'.
Proof.
  intros [Bn Bq Bw Bl Bs] E Ew En U L S. split.
  - intros j Hj. rewrite Ew. apply lookup_delete_None. right. apply Bn. lia.
  - exact U.
  - intros j x. rewrite Ew. intros [_ Hx]%lookup_delete_Some. eauto.
  - rewrite Ew. intros [Lw A]%L. destruct (Bl (or_introl A)) as (j & x & Hx & Lx). exists j, x.
    rewrite lookup_delete_ne; [done|]. intros ->. congruence.
  - rewrite Ew. apply S. rewrite Bs. f_equiv. by rewrite (held_take _ k w) by done.
Qed.

Lemma uncapped_configure c q : uncapped_settings c -> uncapped (configure c q).
Proof. intros [C M]. unfold uncapped, configure. cbn. rewrite C. done. Qed.

Lemma books_step env now k w s s' : Books s -> pq_workers s !! k = Some w ->
  worker_step of_raw session_id env now k w s = Some s' -> succeeded s' -> Books s'.
Proof.
  intros B E. pose proof (bk_queue _ B) as Uq. pose proof (bk_settings _ B k w E) as Us.
  unfold worker_step. destruct (wk_pc w) as [m|m|b|b|b|[|t todo]| | |c|c] eqn:Pc.
  - intros [= <-] _. eapply (books_put s _ k w); try done; [by apply uncapped_configure| |].
    + right. unfold live. rewrite Pc. done.
    + intros hd. unfold held. rewrite Pc. done.
  - rewrite enqueue_uncapped by done. destruct (q_has_active_run (pq_queue s)) eqn:A.
    + intros [= <-] _. eapply (books_drop s _ k w); try done; [unfold live; by rewrite Pc|].
      intros hd. unfold held. rewrite Pc. cbn. intros ->. solve_Permutation.
    + intros [= <-] _. eapply (books_put s _ k w); try done; [by left|].
      intros hd. unfold held. rewrite Pc. cbn. intros ->. solve_Permutation.
  - intros [= <-] _. eapply (books_put s _ k w); try done; [by left|]. intros hd. unfold held. rewrite Pc. done.
  - destruct (bool_decide _); [|done]. intros [= <-] _. eapply (books_put s _ k w); try done; [by left|].
    intros hd. unfold held. rewrite Pc. done.
  - pose proof (take_summary_keeps "message" (pq_queue s)) as K.
    destruct (take_summary_prompt "message" (pq_queue s)) as [summary q']. cbn in K. destruct K as (K1 & K2 & K3 & K4).
    intros [= <-] _. eapply (books_put s _ k w); try done; [|by left|].
    + unfold uncapped. cbn. by rewrite K3, K4.
    + intros hd. unfold held. rewrite Pc. cbn. by rewrite turns_of_messages, K1.
  - intros [= <-] _. eapply (books_put s _ k w); try done; [by left|]. intros hd. unfold held. rewrite Pc. done.
  - destruct (process_single_message _ _ _ _ _ _) as [[text|e] p].
    + intros [= <-] _. eapply (books_put s _ k w); try done; [by left|].
      intros hd. unfold held. rewrite Pc. cbn [at_pc wk_pc]. intros ->. cbn [set_worker pq_turns pq_queue answered].
      unfold done. cbn. rewrite fmap_app, concat_app. cbn. rewrite app_nil_r. solve_Permutation.
    + intros [= <-] F. unfold succeeded in F. cbn in F. apply Forall_app in F as [_ F].
      by apply Forall_singleton in F as [? [=]].
  - assert (forall pc q', wk_pc (at_pc pc w) = pc -> live (at_pc pc w) = true -> held (at_pc pc w) = [] ->
      uncapped q' -> q_pending q' = q_pending (pq_queue s) -> Books (set_worker k (at_pc pc w) (set_queue q' s))) as G.
    { intros pc q' _ L Hn U P. eapply (books_put s _ k w); try done; [by left|].
      intros hd. unfold held at 1. rewrite Pc, Hn. cbn. by rewrite P. }
    assert (s = set_queue (pq_queue s) s) as Es by (by destruct s).
    destruct (q_mode (pq_queue s)) eqn:M, (q_pending (pq_queue s)) eqn:P; intros [= <-] _;
      first [rewrite Es; by apply G | by apply G].
  - intros [= <-] _. eapply (books_put s _ k w); try done; [by left|]. intros hd. unfold held. rewrite Pc. done.
  - destruct (debounce_due _ _); [|done]. intros [= <-] _. eapply (books_put s _ k w); try done; [by left|].
    intros hd. unfold held. rewrite Pc. done.
  - unfold take_collect_batch, complete_and_take_next.
    destruct c, (q_pending (pq_queue s)) as [|m rest] eqn:P; cbn; intros [= <-] _.
    1, 3: eapply (books_drop s _ k w); try done; [cbn; by intros [|]|];
      intros hd; unfold held; rewrite Pc, P; done.
    all: eapply (books_put s _ k w); try done; [by left|]; intros hd; unfold held; rewrite Pc, P; cbn;
      intros ->; rewrite ?app_nil_r; solve_Permutation.
Qed.

Lemma books_move mv s s' : Books s -> match mv with SArrive _ c _ => uncapped_settings c | _ => True end ->
  session_move of_raw session_id mv s = Some s' -> succeeded s' -> Books s'.
Proof.
  intros B Ok. destruct mv as [channel c m|k env now|p]; cbn [session_move].
  - intros [= <-] _. destruct B as [Bn Bq Bw Bl Bs]. split; cbn [pq_next pq_workers pq_queue pq_offered].
    + intros k L. rewrite lookup_insert_ne by lia. apply Bn. lia.
    + done.
    + intros k w [[<- <-]|[_ Hx]]%lookup_insert_Some; eauto.
    + intros (j & x & Hx & Lx)%Bl. exists j, x. rewrite lookup_insert_ne; [done|].
      intros <-. by rewrite Bn in Hx.
    + rewrite held_put by (by apply Bn). exact Bs.
  - destruct (pq_workers s !! k) as [w|] eqn:E; [|done]. by apply books_step.
  - intros [= <-] _. destruct B. by split.
Qed.

Lemma books_served s0 s : Books s0 -> Served of_raw session_id uncapped_settings s0 s -> succeeded s -> Books s.
Proof.
  intros B R. induction R as [|s s' mv _ IH Ok E]; [done|]. intros F.
  eapply books_move; [|exact Ok|exact E|exact F]. apply IH. by eapply succeeded_before.
Qed.

Lemma books_new mode p : mode <> Interrupt -> Books (new_session mode p).
Proof. intros M. split; cbn; try done. by intros [|]. Qed.

(** ** The run lock *)

(** At the pc of a worker that has the run lock, or is queued for it. *)
Definition locked (w : Worker) : bool :=
  match wk_pc w with WConfigure _ | WEnqueue _ | WLock _ | WWait _ => false | _ => true end.
Definition queued (w : Worker) : bool :=
  match wk_pc w with WConfigure _ | WEnqueue _ | WLock _ => false | _ => true end.

Record LockInv (s : Session) : Prop := {
  lk_nodup : NoDup (pq_lock s);
  lk_queued k w : pq_workers s !! k = Some w -> k ∈ pq_lock s -> queued w = true;
  lk_known k : pq_next s <= k -> pq_workers s !! k = None /\ k ∉ pq_lock s;
  lk_head k w : pq_workers s !! k = Some w -> locked w = true -> head (pq_lock s) = Some k;
}.

Lemma lock_put s s' k w w' : LockInv s -> pq_workers s !! k = Some w -> pq_workers s' = <[k := w']> (pq_workers s) ->
  pq_lock s' = pq_lock s -> pq_next s' = pq_next s -> (queued w = true -> queued w' = true) ->
  (locked w' = true -> head (pq_lock s) = Some k) -> LockInv s'.
Proof.
  intros [Nd Q Kn Hd] E Ew El En Qw Lw. split; rewrite ?Ew, ?El, ?En.
  - done.
  - intros j x [[<- <-]|[_ Hx]]%lookup_insert_Some; [|by eapply Q]. intros Hin. apply Qw. by eapply Q.
  - intros j Hj. destruct (Kn j Hj) as [Nj Hn]. split; [|done]. rewrite lookup_insert_ne; [done|]. intros ->. congruence.
  - intros j x [[<- <-]|[_ Hx]]%lookup_insert_Some; [done|]. by eapply Hd.
Qed.

Lemma lock_drop s s' k w : LockInv s -> pq_workers s !! k = Some w -> pq_workers s' = delete k (pq_workers s) ->
  pq_lock s' = retain (fun j => negb (j =? k)) (pq_lock s) -> pq_next s' = pq_next s -> LockInv s'.
Proof.
  intros [Nd Q Kn Hd] E Ew El En. split; rewrite ?Ew, ?El, ?En.
  - by apply retain_NoDup.
  - intros j x [_ Hx]%lookup_delete_Some [Hin _]%elem_of_retain. by eapply Q.
  - intros j Hj. destruct (Kn j Hj) as [Nj Hn]. split; [apply lookup_delete_None; by right|].
    by intros [? _]%elem_of_retain.
  - intros j x [N Hx]%lookup_delete_Some L. pose proof (Hd j x Hx L) as Hj. destruct (pq_lock s) as [|j' l]; [done|].
    cbn in Hj. injection Hj as ->. cbn. by rewrite (proj2 (Nat.eqb_neq j k)) by done.
Qed.

Lemma lock_step env now k w s s' : LockInv s -> pq_workers s !! k = Some w ->
  worker_step of_raw session_id env now k w s = Some s' -> LockInv s'.
Proof.
  intros I E. pose proof I as [Nd Q Kn Hd].
  assert (forall pc s1, LockInv s1 -> pq_workers s1 = pq_workers s -> pq_lock s1 = pq_lock s ->
    (queued w = true -> queued (at_pc pc w) = true) -> (locked (at_pc pc w) = true -> locked w = true) ->
    LockInv (set_worker k (at_pc pc w) s1)) as Go.
  { intros pc s1 I1 Ew El Qw Lw. eapply (lock_put s1 _ k w); try done; [by rewrite Ew|].
    intros L. rewrite El. by eapply Hd, Lw. }
  assert (forall q' s1, LockInv s1 -> LockInv (set_queue q' s1)) as Sq by (intros ?? []; by split).
  assert (forall m s1, LockInv s1 -> LockInv (offer m s1)) as So by (intros ?? []; by split).
  assert (forall t p s1, LockInv s1 -> LockInv (answered t p s1)) as Sa by (intros ??? []; by split).
  assert (forall r s1, LockInv s1 -> pq_workers s1 = pq_workers s -> LockInv (return_ k r s1)) as Rt.
  { intros r s1 I1 Ew. eapply (lock_drop s1 _ k w); try done. by rewrite Ew. }
  unfold worker_step. destruct (wk_pc w) as [m|m|b|b|b|[|t todo]| | |c|c] eqn:Pc;
    (assert (queued w = queued (at_pc (wk_pc w) w) /\ locked w = locked (at_pc (wk_pc w) w)) as [Eq El] by done;
     rewrite Pc in Eq, El; cbn in Eq, El).
  - intros [= <-]. apply Go; auto; by rewrite ?Eq, ?El.
  - destruct (enqueue _ _ _) as [[] q']; intros [= <-]; [apply Go|apply Rt|apply Go|apply Go]; auto; by rewrite ?Eq, ?El.
  - intros [= <-]. split; cbn [set_worker set_lock pq_lock pq_workers pq_next].
    + apply NoDup_app. split; [done|]. split; [|apply NoDup_singleton]. intros x Hx ->%list_elem_of_singleton.
      pose proof (Q k w E Hx). congruence.
    + intros j x [[<- <-]|[N Hx]]%lookup_insert_Some; [done|]. intros [Hj|Hj]%elem_of_app; [by eapply Q|].
      apply list_elem_of_singleton in Hj. congruence.
    + intros j Hj. destruct (Kn j Hj) as [Nj Hn]. assert (j <> k) by congruence.
      rewrite lookup_insert_ne by done. split; [done|]. by intros [?|?%list_elem_of_singleton]%elem_of_app.
    + intros j x [[<- <-]|[N Hx]]%lookup_insert_Some; [done|]. intros L. pose proof (Hd j x Hx L) as Hh.
      by destruct (pq_lock s).
  - case_bool_decide as Hh; [|done]. intros [= <-]. eapply (lock_put s _ k w); try done.
  - destruct (take_summary_prompt _ _). intros [= <-]. apply Go; auto; by rewrite ?Eq, ?El.
  - intros [= <-]. apply Go; auto; by rewrite ?Eq, ?El.
  - destruct (process_single_message _ _ _ _ _ _) as [[text|e] p]; intros [= <-]; [|by apply Rt; [apply Sa|]].
    eapply (lock_put (answered t p s) _ k w); [by apply Sa|done|reflexivity|done|done|done|].
    intros _. apply (Hd k w E). by rewrite El.
  - destruct (q_mode _), (q_pending _); intros [= <-]; apply Go; auto; by rewrite ?Eq, ?El.
  - intros [= <-]. apply Go; auto; by rewrite ?Eq, ?El.
  - destruct (debounce_due _ _); [|done]. intros [= <-]. apply Go; auto; by rewrite ?Eq, ?El.
  - destruct (if c then _ else _) as [[] q']; intros [= <-]; [apply Go; auto; by rewrite ?Eq, ?El|by apply Rt; [apply Sq|]].
Qed.

Lemma lock_served ok s0 s : LockInv s0 -> Served of_raw session_id ok s0 s -> LockInv s.
Proof.
  intros I R. induction R as [|s s' mv _ IH _ E]; [done|]. destruct mv as [channel c m|k env now|p]; cbn [session_move] in E.
  - injection E as <-. destruct IH as [Nd Q Kn Hd]. split; cbn [pq_lock pq_workers pq_next]; [done|..].
    + intros j x [[<- <-]|[_ Hx]]%lookup_insert_Some; [|by eapply Q]. intros Hin. by destruct (proj2 (Kn _ (Nat.le_refl _))).
    + intros j Hj. destruct (Kn j) as [Nj Hn]; [lia|]. split; [|done]. rewrite lookup_insert_ne by lia. done.
    + intros j x [[<- <-]|[_ Hx]]%lookup_insert_Some; [done|]. by eapply Hd.
  - destruct (pq_workers s !! k) as [w|] eqn:Ek; [|done]. by eapply lock_step.
  - injection E as <-. destruct IH. by split.
Qed.
End service.


(** ** In line *)

Section line.
Context `{UnicodeCase}.
Variable of_raw : string -> gmap string string.
Variable session_id : string.

Definition in_line (m : QueueMode) : Prop := m <> Interrupt /\ m <> Collect.
Definition line_settings (c : QueueRuntimeSettings) : Prop := qr_cap c = u64_max /\ in_line (qr_mode c).
Definition line_queue (q : MessageQueue) : Prop := q_cap q = u64_max /\ in_line (q_mode q).
Definition single_turn (t : Turn) : Prop := length (tu_messages t) = 1.
Definition singles (w : Worker) : Prop := match wk_pc w with WTurns todo => Forall single_turn todo | _ => True end.

Record Line (s : Session) : Prop := {
  ln_next k : pq_next s <= k -> pq_workers s !! k = None;
  ln_queue : line_queue (pq_queue s);
  ln_worker k w : pq_workers s !! k = Some w -> line_settings (wk_settings w) /\ singles w;
  ln_one i j w w' : pq_workers s !! i = Some w -> pq_workers s !! j = Some w' ->
    live w = true -> live w' = true -> i = j;
  ln_busy : q_has_active_run (pq_queue s) = true -> exists k w, pq_workers s !! k = Some w /\ live w = true;
  ln_idle : q_has_active_run (pq_queue s) = false ->
    pq_offered s = done s /\ q_pending (pq_queue s) = [] /\ forall k w, pq_workers s !! k = Some w -> live w = false;
  ln_sum k w : pq_workers s !! k = Some w -> live w = true ->
    pq_offered s = done s ++ held w ++ q_pending (pq_queue s);
  ln_turns : Forall single_turn (pq_turns s);
}.

Lemma line_active s k w : Line s -> pq_workers s !! k = Some w -> live w = true -> q_has_active_run (pq_queue s) = true.
Proof.
  intros I E L. destruct (q_has_active_run (pq_queue s)) eqn:A; [done|].
  destruct (ln_idle _ I A) as (_ & _ & N). by rewrite (N k w E) in L.
Qed.

(** The live worker goes on, or a message starts one. *)
Lemma line_live s s' k w w' : Line s -> pq_workers s !! k = Some w ->
  (live w = true \/ q_has_active_run (pq_queue s) = false) -> live w' = true ->
  pq_workers s' = <[k := w']> (pq_workers s) -> pq_next s' = pq_next s -> line_queue (pq_queue s') ->
  q_has_active_run (pq_queue s') = true -> wk_settings w' = wk_settings w -> singles w' ->
  pq_offered s' = done s' ++ held w' ++ q_pending (pq_queue s') -> Forall single_turn (pq_turns s') -> Line s'.
Proof.
  intros I E L L' Ew En Q A St Si S T. pose proof I as [Bn _ Bw B1 _ Bi _ _].
  assert (forall j x, pq_workers s !! j = Some x -> live x = true -> j = k) as U.
  { intros j x Hx Lx. destruct L as [L|L]; [by eapply B1|]. destruct (Bi L) as (_ & _ & N). by rewrite (N j x Hx) in Lx. }
  assert (forall j x, pq_workers s' !! j = Some x -> live x = true -> j = k /\ x = w') as U'.
  { intros j x. rewrite Ew. intros [[<- <-]|[N Hx]]%lookup_insert_Some Lx; [done|]. by destruct (N (eq_sym (U j x Hx Lx))). }
  split; try done.
  - intros j Hj. rewrite Ew. rewrite lookup_insert_ne; [apply Bn; lia|]. intros ->. rewrite Bn in E; [done|lia].
  - intros j x. rewrite Ew. intros [[<- <-]|[_ Hx]]%lookup_insert_Some; [|by eapply Bw].
    rewrite St. split; [by apply (Bw k w)|done].
  - intros i j x x' Ei Ej Li Lj. destruct (U' _ _ Ei Li) as [-> _]. by destruct (U' _ _ Ej Lj) as [-> _].
  - intros _. exists k, w'. by rewrite Ew, lookup_insert_eq.
  - congruence.
  - intros j x Hx Lx. by destruct (U' j x Hx Lx) as [_ ->].
Qed.

(** A worker that is not live goes on. *)
Lemma line_wait s s' k w w' : Line s -> pq_workers s !! k = Some w -> live w = false -> live w' = false ->
  pq_workers s' = <[k := w']> (pq_workers s) -> pq_next s' = pq_next s -> line_queue (pq_queue s') ->
  q_has_active_run (pq_queue s') = q_has_active_run (pq_queue s) ->
  q_pending (pq_queue s') = q_pending (pq_queue s) -> wk_settings w' = wk_settings w -> singles w' ->
  pq_offered s' = pq_offered s -> pq_turns s' = pq_turns s -> Line s'.
Proof.
  intros I E L L' Ew En Q A P St Si Of Tu. pose proof I as [Bn _ Bw B1 Bb Bi Bs Bt].
  assert (forall j x, pq_workers s' !! j = Some x -> live x = true -> pq_workers s !! j = Some x) as U.
  { intros j x. rewrite Ew. intros [[<- <-]|[N Hx]]%lookup_insert_Some Lx; [congruence|done]. }
  assert (done s' = done s) as D by (unfold done; by rewrite Tu).
  split; rewrite ?A, ?P, ?Of, ?D, ?Tu; try done.
  - intros j Hj. rewrite Ew. rewrite lookup_insert_ne; [apply Bn; lia|]. intros ->. rewrite Bn in E; [done|lia].
  - intros j x. rewrite Ew. intros [[<- <-]|[_ Hx]]%lookup_insert_Some; [|by eapply Bw].
    rewrite St. split; [by apply (Bw k w)|done].
  - intros i j x x' Ei Ej Li Lj. eauto.
  - intros (j & x & Hx & Lx)%Bb. exists j, x. rewrite Ew, lookup_insert_ne; [done|]. intros ->. congruence.
  - intros (-> & -> & N)%Bi. split; [done|]. split; [done|]. intros j x. rewrite Ew.
    intros [[<- <-]|[_ Hx]]%lookup_insert_Some; [done|by eapply N].
  - intros j x Hx Lx. eauto.
Qed.

(** The live worker returns; or one that queued its message. *)
Lemma line_return s s' k w : Line s -> pq_workers s !! k = Some w -> live w = true -> held w = [] ->
  pq_workers s' = delete k (pq_workers s) -> pq_next s' = pq_next s -> line_queue (pq_queue s') ->
  q_has_active_run (pq_queue s') = false -> q_pending (pq_queue s) = [] -> q_pending (pq_queue s') = [] ->
  pq_offered s' = pq_offered s -> pq_turns s' = pq_turns s -> Line s'.
Proof.
  intros I E L Hn Ew En Q A P P' Of Tu. pose proof I as [Bn _ Bw B1 Bb Bi Bs Bt].
  assert (done s' = done s) as D by (unfold done; by rewrite Tu).
  assert (forall j x, pq_workers s' !! j = Some x -> live x = false) as N.
  { intros j x. rewrite Ew. intros [Nj Hx]%lookup_delete_Some. destruct (live x) eqn:Lx; [|done].
    by destruct (Nj (B1 _ _ _ _ E Hx L Lx)). }
  split; rewrite ?Of, ?D, ?Tu, ?P'; try done.
  - intros j Hj. rewrite Ew. apply lookup_delete_None. right. apply Bn. lia.
  - intros j x. rewrite Ew. intros [_ Hx]%lookup_delete_Some. by eapply Bw.
  - intros i j x x' Ei _ Li. by rewrite (N i x Ei) in Li.
  - congruence.
  - intros _. split; [|done]. rewrite (Bs k w E L), Hn, P. cbn. by rewrite app_nil_r.
  - intros j x Hx Lx. by rewrite (N j x Hx) in Lx.
Qed.

Lemma line_queued s s' k w m : Line s -> pq_workers s !! k = Some w -> live w = false ->
  q_has_active_run (pq_queue s) = true ->
  pq_workers s' = delete k (pq_workers s) -> pq_next s' = pq_next s -> line_queue (pq_queue s') ->
  q_has_active_run (pq_queue s') = true -> q_pending (pq_queue s') = q_pending (pq_queue s) ++ [m] ->
  pq_offered s' = pq_offered s ++ [m] -> pq_turns s' = pq_turns s -> Line s'.
Proof.
  intros I E L A Ew En Q A' P Of Tu. pose proof I as [Bn _ Bw B1 Bb Bi Bs Bt].
  assert (done s' = done s) as D by (unfold done; by rewrite Tu).
  assert (forall j x, pq_workers s' !! j = Some x -> pq_workers s !! j = Some x) as U
    by (intros j x; rewrite Ew; by intros [_ Hx]%lookup_delete_Some).
  split; rewrite ?Of, ?D, ?Tu, ?P; try done.
  - intros j Hj. rewrite Ew. apply lookup_delete_None. right. apply Bn. lia.
  - intros j x Hx. by eapply Bw, U.
  - intros i j x x' Ei Ej Li Lj. eauto.
  - intros _. destruct (Bb A) as (j & x & Hx & Lx). exists j, x. rewrite Ew, lookup_delete_ne; [done|]. intros ->. congruence.
  - congruence.
  - intros j x Hx Lx. rewrite (Bs j x (U j x Hx) Lx). by rewrite <- !app_assoc.
Qed.

Lemma uncapped_line q : line_queue q -> uncapped q.
Proof. intros [? [? _]]. by split. Qed.

Lemma line_step env now k w s s' : Line s -> pq_workers s !! k = Some w ->
  worker_step of_raw session_id env now k w s = Some s' -> succeeded s' -> Line s'.
Proof.
  intros I E. pose proof (ln_queue _ I) as Q. destruct (ln_worker _ I k w E) as [St Si].
  assert (live w = true -> q_has_active_run (pq_queue s) = true) as La by (by apply (line_active s k w I)).
  assert (live w = true -> pq_offered s = done s ++ held w ++ q_pending (pq_queue s)) as Ls by (by apply (ln_sum _ I k w)).
  pose proof (ln_turns _ I) as Tu. unfold worker_step, live, held, singles in *.
  destruct (wk_pc w) as [m|m|b|b|b|[|t todo]| | |c|c] eqn:Pc; try specialize (La eq_refl); try specialize (Ls eq_refl).
  - intros [= <-] _. eapply (line_wait s _ k w); try done; try reflexivity; [unfold live; by rewrite Pc|].
    destruct St as [C M]. unfold line_queue, configure. cbn. by rewrite C.
  - rewrite enqueue_uncapped by (by apply uncapped_line). destruct (q_has_active_run (pq_queue s)) eqn:A; intros [= <-] _.
    + eapply (line_queued s _ k w m); try done; try reflexivity. unfold live. by rewrite Pc.
    + eapply (line_live s _ k w); try done; try reflexivity; [by right|]. cbn [set_worker offer pq_offered pq_queue set_queue].
      destruct (ln_idle _ I A) as (-> & Pe & _). cbn. by rewrite Pe.
  - intros [= <-] _. eapply (line_live s _ k w); try done; try reflexivity. left. unfold live. by rewrite Pc.
  - destruct (bool_decide _); [|done]. intros [= <-] _. eapply (line_live s _ k w); try done; try reflexivity. left. unfold live. by rewrite Pc.
  - pose proof (take_summary_keeps "message" (pq_queue s)) as K.
    destruct (take_summary_prompt "message" (pq_queue s)) as [summary q']. cbn in K. destruct K as (K1 & K2 & K3 & K4).
    intros [= <-] _. eapply (line_live s _ k w); try done; try reflexivity; [left; unfold live; by rewrite Pc| | |..]; cbn.
    + unfold line_queue. by rewrite K3, K4.
    + congruence.
    + apply turns_of_single. apply St.
    + unfold held. cbn. by rewrite turns_of_messages, K1.
  - intros [= <-] _. eapply (line_live s _ k w); try done; try reflexivity. left. unfold live. by rewrite Pc.
  - destruct (process_single_message _ _ _ _ _ _) as [[text|e] p].
    + intros [= <-] _. apply Forall_cons in Si as [Si1 Si2].
      eapply (line_live s _ k w); try done; try reflexivity; [left; unfold live; by rewrite Pc| |]; cbn [set_worker answered pq_offered pq_queue pq_turns].
      * rewrite Ls. unfold done, held. cbn. rewrite fmap_app, concat_app. cbn. by rewrite app_nil_r, <- !app_assoc.
      * apply Forall_app. split; [done|]. by constructor.
    + intros [= <-] F. unfold succeeded in F. cbn in F. apply Forall_app in F as [_ F].
      by apply Forall_singleton in F as [? [=]].
  - destruct Q as [Qc [Qi Qn]]. destruct (q_mode (pq_queue s)) eqn:M; try done; try reflexivity;
      destruct (q_pending (pq_queue s)) eqn:P; intros [= <-] _;
      (eapply (line_live s _ k w); try done; try reflexivity;
        [left; unfold live; by rewrite Pc|split; [exact Qc|cbn; by rewrite M]|change (pq_offered s = done s ++ [] ++ q_pending (pq_queue s)); by rewrite Ls, P]).
  - intros [= <-] _. eapply (line_live s _ k w); try done; try reflexivity. left. unfold live. by rewrite Pc.
  - destruct (debounce_due _ _); [|done]. intros [= <-] _. eapply (line_live s _ k w); try done; try reflexivity. left. unfold live. by rewrite Pc.
  - unfold take_collect_batch, complete_and_take_next. cbn in Ls.
    destruct c, (q_pending (pq_queue s)) as [|m rest] eqn:P; cbn; intros [= <-] _.
    1, 3: eapply (line_return s _ k w); try done; try reflexivity; unfold live, held; by rewrite Pc.
    all: eapply (line_live s _ k w); try done; try reflexivity; try (left; unfold live; by rewrite Pc).
    change (pq_offered s = done s ++ (m :: rest) ++ []). by rewrite app_nil_r.
Qed.

Lemma line_served s0 s : Line s0 -> Served of_raw session_id line_settings s0 s -> succeeded s -> Line s.
Proof.
  intros I R. induction R as [|s s' mv _ IH Ok E]; [done|]. intros F.
  specialize (IH (succeeded_before of_raw session_id mv s s' E F)).
  destruct mv as [channel c m|k env now|p]; cbn [session_move] in E.
  - injection E as <-. destruct IH as [Bn Bq Bw B1 Bb Bi Bs Bt].
    assert (forall j x, <[pq_next s := {| wk_channel := channel; wk_settings := c; wk_first := None; wk_pc := WConfigure m |}]>
      (pq_workers s) !! j = Some x -> live x = true -> pq_workers s !! j = Some x) as U
      by (intros j x; by intros [[<- <-]|[_ Hx]]%lookup_insert_Some).
    split; cbn [pq_next pq_workers pq_queue pq_offered pq_turns]; try done.
    + intros j Hj. rewrite lookup_insert_ne by lia. apply Bn. lia.
    + intros j x [[<- <-]|[_ Hx]]%lookup_insert_Some; [by split|by eapply Bw].
    + intros i j x x' Ei Ej Li Lj. eauto.
    + intros (j & x & Hx & Lx)%Bb. exists j, x. rewrite lookup_insert_ne; [done|]. intros <-. by rewrite Bn in Hx.
    + intros (A & P & N)%Bi. split; [done|]. split; [done|].
      intros j x [[<- <-]|[_ Hx]]%lookup_insert_Some; [done|by eapply N].
    + intros j x Hx Lx. exact (Bs j x (U j x Hx Lx) Lx).
  - destruct (pq_workers s !! k) as [w|] eqn:Ek; [|done]. by eapply line_step.
  - injection E as <-. destruct IH. by split.
Qed.
End line.


(** ** After a failure *)

Section wedge.
Context `{UnicodeCase}.
Variable of_raw : string -> gmap string string.
Variable session_id : string.

Definition not_interrupting (c : QueueRuntimeSettings) : Prop := qr_mode c <> Interrupt.

(** The queue is busy, and no call is there that would ever look at it. *)
Record Wedged (s : Session) : Prop := {
  wd_busy : q_has_active_run (pq_queue s) = true;
  wd_mode : q_mode (pq_queue s) <> Interrupt;
  wd_workers k w : pq_workers s !! k = Some w -> live w = false /\ not_interrupting (wk_settings w);
}.

Lemma wedged_move mv s s' : Wedged s -> match mv with SArrive _ c _ => not_interrupting c | _ => True end ->
  session_move of_raw session_id mv s = Some s' ->
  Wedged s' /\ pq_turns s' = pq_turns s
  /\ (pq_returned s' = pq_returned s \/ pq_returned s' = pq_returned s ++ [Ok "queued"]).
Proof.
  intros [A M W] Ok. destruct mv as [channel c m|k env now|p]; cbn [session_move].
  - intros <-%(inj Some). split; [|by auto]. split; try done.
    intros k w. cbn [pq_workers]. intros [[<- <-]|[_ Hx]]%lookup_insert_Some; [done|by eapply W].
  - destruct (pq_workers s !! k) as [w|] eqn:E; [|done]. destruct (W k w E) as [L N].
    assert (forall pc q', live (at_pc pc w) = false -> q_has_active_run q' = true -> q_mode q' <> Interrupt ->
      Wedged (set_worker k (at_pc pc w) (set_queue q' s))) as G.
    { intros pc q' L' A' M'. split; try done. intros j x. cbn [set_worker set_queue pq_workers].
      intros [[<- <-]|[_ Hx]]%lookup_insert_Some; [done|by eapply W]. }
    cbn [mbind option_bind]. unfold live in L. unfold worker_step. destruct (wk_pc w) as [m|m|b|b|b|todo| | |c|c]; try done.
    + intros <-%(inj Some). split; [by apply G|by auto].
    + unfold enqueue. rewrite A. cbn [negb]. destruct (q_mode (pq_queue s)) eqn:Em; [done|..];
        destruct (push_keeps now m (pq_queue s)) as [K1 K2]; intros <-%(inj Some); (split; [|by auto]);
        (split; [change (q_has_active_run (push_pending now m (pq_queue s)).2 = true); congruence
               |change (q_mode (push_pending now m (pq_queue s)).2 <> Interrupt); congruence|]);
        intros j x; cbn [return_ offer set_queue pq_workers]; intros [_ Hx]%lookup_delete_Some; by eapply W.
  - intros <-%(inj Some). split; [by split|by auto].
Qed.

Lemma wedged_served s0 s : Wedged s0 -> Served of_raw session_id not_interrupting s0 s ->
  Wedged s /\ pq_turns s = pq_turns s0
  /\ exists n, pq_returned s = pq_returned s0 ++ repeat (Ok "queued") n.
Proof.
  intros I R. induction R as [|s s' mv _ IH Ok E]; [split; [done|]; split; [done|]; exists 0; by rewrite app_nil_r|].
  destruct IH as (I' & T & n & Rt). destruct (wedged_move mv s s' I' Ok E) as (I2 & T2 & Rt2).
  split; [done|]. split; [congruence|]. destruct Rt2 as [->| ->]; [by exists n|].
  exists (n + 1). rewrite Rt, repeat_app, app_assoc. done.
Qed.
End wedge.



(** * Examples *)

Definition quiet_turn (send : result unit string) : TurnEnv := {|
  te_model := "m"; te_bindings := None; te_skills := None; te_execute := fun _ _ => None; te_parse := fun _ => None;
  te_pretty := fun _ => ""; te_prompt := None; te_hatching_prompt := "hatch";
  te_agent := fun _ _ text => Ok ("re: " +:+ text, 1%Z); te_identity := None; te_workspace := false; te_tools := false;
  te_memory := false; te_flush := MemoryFlushConfig_default; te_flush_run := Err "no"; te_evolution := EvolutionConfig_default;
  te_evolution_init := false; te_evolution_run := false; te_saved := false; te_today := "2026-01-01";
  te_capture_enabled := true; te_capture_min := 3; te_capture_max := 5; te_stored := true;
  te_channels := Some ["slack"]; te_send := send |}.
Definition ps0 : PipeState := {|
  ps_counters := {| flush_tracker := ∅; session_usage_tokens := ∅; session_turn_counts := ∅; auto_capture_counts := ∅ |};
  ps_echo := echo_default; ps_evolution := EvolutionState_default; ps_hatching := false; ps_log := [] |}.
Definition no_meta : string -> gmap string string := fun _ => ∅.
Definition mode_of (m : QueueMode) : QueueRuntimeSettings := {|
  qr_mode := m; qr_collect_window_ms := 2000; qr_debounce_ms := 0; qr_cap := u64_max; qr_drop_policy := Summarize |}.
Definition arrive (m : QueueMode) (text : string) : SessionMove := SArrive "slack" (mode_of m) (demo_ctx text).
Definition go (n k : nat) : list SessionMove := repeat (SStep k (quiet_turn (Ok tt)) 0) n.
Definition fail_at (k : nat) : list SessionMove := [SStep k (quiet_turn (Err "down")) 0].
Definition serve_ (m : QueueMode) (mvs : list SessionMove) : option Session :=
  serve (H := ascii_case) no_meta "main" mvs (new_session m ps0).
Definition told (s : Session) : list (list string) * list (result string string) :=
  (map (fun t => map body_for_agent (tu_messages t)) (pq_turns s), pq_returned s).

(** The second message arrives while the first is answered, and is answered after it by the same call. *)
Definition followed : list SessionMove :=
  arrive Followup "a" :: go 6 0 ++ arrive Followup "b" :: go 2 1 ++ go 9 0.
Example followup_run : told <$> serve_ Followup followed = Some ([["a"]; ["b"]], [Ok "queued"; Ok "re: a"]).
Proof. vm_compute. done. Qed.

(** The reply to the first cannot be sent: the call fails, and the messages after it are only queued. *)
Definition failed : list SessionMove :=
  arrive Followup "a" :: go 5 0 ++ fail_at 0 ++ arrive Followup "b" :: go 2 1 ++ arrive Followup "c" :: go 2 2.
Example failed_run :
  told <$> serve_ Followup failed = Some ([["a"]], [Err "Send error: down"; Ok "queued"; Ok "queued"]).
Proof. vm_compute. done. Qed.

(** Collecting: [c] arrives in the window and starts a call of its own, so [d], which
    came later, is collected and answered before it. *)
Definition collected : list SessionMove :=
  arrive Collect "a" :: go 6 0 ++ arrive Collect "b" :: go 2 1 ++ go 2 0
  ++ arrive Collect "c" :: go 3 2 ++ arrive Collect "d" :: go 2 3 ++ go 8 0 ++ go 6 2.
Example collect_out_of_order :
  told <$> serve_ Collect collected
    = Some ([["a"]; ["b"; "d"]; ["c"]], [Ok "queued"; Ok "queued"; Ok "re: a"; Ok "re: c"]).
Proof. vm_compute. done. Qed.

(** Interrupting: the call under way is not stopped, the new message waits for it. *)
Definition interrupted_run : list SessionMove :=
  arrive Interrupt "a" :: go 5 0 ++ arrive Interrupt "b" :: go 3 1 ++ go 4 0 ++ go 6 1.
Example interrupt_waits :
  told <$> serve_ Interrupt interrupted_run = Some ([["a"]; ["b"]], [Ok "re: a"; Ok "re: b"]).
Proof. vm_compute. done. Qed.

(** Auto-capture counts turns: of a session's replies the third to the fifth are kept. *)
Example captured_turns :
  map (should_capture (quiet_turn (Ok tt))) [1; 2; 3; 4; 5; 6; 7]%Z
    = [false; false; true; true; true; false; false].
Proof. vm_compute. done. Qed.

Definition arrives_with (ok : QueueRuntimeSettings -> Prop) (mv : SessionMove) : Prop :=
  match mv with SArrive _ c _ => ok c | _ => True end.

Lemma serve_served `{UnicodeCase} of_raw id ok mvs s s' : Forall (arrives_with ok) mvs ->
  serve of_raw id mvs s = Some s' -> Served of_raw id ok s s'.
Proof.
  intros F. enough (forall s0, Served of_raw id ok s0 s -> serve of_raw id mvs s = Some s' -> Served of_raw id ok s0 s') as K
    by (apply K; constructor).
  revert s. induction F as [|mv mvs Ok _ IH]; intros s s0 R; cbn [serve]; [by intros <-%(inj Some)|].
  destruct (session_move _ _ mv s) as [s1|] eqn:E; [|done]. apply IH. by econstructor.
Qed.

Definition end_of (m : QueueMode) (mvs : list SessionMove) : Session := default (new_session m ps0) (serve_ m mvs).



